(** * Alchemy: the detection-and-transformation core of [src/lib/detector.ts]

    A shallow embedding of the type detector ([detect] and its eleven
    single-purpose detectors) and of the transformers the specification makes
    claims about ([prettyPrintJson], [minifyJson], [parseColor], [hslToRgb],
    [rgbToHsl], [colorToFormats], [textStats], [parseJwt]).

    Conventions.
    - A JavaScript string is the list of its UTF-16 code units, each a [Z].
    - A JavaScript number is a binary64 float ([PrimFloat.float]) wherever the
      code computes with fractions; integers that the code keeps below 2^53
      (digit strings of at most 13 digits, lengths, counts) are [Z], which is
      exact there.
    - A call that can throw returns a [completion]; [try { } catch { }] is
      [try_catch].
    - A regular expression literal is transcribed into the [re] syntax below
      and run by a derivative matcher; [RegExp.prototype.test] only needs the
      language of the pattern. *)

From Stdlib Require Import ZArith List Bool Lia String Ascii Floats.
Import ListNotations.
Open Scope Z_scope.
Set Warnings "-register-all,-inexact-float".

(* ================================================================== *)
(** * Part I: definitions *)
(* ================================================================== *)

(** ** Strings *)

Definition jsstring := list Z.

(** Code unit of an ASCII character. *)
Definition cu (a : ascii) : Z := Z.of_N (N_of_ascii a).

(** A string literal of the source, as code units. *)
Definition js (s : string) : jsstring := map cu (list_ascii_of_string s).

Definition jsstring_eqb (a b : jsstring) : bool :=
  if list_eq_dec Z.eq_dec a b then true else false.

Definition in_range (lo hi c : Z) : bool := (lo <=? c) && (c <=? hi).

Definition is_digit (c : Z) : bool := in_range 48 57 c.
Definition is_upper (c : Z) : bool := in_range 65 90 c.
Definition is_lower (c : Z) : bool := in_range 97 122 c.
Definition is_alpha (c : Z) : bool := is_upper c || is_lower c.
Definition is_alnum (c : Z) : bool := is_alpha c || is_digit c.
Definition is_hex (c : Z) : bool :=
  is_digit c || in_range 65 70 c || in_range 97 102 c.

(** [\s] of ECMAScript, which is also the set [String.prototype.trim] strips:
    WhiteSpace and LineTerminator code points. *)
Definition is_space (c : Z) : bool :=
  in_range 9 13 c || (c =? 32) || (c =? 160) || (c =? 5760)
  || in_range 8192 8202 c || (c =? 8232) || (c =? 8233) || (c =? 8239)
  || (c =? 8287) || (c =? 12288) || (c =? 65279).

(** [\w] *)
Definition is_word (c : Z) : bool := is_alnum c || (c =? 95).

(** [.] without the [s] flag: anything but a line terminator. *)
Definition is_dot (c : Z) : bool :=
  negb ((c =? 10) || (c =? 13) || (c =? 8232) || (c =? 8233)).

Fixpoint drop_space (s : jsstring) : jsstring :=
  match s with
  | c :: s' => if is_space c then drop_space s' else s
  | [] => []
  end.

(** [String.prototype.trim] *)
Definition trim (s : jsstring) : jsstring :=
  rev (drop_space (rev (drop_space s))).

(** [s.startsWith(p)] *)
Fixpoint startsWith (p s : jsstring) : bool :=
  match p, s with
  | [], _ => true
  | a :: p', b :: s' => (a =? b) && startsWith p' s'
  | _ :: _, [] => false
  end.

(** [s.endsWith(p)] *)
Definition endsWith (p s : jsstring) : bool := startsWith (rev p) (rev s).

(** [s.split(sep)] for a one-character separator [sep]. *)
Fixpoint split_on (sep : Z) (s : jsstring) : list jsstring :=
  match s with
  | [] => [[]]
  | c :: s' =>
      if c =? sep then [] :: split_on sep s'
      else match split_on sep s' with
           | p :: ps => (c :: p) :: ps
           | [] => [[c]]
           end
  end.

(** [s.replace(/a/g, b)] for single characters [a] and [b]. *)
Definition replace_char (a b : Z) (s : jsstring) : jsstring :=
  map (fun c => if c =? a then b else c) s.

(** [s.includes(c)] for a one-character needle. *)
Definition includes_char (c : Z) (s : jsstring) : bool := existsb (Z.eqb c) s.

(** [(s.match(/c/g) || []).length] for a single character [c]. *)
Definition count_char (c : Z) (s : jsstring) : Z :=
  Z.of_nat (List.length (filter (Z.eqb c) s)).

Definition len (s : jsstring) : Z := Z.of_nat (List.length s).

(** ** Regular expressions *)

Inductive re : Type :=
| Void
| Eps
| Cls (p : Z -> bool)
| Seq (r1 r2 : re)
| Alt (r1 r2 : re)
| Star (r : re).

(** The language of a pattern. *)
Inductive Match : re -> jsstring -> Prop :=
| M_eps : Match Eps []
| M_cls p c : p c = true -> Match (Cls p) [c]
| M_seq r1 r2 u v : Match r1 u -> Match r2 v -> Match (Seq r1 r2) (u ++ v)
| M_alt_l r1 r2 u : Match r1 u -> Match (Alt r1 r2) u
| M_alt_r r1 r2 u : Match r2 u -> Match (Alt r1 r2) u
| M_star_nil r : Match (Star r) []
| M_star_more r u v : Match r u -> Match (Star r) v -> Match (Star r) (u ++ v).

Fixpoint nullable (r : re) : bool :=
  match r with
  | Void => false
  | Eps => true
  | Cls _ => false
  | Seq a b => nullable a && nullable b
  | Alt a b => nullable a || nullable b
  | Star _ => true
  end.

Definition is_void (r : re) : bool := match r with Void => true | _ => false end.
Definition is_eps (r : re) : bool := match r with Eps => true | _ => false end.

(** Constructors that drop the dead branches a derivative leaves behind. *)
Definition mkSeq (a b : re) : re :=
  if is_void a || is_void b then Void
  else if is_eps a then b
  else Seq a b.

Definition mkAlt (a b : re) : re :=
  if is_void a then b else if is_void b then a else Alt a b.

Fixpoint deriv (c : Z) (r : re) : re :=
  match r with
  | Void => Void
  | Eps => Void
  | Cls p => if p c then Eps else Void
  | Seq a b =>
      if nullable a then mkAlt (mkSeq (deriv c a) b) (deriv c b)
      else mkSeq (deriv c a) b
  | Alt a b => mkAlt (deriv c a) (deriv c b)
  | Star a => mkSeq (deriv c a) (Star a)
  end.

Fixpoint matches (r : re) (s : jsstring) : bool :=
  match s with
  | [] => nullable r
  | c :: s' => matches (deriv c r) s'
  end.

(** Pattern syntax of the source, as abbreviations. *)
Definition Chr (a : ascii) : re := Cls (Z.eqb (cu a)).
Definition Any : re := Cls (fun _ => true).          (* [\s\S] *)
Definition Dot : re := Cls is_dot.                    (* . *)
Definition Opt (r : re) : re := Alt r Eps.            (* r? *)
Definition Plus (r : re) : re := Seq r (Star r).      (* r+ *)

(** r{n} *)
Fixpoint Rep (n : nat) (r : re) : re :=
  match n with
  | O => Eps
  | S O => r
  | S n' => Seq r (Rep n' r)
  end.

(** r{0,n} *)
Fixpoint UpTo (n : nat) (r : re) : re :=
  match n with
  | O => Eps
  | S n' => Opt (Seq r (UpTo n' r))
  end.

(** r{n,m} with m = n + k *)
Definition Between (n k : nat) (r : re) : re :=
  match n with
  | O => UpTo k r
  | _ => Seq (Rep n r) (UpTo k r)
  end.

(** r{n,} *)
Definition AtLeast (n : nat) (r : re) : re :=
  match n with
  | O => Star r
  | _ => Seq (Rep n r) (Star r)
  end.

(** A literal run of characters. *)
Fixpoint Lit_of (l : jsstring) : re :=
  match l with
  | [] => Eps
  | [c] => Cls (Z.eqb c)
  | c :: l' => Seq (Cls (Z.eqb c)) (Lit_of l')
  end.
Definition Lit (s : string) : re := Lit_of (js s).

(** Case folding of the [i] flag (no [u] flag): two code units match when
    their upper-case forms agree, and a non-ASCII unit never folds onto an
    ASCII one; for an ASCII letter that leaves exactly its two cases. *)
Definition fold_case (c : Z) : Z := if is_lower c then c - 32 else c.
Definition ChrI (a : ascii) : re := Cls (fun c => fold_case c =? fold_case (cu a)).
Fixpoint LitI_of (l : jsstring) : re :=
  match l with
  | [] => Eps
  | [c] => Cls (fun d => fold_case d =? fold_case c)
  | c :: l' => Seq (Cls (fun d => fold_case d =? fold_case c)) (LitI_of l')
  end.
Definition LitI (s : string) : re := LitI_of (js s).

Fixpoint seqs (l : list re) : re :=
  match l with
  | [] => Eps
  | [r] => r
  | r :: l' => Seq r (seqs l')
  end.

Fixpoint alts (l : list re) : re :=
  match l with
  | [] => Void
  | [r] => r
  | r :: l' => Alt r (alts l')
  end.

(** A pattern without [^] may start anywhere, one without [$] may stop
    anywhere. *)
Definition unanchored (r : re) : re := Seq (Star Any) (Seq r (Star Any)).

(** [RegExp.prototype.test] on a pattern given by its language. *)
Definition regex_test (r : re) (s : jsstring) : bool := matches r s.

(** ** Exceptions *)

Inductive js_error : Type :=
| SyntaxError            (* JSON.parse *)
| TypeError              (* property read on null, failed ToPrimitive *)
| URIError               (* decodeURIComponent *)
| InvalidCharacterError. (* atob *)

Inductive completion (A : Type) : Type :=
| Normal (a : A)
| Throw (e : js_error).
Arguments Normal {A} a.
Arguments Throw {A} e.

Definition bind {A B} (c : completion A) (k : A -> completion B) : completion B :=
  match c with
  | Normal a => k a
  | Throw e => Throw e
  end.

Notation "x <- c ;; k" := (bind c (fun x => k))
  (at level 61, c at next level, right associativity).
Notation "' p <- c ;; k" := (bind c (fun x => let p := x in k))
  (at level 61, p pattern, c at next level, right associativity).

(** [try { body } catch { handler }] *)
Definition try_catch {A} (body : completion A) (handler : completion A) : completion A :=
  match body with
  | Normal a => Normal a
  | Throw _ => handler
  end.

(** ** Numbers *)

(** The Number nearest to an integer (round to nearest, ties to even). *)
Definition Z_to_float (z : Z) : float :=
  SF2Prim (binary_normalize prec emax z 0 false).

(** The Number nearest to [m / d], for [m >= 0] and [d > 0]. *)
Definition ratio_to_float (neg : bool) (m d : Z) : float :=
  match m, d with
  | Zpos pm, Zpos pd =>
      SF2Prim (SFdiv prec emax (S754_finite neg pm 0) (S754_finite false pd 0))
  | _, _ => if neg then neg_zero else zero
  end.

(** The Number nearest to [m * 10^e], for [m >= 0]; the two early exits only
    spare the computation of an astronomically large power. *)
Definition decimal_to_float (neg : bool) (m e : Z) : float :=
  if m =? 0 then (if neg then neg_zero else zero)
  else if 400 <? e then (if neg then neg_infinity else infinity)
  else if 0 <=? e then
    SF2Prim (binary_normalize prec emax
               ((if neg then -1 else 1) * (m * 10 ^ e)) 0 neg)
  else if e + Z.log2 m <? -1200 then (if neg then neg_zero else zero)
  else ratio_to_float neg m (10 ^ (- e)).

(** [floor (x + 1/2)] computed exactly: [Math.round]. *)
Definition Math_round (x : float) : float :=
  match Prim2SF x with
  | S754_finite s m e =>
      if 0 <=? e then x
      else
        let n := (if s then -1 else 1) * Zpos m in
        let r := (2 * n + 2 ^ (- e)) / 2 ^ (1 - e) in
        if (r =? 0) && s then neg_zero else Z_to_float r
  | _ => x
  end.

(** The integer part of a finite Number, toward zero; [None] when not finite. *)
Definition float_trunc (x : float) : option Z :=
  match Prim2SF x with
  | S754_zero _ => Some 0
  | S754_finite s m e =>
      let a := if 0 <=? e then Zpos m * 2 ^ e else Zpos m / 2 ^ (- e) in
      Some (if s then - a else a)
  | _ => None
  end.

Definition Math_max2 (a b : float) : float :=
  if PrimFloat.is_nan a || PrimFloat.is_nan b then nan
  else if (a <? b)%float then b
  else if (b <? a)%float then a
  else if get_sign a then b else a.

Definition Math_min2 (a b : float) : float :=
  if PrimFloat.is_nan a || PrimFloat.is_nan b then nan
  else if (a <? b)%float then a
  else if (b <? a)%float then b
  else if get_sign a then a else b.

(** [Math.max(a, b, c)] and [Math.min(a, b, c)] *)
Definition Math_max (a b c : float) : float := Math_max2 (Math_max2 a b) c.
Definition Math_min (a b c : float) : float := Math_min2 (Math_min2 a b) c.

(** Digits of a non-negative integer in a radix, most significant first. *)
Fixpoint digits_fuel (fuel : nat) (radix n : Z) (acc : jsstring) : jsstring :=
  match fuel with
  | O => acc
  | S f =>
      let d := n mod radix in
      let c := if d <? 10 then 48 + d else 87 + d in
      if n <? radix then c :: acc else digits_fuel f radix (n / radix) (c :: acc)
  end.

Definition Z_digits (radix n : Z) : jsstring :=
  digits_fuel (S (Z.to_nat (Z.log2 n))) radix n [].

(** An integer in a radix, with its sign: [n.toString(radix)] for integral n. *)
Definition Z_toString (radix n : Z) : jsstring :=
  if n <? 0 then 45 :: Z_digits radix (- n) else Z_digits radix n.

(** Value of a digit character in a radix, if it is one. *)
Definition digit_value (radix c : Z) : option Z :=
  let v := if is_digit c then c - 48
           else if is_lower c then c - 87
           else if is_upper c then c - 55
           else 99 in
  if v <? radix then Some v else None.

(** Reads the longest run of digits of the radix: its value, how many digits
    it had, and what follows. *)
Fixpoint read_digits (radix : Z) (s : jsstring) (acc : Z) (n : Z)
  : Z * Z * jsstring :=
  match s with
  | c :: s' =>
      match digit_value radix c with
      | Some v => read_digits radix s' (acc * radix + v) (n + 1)
      | None => (acc, n, s)
      end
  | [] => (acc, n, [])
  end.

(** [parseInt(s, radix)] for radix 2, 8, 10 or 16: [None] is NaN, otherwise
    the mathematical value read (which the engine rounds to a Number). *)
Definition parseInt (s : jsstring) (radix : Z) : option Z :=
  let s1 := drop_space s in
  let '(neg, s2) :=
    match s1 with
    | c :: r =>
        if c =? 45 then (true, r) else if c =? 43 then (false, r) else (false, s1)
    | [] => (false, s1)
    end in
  let s3 :=
    if radix =? 16 then
      match s2 with
      | z :: x :: r =>
          if (z =? 48) && ((x =? 120) || (x =? 88)) then r else s2
      | _ => s2
      end
    else s2 in
  let '(v, n, _) := read_digits radix s3 0 0 in
  if n =? 0 then None else Some (if neg then - v else v).

(** ** [atob]: the forgiving base64 decoder of the platform *)

Definition b64_value (c : Z) : option Z :=
  if is_upper c then Some (c - 65)
  else if is_lower c then Some (c - 71)
  else if is_digit c then Some (c + 4)
  else if c =? 43 then Some 62
  else if c =? 47 then Some 63
  else None.

Fixpoint b64_values (s : jsstring) : option (list Z) :=
  match s with
  | [] => Some []
  | c :: s' =>
      match b64_value c, b64_values s' with
      | Some v, Some vs => Some (v :: vs)
      | _, _ => None
      end
  end.

(** Four sextets make three bytes; a final group of two or three sextets
    makes one or two bytes, its left-over bits discarded. *)
Fixpoint b64_bytes (v : list Z) : jsstring :=
  match v with
  | a :: b :: c :: d :: rest =>
      Z.lor (Z.shiftl a 2) (Z.shiftr b 4)
      :: Z.lor (Z.shiftl (Z.land b 15) 4) (Z.shiftr c 2)
      :: Z.lor (Z.shiftl (Z.land c 3) 6) d
      :: b64_bytes rest
  | [a; b; c] =>
      [Z.lor (Z.shiftl a 2) (Z.shiftr b 4);
       Z.lor (Z.shiftl (Z.land b 15) 4) (Z.shiftr c 2)]
  | [a; b] => [Z.lor (Z.shiftl a 2) (Z.shiftr b 4)]
  | _ => []
  end.

Definition is_ascii_ws (c : Z) : bool :=
  (c =? 9) || (c =? 10) || (c =? 12) || (c =? 13) || (c =? 32).

(** Drops one or two trailing [=] of a string whose length is a multiple
    of four. *)
Definition strip_padding (s : jsstring) : jsstring :=
  if (len s) mod 4 =? 0 then
    match rev s with
    | 61 :: 61 :: r => rev r
    | 61 :: r => rev r
    | _ => s
    end
  else s.

Definition atob (s : jsstring) : completion jsstring :=
  let data := strip_padding (filter (fun c => negb (is_ascii_ws c)) s) in
  if (len data) mod 4 =? 1 then Throw InvalidCharacterError
  else match b64_values data with
       | Some v => Normal (b64_bytes v)
       | None => Throw InvalidCharacterError
       end.

(** ** [decodeURIComponent] *)

Definition hex_octet (h1 h2 : Z) : option Z :=
  match digit_value 16 h1, digit_value 16 h2 with
  | Some a, Some b => Some (16 * a + b)
  | _, _ => None
  end.

(** The code point of a well-formed UTF-8 sequence of two to four octets. *)
Definition utf8_code_point (octets : list Z) : option Z :=
  let cont b := in_range 128 191 b in
  let low b := Z.land b 63 in
  match octets with
  | [a; b] =>
      if in_range 194 223 a && cont b
      then Some (Z.lor (Z.shiftl (Z.land a 31) 6) (low b)) else None
  | [a; b; c] =>
      let v := Z.lor (Z.shiftl (Z.land a 15) 12) (Z.lor (Z.shiftl (low b) 6) (low c)) in
      if in_range 224 239 a && cont b && cont c
         && (2048 <=? v) && negb (in_range 55296 57343 v)
      then Some v else None
  | [a; b; c; d] =>
      let v := Z.lor (Z.shiftl (Z.land a 7) 18)
                 (Z.lor (Z.shiftl (low b) 12) (Z.lor (Z.shiftl (low c) 6) (low d))) in
      if in_range 240 244 a && cont b && cont c && cont d
         && (65536 <=? v) && (v <=? 1114111)
      then Some v else None
  | _ => None
  end.

Definition utf16_encode (v : Z) : jsstring :=
  if v <? 65536 then [v]
  else [55296 + Z.shiftr (v - 65536) 10; 56320 + Z.land (v - 65536) 1023].

(** How many octets the sequence led by [b] has: the number of leading one
    bits of the octet. *)
Definition utf8_length (b : Z) : Z :=
  if b <? 128 then 0
  else if b <? 192 then 1
  else if b <? 224 then 2
  else if b <? 240 then 3
  else if b <? 248 then 4
  else 5.

(** The decoding loop. [pending] is [Some (j, octets)] while [j] more escaped
    continuation octets are due. *)
Fixpoint uri_decode (s : jsstring) (pending : option (nat * list Z))
  : completion jsstring :=
  match s with
  | [] => match pending with None => Normal [] | Some _ => Throw URIError end
  | c :: s' =>
      if c =? 37 then
        match s' with
        | h1 :: h2 :: rest =>
            match hex_octet h1 h2 with
            | None => Throw URIError
            | Some b =>
                match pending with
                | None =>
                    let n := utf8_length b in
                    if n =? 0 then r <- uri_decode rest None ;; Normal (b :: r)
                    else if (n =? 1) || (4 <? n) then Throw URIError
                    else uri_decode rest (Some (Z.to_nat (n - 1), [b]))
                | Some (j, octets) =>
                    match j with
                    | S (S j') => uri_decode rest (Some (S j', octets ++ [b]))
                    | _ =>
                        match utf8_code_point (octets ++ [b]) with
                        | Some v =>
                            r <- uri_decode rest None ;;
                            Normal (utf16_encode v ++ r)
                        | None => Throw URIError
                        end
                    end
                end
            end
        | _ => Throw URIError
        end
      else
        match pending with
        | None => r <- uri_decode s' None ;; Normal (c :: r)
        | Some _ => Throw URIError
        end
  end.

Definition decodeURIComponent (s : jsstring) : completion jsstring :=
  uri_decode s None.

(** ** JSON values *)

(** What [JSON.parse] builds. An object is the list of its own properties in
    enumeration order: array-index keys first, ascending, then the other
    keys in order of creation. *)
Inductive JValue : Type :=
| JNull
| JBool (b : bool)
| JNum (n : float)
| JStr (s : jsstring)
| JArr (l : list JValue)
| JObj (o : list (jsstring * JValue)).

(** The array index a property key denotes, if any: a canonical decimal
    below 2^32 - 1. *)
Definition array_index (k : jsstring) : option Z :=
  match k with
  | [] => None
  | c :: k' =>
      if forallb is_digit k && ((negb (c =? 48)) || (len k =? 1)) && (len k <=? 10) then
        let '(v, _, _) := read_digits 10 k 0 0 in
        if v <? 4294967295 then Some v else None
      else None
  end.

(** [CreateDataProperty]: a present key keeps its place and takes the new
    value, a new key goes where the enumeration order puts it. *)
Fixpoint obj_define (k : jsstring) (v : JValue) (o : list (jsstring * JValue))
  : list (jsstring * JValue) :=
  match o with
  | [] => [(k, v)]
  | (k', v') :: o' =>
      if jsstring_eqb k k' then (k, v) :: o'
      else
        match array_index k, array_index k' with
        | Some i, Some i' =>
            if i <? i' then (k, v) :: o else (k', v') :: obj_define k v o'
        | Some _, None => (k, v) :: o
        | None, _ => (k', v') :: obj_define k v o'
        end
  end.

Fixpoint obj_get (k : jsstring) (o : list (jsstring * JValue)) : option JValue :=
  match o with
  | [] => None
  | (k', v) :: o' => if jsstring_eqb k k' then Some v else obj_get k o'
  end.

(** [v.k] for a key that no prototype defines ([alg], [typ], [exp], [iat]):
    [None] is [undefined]; reading a property of [null] throws. *)
Definition get_prop (v : JValue) (k : jsstring) : completion (option JValue) :=
  match v with
  | JNull => Throw TypeError
  | JObj o => Normal (obj_get k o)
  | _ => Normal None
  end.

(** [ToBoolean] of a property that may be [undefined]. *)
Definition truthy (v : option JValue) : bool :=
  match v with
  | None => false
  | Some JNull => false
  | Some (JBool b) => b
  | Some (JNum n) => negb (PrimFloat.is_nan n || PrimFloat.is_zero n)
  | Some (JStr s) => negb (len s =? 0)
  | Some (JArr _) => true
  | Some (JObj _) => true
  end.

(** ** [JSON.parse] *)

Definition json_ws (c : Z) : bool :=
  (c =? 9) || (c =? 10) || (c =? 13) || (c =? 32).

Fixpoint skip_ws (s : jsstring) : jsstring :=
  match s with
  | c :: s' => if json_ws c then skip_ws s' else s
  | [] => []
  end.

Definition simple_escape (e : Z) : option Z :=
  if e =? 34 then Some 34          (* quotation mark *)
  else if e =? 92 then Some 92     (* reverse solidus *)
  else if e =? 47 then Some 47     (* solidus *)
  else if e =? 98 then Some 8      (* b: backspace *)
  else if e =? 102 then Some 12    (* f: form feed *)
  else if e =? 110 then Some 10    (* n: line feed *)
  else if e =? 114 then Some 13    (* r: carriage return *)
  else if e =? 116 then Some 9     (* t: tab *)
  else None.

Definition hex4 (a b c d : Z) : option Z :=
  match hex_octet a b, hex_octet c d with
  | Some x, Some y => Some (256 * x + y)
  | _, _ => None
  end.

Definition cons_fst (c : Z) (r : option (jsstring * jsstring))
  : option (jsstring * jsstring) :=
  match r with
  | Some (str, rest) => Some (c :: str, rest)
  | None => None
  end.

(** The characters of a string literal after its opening quote, up to and
    including the closing quote. *)
Fixpoint parse_string (s : jsstring) : option (jsstring * jsstring) :=
  match s with
  | [] => None
  | c :: s' =>
      if c =? 34 then Some ([], s')
      else if c =? 92 then
        match s' with
        | [] => None
        | e :: s'' =>
            if e =? 117 then
              match s'' with
              | h1 :: h2 :: h3 :: h4 :: rest =>
                  match hex4 h1 h2 h3 h4 with
                  | Some v => cons_fst v (parse_string rest)
                  | None => None
                  end
              | _ => None
              end
            else
              match simple_escape e with
              | Some v => cons_fst v (parse_string s'')
              | None => None
              end
        end
      else if c <? 32 then None
      else cons_fst c (parse_string s')
  end.

(** An optional sign: whether it is a minus, and what follows it. *)
Definition read_sign (plus : bool) (s : jsstring) : bool * jsstring :=
  match s with
  | c :: r =>
      if c =? 45 then (true, r)
      else if plus && (c =? 43) then (false, r)
      else (false, s)
  | [] => (false, s)
  end.

(** An optional exponent part: [e] or [E], an optional sign, digits. With
    [strict] a dangling [e] is an error, otherwise it is left unread. *)
Definition read_exponent (strict : bool) (s : jsstring) : option (Z * jsstring) :=
  match s with
  | c :: r =>
      if (c =? 101) || (c =? 69) then
        let '(neg, r1) := read_sign true r in
        let '(ev, n, r2) := read_digits 10 r1 0 0 in
        if n =? 0 then (if strict then None else Some (0, s))
        else Some (if neg then - ev else ev, r2)
      else Some (0, s)
  | [] => Some (0, [])
  end.

(** The integer part of a JSON number: a zero, or digits that do not start
    with a zero. *)
Definition read_int (s : jsstring) : option (Z * jsstring) :=
  match s with
  | c :: r =>
      if is_digit c then
        if c =? 48 then Some (0, r)
        else let '(ip, _, s2) := read_digits 10 s 0 0 in Some (ip, s2)
      else None
  | [] => None
  end.

(** The optional fraction of a JSON number, a point and at least one digit,
    joined to the integer part [ip]: the digits read so far as one integer,
    and how many of them are after the point. *)
Definition read_fraction (ip : Z) (s : jsstring) : option (Z * Z * jsstring) :=
  match s with
  | c :: r =>
      if c =? 46 then
        let '(fp, n, s3) := read_digits 10 r 0 0 in
        if n =? 0 then None else Some (ip * 10 ^ n + fp, n, s3)
      else Some (ip, 0, s)
  | [] => Some (ip, 0, [])
  end.

(** A JSON number: an optional minus sign, the integer part, an optional
    fraction, an optional exponent. *)
Definition parse_number (s : jsstring) : option (float * jsstring) :=
  let '(neg, s1) := read_sign false s in
  match read_int s1 with
  | Some (ip, s2) =>
      match read_fraction ip s2 with
      | Some (m, n, s3) =>
          match read_exponent true s3 with
          | Some (ev, s4) => Some (decimal_to_float neg m (ev - n), s4)
          | None => None
          end
      | None => None
      end
  | None => None
  end.

Fixpoint parse_value (fuel : nat) (s : jsstring) : option (JValue * jsstring) :=
  match fuel with
  | O => None
  | S f =>
      match skip_ws s with
      | [] => None
      | c :: r =>
          if c =? 123 then                                   (* { *)
            match skip_ws r with
            | d :: r' =>
                if d =? 125 then Some (JObj [], r') else parse_members f r []
            | [] => parse_members f r []
            end
          else if c =? 91 then                               (* [ *)
            match skip_ws r with
            | d :: r' =>
                if d =? 93 then Some (JArr [], r') else parse_elements f r []
            | [] => parse_elements f r []
            end
          else if c =? 34 then
            match parse_string r with
            | Some (str, r') => Some (JStr str, r')
            | None => None
            end
          else if startsWith (js "true") (c :: r) then
            Some (JBool true, skipn 4 (c :: r))
          else if startsWith (js "false") (c :: r) then
            Some (JBool false, skipn 5 (c :: r))
          else if startsWith (js "null") (c :: r) then
            Some (JNull, skipn 4 (c :: r))
          else
            match parse_number (c :: r) with
            | Some (n, r') => Some (JNum n, r')
            | None => None
            end
      end
  end

with parse_elements (fuel : nat) (s : jsstring) (acc : list JValue)
  : option (JValue * jsstring) :=
  match fuel with
  | O => None
  | S f =>
      match parse_value f s with
      | Some (v, r) =>
          match skip_ws r with
          | c :: r' =>
              if c =? 44 then parse_elements f r' (v :: acc)
              else if c =? 93 then Some (JArr (rev (v :: acc)), r')
              else None
          | [] => None
          end
      | None => None
      end
  end

with parse_members (fuel : nat) (s : jsstring) (acc : list (jsstring * JValue))
  : option (JValue * jsstring) :=
  match fuel with
  | O => None
  | S f =>
      match skip_ws s with
      | q :: r =>
          if q =? 34 then
            match parse_string r with
            | Some (k, r1) =>
                match skip_ws r1 with
                | c :: r2 =>
                    if c =? 58 then
                      match parse_value f r2 with
                      | Some (v, r3) =>
                          match skip_ws r3 with
                          | d :: r4 =>
                              if d =? 44
                              then parse_members f r4 (obj_define k v acc)
                              else if d =? 125
                              then Some (JObj (obj_define k v acc), r4)
                              else None
                          | [] => None
                          end
                      | None => None
                      end
                    else None
                | [] => None
                end
            | None => None
            end
          else None
      | [] => None
      end
  end.

(** [JSON.parse(text)]; a text that is not JSON throws a SyntaxError. *)
Definition JSON_parse (text : jsstring) : completion JValue :=
  match parse_value (S (List.length text)) text with
  | Some (v, r) =>
      match skip_ws r with
      | [] => Normal v
      | _ => Throw SyntaxError
      end
  | None => Throw SyntaxError
  end.

(** ** Numbers and strings *)

(** [num / den < 10^n] *)
Definition below_pow10 (num den n : Z) : bool :=
  if 0 <=? n then num <? den * 10 ^ n else num * 10 ^ (- n) <? den.

Fixpoint adjust_up (fuel : nat) (num den n : Z) : Z :=
  match fuel with
  | O => n
  | S f => if below_pow10 num den n then n else adjust_up f num den (n + 1)
  end.

Fixpoint adjust_down (fuel : nat) (num den n : Z) : Z :=
  match fuel with
  | O => n
  | S f =>
      if below_pow10 num den (n - 1) then adjust_down f num den (n - 1) else n
  end.

(** The [n] with [10^(n-1) <= num / den < 10^n], from an estimate by bit
    lengths that is off by at most two. *)
Definition decimal_exponent (num den : Z) : Z :=
  let n0 := (Z.log2 num - Z.log2 den) * 30103 / 100000 in
  adjust_down 6 num den (adjust_up 6 num den n0).

(** [floor (num / den / 10^e)] *)
Definition scaled_floor (num den e : Z) : Z :=
  if 0 <=? e then num / (den * 10 ^ e) else num * 10 ^ (- e) / den.

(** The [k]-digit decimals [s * 10^(n-k)] next to [num / den] that round to
    [x]: the nearer one if both do, the even one on a tie. *)
Definition pick_digits (x : float) (num den n k : Z) : option (Z * Z) :=
  let e := n - k in
  let lo := scaled_floor num den e in
  let hi := lo + 1 in
  let ok s := PrimFloat.eqb (decimal_to_float false s e) x in
  let norm s := if s =? 10 ^ k then (s / 10, n + 1) else (s, n) in
  if ok lo && ok hi then
    let c := if 0 <=? e
             then Z.compare (2 * num) ((lo + hi) * 10 ^ e * den)
             else Z.compare (2 * num * 10 ^ (- e)) ((lo + hi) * den) in
    Some (norm (match c with
                | Lt => lo
                | Gt => hi
                | Eq => if Z.even lo then lo else hi
                end))
  else if ok lo then Some (norm lo)
  else if ok hi then Some (norm hi)
  else None.

(** The shortest decimal that reads back as [x]: its digits [s], how many
    they are, and the exponent [n] of Number::toString. *)
Fixpoint shortest_digits (fuel : nat) (x : float) (num den n k : Z) : Z * Z * Z :=
  match fuel with
  | O => (scaled_floor num den (n - k), k, n)
  | S f =>
      match pick_digits x num den n k with
      | Some (s, n') => (s, k, n')
      | None => shortest_digits f x num den n (k + 1)
      end
  end.

Definition zeros (n : Z) : jsstring := repeat 48 (Z.to_nat n).

(** Number::toString in radix 10. *)
Definition Number_toString (x : float) : jsstring :=
  match Prim2SF x with
  | S754_nan => js "NaN"
  | S754_zero _ => js "0"
  | S754_infinity neg => if neg then js "-Infinity" else js "Infinity"
  | S754_finite neg m e =>
      let num := if 0 <=? e then Zpos m * 2 ^ e else Zpos m in
      let den := if 0 <=? e then 1 else 2 ^ (- e) in
      let n0 := decimal_exponent num den in
      let '(s, k, n) := shortest_digits 17 (abs x) num den n0 1 in
      let ds := Z_digits 10 s in
      let body :=
        if (k <=? n) && (n <=? 21) then ds ++ zeros (n - k)
        else if (0 <? n) && (n <=? 21) then
          firstn (Z.to_nat n) ds ++ 46 :: skipn (Z.to_nat n) ds
        else if (-6 <? n) && (n <=? 0) then 48 :: 46 :: zeros (- n) ++ ds
        else
          let ex := n - 1 in
          let mant := if k =? 1 then ds else firstn 1 ds ++ 46 :: skipn 1 ds in
          mant ++ 101 :: (if ex <? 0 then 45 else 43) :: Z_digits 10 (Z.abs ex) in
      if neg then 45 :: body else body
  end.

(** [x.toString(16)] for an integral [x] (the colour channels are). *)
Definition Number_toString16 (x : float) : jsstring :=
  match float_trunc x with
  | Some z => Z_toString 16 z
  | None => Number_toString x
  end.

(** [s.padStart(2, '0')] *)
Definition padStart2 (s : jsstring) : jsstring :=
  match s with
  | [] => [48; 48]
  | [c] => [48; c]
  | _ => s
  end.

(** The longest prefix that is a StrDecimalLiteral, with its value: an
    optional sign, then [Infinity], or digits with an optional fraction, or
    a fraction alone, then an optional exponent. *)
Definition read_decimal_literal (s : jsstring) : option (float * jsstring) :=
  let '(neg, s1) :=
    match s with
    | c :: r =>
        if c =? 45 then (true, r) else if c =? 43 then (false, r) else (false, s)
    | [] => (false, s)
    end in
  if startsWith (js "Infinity") s1 then
    Some (if neg then neg_infinity else infinity, skipn 8 s1)
  else
    let '(ip, n1, s2) := read_digits 10 s1 0 0 in
    let '(m, n2, s3) :=
      match s2 with
      | c :: r =>
          if c =? 46 then
            let '(fp, n2, s3) := read_digits 10 r 0 0 in
            if (n1 =? 0) && (n2 =? 0) then (0, -1, s2)
            else (ip * 10 ^ n2 + fp, n2, s3)
          else (ip, 0, s2)
      | [] => (ip, 0, s2)
      end in
    if (n2 <? 0) || ((n1 =? 0) && (n2 =? 0)) then None
    else
      match read_exponent false s3 with
      | Some (ev, s4) => Some (decimal_to_float neg m (ev - n2), s4)
      | None => None
      end.

(** [parseFloat(s)] *)
Definition parseFloat (s : jsstring) : float :=
  match read_decimal_literal (drop_space s) with
  | Some (v, _) => v
  | None => nan
  end.

(** StringToNumber: the value of a whole string as a numeric literal. *)
Definition StringToNumber (s : jsstring) : float :=
  let t := trim s in
  match t with
  | [] => zero
  | z :: x :: r =>
      let radix :=
        if negb (z =? 48) then 0
        else if (x =? 120) || (x =? 88) then 16
        else if (x =? 111) || (x =? 79) then 8
        else if (x =? 98) || (x =? 66) then 2
        else 0 in
      if radix =? 0 then
        match read_decimal_literal t with
        | Some (v, []) => v
        | _ => nan
        end
      else
        match read_digits radix r 0 0 with
        | (v, n, []) => if n =? 0 then nan else Z_to_float v
        | _ => nan
        end
  | _ =>
      match read_decimal_literal t with
      | Some (v, []) => v
      | _ => nan
      end
  end.

(** ** The detector: types and patterns *)

Inductive DetectedType : Type :=
| json | html | color | timestamp | css | javascript | text | image
| base64 | url | jwt | number | uuid.

(** The [parsed] side artifact, one shape per detector that produces one. *)
Inductive ParsedValue : Type :=
| ParsedJwt (header payload : JValue) (signature : jsstring)
| ParsedString (decoded : jsstring)
| ParsedNumber (base : Z) (value : float)
| ParsedJson (v : JValue)
| ParsedEpoch (ms : float).

Record DetectionResult : Type := mkResult {
  type : DetectedType;
  confidence : float;
  raw : jsstring;
  parsed : option ParsedValue
}.

Arguments Chr a%_char.
Arguments ChrI a%_char.
Arguments Lit s%_string.
Arguments LitI s%_string.

(** A character class listed by its members. *)
Definition one_of (members : string) (c : Z) : bool :=
  existsb (Z.eqb c) (js members).
Arguments one_of members%_string c.

Definition hexdigit : re := Cls is_hex.
Definition digit : re := Cls is_digit.
Definition space : re := Cls is_space.
Definition word : re := Cls is_word.

(** [[A-Za-z0-9_-]] *)
Definition is_b64url (c : Z) : bool := is_alnum c || one_of "_-" c.
(** [[A-Za-z0-9+/=]] *)
Definition is_b64std (c : Z) : bool := is_alnum c || one_of "+/=" c.

(* /^#([A-Fa-f0-9]{3}|[A-Fa-f0-9]{6}|[A-Fa-f0-9]{8})$/ *)
Definition HEX_COLOR_REGEX : re :=
  Seq (Chr "#") (alts [Rep 3 hexdigit; Rep 6 hexdigit; Rep 8 hexdigit]).

(** The optional fourth argument of [rgb()] and [hsl()]: a comma, spaces,
    and a run of digits and points. *)
Definition alpha_part : re :=
  Opt (seqs [Chr ","; Star space; Plus (Cls (fun c => is_digit c || one_of "." c))]).

(* /^rgba?\s*\(\s*(\d{1,3})\s*,\s*(\d{1,3})\s*,\s*(\d{1,3})\s*(,\s*[\d.]+)?\s*\)$/i *)
Definition RGB_COLOR_REGEX : re :=
  seqs [LitI "rgb"; Opt (ChrI "a"); Star space; Chr "("; Star space;
        Between 1 2 digit; Star space; Chr ","; Star space;
        Between 1 2 digit; Star space; Chr ","; Star space;
        Between 1 2 digit; Star space; alpha_part; Star space; Chr ")"].

(* /^hsla?\s*\(\s*(\d{1,3})\s*,\s*(\d{1,3})%?\s*,\s*(\d{1,3})%?\s*(,\s*[\d.]+)?\s*\)$/i *)
Definition HSL_COLOR_REGEX : re :=
  seqs [LitI "hsl"; Opt (ChrI "a"); Star space; Chr "("; Star space;
        Between 1 2 digit; Star space; Chr ","; Star space;
        Between 1 2 digit; Opt (Chr "%"); Star space; Chr ","; Star space;
        Between 1 2 digit; Opt (Chr "%"); Star space; alpha_part; Star space;
        Chr ")"].

(* /<\/?[a-z][\s\S]*?>/i *)
Definition HTML_TAG_REGEX : re :=
  unanchored (seqs [Chr "<"; Opt (Chr "/"); Cls is_alpha; Star Any; Chr ">"]).

(* /^[\s\S]*<[a-z][\s\S]*>[\s\S]*$/i *)
Definition FULL_HTML_REGEX : re :=
  seqs [Star Any; Chr "<"; Cls is_alpha; Star Any; Chr ">"; Star Any].

(* /^\d{10,13}$/ *)
Definition EPOCH_REGEX : re := Between 10 3 digit.

(* /^[A-Za-z0-9+/=]{32,}$/ *)
Definition BASE64_REGEX : re := AtLeast 32 (Cls is_b64std).

(* /^[A-Za-z0-9_-]{32,}=*$/ *)
Definition BASE64_URL_SAFE_REGEX : re :=
  Seq (AtLeast 32 (Cls is_b64url)) (Star (Chr "=")).

(* /%[0-9A-Fa-f]{2}/ *)
Definition URL_ENCODED_REGEX : re := unanchored (Seq (Chr "%") (Rep 2 hexdigit)).

(* /^[A-Za-z0-9_-]+\.[A-Za-z0-9_-]+\.[A-Za-z0-9_-]*$/ *)
Definition JWT_REGEX : re :=
  seqs [Plus (Cls is_b64url); Chr "."; Plus (Cls is_b64url); Chr ".";
        Star (Cls is_b64url)].

(* /^[0-9a-f]{8}-[0-9a-f]{4}-[0-9a-f]{4}-[0-9a-f]{4}-[0-9a-f]{12}$/i *)
Definition UUID_REGEX : re :=
  seqs [Rep 8 hexdigit; Chr "-"; Rep 4 hexdigit; Chr "-"; Rep 4 hexdigit;
        Chr "-"; Rep 4 hexdigit; Chr "-"; Rep 12 hexdigit].

(* /^0x[0-9A-Fa-f]+$/   /^0b[01]+$/   /^0o[0-7]+$/ *)
Definition HEX_NUMBER_REGEX : re := Seq (Lit "0x") (Plus hexdigit).
Definition BINARY_REGEX : re := Seq (Lit "0b") (Plus (Cls (one_of "01"))).
Definition OCTAL_REGEX : re := Seq (Lit "0o") (Plus (Cls (in_range 48 55))).

Definition not_newline (c : Z) : bool := negb (c =? 10).

(* /^[^\n]{200,}.*[;{}()].*$/ *)
Definition MINIFIED_JS_REGEX : re :=
  seqs [AtLeast 200 (Cls not_newline); Star Dot; Cls (one_of ";{}()"); Star Dot].

(* /^[^\n]{200,}.*[{}:;].*$/ *)
Definition MINIFIED_CSS_REGEX : re :=
  seqs [AtLeast 200 (Cls not_newline); Star Dot; Cls (one_of "{}:;"); Star Dot].

Definition result (t : DetectedType) (c : float) (input : jsstring)
  (p : option ParsedValue) : completion (option DetectionResult) :=
  Normal (Some (mkResult t c input p)).

Definition null : completion (option DetectionResult) := Normal None.

(** The base64url alphabet mapped onto the standard one:
    [.replace(/-/g, '+').replace(/_/g, '/')] *)
Definition from_base64url (s : jsstring) : jsstring :=
  replace_char 95 47 (replace_char 45 43 s).

(** ** The eleven detectors *)

Definition detectJwt (input : jsstring) : completion (option DetectionResult) :=
  let trimmed := trim input in
  if negb (regex_test JWT_REGEX trimmed) then null
  else
    try_catch
      (match split_on 46 trimmed with
       | [p0; p1; p2] =>
           h <- atob (from_base64url p0) ;;
           header <- JSON_parse h ;;
           p <- atob (from_base64url p1) ;;
           payload <- JSON_parse p ;;
           alg <- get_prop header (js "alg") ;;
           ok <- (if truthy alg then Normal true
                  else typ <- get_prop header (js "typ") ;; Normal (truthy typ)) ;;
           if ok : bool
           then result jwt 1 input (Some (ParsedJwt header payload p2))
           else null
       | _ => null
       end)
      null.

Definition detectUuid (input : jsstring) : completion (option DetectionResult) :=
  let trimmed := trim input in
  if regex_test UUID_REGEX trimmed then result uuid 1 input None
  else null.

(** Whether a decoded character counts as printable. *)
Definition printable (code : Z) : bool :=
  ((32 <=? code) && (code <=? 126)) || (code =? 10) || (code =? 13) || (code =? 9).

Definition detectBase64 (input : jsstring) : completion (option DetectionResult) :=
  let trimmed := trim input in
  if len trimmed <? 32 then null
  else if negb (regex_test BASE64_REGEX trimmed)
          && negb (regex_test BASE64_URL_SAFE_REGEX trimmed) then null
  else
    try_catch
      (decoded <- atob (from_base64url trimmed) ;;
       let n := len (filter printable decoded) in
       if (0.8 <? Z_to_float n / Z_to_float (len decoded))%float
       then result base64 0.85 input (Some (ParsedString decoded))
       else null)
      null.

Definition detectUrlEncoded (input : jsstring) : completion (option DetectionResult) :=
  let trimmed := trim input in
  if negb (regex_test URL_ENCODED_REGEX trimmed) then null
  else
    let percentCount := count_char 37 trimmed in
    if percentCount <? 2 then null
    else
      try_catch
        (decoded <- decodeURIComponent trimmed ;;
         if negb (jsstring_eqb decoded trimmed)
         then result url 0.9 input (Some (ParsedString decoded))
         else null)
        null.

(** A [parseInt] result as a Number. *)
Definition int_number (v : option Z) : float :=
  match v with
  | Some z => Z_to_float z
  | None => nan
  end.

Definition detectNumber (input : jsstring) : completion (option DetectionResult) :=
  let trimmed := trim input in
  if regex_test HEX_NUMBER_REGEX trimmed then
    result number 1 input (Some (ParsedNumber 16 (int_number (parseInt trimmed 16))))
  else if regex_test BINARY_REGEX trimmed then
    result number 1 input
      (Some (ParsedNumber 2 (int_number (parseInt (skipn 2 trimmed) 2))))
  else if regex_test OCTAL_REGEX trimmed then
    result number 1 input
      (Some (ParsedNumber 8 (int_number (parseInt (skipn 2 trimmed) 8))))
  else null.

Definition detectJson (input : jsstring) : completion (option DetectionResult) :=
  let trimmed := trim input in
  if negb (startsWith (js "{") trimmed) && negb (startsWith (js "[") trimmed)
  then null
  else
    try_catch
      (v <- JSON_parse trimmed ;; result json 1 input (Some (ParsedJson v)))
      null.

Definition detectColor (input : jsstring) : completion (option DetectionResult) :=
  let trimmed := trim input in
  if regex_test HEX_COLOR_REGEX trimmed then result color 1 input None
  else if regex_test RGB_COLOR_REGEX trimmed then result color 1 input None
  else if regex_test HSL_COLOR_REGEX trimmed then result color 1 input None
  else null.

(** The digit string is at most 13 digits long, so [num] and [num * 1000]
    are integers below 2^53 and the comparisons are exact. *)
Definition detectTimestamp (input : jsstring) : completion (option DetectionResult) :=
  let trimmed := trim input in
  if regex_test EPOCH_REGEX trimmed then
    match parseInt trimmed 10 with
    | Some num =>
        let isSeconds := (len trimmed =? 10) && (0 <=? num) && (num <=? 4102444800) in
        let isMillis := (len trimmed =? 13) && (0 <=? num) && (num <=? 4102444800000) in
        if isSeconds || isMillis then
          result timestamp 0.9 input
            (Some (ParsedEpoch (Z_to_float (if isMillis then num else num * 1000))))
        else null
    | None => null
    end
  else null.

Definition count_true (l : list bool) : Z :=
  Z.of_nat (List.length (filter (fun b => b) l)).

Definition detectHtml (input : jsstring) : completion (option DetectionResult) :=
  let trimmed := trim input in
  if negb (regex_test HTML_TAG_REGEX trimmed) then null
  else
    let hasDoctype := regex_test (unanchored (LitI "<!doctype")) trimmed in
    let hasHtmlTag := regex_test (unanchored (LitI "<html")) trimmed in
    let hasBodyTag := regex_test (unanchored (LitI "<body")) trimmed in
    let hasDivTag := regex_test (unanchored (LitI "<div")) trimmed in
    let hasParagraph :=
      regex_test (unanchored (Seq (LitI "<p") (Cls (fun c => is_space c || one_of ">" c))))
        trimmed in
    let hasSpan := regex_test (unanchored (LitI "<span")) trimmed in
    let hasHeading :=
      regex_test (unanchored (Seq (LitI "<h") (Cls (in_range 49 54)))) trimmed in
    let indicators :=
      [hasDoctype; hasHtmlTag; hasBodyTag; hasDivTag; hasParagraph; hasSpan; hasHeading] in
    let score := count_true indicators in
    if (0 <? score) || regex_test FULL_HTML_REGEX trimmed then
      result html (Math_min2 (0.5 + Z_to_float score * 0.1) 1)%float input None
    else null.

Definition detectCss (input : jsstring) : completion (option DetectionResult) :=
  let trimmed := trim input in
  let hasCssSelectors :=          (* /[.#]?[a-z_-]+\s*\{/i *)
    regex_test
      (unanchored (seqs [Opt (Cls (one_of ".#"));
                         Plus (Cls (fun c => is_alpha c || one_of "_-" c));
                         Star space; Chr "{"]))
      trimmed in
  let hasCssProperties :=         (* /:\s*[^;]+;/ *)
    regex_test
      (unanchored (seqs [Chr ":"; Star space;
                         Plus (Cls (fun c => negb (one_of ";" c))); Chr ";"]))
      trimmed in
  let isMinified :=
    regex_test MINIFIED_CSS_REGEX trimmed && negb (includes_char 10 trimmed) in
  if hasCssSelectors && hasCssProperties then
    result css (if isMinified then 0.9 else 0.7)%float input None
  else null.

Definition detectJavaScript (input : jsstring) : completion (option DetectionResult) :=
  let trimmed := trim input in
  let hasFunction :=  (* /function\s*\w*\s*\(|=>\s*\{|const\s+|let\s+|var\s+/ *)
    regex_test
      (unanchored
         (alts [seqs [Lit "function"; Star space; Star word; Star space; Chr "("];
                seqs [Lit "=>"; Star space; Chr "{"];
                Seq (Lit "const") (Plus space);
                Seq (Lit "let") (Plus space);
                Seq (Lit "var") (Plus space)]))
      trimmed in
  let hasJsPatterns :=  (* /\)\s*\{|\}\s*\)|return\s+|if\s*\(|for\s*\(/ *)
    regex_test
      (unanchored
         (alts [seqs [Chr ")"; Star space; Chr "{"];
                seqs [Chr "}"; Star space; Chr ")"];
                Seq (Lit "return") (Plus space);
                seqs [Lit "if"; Star space; Chr "("];
                seqs [Lit "for"; Star space; Chr "("]]))
      trimmed in
  let isMinified :=
    regex_test MINIFIED_JS_REGEX trimmed && negb (includes_char 10 trimmed) in
  if (hasFunction || hasJsPatterns) && isMinified then
    result javascript 0.8 input None
  else null.

(** The fallback. *)
Definition detectText (input : jsstring) : DetectionResult :=
  mkResult text 0.5 input None.

(** ** [detect] *)

(** What a caller may pass where the signature says [string]. *)
Inductive input_value : Type :=
| Str (s : jsstring)
| NonString.

Definition detectors : list (jsstring -> completion (option DetectionResult)) :=
  [detectJwt; detectUuid; detectJson; detectColor; detectTimestamp;
   detectNumber; detectUrlEncoded; detectBase64; detectHtml; detectCss;
   detectJavaScript].

(** The loop [for (const detector of detectors)]: the first result that is
    not null is returned. *)
Fixpoint first_match (ds : list (jsstring -> completion (option DetectionResult)))
  (input : jsstring) : completion (option DetectionResult) :=
  match ds with
  | [] => Normal None
  | d :: ds' =>
      r <- d input ;;
      match r with
      | Some res => Normal (Some res)
      | None => first_match ds' input
      end
  end.

Definition detect (input : input_value) : completion DetectionResult :=
  match input with
  | NonString => Normal (detectText [])
  | Str s =>
      if len s =? 0 then Normal (detectText [])
      else
        r <- first_match detectors s ;;
        match r with
        | Some res => Normal res
        | None => Normal (detectText s)
        end
  end.

(** ** [JSON.stringify] and the JSON transformers *)

Definition is_high_surrogate (c : Z) : bool := in_range 55296 56319 c.
Definition is_low_surrogate (c : Z) : bool := in_range 56320 57343 c.

Definition hex_digit_char (d : Z) : Z := if d <? 10 then 48 + d else 87 + d.

(** UnicodeEscape: a backslash, [u], and four lower-case hexadecimal
    digits. *)
Definition unicode_escape (c : Z) : jsstring :=
  [92; 117; hex_digit_char (c / 4096 mod 16); hex_digit_char (c / 256 mod 16);
   hex_digit_char (c / 16 mod 16); hex_digit_char (c mod 16)].

(** How QuoteJSONString writes a code unit that is not a surrogate. *)
Definition escape_char (c : Z) : jsstring :=
  if c =? 8 then [92; 98]
  else if c =? 9 then [92; 116]
  else if c =? 10 then [92; 110]
  else if c =? 12 then [92; 102]
  else if c =? 13 then [92; 114]
  else if c =? 34 then [92; 34]
  else if c =? 92 then [92; 92]
  else if c <? 32 then unicode_escape c
  else [c].

(** The characters of a quoted string between its quotes: a surrogate pair
    stays, a lone surrogate is escaped. *)
Fixpoint quote_chars (s : jsstring) : jsstring :=
  match s with
  | [] => []
  | c :: s' =>
      if is_high_surrogate c then
        match s' with
        | d :: s'' =>
            if is_low_surrogate d then c :: d :: quote_chars s''
            else unicode_escape c ++ quote_chars s'
        | [] => unicode_escape c
        end
      else if is_low_surrogate c then unicode_escape c ++ quote_chars s'
      else escape_char c ++ quote_chars s'
  end.

(** QuoteJSONString *)
Definition quote (s : jsstring) : jsstring := 34 :: quote_chars s ++ [34].

(** [parts.join(sep)] *)
Fixpoint join (sep : jsstring) (parts : list jsstring) : jsstring :=
  match parts with
  | [] => []
  | [p] => p
  | p :: rest => p ++ sep ++ join sep rest
  end.

(** Brackets around the parts: compact when there is no gap, else one part
    per line at the deeper indentation. *)
Definition wrap (open close : Z) (gap indent : jsstring) (parts : list jsstring)
  : jsstring :=
  match parts with
  | [] => [open; close]
  | _ =>
      match gap with
      | [] => open :: join [44] parts ++ [close]
      | _ =>
          open :: 10 :: (indent ++ gap)
          ++ join (44 :: 10 :: (indent ++ gap)) parts
          ++ 10 :: indent ++ [close]
      end
  end.

(** SerializeJSONProperty on a parsed JSON value, at the indentation
    [indent], each level adding [gap]. *)
Fixpoint serialize (gap indent : jsstring) (v : JValue) : jsstring :=
  match v with
  | JNull => js "null"
  | JBool b => if b then js "true" else js "false"
  | JNum n => if PrimFloat.is_finite n then Number_toString n else js "null"
  | JStr s => quote s
  | JArr l => wrap 91 93 gap indent (map (serialize gap (indent ++ gap)) l)
  | JObj o =>
      wrap 123 125 gap indent
        (map (fun kv =>
                quote (fst kv) ++ 58 :: (match gap with [] => [] | _ => [32] end)
                ++ serialize gap (indent ++ gap) (snd kv))
           o)
  end.

(** [JSON.stringify(value, null, 2)] and [JSON.stringify(value)] *)
Definition JSON_stringify_2 (v : JValue) : jsstring := serialize [32; 32] [] v.
Definition JSON_stringify (v : JValue) : jsstring := serialize [] [] v.

(** An argument of type [string | object]. A JavaScript string is always
    given as [Text]; [Value] carries what [typeof] does not call a string. *)
Inductive json_argument : Type :=
| Text (s : jsstring)
| Value (v : JValue).

Definition prettyPrintJson (input : json_argument) : jsstring :=
  match input with
  | Text s =>
      match JSON_parse s with
      | Normal obj => JSON_stringify_2 obj
      | Throw _ => s
      end
  | Value obj => JSON_stringify_2 obj
  end.

Definition minifyJson (input : json_argument) : jsstring :=
  match input with
  | Text s =>
      match JSON_parse s with
      | Normal obj => JSON_stringify obj
      | Throw _ => s
      end
  | Value obj => JSON_stringify obj
  end.

(** ** Colours *)

Module ColorRGB.
Record t : Type := mk { r : float; g : float; b : float; a : float }.
End ColorRGB.

Module ColorHSL.
Record t : Type := mk { h : float; s : float; l : float; a : float }.
End ColorHSL.

Module ColorFormats.
Record t : Type := mk {
  hex : jsstring;
  hex8 : jsstring;
  rgb : jsstring;
  rgba : jsstring;
  hsl : jsstring;
  hsla : jsstring;
  tailwind : jsstring;
  complementary : jsstring;
  original : ColorRGB.t
}.
End ColorFormats.

(* /^#([A-Fa-f0-9]{3,8})$/ *)
Definition HEX_PARSE_REGEX : re := Seq (Chr "#") (Between 3 5 hexdigit).

(* /^rgba?\s*\(\s*(\d{1,3})\s*,\s*(\d{1,3})\s*,\s*(\d{1,3})\s*(?:,\s*([\d.]+))?\s*\)$/i *)
Definition RGB_PARSE_REGEX : re :=
  seqs [LitI "rgb"; Opt (ChrI "a"); Star space; Chr "("; Star space;
        Between 1 2 digit; Star space; Chr ","; Star space;
        Between 1 2 digit; Star space; Chr ","; Star space;
        Between 1 2 digit; Star space;
        Opt (seqs [Chr ","; Star space;
                   Plus (Cls (fun c => is_digit c || one_of "." c))]);
        Star space; Chr ")"].

(* /^hsla?\s*\(\s*(\d{1,3})\s*,\s*(\d{1,3})%?\s*,\s*(\d{1,3})%?\s*(?:,\s*([\d.]+))?\s*\)$/i *)
Definition HSL_PARSE_REGEX : re :=
  seqs [LitI "hsl"; Opt (ChrI "a"); Star space; Chr "("; Star space;
        Between 1 2 digit; Star space; Chr ","; Star space;
        Between 1 2 digit; Opt (Chr "%"); Star space; Chr ","; Star space;
        Between 1 2 digit; Opt (Chr "%"); Star space;
        Opt (seqs [Chr ","; Star space;
                   Plus (Cls (fun c => is_digit c || one_of "." c))]);
        Star space; Chr ")"].

(** The longest prefix in a class, and what follows it. *)
Fixpoint span (p : Z -> bool) (s : jsstring) : jsstring * jsstring :=
  match s with
  | c :: s' =>
      if p c then let '(u, v) := span p s' in (c :: u, v) else ([], s)
  | [] => ([], [])
  end.

(** Skips white space, one expected character if it is there, and white
    space again. *)
Definition skip_char (c : Z) (s : jsstring) : jsstring :=
  match drop_space s with
  | d :: r => if d =? c then drop_space r else d :: r
  | [] => []
  end.

(** The capture groups of a string that matched [RGB_PARSE_REGEX] or
    [HSL_PARSE_REGEX]: the three runs of digits after the parenthesis and,
    when a third comma follows, the run of digits and points after it. Every
    group is delimited by characters outside its class, so the groups of the
    match are these maximal runs. *)
Definition color_groups (t : jsstring)
  : jsstring * jsstring * jsstring * option jsstring :=
  let after_paren := skipn 1 (snd (span (fun c => negb (c =? 40)) t)) in
  let '(g1, s1) := span is_digit (drop_space after_paren) in
  let '(g2, s2) := span is_digit (skip_char 44 s1) in
  let '(g3, s3) := span is_digit (skip_char 44 (skip_char 37 s2)) in
  match skip_char 37 s3 with
  | c :: r =>
      if c =? 44
      then (g1, g2, g3,
            Some (fst (span (fun c => is_digit c || one_of "." c) (drop_space r))))
      else (g1, g2, g3, None)
  | [] => (g1, g2, g3, None)
  end.

(** The closure [hue2rgb] of [hslToRgb]. *)
Definition hue2rgb (p q t : float) : float :=
  let t := if (t <? 0)%float then (t + 1)%float else t in
  let t := if (1 <? t)%float then (t - 1)%float else t in
  if (t <? 1 / 6)%float then (p + (q - p) * 6 * t)%float
  else if (t <? 1 / 2)%float then q
  else if (t <? 2 / 3)%float then (p + (q - p) * (2 / 3 - t) * 6)%float
  else p.

Definition hslToRgb (hsl : ColorHSL.t) : ColorRGB.t :=
  let h := (ColorHSL.h hsl / 360)%float in
  let s := (ColorHSL.s hsl / 100)%float in
  let l := (ColorHSL.l hsl / 100)%float in
  let '(r, g, b) :=
    if (s =? 0)%float then (l, l, l)
    else
      let q := if (l <? 0.5)%float then (l * (1 + s))%float
               else (l + s - l * s)%float in
      let p := (2 * l - q)%float in
      (hue2rgb p q (h + 1 / 3)%float, hue2rgb p q h, hue2rgb p q (h - 1 / 3)%float) in
  ColorRGB.mk (Math_round (r * 255)) (Math_round (g * 255)) (Math_round (b * 255))
    (ColorHSL.a hsl).

Definition rgbToHsl (rgb : ColorRGB.t) : ColorHSL.t :=
  let r := (ColorRGB.r rgb / 255)%float in
  let g := (ColorRGB.g rgb / 255)%float in
  let b := (ColorRGB.b rgb / 255)%float in
  let max := Math_max r g b in
  let min := Math_min r g b in
  let l := ((max + min) / 2)%float in
  let '(h, s) :=
    if negb (max =? min)%float then
      let d := (max - min)%float in
      let s := if (0.5 <? l)%float then (d / (2 - max - min))%float
               else (d / (max + min))%float in
      let h :=
        if (max =? r)%float then
          (((g - b) / d + (if (g <? b)%float then 6 else 0)) / 6)%float
        else if (max =? g)%float then (((b - r) / d + 2) / 6)%float
        else if (max =? b)%float then (((r - g) / d + 4) / 6)%float
        else 0%float in
      (h, s)
    else (0%float, 0%float) in
  ColorHSL.mk (Math_round (h * 360)) (Math_round (s * 100)) (Math_round (l * 100))
    (ColorRGB.a rgb).

(** [parseInt(s, radix)] as a Number. *)
Definition parseInt_number (s : jsstring) (radix : Z) : float :=
  int_number (parseInt s radix).

(** [s.slice(i, j)] for [0 <= i <= j]. *)
Definition slice (i j : nat) (s : jsstring) : jsstring :=
  firstn (j - i) (skipn i s).

Definition parseColor (input : jsstring) : option ColorRGB.t :=
  let trimmed := trim input in
  if regex_test HEX_PARSE_REGEX trimmed then
    let hex := skipn 1 trimmed in
    if len hex =? 3 then
      Some (ColorRGB.mk
              (parseInt_number (slice 0 1 hex ++ slice 0 1 hex) 16)
              (parseInt_number (slice 1 2 hex ++ slice 1 2 hex) 16)
              (parseInt_number (slice 2 3 hex ++ slice 2 3 hex) 16)
              1)
    else if len hex =? 6 then
      Some (ColorRGB.mk
              (parseInt_number (slice 0 2 hex) 16)
              (parseInt_number (slice 2 4 hex) 16)
              (parseInt_number (slice 4 6 hex) 16)
              1)
    else if len hex =? 8 then
      Some (ColorRGB.mk
              (parseInt_number (slice 0 2 hex) 16)
              (parseInt_number (slice 2 4 hex) 16)
              (parseInt_number (slice 4 6 hex) 16)
              (parseInt_number (slice 6 8 hex) 16 / 255)%float)
    else None
  else if regex_test RGB_PARSE_REGEX trimmed then
    let '(g1, g2, g3, g4) := color_groups trimmed in
    Some (ColorRGB.mk
            (parseInt_number g1 10) (parseInt_number g2 10) (parseInt_number g3 10)
            (match g4 with Some al => parseFloat al | None => 1%float end))
  else if regex_test HSL_PARSE_REGEX trimmed then
    let '(g1, g2, g3, g4) := color_groups trimmed in
    Some (hslToRgb
            (ColorHSL.mk
               (parseInt_number g1 10) (parseInt_number g2 10) (parseInt_number g3 10)
               (match g4 with Some al => parseFloat al | None => 1%float end)))
  else None.

(** The palette of [findTailwindColor], in the order of the object literal. *)
Definition tailwindColors : list (string * (float * float * float)) :=
  [("slate-50", (248, 250, 252)); ("slate-100", (241, 245, 249));
   ("slate-200", (226, 232, 240)); ("slate-300", (203, 213, 225));
   ("slate-400", (148, 163, 184)); ("slate-500", (100, 116, 139));
   ("slate-600", (71, 85, 105)); ("slate-700", (51, 65, 85));
   ("slate-800", (30, 41, 59)); ("slate-900", (15, 23, 42));
   ("slate-950", (2, 6, 23)); ("red-500", (239, 68, 68));
   ("orange-500", (249, 115, 22)); ("amber-400", (251, 191, 36));
   ("amber-500", (245, 158, 11)); ("yellow-500", (234, 179, 8));
   ("lime-500", (132, 204, 22)); ("green-500", (34, 197, 94));
   ("emerald-500", (16, 185, 129)); ("teal-500", (20, 184, 166));
   ("cyan-500", (6, 182, 212)); ("sky-500", (14, 165, 233));
   ("blue-500", (59, 130, 246)); ("indigo-500", (99, 102, 241));
   ("violet-500", (139, 92, 246)); ("purple-500", (168, 85, 247));
   ("fuchsia-500", (217, 70, 239)); ("pink-500", (236, 72, 153));
   ("rose-500", (244, 63, 94)); ("white", (255, 255, 255));
   ("black", (0, 0, 0))]%float%string.

(** [Math.pow(x, 2)] *)
Definition square (x : float) : float := (x * x)%float.

Definition findTailwindColor (rgb : ColorRGB.t) : jsstring :=
  let step (acc : string * float) (entry : string * (float * float * float)) :=
    let '(closest, minDistance) := acc in
    let '(name, (r, g, b)) := entry in
    let distance :=
      PrimFloat.sqrt (square (ColorRGB.r rgb - r) + square (ColorRGB.g rgb - g)
                      + square (ColorRGB.b rgb - b))%float in
    if (distance <? minDistance)%float then (name, distance) else acc in
  let '(closest, _) := fold_left step tailwindColors ("slate-500"%string, infinity) in
  js "bg-" ++ js closest.

Definition hex2 (x : float) : jsstring := padStart2 (Number_toString16 x).

Definition getComplementary (rgb : ColorRGB.t) : jsstring :=
  js "#" ++ hex2 (255 - ColorRGB.r rgb)%float ++ hex2 (255 - ColorRGB.g rgb)%float
  ++ hex2 (255 - ColorRGB.b rgb)%float.

Definition colorToFormats (input : jsstring) : option ColorFormats.t :=
  match parseColor input with
  | None => None
  | Some rgb =>
      let hsl := rgbToHsl rgb in
      let str := Number_toString in
      let hex6 := js "#" ++ hex2 (ColorRGB.r rgb) ++ hex2 (ColorRGB.g rgb)
                  ++ hex2 (ColorRGB.b rgb) in
      let hex8 := hex6 ++ hex2 (Math_round (ColorRGB.a rgb * 255)%float) in
      Some (ColorFormats.mk
              hex6
              hex8
              (js "rgb(" ++ str (ColorRGB.r rgb) ++ js ", " ++ str (ColorRGB.g rgb)
               ++ js ", " ++ str (ColorRGB.b rgb) ++ js ")")
              (js "rgba(" ++ str (ColorRGB.r rgb) ++ js ", " ++ str (ColorRGB.g rgb)
               ++ js ", " ++ str (ColorRGB.b rgb) ++ js ", " ++ str (ColorRGB.a rgb)
               ++ js ")")
              (js "hsl(" ++ str (ColorHSL.h hsl) ++ js ", " ++ str (ColorHSL.s hsl)
               ++ js "%, " ++ str (ColorHSL.l hsl) ++ js "%)")
              (js "hsla(" ++ str (ColorHSL.h hsl) ++ js ", " ++ str (ColorHSL.s hsl)
               ++ js "%, " ++ str (ColorHSL.l hsl) ++ js "%, " ++ str (ColorHSL.a hsl)
               ++ js ")")
              (findTailwindColor rgb)
              (getComplementary rgb)
              rgb)
  end.

(** ** JWT parsing *)

(** A Date object, by its time value. *)
Record Date : Type := mkDate { time_value : float }.

(** TimeClip: a time value is an integer of at most 8.64e15 in magnitude,
    or NaN. *)
Definition TimeClip (t : float) : float :=
  match float_trunc t with
  | Some z => if 8640000000000000 <? Z.abs z then nan else Z_to_float z
  | None => nan
  end.

(** [new Date(n)] for a Number [n]. *)
Definition new_Date (n : float) : Date := mkDate (TimeClip n).

Definition has_key (k : jsstring) (o : list (jsstring * JValue)) : bool :=
  match obj_get k o with Some _ => true | None => false end.

(** ToString of a parsed JSON value. An array joins its elements with
    commas, null elements giving the empty string. A plain object answers
    with [Object.prototype.toString] unless an own [toString] property, which
    cannot be callable, hides it: then no conversion is left and a TypeError
    is thrown. *)
Fixpoint JValue_toString (v : JValue) : completion jsstring :=
  match v with
  | JNull => Normal (js "null")
  | JBool b => Normal (if b then js "true" else js "false")
  | JNum n => Normal (Number_toString n)
  | JStr s => Normal s
  | JArr l =>
      (fix join (l : list JValue) : completion jsstring :=
         match l with
         | [] => Normal []
         | e :: rest =>
             s <- match e with
                  | JNull => Normal []
                  | _ => JValue_toString e
                  end ;;
             match rest with
             | [] => Normal s
             | _ => r <- join rest ;; Normal (s ++ 44 :: r)
             end
         end) l
  | JObj o =>
      if has_key (js "toString") o then Throw TypeError
      else Normal (js "[object Object]")
  end.

(** ToNumber of a parsed JSON value; arrays and objects go through
    ToPrimitive, which for them ends in the string conversion above. *)
Definition ToNumber (v : JValue) : completion float :=
  match v with
  | JNull => Normal 0%float
  | JBool b => Normal (if b then 1 else 0)%float
  | JNum n => Normal n
  | JStr s => Normal (StringToNumber s)
  | JArr _ | JObj _ => s <- JValue_toString v ;; Normal (StringToNumber s)
  end.

(** [x * 1000] for a property [x] that is not undefined when it is used. *)
Definition times_1000 (x : option JValue) : completion float :=
  match x with
  | Some v => n <- ToNumber v ;; Normal (n * 1000)%float
  | None => Normal nan
  end.

Module JwtPayload.
Record t : Type := mk {
  header : JValue;
  payload : JValue;
  signature : jsstring;
  isExpired : option bool;
  expiresAt : option Date;
  issuedAt : option Date
}.
End JwtPayload.

(** [parseJwt(token)], with the reading of the clock [Date.now()] as a
    parameter. [None] is null. *)
Definition parseJwt (now : float) (token : jsstring) : option JwtPayload.t :=
  let body : completion (option JwtPayload.t) :=
    match split_on 46 (trim token) with
    | [p0; p1; p2] =>
        h <- atob (from_base64url p0) ;;
        header <- JSON_parse h ;;
        p <- atob (from_base64url p1) ;;
        payload <- JSON_parse p ;;
        exp <- get_prop payload (js "exp") ;;
        '(expiresAt, isExpired) <-
          (if truthy exp then
             ms <- times_1000 exp ;;
             ms' <- times_1000 exp ;;
             Normal (Some (new_Date ms), Some (ms' <? now)%float)
           else Normal (None, None)) ;;
        iat <- get_prop payload (js "iat") ;;
        issuedAt <-
          (if truthy iat then
             ms <- times_1000 iat ;; Normal (Some (new_Date ms))
           else Normal None) ;;
        Normal (Some (JwtPayload.mk header payload p2 isExpired expiresAt issuedAt))
    | _ => Normal None
    end in
  match body with
  | Normal r => r
  | Throw _ => None
  end.

(** ** Text statistics *)

Record TextStats : Type := mkTextStats {
  characters : Z;
  charactersNoSpaces : Z;
  words : Z;
  lines : Z;
  sentences : Z
}.

(** [s.split(/p+/)] for a character class [p]: the pieces between the
    maximal runs of [p]. [cur] is the piece being read, reversed; [in_run]
    tells that the previous character was a separator. *)
Fixpoint split_on_runs (p : Z -> bool) (s cur : jsstring) (in_run : bool)
  : list jsstring :=
  match s with
  | [] => [rev cur]
  | c :: s' =>
      if p c then
        if in_run then split_on_runs p s' [] true
        else rev cur :: split_on_runs p s' [] true
      else split_on_runs p s' (c :: cur) false
  end.

(** [s.split(/\r?\n/)]: a line feed ends a piece, and takes a directly
    preceding carriage return with it. *)
Fixpoint split_lines (s cur : jsstring) : list jsstring :=
  match s with
  | [] => [rev cur]
  | c :: s' =>
      if c =? 10 then
        rev (match cur with
             | d :: cur' => if d =? 13 then cur' else cur
             | [] => cur
             end)
        :: split_lines s' []
      else split_lines s' (c :: cur)
  end.

(** [s.match(/p+/g) || []] for a character class [p]: the maximal runs of
    [p], left to right. [cur] is the run being read, reversed. *)
Fixpoint match_runs (p : Z -> bool) (s cur : jsstring) : list jsstring :=
  match s with
  | [] => match cur with [] => [] | _ => [rev cur] end
  | c :: s' =>
      if p c then match_runs p s' (c :: cur)
      else match cur with
           | [] => match_runs p s' []
           | _ => rev cur :: match_runs p s' []
           end
  end.

(** [[.!?]] *)
Definition is_terminator (c : Z) : bool := one_of ".!?" c.

Definition textStats (input : jsstring) : TextStats :=
  let text := input in
  {| characters := len text;
     charactersNoSpaces := len (filter (fun c => negb (is_space c)) text);
     words :=
       if negb (len (trim text) =? 0)
       then Z.of_nat (List.length (split_on_runs is_space (trim text) [] false))
       else 0;
     lines := Z.of_nat (List.length (split_lines text []));
     sentences :=
       let n := Z.of_nat (List.length (match_runs is_terminator text [])) in
       if negb (n =? 0) then n
       else if negb (len (trim text) =? 0) then 1 else 0 |}.

(** ** Vocabulary of the specification *)

(** How many maximal runs of characters of the class [p] the string has;
    [prev] tells whether the character before the string is in the class. *)
Fixpoint count_runs (p : Z -> bool) (s : jsstring) (prev : bool) : Z :=
  match s with
  | [] => 0
  | c :: s' => (if p c && negb prev then 1 else 0) + count_runs p s' (p c)
  end.

Definition not_space (c : Z) : bool := negb (is_space c).

(** The string has no character other than white space. *)
Definition blank (s : jsstring) : bool := forallb is_space s.

(** How many white-space characters the string has. *)
Definition count_spaces (s : jsstring) : Z := len (filter is_space s).

(** Whether the string (or, if it is empty, what precedes it) ends outside
    the class [p]. *)
Definition ends_outside (p : Z -> bool) (s : jsstring) (prev : bool) : bool :=
  fold_left (fun _ c => negb (p c)) s prev.

(** The sentence count as the specification words it: the number of runs of
    terminators, or 1 for any non-empty input that has none. *)
Definition sentences_as_specified (text : jsstring) : Z :=
  let n := count_runs is_terminator text false in
  if 0 <? n then n else if len text =? 0 then 0 else 1.

(** [detect] classifies the string [s] as [t]. *)
Definition classifies (s : jsstring) (t : DetectedType) : Prop :=
  exists r, detect (Str s) = Normal r /\ type r = t.

(** A JWT segment that base64url-decodes to a JSON text, and its value. *)
Definition segment_json (seg : jsstring) : option JValue :=
  match atob (from_base64url seg) with
  | Normal decoded =>
      match JSON_parse decoded with
      | Normal v => Some v
      | Throw _ => None
      end
  | Throw _ => None
  end.


(** The value a string of decimal digits denotes. *)
Definition digits_value (t : jsstring) : Z :=
  fold_left (fun acc c => acc * 10 + (c - 48)) t 0.

(** Every unit of the string is an ASCII digit. *)
Definition all_digits (t : jsstring) : bool := forallb is_digit t.

(** The string matches the base64 or the base64url-safe character class. *)
Definition base64_shape (t : jsstring) : bool :=
  regex_test BASE64_REGEX t || regex_test BASE64_URL_SAFE_REGEX t.

(** How many decoded characters are printable. *)
Definition printable_count (decoded : jsstring) : Z :=
  len (filter printable decoded).

(** The test of the code: the quotient of the two counts, computed in
    binary64, exceeds the Number 0.8. *)
Definition over_80_percent (n total : Z) : bool :=
  (0.8 <? Z_to_float n / Z_to_float total)%float.

(** The conditions under which the specification says a trimmed input [t]
    is base64: long enough, in the character class, decodable, and at least
    80 percent printable. *)
Definition base64_as_specified (t : jsstring) : Prop :=
  32 <= len t /\ base64_shape t = true
  /\ exists decoded,
      atob (from_base64url t) = Normal decoded
      /\ 4 * len decoded <= 5 * printable_count decoded.

(** How many escape sequences the string holds: a percent sign followed by
    two hexadecimal digits. *)
Fixpoint count_escapes (s : jsstring) : Z :=
  match s with
  | [] => 0
  | c :: s' =>
      (if (c =? 37)
          && match s' with
             | h1 :: h2 :: _ => is_hex h1 && is_hex h2
             | _ => false
             end
       then 1 else 0)
      + count_escapes s'
  end.

(** A percent sign that does not start an escape sequence. *)
Definition has_stray_percent (s : jsstring) : Prop :=
  count_escapes s <> count_char 37 s.

(** RGB to HSL and back. *)
Definition round_trip (rgb : ColorRGB.t) : ColorRGB.t := hslToRgb (rgbToHsl rgb).

(** Each of the three channels of [c] is within [k] of that of [d]. *)
Definition channels_within (k : float) (c d : ColorRGB.t) : bool :=
  (abs (ColorRGB.r c - ColorRGB.r d) <=? k)%float
  && (abs (ColorRGB.g c - ColorRGB.g d) <=? k)%float
  && (abs (ColorRGB.b c - ColorRGB.b d) <=? k)%float.

(** The gray of level [n], with alpha [a]. *)
Definition gray (n : Z) (a : float) : ColorRGB.t :=
  ColorRGB.mk (Z_to_float n) (Z_to_float n) (Z_to_float n) a.

(** The integers 0 to 255. *)
Definition channel_values : list Z := map Z.of_nat (seq 0 256).

(** Every unit of the string is a UTF-16 code unit. *)
Definition code_units (s : jsstring) : bool := forallb (in_range 0 65535) s.

(** The Number reads back from its own decimal form, and is finite: true of
    every finite Number but -0, whose form is that of +0. *)
Definition number_reads_back (n : float) : Prop :=
  PrimFloat.is_finite n = true
  /\ parse_number (Number_toString n) = Some (n, []).

(** The property list is that of an object: defining its properties one by
    one, in their order, gives the list back (no key twice, array indices
    first and ascending). *)
Definition own_properties (o : list (jsstring * JValue)) : Prop :=
  fold_left (fun acc kv => obj_define (fst kv) (snd kv) acc) o [] = o.

(** The values that their JSON text denotes exactly: strings of code
    units, numbers that read back from their decimal form, objects whose
    property list is that of an object. *)
Fixpoint exact_value (v : JValue) : Prop :=
  match v with
  | JNull => True
  | JBool _ => True
  | JNum n => number_reads_back n
  | JStr s => code_units s = true
  | JArr l =>
      (fix all (l : list JValue) : Prop :=
         match l with
         | [] => True
         | e :: r => exact_value e /\ all r
         end) l
  | JObj o =>
      own_properties o
      /\ (fix all (o : list (jsstring * JValue)) : Prop :=
            match o with
            | [] => True
            | kv :: r => code_units (fst kv) = true /\ exact_value (snd kv) /\ all r
            end) o
  end.

(** An amount of fuel with which [parse_value] reads the value back. *)
Fixpoint weight (v : JValue) : nat :=
  match v with
  | JArr l => S (list_sum (map (fun e => S (weight e)) l))
  | JObj o => S (list_sum (map (fun kv => S (weight (snd kv))) o))
  | _ => 1
  end.

(** What may follow a serialized value: nothing, a comma, a closing bracket
    or brace, or a line feed. *)
Definition delimited (rest : jsstring) : Prop :=
  match rest with
  | [] => True
  | c :: _ => c = 44 \/ c = 93 \/ c = 125 \/ c = 10
  end.

(** Induction on a JSON value, with the hypothesis for every element of an
    array and for every property value of an object. *)
Section JValue_induction.
Variable P : JValue -> Prop.
Hypothesis Hnull : P JNull.
Hypothesis Hbool : forall b, P (JBool b).
Hypothesis Hnum : forall n, P (JNum n).
Hypothesis Hstr : forall s, P (JStr s).
Hypothesis Harr : forall l, Forall P l -> P (JArr l).
Hypothesis Hobj : forall o, Forall (fun kv => P (snd kv)) o -> P (JObj o).

Fixpoint JValue_induction (v : JValue) : P v :=
  match v with
  | JNull => Hnull
  | JBool b => Hbool b
  | JNum n => Hnum n
  | JStr s => Hstr s
  | JArr l =>
      Harr l
        ((fix go (l : list JValue) : Forall P l :=
            match l with
            | [] => Forall_nil P
            | e :: r => Forall_cons e (JValue_induction e) (go r)
            end) l)
  | JObj o =>
      Hobj o
        ((fix go (o : list (jsstring * JValue))
            : Forall (fun kv => P (snd kv)) o :=
            match o with
            | [] => Forall_nil _
            | (k, e) :: r =>
                Forall_cons (k, e) (JValue_induction e) (go r)
            end) o)
  end.
End JValue_induction.

(** How a value [x] is handed to a function of type [string | object]: a
    string as a string, anything else as it is. *)
Definition as_argument (x : JValue) : json_argument :=
  match x with
  | JStr s => Text s
  | _ => Value x
  end.

(** An object with a nested array, a number, a string with an escape, a
    boolean and null. *)
Definition sample_value : JValue :=
  JObj [(js "name", JStr (js "a\b"));
        (js "list", JArr [JNum 1; JNum 2.5; JBool true; JNull; JArr []]);
        (js "nested", JObj [(js "k", JNum (-3))])].

(** ** Vocabulary of the proofs *)

(** The call returns: it completes normally, with some value. *)
Definition returns {A} (c : completion A) : Prop := exists a, c = Normal a.

(** The code units of the ten decimal digits. *)
Definition ten_digits : list Z := [48; 49; 50; 51; 52; 53; 54; 55; 56; 57].

(** A character of either base64 alphabet, or the padding character. *)
Definition b64_char (c : Z) : bool := is_b64std c || is_b64url c.

(** Forty characters that decode to thirty, of which exactly twenty-four
    (80 percent) are printable. *)
Definition exactly_80_percent : jsstring :=
  js "QUFBQUFBQUFBQUFBQUFBQUFBQUFBQUFBAAAAAAAA".

(** Thirty-four characters that are both a hexadecimal literal and base64 for
    a mostly printable text. *)
Definition hex_literal_in_base64 : jsstring :=
  js "0xA0a0A0a0A0a0A0a0A0a0A0a0A0a0A0a0".

(** The empty string, as a test. *)
Definition is_nil (s : jsstring) : bool := match s with [] => true | _ => false end.

(** The token does not split into exactly three parts, or its header or its
    payload does not decode to JSON. *)
Definition malformed_jwt (token : jsstring) : Prop :=
  match split_on 46 (trim token) with
  | [p0; p1; _] => segment_json p0 = None \/ segment_json p1 = None
  | _ => True
  end.

(** A token whose payload is the object with the single claim [exp: 0]. *)
Definition jwt_exp_zero : jsstring := js "eyJhbGciOiJIUzI1NiJ9.eyJleHAiOjB9.sig".

(** The first character of a serialized value. *)
Definition value_start (c : Z) : Prop :=
  c = 110 \/ c = 116 \/ c = 102 \/ c = 34 \/ c = 91 \/ c = 123 \/ c = 45
  \/ 48 <= c <= 57.

(** The property that [parse_value] reads a value back from the text
    [ser e], whatever white space precedes it and whatever delimiter
    follows it. *)
Definition reads_back (ser : JValue -> jsstring) (e : JValue) : Prop :=
  forall fuel rest lead,
    forallb json_ws lead = true -> delimited rest -> (weight e <= fuel)%nat ->
    parse_value fuel (lead ++ ser e ++ rest) = Some (e, rest).


(** The value, or null where there is none. *)
Definition or_null (v : option JValue) : JValue :=
  match v with Some x => x | None => JNull end.

(** ** The results of [detect] *)

(** The confidence lies between 0.5 and 1. *)
Definition in_unit_half (c : float) : bool := ((0.5 <=? c) && (c <=? 1))%float.

(** What every result of [detect] for the input [s] satisfies. *)
Definition well_shaped (s : jsstring) (r : DetectionResult) : Prop :=
  raw r = s /\ in_unit_half (confidence r) = true /\ type r <> image.

(** The result [r], reported for the input [s]. *)
Definition retag (s : jsstring) (r : DetectionResult) : DetectionResult :=
  mkResult (type r) (confidence r) s (parsed r).

(** What a detector returns for [s], if it behaves on [s] as on an input
    with the same trimmed text: the same answer, with [s] as [raw]. *)
Definition retagged (s : jsstring) (c : completion (option DetectionResult))
  : completion (option DetectionResult) :=
  match c with
  | Normal (Some r) => Normal (Some (retag s r))
  | Normal None => Normal None
  | Throw e => Throw e
  end.

(** Two results tell the same finding: they differ at most in [raw]. *)
Definition same_finding (r1 r2 : DetectionResult) : Prop :=
  type r1 = type r2 /\ confidence r1 = confidence r2 /\ parsed r1 = parsed r2.

(** ** Numbers in other bases *)

(** [s.toUpperCase()] on a string of ASCII characters, which the digits of a
    number are. *)
Definition ascii_upper (s : jsstring) : jsstring := map fold_case s.

Module NumberFormats.
Record t : Type := mk {
  decimal : jsstring;
  hex : jsstring;
  binary : jsstring;
  octal : jsstring
}.
End NumberFormats.

(** [numberToAllBases(value)] for an integral [value] below 2^53 in
    magnitude, where [value.toString(radix)] writes the digits of the integer
    in every radix. *)
Definition numberToAllBases (value : Z) : NumberFormats.t :=
  NumberFormats.mk
    (Z_toString 10 value)
    (js "0x" ++ ascii_upper (Z_toString 16 value))
    (js "0b" ++ Z_toString 2 value)
    (js "0o" ++ Z_toString 8 value).

(** [parseNumber(input)]: [None] is NaN. [parseInt] does not throw, so the
    [catch] branch and its [null] are out of reach. *)
Definition parseNumber (input : jsstring) : option Z :=
  let trimmed := trim input in
  if startsWith (js "0x") trimmed || startsWith (js "0X") trimmed then
    parseInt trimmed 16
  else if startsWith (js "0b") trimmed || startsWith (js "0B") trimmed then
    parseInt (skipn 2 trimmed) 2
  else if startsWith (js "0o") trimmed || startsWith (js "0O") trimmed then
    parseInt (skipn 2 trimmed) 8
  else parseInt trimmed 10.

(** The character is a digit of the radix. *)
Definition is_digit_of (radix c : Z) : bool :=
  match digit_value radix c with Some _ => true | None => false end.

(** The value of a string of digits of the radix. *)
Definition digits_value_in (radix : Z) (ds : jsstring) : Z :=
  fold_left
    (fun acc c => acc * radix + match digit_value radix c with
                                | Some v => v
                                | None => 0
                                end)
    ds 0.

(** The string is [0], the letter [p], and one or more characters of the
    class. *)
Definition literal_of (p : Z) (cls : Z -> bool) (t : jsstring) : bool :=
  match t with
  | z :: q :: d :: ds => (z =? 48) && (q =? p) && forallb cls (d :: ds)
  | _ => false
  end.

(** A literal of [detectNumber]: [0x], [0b] or [0o] in lower case and at
    least one digit of the radix, nothing else; its radix and its digits. *)
Definition number_literal (t : jsstring) : option (Z * jsstring) :=
  if literal_of 120 (is_digit_of 16) t then Some (16, skipn 2 t)
  else if literal_of 98 (is_digit_of 2) t then Some (2, skipn 2 t)
  else if literal_of 111 (is_digit_of 8) t then Some (8, skipn 2 t)
  else None.

(** ** UUIDs *)

(** [[0-9a-f]] *)
Definition is_lower_hex (c : Z) : bool := is_digit c || in_range 97 102 c.

Definition lhex : re := Cls is_lower_hex.

(* /^[0-9a-f]{8}-[0-9a-f]{4}-([0-9a-f])[0-9a-f]{3}-([0-9a-f])[0-9a-f]{3}-[0-9a-f]{12}$/
   The two groups are the characters at the indices 14 and 19 of a match. *)
Definition UUID_PARSE_REGEX : re :=
  seqs [Rep 8 lhex; Chr "-"; Rep 4 lhex; Chr "-"; Seq lhex (Rep 3 lhex); Chr "-";
        Seq lhex (Rep 3 lhex); Chr "-"; Rep 12 lhex].

(** ToInt32 of what [parseInt] returned: an integer wraps around into 32
    bits, NaN becomes 0. *)
Definition ToInt32 (v : option Z) : Z :=
  match v with
  | Some z => (z + 2 ^ 31) mod 2 ^ 32 - 2 ^ 31
  | None => 0
  end.

Module UuidInfo.
Record t : Type := mk {
  version : option Z;       (* [None] is NaN *)
  variant : jsstring
}.
End UuidInfo.

(** [parseUuid(uuid)]. [String.prototype.toLowerCase] follows the Unicode
    case mappings; it is a parameter, of which the properties below assume,
    where they need it, what it does to ASCII strings. *)
Section ParseUuid.
Variable toLowerCase : jsstring -> jsstring.

Definition parseUuid (uuid : jsstring) : option UuidInfo.t :=
  let cleaned := toLowerCase (trim uuid) in
  if negb (regex_test UUID_PARSE_REGEX cleaned) then None
  else
    let version := parseInt (slice 14 15 cleaned) 16 in
    let variantChar := parseInt (slice 19 20 cleaned) 16 in
    let variant :=
      if Z.land (ToInt32 variantChar) 8 =? 0 then js "NCS"
      else if Z.land (ToInt32 variantChar) 12 =? 8 then js "RFC 4122"
      else if Z.land (ToInt32 variantChar) 14 =? 12 then js "Microsoft"
      else if Z.land (ToInt32 variantChar) 14 =? 14 then js "Future"
      else js "Unknown" in
    Some (UuidInfo.mk version variant).
End ParseUuid.

(** Lower case of an ASCII character. *)
Definition ascii_lower (c : Z) : Z := if is_upper c then c + 32 else c.

Definition is_ascii (c : Z) : bool := in_range 0 127 c.

(** What the properties assume of [toLowerCase]: on a string of ASCII
    characters it lowers the letters A to Z and changes nothing else. *)
Definition lowers_ascii (toLowerCase : jsstring -> jsstring) : Prop :=
  forall s, forallb is_ascii s = true -> toLowerCase s = map ascii_lower s.

(** The template of [generateUuid]. *)
Definition uuid_template : jsstring := js "xxxxxxxx-xxxx-4xxx-yxxx-xxxxxxxxxxxx".

(** [template.replace(/[xy]/g, callback)]: the callback runs once for every
    [x] and [y], left to right, and draws one random number each time.
    [random16 k] is the value of [(Math.random() * 16) | 0] at the draw
    number [k]; [Math.random()] is a Number from 0 up to but not including 1,
    so these are integers from 0 to 15. *)
Fixpoint replace_xy (random16 : nat -> Z) (k : nat) (s : jsstring) : jsstring :=
  match s with
  | [] => []
  | c :: s' =>
      if (c =? 120) || (c =? 121) then
        let r := random16 k in
        let v := if c =? 120 then r else Z.lor (Z.land r 3) 8 in
        Z_toString 16 v ++ replace_xy random16 (S k) s'
      else c :: replace_xy random16 k s'
  end.

Definition generateUuid (random16 : nat -> Z) : jsstring :=
  replace_xy random16 0 uuid_template.

(** Every draw is an integer from 0 to 15. *)
Definition draws_below_16 (random16 : nat -> Z) : Prop :=
  forall k, 0 <= random16 k <= 15.

(** Five groups of characters of the class [p], of 8, 4, 4, 4 and 12,
    separated by hyphens. *)
Definition hyphenated (p : Z -> bool) (t : jsstring) : bool :=
  match split_on 45 t with
  | [a; b; c; d; e] =>
      (len a =? 8) && (len b =? 4) && (len c =? 4) && (len d =? 4)
      && (len e =? 12) && forallb p (a ++ b ++ c ++ d ++ e)
  | _ => false
  end.

(** The textual form of a UUID, in either case. *)
Definition uuid_shape (t : jsstring) : bool := hyphenated is_hex t.

(** The variant that [parseUuid] names for the value [w] of the variant
    digit: by its leading bits 0, 10, 110 or 111. *)
Definition variant_of (w : Z) : jsstring :=
  if w <? 8 then js "NCS"
  else if w <? 12 then js "RFC 4122"
  else if w <? 14 then js "Microsoft"
  else js "Future".

(** The value of the hexadecimal digit at the index [i] of the string. *)
Definition hex_digit_at (i : nat) (t : jsstring) : option Z :=
  digit_value 16 (nth i t 0).

(** A [toLowerCase] that does only what is assumed of it. *)
Definition lower_ascii_only (s : jsstring) : jsstring := map ascii_lower s.

(** A version 1 UUID of the RFC, in upper case. *)
Definition sample_uuid : jsstring := js "C232AB00-9414-11EC-B3C8-9F6BDECED846".

(** ** JWT: what [parseJwt] needs of the payload *)

(** The payload segment of a token of three segments, decoded. *)
Definition payload_of (token : jsstring) : option JValue :=
  match split_on 46 (trim token) with
  | [_; p1; _] => segment_json p1
  | _ => None
  end.

(** [parseJwt] can read the claim [k] of the payload: reading the property
    does not throw (the payload is not null) and, if the value is truthy,
    multiplying it by 1000 does not throw (no array or object whose
    conversion to a primitive fails). *)
Definition reads_claim (payload : JValue) (k : jsstring) : bool :=
  match get_prop payload k with
  | Normal x =>
      if truthy x
      then match times_1000 x with Normal _ => true | Throw _ => false end
      else true
  | Throw _ => false
  end.

(** A token with the header [alg: HS256] and the payload [null]. *)
Definition jwt_null_payload : jsstring := js "eyJhbGciOiJIUzI1NiJ9.bnVsbA.sig".

(** A token with the header [alg: HS256] and the payload [exp: 1]. *)
Definition jwt_exp_one : jsstring := js "eyJhbGciOiJIUzI1NiJ9.eyJleHAiOjF9.sig".

(** What [parseJwt] returns for it, two seconds after the epoch. *)
Definition jwt_exp_one_parsed : JwtPayload.t :=
  JwtPayload.mk (JObj [(js "alg", JStr (js "HS256"))]) (JObj [(js "exp", JNum 1)])
    (js "sig") (Some true) (Some (mkDate 1000)) None.

(** ** Percent-encoding, UTF-8 and base64 *)

(** The UTF-8 octets of a code point. *)
Definition utf8_encode (v : Z) : list Z :=
  if v <? 128 then [v]
  else if v <? 2048 then
    [Z.lor 192 (Z.shiftr v 6); Z.lor 128 (Z.land v 63)]
  else if v <? 65536 then
    [Z.lor 224 (Z.shiftr v 12); Z.lor 128 (Z.land (Z.shiftr v 6) 63);
     Z.lor 128 (Z.land v 63)]
  else
    [Z.lor 240 (Z.shiftr v 18); Z.lor 128 (Z.land (Z.shiftr v 12) 63);
     Z.lor 128 (Z.land (Z.shiftr v 6) 63); Z.lor 128 (Z.land v 63)].

(** An upper-case hexadecimal digit. *)
Definition hex_upper_char (d : Z) : Z := if d <? 10 then 48 + d else 55 + d.

(** A percent sign and the two upper-case hexadecimal digits of an octet. *)
Definition percent_octet (b : Z) : jsstring :=
  [37; hex_upper_char (b / 16); hex_upper_char (b mod 16)].

Definition percent_octets (octets : list Z) : jsstring :=
  flat_map percent_octet octets.

(** UTF16SurrogatePairToCodePoint *)
Definition surrogate_pair_code_point (lead trail : Z) : Z :=
  (lead - 55296) * 1024 + (trail - 56320) + 65536.

(** The abstract operation Encode of ECMAScript, for a set of characters
    that stay as they are: every other code point is written as the percent
    escapes of its UTF-8 octets; a surrogate without its partner throws a
    URIError. *)
Fixpoint uri_encode (unescaped : Z -> bool) (s : jsstring) : completion jsstring :=
  match s with
  | [] => Normal []
  | c :: s' =>
      if unescaped c then r <- uri_encode unescaped s' ;; Normal (c :: r)
      else if is_high_surrogate c then
        match s' with
        | d :: s'' =>
            if is_low_surrogate d then
              r <- uri_encode unescaped s'' ;;
              Normal (percent_octets (utf8_encode (surrogate_pair_code_point c d))
                      ++ r)
            else Throw URIError
        | [] => Throw URIError
        end
      else if is_low_surrogate c then Throw URIError
      else r <- uri_encode unescaped s' ;; Normal (percent_octets (utf8_encode c) ++ r)
  end.

(** uriUnescaped: letters, digits and the marks [-_.!~*'()] *)
Definition uri_unescaped (c : Z) : bool := is_alnum c || one_of "-_.!~*'()" c.

(** uriReserved, uriUnescaped and the number sign: what [encodeURI] keeps. *)
Definition uri_reserved_or_unescaped (c : Z) : bool :=
  uri_unescaped c || one_of ";/?:@&=+$,#" c.

Definition encodeURIComponent (s : jsstring) : completion jsstring :=
  uri_encode uri_unescaped s.

Definition encodeURI (s : jsstring) : completion jsstring :=
  uri_encode uri_reserved_or_unescaped s.

(** [escape(s)] of Annex B: letters, digits and [@*_+-./] stay, any other
    code unit becomes [%XX] below 256 and [%uXXXX] from 256 on. *)
Definition escape_unit (c : Z) : jsstring :=
  if is_alnum c || one_of "@*_+-./" c then [c]
  else if c <? 256 then percent_octet c
  else [37; 117; hex_upper_char (c / 4096 mod 16); hex_upper_char (c / 256 mod 16);
        hex_upper_char (c / 16 mod 16); hex_upper_char (c mod 16)].

Definition escape (s : jsstring) : jsstring := flat_map escape_unit s.

(** The code unit that four, or two, hexadecimal digits at the head of a
    string denote. *)
Definition hex4_at (s : jsstring) : option Z :=
  match s with
  | h1 :: h2 :: h3 :: h4 :: _ =>
      match hex_octet h1 h2, hex_octet h3 h4 with
      | Some a, Some b => Some (256 * a + b)
      | _, _ => None
      end
  | _ => None
  end.

Definition hex2_at (s : jsstring) : option Z :=
  match s with
  | h1 :: h2 :: _ => hex_octet h1 h2
  | _ => None
  end.

(** [unescape(s)] of Annex B. A percent sign followed by [u] and four
    hexadecimal digits, or by two hexadecimal digits, stands for a code unit;
    any other character stands for itself. [skip] counts the characters of
    an escape still to pass over. *)
Fixpoint unescape_from (s : jsstring) (skip : nat) : jsstring :=
  match s with
  | [] => []
  | c :: s' =>
      match skip with
      | S k => unescape_from s' k
      | O =>
          if c =? 37 then
            match s' with
            | u :: s'' =>
                match (if u =? 117 then hex4_at s'' else None) with
                | Some v => v :: unescape_from s' 5
                | None =>
                    match hex2_at s' with
                    | Some v => v :: unescape_from s' 2
                    | None => c :: unescape_from s' 0
                    end
                end
            | [] => [c]
            end
          else c :: unescape_from s' 0
      end
  end.

Definition unescape (s : jsstring) : jsstring := unescape_from s 0.

(** The character of the base64 alphabet for a sextet. *)
Definition b64_char_of (v : Z) : Z :=
  if v <? 26 then 65 + v
  else if v <? 52 then 71 + v
  else if v <? 62 then v - 4
  else if v =? 62 then 43
  else 47.

(** Three octets make four characters; one or two left-over octets make two
    or three characters and the padding. *)
Fixpoint b64_encode (bytes : list Z) : jsstring :=
  match bytes with
  | a :: b :: c :: rest =>
      b64_char_of (Z.shiftr a 2)
      :: b64_char_of (Z.lor (Z.shiftl (Z.land a 3) 4) (Z.shiftr b 4))
      :: b64_char_of (Z.lor (Z.shiftl (Z.land b 15) 2) (Z.shiftr c 6))
      :: b64_char_of (Z.land c 63)
      :: b64_encode rest
  | [a; b] =>
      [b64_char_of (Z.shiftr a 2);
       b64_char_of (Z.lor (Z.shiftl (Z.land a 3) 4) (Z.shiftr b 4));
       b64_char_of (Z.shiftl (Z.land b 15) 2); 61]
  | [a] =>
      [b64_char_of (Z.shiftr a 2); b64_char_of (Z.shiftl (Z.land a 3) 4); 61; 61]
  | [] => []
  end.

(** [btoa(s)]: a code unit above 255 throws. *)
Definition btoa (s : jsstring) : completion jsstring :=
  if forallb (fun c => c <=? 255) s then Normal (b64_encode s)
  else Throw InvalidCharacterError.

(** [encodeBase64(input)] *)
Definition encodeBase64 (input : jsstring) : completion jsstring :=
  try_catch
    (e <- encodeURIComponent input ;; btoa (unescape e))
    (btoa input).

(** [decodeBase64(input)] *)
Definition decodeBase64 (input : jsstring) : jsstring :=
  let attempt :=
    let normalized := from_base64url input in
    bytes <- atob normalized ;; decodeURIComponent (escape bytes) in
  match attempt with
  | Normal r => r
  | Throw _ =>
      match atob input with
      | Normal r => r
      | Throw _ => js "Invalid Base64"
      end
  end.

(** [encodeUrl(input)], [decodeUrl(input)] and [encodeFullUrl(input)] *)
Definition encodeUrl (input : jsstring) : completion jsstring :=
  encodeURIComponent input.

Definition decodeUrl (input : jsstring) : jsstring :=
  match decodeURIComponent input with
  | Normal r => r
  | Throw _ => input
  end.

Definition encodeFullUrl (input : jsstring) : completion jsstring :=
  encodeURI input.

(** A string of UTF-16 code units in which every surrogate has its partner:
    a high one is followed by a low one, and a low one follows a high one. *)
Fixpoint well_formed (s : jsstring) : bool :=
  match s with
  | [] => true
  | c :: s' =>
      if is_high_surrogate c then
        match s' with
        | d :: s'' => is_low_surrogate d && well_formed s''
        | [] => false
        end
      else negb (is_low_surrogate c) && in_range 0 65535 c && well_formed s'
  end.

(** The UTF-8 octets of a well-formed string. *)
Fixpoint utf8_of (s : jsstring) : list Z :=
  match s with
  | [] => []
  | c :: s' =>
      if is_high_surrogate c then
        match s' with
        | d :: s'' => utf8_encode (surrogate_pair_code_point c d) ++ utf8_of s''
        | [] => utf8_encode c
        end
      else utf8_encode c ++ utf8_of s'
  end.

(** A code point is a Unicode scalar value: not above 10FFFF and not a
    surrogate. *)
Definition scalar_value (v : Z) : Prop :=
  0 <= v <= 1114111 /\ ~ 55296 <= v <= 57343.

(** The characters an encoder leaves as they are: ASCII, and not the
    percent sign. *)
Definition plain_set (unescaped : Z -> bool) : Prop :=
  forall c, unescaped c = true -> 0 <= c < 128 /\ c <> 37.

(** The sextets of a string of octets, the last one filled up with zero
    bits. *)
Fixpoint sextets_of (bytes : list Z) : list Z :=
  match bytes with
  | a :: b :: c :: rest =>
      Z.shiftr a 2
      :: Z.lor (Z.shiftl (Z.land a 3) 4) (Z.shiftr b 4)
      :: Z.lor (Z.shiftl (Z.land b 15) 2) (Z.shiftr c 6)
      :: Z.land c 63
      :: sextets_of rest
  | [a; b] =>
      [Z.shiftr a 2; Z.lor (Z.shiftl (Z.land a 3) 4) (Z.shiftr b 4);
       Z.shiftl (Z.land b 15) 2]
  | [a] => [Z.shiftr a 2; Z.shiftl (Z.land a 3) 4]
  | [] => []
  end.

(** The padding of the base64 form of a string of octets. *)
Fixpoint b64_padding (bytes : list Z) : jsstring :=
  match bytes with
  | _ :: _ :: _ :: rest => b64_padding rest
  | [_; _] => [61]
  | [_] => [61; 61]
  | [] => []
  end.

(** Every octet is one: from 0 to 255. *)
Definition octets (bytes : list Z) : bool := forallb (in_range 0 255) bytes.

(** A string with an accent, a space and a character outside the Basic
    Multilingual Plane. *)
Definition sample_text : jsstring := js "caf" ++ [233; 32; 55357; 56832; 37].

(** ** Vocabulary for colours *)

(** The three channels are integers from 0 to 255. *)
Definition byte_channels (c : ColorRGB.t) : Prop :=
  exists r g b,
    (0 <= r <= 255 /\ 0 <= g <= 255 /\ 0 <= b <= 255)
    /\ ColorRGB.r c = Z_to_float r /\ ColorRGB.g c = Z_to_float g
    /\ ColorRGB.b c = Z_to_float b.

(** The colour without its transparency. *)
Definition opaque (c : ColorRGB.t) : ColorRGB.t :=
  ColorRGB.mk (ColorRGB.r c) (ColorRGB.g c) (ColorRGB.b c) 1.

(** The two lower-case hexadecimal digits of an octet. *)
Definition hex_pair (v : Z) : jsstring :=
  [hex_digit_char (v / 16); hex_digit_char (v mod 16)].

(** The six-digit form of a hexadecimal colour: each digit of the short form
    is written twice, and the two digits of the transparency are left out. *)
Definition six_digits (t : jsstring) : jsstring :=
  match t with
  | [h; a; b; c] => [h; a; a; b; b; c; c]
  | _ => firstn 7 t
  end.

(** ** Vocabulary for JSON and colour detection *)

(** A text that opens with a brace or a bracket. *)
Definition opens_json (t : jsstring) : bool :=
  startsWith (js "{") t || startsWith (js "[") t.

(** A text in one of the three colour notations of the detector. *)
Definition color_shape (t : jsstring) : bool :=
  regex_test HEX_COLOR_REGEX t || regex_test RGB_COLOR_REGEX t
  || regex_test HSL_COLOR_REGEX t.

(** ** The beautifiers *)

(** [s.replace(/pat/g, rep)] for a pattern that is a literal, not empty, and
    a replacement without dollar signs: the matches are taken from left to
    right and do not overlap. [skip] counts the characters of a match still
    to pass over. *)
Fixpoint replace_lit_from (pat rep s : jsstring) (skip : nat) : jsstring :=
  match s with
  | [] => []
  | c :: s' =>
      match skip with
      | S k => replace_lit_from pat rep s' k
      | O =>
          if startsWith pat s
          then rep ++ replace_lit_from pat rep s' (List.length pat - 1)
          else c :: replace_lit_from pat rep s' 0
      end
  end.

Definition replace_lit (pat rep s : jsstring) : jsstring :=
  replace_lit_from pat rep s 0.

(** What stands for a run of [run] characters [c] under
    [s.replace(/c{n,}/g, rep)]. *)
Definition squeezed (c : Z) (n : nat) (rep : jsstring) (run : nat) : jsstring :=
  if (n <=? run)%nat then rep else repeat c run.

(** [s.replace(/c{n,}/g, rep)] for one character [c]: the quantifier is
    greedy, so every maximal run of at least [n] is replaced. [run] is the
    length of the run that ends where [s] begins. *)
Fixpoint squeeze_runs (c : Z) (n : nat) (rep s : jsstring) (run : nat) : jsstring :=
  match s with
  | [] => squeezed c n rep run
  | x :: s' =>
      if x =? c then squeeze_runs c n rep s' (S run)
      else squeezed c n rep run ++ x :: squeeze_runs c n rep s' 0
  end.

(** [s.replace(/\n +\n/g, '\n')]: a line feed, one or more spaces and a line
    feed become one line feed; the search goes on behind the second line
    feed. *)
Fixpoint drop_blank_from (s : jsstring) (skip : nat) : jsstring :=
  match s with
  | [] => []
  | c :: s' =>
      match skip with
      | S k => drop_blank_from s' k
      | O =>
          if c =? 10 then
            let '(spaces, rest) := span (Z.eqb 32) s' in
            match spaces, rest with
            | _ :: _, x :: _ =>
                if x =? 10 then 10 :: drop_blank_from s' (List.length spaces + 1)
                else c :: drop_blank_from s' 0
            | _, _ => c :: drop_blank_from s' 0
            end
          else c :: drop_blank_from s' 0
      end
  end.

Definition beautifyCss (input : jsstring) : jsstring :=
  let css := trim input in
  let css := replace_lit [123] [32; 123; 10; 32; 32] css in
  let css := replace_lit [125] [10; 125; 10; 10] css in
  let css := replace_lit [59] [59; 10; 32; 32] css in
  let css := replace_lit [10; 32; 32; 10] [10] css in
  let css := squeeze_runs 10 3 [10; 10] css 0 in
  let css := squeeze_runs 32 2 [32; 32] css 0 in
  trim css.

(** What a call that may throw a RangeError comes to. *)
Inductive or_range_error (A : Type) : Type :=
| Returned (a : A)
| RangeError.
Arguments Returned {A} a.
Arguments RangeError {A}.

(** [s.repeat(count)] *)
Definition String_repeat (s : jsstring) (count : Z) : or_range_error jsstring :=
  if count <? 0 then RangeError
  else Returned (List.concat (repeat s (Z.to_nat count))).

(** The loop of [beautifyJs] from the character [s] begins with; [prev] is
    the character before it, if there is one. *)
Fixpoint beautifyJs_loop (s : jsstring) (prev : option Z) (indent : Z)
  (result : jsstring) (inString : bool) (stringChar : jsstring)
  : or_range_error jsstring :=
  match s with
  | [] => Returned result
  | char :: s' =>
      if ((char =? 34) || (char =? 39) || (char =? 96))
         && negb (match prev with Some p => p =? 92 | None => false end)
      then
        let '(inString, stringChar) :=
          if negb inString then (true, [char])
          else if jsstring_eqb [char] stringChar then (false, stringChar)
          else (inString, stringChar) in
        beautifyJs_loop s' (Some char) indent (result ++ [char]) inString stringChar
      else if inString then
        beautifyJs_loop s' (Some char) indent (result ++ [char]) inString stringChar
      else if (char =? 123) || (char =? 91) then
        match String_repeat [32; 32] (indent + 1) with
        | Returned pad =>
            beautifyJs_loop s' (Some char) (indent + 1)
              (result ++ (char :: 10 :: pad)) inString stringChar
        | RangeError => RangeError
        end
      else if (char =? 125) || (char =? 93) then
        match String_repeat [32; 32] (indent - 1) with
        | Returned pad =>
            beautifyJs_loop s' (Some char) (indent - 1)
              (result ++ (10 :: pad ++ [char])) inString stringChar
        | RangeError => RangeError
        end
      else if char =? 59 then
        match String_repeat [32; 32] indent with
        | Returned pad =>
            beautifyJs_loop s' (Some char) indent
              (result ++ (59 :: 10 :: pad)) inString stringChar
        | RangeError => RangeError
        end
      else if char =? 44 then
        match String_repeat [32; 32] indent with
        | Returned pad =>
            beautifyJs_loop s' (Some char) indent
              (result ++ (44 :: 10 :: pad)) inString stringChar
        | RangeError => RangeError
        end
      else
        beautifyJs_loop s' (Some char) indent (result ++ [char]) inString stringChar
  end.

Definition beautifyJs (input : jsstring) : or_range_error jsstring :=
  match beautifyJs_loop (trim input) None 0 [] false [] with
  | Returned result =>
      let result := drop_blank_from result 0 in
      let result := squeeze_runs 10 3 [10; 10] result 0 in
      Returned (trim result)
  | RangeError => RangeError
  end.

(** The text without its white space. *)
Definition ink (s : jsstring) : jsstring := filter not_space s.

(** Whether [s] holds [n] characters [c] in a row, [run] of them being
    counted already. *)
Fixpoint has_run_from (c : Z) (n : nat) (s : jsstring) (run : nat) : bool :=
  (n <=? run)%nat
  || match s with
     | [] => false
     | x :: s' => if x =? c then has_run_from c n s' (S run)
                  else has_run_from c n s' 0
     end.

Definition has_run (c : Z) (n : nat) (s : jsstring) : bool := has_run_from c n s 0.

(** How many brackets and braces are opened, and closed, in a text. *)
Definition opened (s : jsstring) : Z :=
  len (filter (fun c => (c =? 123) || (c =? 91)) s).

Definition closed (s : jsstring) : Z :=
  len (filter (fun c => (c =? 125) || (c =? 93)) s).

(** No quotation mark of the three kinds. *)
Definition quote_free (s : jsstring) : bool :=
  forallb (fun c => negb ((c =? 34) || (c =? 39) || (c =? 96))) s.

(** ** The Lorem Ipsum generator *)

Definition LOREM_WORDS : list string :=
  ["lorem"; "ipsum"; "dolor"; "sit"; "amet"; "consectetur"; "adipiscing";
   "elit"; "sed"; "do"; "eiusmod"; "tempor"; "incididunt"; "ut"; "labore";
   "et"; "dolore"; "magna"; "aliqua"; "enim"; "ad"; "minim"; "veniam";
   "quis"; "nostrud"; "exercitation"; "ullamco"; "laboris"; "nisi";
   "aliquip"; "ex"; "ea"; "commodo"; "consequat"; "duis"; "aute"; "irure";
   "in"; "reprehenderit"; "voluptate"; "velit"; "esse"; "cillum"; "fugiat";
   "nulla"; "pariatur"; "excepteur"; "sint"; "occaecat"; "cupidatat"; "non";
   "proident"; "sunt"; "culpa"; "qui"; "officia"; "deserunt"; "mollit";
   "anim"; "id"; "est"; "laborum"]%string.

(** [a[i]]: undefined outside the array. *)
Definition array_get {A} (a : list A) (i : Z) : option A :=
  if i <? 0 then None else nth_error a (Z.to_nat i).

(** [a[i] = v]: an index past the end extends the array. *)
Fixpoint array_set {A} (a : list (option A)) (i : nat) (v : A) : list (option A) :=
  match a, i with
  | _ :: r, O => Some v :: r
  | x :: r, S i' => x :: array_set r i' v
  | [], O => [Some v]
  | [], S i' => None :: array_set [] i' v
  end.

(** The first loop: [n] words are pushed, the word of the [k]-th call of
    [Math.floor(Math.random() * LOREM_WORDS.length)] first. The numbers drawn
    are a parameter, [word_draws]. *)
Fixpoint lorem_push (word_draws : nat -> Z) (k n : nat) : list (option jsstring) :=
  match n with
  | O => []
  | S n' =>
      array_get (map js LOREM_WORDS) (word_draws k) :: lorem_push word_draws (S k) n'
  end.

(** [w.charAt(0).toUpperCase() + w.slice(1)], for a word in ASCII; reading
    [charAt] of undefined throws a TypeError. *)
Definition capitalize (w : option jsstring) : completion jsstring :=
  match w with
  | None => Throw TypeError
  | Some [] => Normal []
  | Some (c :: r) => Normal (fold_case c :: r)
  end.

(** An array element in a string concatenation, and in [join]. *)
Definition text_of (w : option jsstring) : jsstring :=
  match w with
  | Some s => s
  | None => js "undefined"
  end.

Definition join_item (w : option jsstring) : jsstring :=
  match w with
  | Some s => s
  | None => []
  end.

(** [words.map((word, i) => ...)] from index [i] on, for the [n] elements
    left. The callback writes to [words], the array [map] is reading, and
    counts in [sentenceLength]. *)
Fixpoint lorem_map (n i : nat) (words : list (option jsstring))
  (sentenceLength maxSentence : Z) : completion (list (option jsstring)) :=
  match n with
  | O => Normal []
  | S n' =>
      let word := nth i words None in
      let sentenceLength := sentenceLength + 1 in
      if (maxSentence <=? sentenceLength)
         && (Z.of_nat i <? Z.of_nat (List.length words) - 1)
      then
        next <- capitalize (nth (S i) words None) ;;
        rest <- lorem_map n' (S i) (array_set words (S i) next) 0 maxSentence ;;
        Normal (Some (text_of word ++ js ".") :: rest)
      else
        rest <- lorem_map n' (S i) words sentenceLength maxSentence ;;
        Normal (word :: rest)
  end.

(** [generateLorem(wordCount)] for an integer [wordCount]; [sentence_draw] is
    the value of [Math.floor(Math.random() * 7)]. *)
Definition generateLorem (word_draws : nat -> Z) (sentence_draw : Z)
  (wordCount : Z) : completion jsstring :=
  let words := lorem_push word_draws 0 (Z.to_nat wordCount) in
  first <- capitalize (nth 0 words None) ;;
  let words := array_set words 0 first in
  let maxSentence := 8 + sentence_draw in
  out <- lorem_map (List.length words) 0 words 0 maxSentence ;;
  Normal (join (js " ") (map join_item out) ++ js ".").

(** Every number drawn for a word is an index of [LOREM_WORDS]. *)
Definition draws_below_62 (word_draws : nat -> Z) : Prop :=
  forall k, 0 <= word_draws k < 62.

(** A word of the list, as it is or with a capital. *)
Definition cap (s : jsstring) : jsstring :=
  match s with
  | [] => []
  | c :: r => fold_case c :: r
  end.

Definition lorem_entry (s : jsstring) : bool :=
  existsb (fun b => jsstring_eqb s (js b) || jsstring_eqb s (cap (js b))) LOREM_WORDS.

(** A word of the text: a word of the list, with or without a capital,
    with or without a full stop behind it. *)
Definition is_lorem_word (w : jsstring) : bool :=
  lorem_entry w
  || match rev w with
     | c :: r => (c =? 46) && lorem_entry (rev r)
     | [] => false
     end.

Definition starts_upper (w : jsstring) : bool :=
  match w with
  | c :: _ => is_upper c
  | [] => false
  end.

Definition ends_with_stop (w : jsstring) : bool :=
  match rev w with
  | c :: _ => c =? 46
  | [] => false
  end.

(** The first word, and every word behind a full stop, has a capital. *)
Fixpoint capitals_follow (after_stop : bool) (ws : list jsstring) : bool :=
  match ws with
  | [] => true
  | w :: r =>
      (if after_stop then starts_upper w else true)
      && capitals_follow (ends_with_stop w) r
  end.

(** Every element of the array is a word of the list, with or without a
    capital. *)
Definition lorem_entries (words : list (option jsstring)) : Prop :=
  Forall (fun w => exists s, w = Some s /\ lorem_entry s = true) words.

(** How many words a list holds. *)
Definition len_words (ws : list jsstring) : Z := Z.of_nat (List.length ws).

(** ** Vocabulary for encoded URLs *)

(** The characters of a text that [encodeURIComponent] wrote: those it
    leaves as they are, and the percent sign of its escapes, whose digits are
    among the former. *)
Definition uri_char (c : Z) : bool := uri_unescaped c || (c =? 37).

(** ** The conditions of the JWT detector *)




(** ** Rounding to a Number, by value *)

(** Where [N / D] lies between the integer below it and the next one. *)
Definition loc_of (N D : Z) : location :=
  if N mod D =? 0 then loc_Exact
  else loc_Inexact (Z.compare (2 * (N mod D)) D).

(** The integer nearest to [N / D], the even one of two that are equally
    near. *)
Definition rne (N D : Z) : Z := round_nearest_even (N / D) (loc_of N D).

(** Binary digits kept below the point, more than any exponent of a Number
    goes down. *)
Definition guard : Z := 1100.

(** The exponent of the Number format at the magnitude of [a / b]. *)
Definition cexp (a b : Z) : Z :=
  fexp prec emax (Zdigits2 (a * 2 ^ guard / b) - guard).

(** The last steps of [binary_round_aux]: a carry out of the mantissa, and
    the overflow. *)
Definition finish (sx : bool) (M E : Z) : spec_float :=
  let '(mrs, e2) := shr_fexp prec emax M E loc_Exact in
  match shr_m mrs with
  | Z0 => S754_zero sx
  | Zpos m => if e2 <=? emax - prec then S754_finite sx m e2 else S754_infinity sx
  | Zneg _ => S754_nan
  end.

(** The Number nearest to [a / b], with the sign [sx], as a function of
    the quotient alone. *)
Definition round_ratio (sx : bool) (a b : Z) : spec_float :=
  let E := cexp a b in
  finish sx (rne (a * 2 ^ guard) (b * 2 ^ (E + guard))) E.

(** A power with an integer exponent as a quotient of two integers:
    [base ^ e] is [pow_num base e / pow_den base e]. *)
Definition pow_num (base e : Z) : Z := if 0 <=? e then base ^ e else 1.
Definition pow_den (base e : Z) : Z := if 0 <=? e then 1 else base ^ (- e).

(** The [k] decimal digits of [v], the most significant first, with
    leading zeros. *)
Fixpoint dec_digits (k : nat) (v : Z) : jsstring :=
  match k with
  | O => []
  | S k' => dec_digits k' (v / 10) ++ [48 + v mod 10]
  end.

(** Reading digits stops in front of this string. *)
Definition stops (rest : jsstring) : Prop :=
  match rest with
  | [] => True
  | c :: _ => digit_value 10 c = None
  end.

(** ** JSON values and their round trip *)

(** The normalization of a numeric literal: negative zero is written [0],
    which reads as zero. *)
Definition plain_zero (n : float) : float :=
  if PrimFloat.is_zero n then zero else n.

(** A value with every negative zero replaced by zero. *)
Fixpoint normalize (v : JValue) : JValue :=
  match v with
  | JNum n => JNum (plain_zero n)
  | JArr l => JArr (map normalize l)
  | JObj o => JObj (map (fun kv => (fst kv, normalize (snd kv))) o)
  | _ => v
  end.

Section Forall2b.
Context {A B : Type} (f : A -> B -> bool).

(** The two lists have the same length and [f] holds of their elements,
    pair by pair. *)
Fixpoint forall2b (l : list A) (m : list B) : bool :=
  match l, m with
  | [], [] => true
  | x :: l', y :: m' => f x y && forall2b l' m'
  | _, _ => false
  end.
End Forall2b.

(** Deep equality of two JSON values: the same shape, numbers equal by
    [===] (which does not tell negative zero from zero), strings equal,
    the same properties in the same order. *)
Fixpoint deep_equal (a b : JValue) : bool :=
  match a, b with
  | JNull, JNull => true
  | JBool x, JBool y => Bool.eqb x y
  | JNum x, JNum y => PrimFloat.eqb x y
  | JStr s, JStr t => jsstring_eqb s t
  | JArr l, JArr m => forall2b deep_equal l m
  | JObj o, JObj p =>
      forall2b (fun kv kw => jsstring_eqb (fst kv) (fst kw)
                             && deep_equal (snd kv) (snd kw)) o p
  | _, _ => false
  end.

(** The JSON-serializable values: null, booleans, finite numbers, strings
    of code units, arrays of such values, and objects of such values (a
    property list with no key twice, array indices first and ascending). *)
Fixpoint serializable (v : JValue) : Prop :=
  match v with
  | JNull => True
  | JBool _ => True
  | JNum n => PrimFloat.is_finite n = true
  | JStr s => code_units s = true
  | JArr l =>
      (fix all (l : list JValue) : Prop :=
         match l with
         | [] => True
         | e :: r => serializable e /\ all r
         end) l
  | JObj o =>
      own_properties o
      /\ (fix all (o : list (jsstring * JValue)) : Prop :=
            match o with
            | [] => True
            | kv :: r => code_units (fst kv) = true /\ serializable (snd kv) /\ all r
            end) o
  end.

(** The round trip of a value [x] through the two functions: the text that
    [minifyJson] makes of [prettyPrintJson(x)] parses to a value deep-equal
    to [x]. *)
Definition parses_back (x : JValue) : Prop :=
  exists y,
    JSON_parse (minifyJson (Text (prettyPrintJson (as_argument x)))) = Normal y
    /\ deep_equal y x = true.

(** Numbers of every layout of [Number::toString], a negative zero among
    them, in an array inside an object. *)
Definition sample_numbers : JValue :=
  JObj [(js "n", JArr [JNum 0.1; JNum (-0); JNum 1e21; JNum 5e-324; JNum 123456789;
                       JNum (-2.5e-7); JNum 1.7976931348623157e308]);
        (js "s", JStr (js "x"))].

(* ================================================================== *)
(** * Part II: properties *)
(* ================================================================== *)

(** ** The derivative matcher decides the language *)

Lemma Match_void_inv s : Match Void s -> False.
Proof. intro H; inversion H. Qed.

Lemma Match_eps_inv s : Match Eps s -> s = [].
Proof. intro H; inversion H; reflexivity. Qed.

Lemma Match_cls_inv p s : Match (Cls p) s -> exists c, s = [c] /\ p c = true.
Proof. intro H; inversion H; subst; eauto. Qed.

Lemma Match_seq_inv a b s :
  Match (Seq a b) s -> exists u v, s = u ++ v /\ Match a u /\ Match b v.
Proof. intro H; inversion H; subst; eauto. Qed.

Lemma Match_alt_inv a b s : Match (Alt a b) s -> Match a s \/ Match b s.
Proof. intro H; inversion H; subst; auto. Qed.

Lemma Match_seq_intro a b u v s :
  s = u ++ v -> Match a u -> Match b v -> Match (Seq a b) s.
Proof. intros -> Ha Hb. now constructor. Qed.

Lemma nullable_Match r : nullable r = true <-> Match r [].
Proof.
  induction r; simpl; split; intro H; try discriminate.
  - now apply Match_void_inv in H.
  - constructor.
  - reflexivity.
  - apply Match_cls_inv in H as (c & E & _). discriminate.
  - apply andb_true_iff in H as [Ha Hb].
    apply (Match_seq_intro _ _ [] []); tauto.
  - apply Match_seq_inv in H as (u & v & E & Hu & Hv).
    symmetry in E. apply app_eq_nil in E as [-> ->].
    apply andb_true_iff. tauto.
  - apply orb_true_iff in H as [Ha|Hb]; [apply M_alt_l | apply M_alt_r]; tauto.
  - apply orb_true_iff. apply Match_alt_inv in H. tauto.
  - constructor.
  - reflexivity.
Qed.

Lemma mkSeq_Match a b s : Match (mkSeq a b) s <-> Match (Seq a b) s.
Proof.
  unfold mkSeq.
  destruct (is_void a) eqn:Va; [destruct a; try discriminate|].
  { simpl. split; intro H; [now apply Match_void_inv in H|].
    apply Match_seq_inv in H as (u & v & _ & Hu & _). now apply Match_void_inv in Hu. }
  destruct (is_void b) eqn:Vb; [destruct b; try discriminate|].
  { simpl. split; intro H; [now apply Match_void_inv in H|].
    apply Match_seq_inv in H as (u & v & _ & _ & Hv). now apply Match_void_inv in Hv. }
  simpl. destruct (is_eps a) eqn:Ea; [destruct a; try discriminate|tauto].
  split; intro H.
  - apply (Match_seq_intro _ _ [] s); auto. constructor.
  - apply Match_seq_inv in H as (u & v & -> & Hu & Hv).
    apply Match_eps_inv in Hu. now subst.
Qed.

Lemma mkAlt_Match a b s : Match (mkAlt a b) s <-> Match (Alt a b) s.
Proof.
  unfold mkAlt.
  destruct (is_void a) eqn:Va; [destruct a; try discriminate|].
  { split; intro H; [now apply M_alt_r|].
    apply Match_alt_inv in H as [H|H]; [now apply Match_void_inv in H | exact H]. }
  destruct (is_void b) eqn:Vb; [destruct b; try discriminate|tauto].
  split; intro H; [now apply M_alt_l|].
  apply Match_alt_inv in H as [H|H]; [exact H | now apply Match_void_inv in H].
Qed.

(** A non-empty word of [r*] starts with a non-empty word of [r]. *)
Lemma Match_star_cons r c s :
  Match (Star r) (c :: s) ->
  exists u v, s = u ++ v /\ Match r (c :: u) /\ Match (Star r) v.
Proof.
  intro H. remember (Star r) as r' eqn:Er. remember (c :: s) as w eqn:Ew.
  revert c s Ew. induction H; intros c0 s0 Ew; try discriminate.
  injection Er as ->.
  destruct u as [|d u].
  - simpl in Ew. apply IHMatch2; auto.
  - simpl in Ew. injection Ew as -> <-. exists u, v. auto.
Qed.

Lemma Match_seq_cons a b c s :
  Match (Seq a b) (c :: s) <->
  (exists u v, s = u ++ v /\ Match a (c :: u) /\ Match b v)
  \/ (Match a [] /\ Match b (c :: s)).
Proof.
  split.
  - intro H. apply Match_seq_inv in H as (u & v & E & Hu & Hv).
    destruct u as [|d u]; simpl in E.
    + subst v. auto.
    + injection E as <- ->. left; eauto.
  - intros [(u & v & -> & Hu & Hv) | [Ha Hb]].
    + now apply (Match_seq_intro _ _ (c :: u) v).
    + now apply (Match_seq_intro _ _ [] (c :: s)).
Qed.

Lemma deriv_Match r : forall c s, Match (deriv c r) s <-> Match r (c :: s).
Proof.
  induction r; intros c s; simpl.
  - split; intro H; inversion H.
  - split; intro H; inversion H.
  - destruct (p c) eqn:E; split; intro H.
    + apply Match_eps_inv in H. subst. now constructor.
    + apply Match_cls_inv in H as (d & [= -> ->] & _). constructor.
    + now apply Match_void_inv in H.
    + apply Match_cls_inv in H as (d & [= -> ->] & Hd). congruence.
  - assert (Hseq: Match (mkSeq (deriv c r1) r2) s <->
                  exists u v, s = u ++ v /\ Match r1 (c :: u) /\ Match r2 v).
    { rewrite mkSeq_Match. split.
      - intro H. apply Match_seq_inv in H as (u & v & -> & Hu & Hv).
        exists u, v. rewrite <- IHr1. auto.
      - intros (u & v & -> & Hu & Hv).
        apply (Match_seq_intro _ _ u v); auto. now apply IHr1. }
    rewrite Match_seq_cons.
    destruct (nullable r1) eqn:En.
    + rewrite mkAlt_Match. split; intro H.
      * apply Match_alt_inv in H as [H|H].
        -- left. now apply Hseq.
        -- right. split; [now apply nullable_Match | now apply IHr2].
      * destruct H as [H|[_ H]].
        -- apply M_alt_l. now apply Hseq.
        -- apply M_alt_r. now apply IHr2.
    + rewrite Hseq. split; [tauto|].
      intros [H|[H _]]; [exact H|].
      apply nullable_Match in H. congruence.
  - rewrite mkAlt_Match. split; intro H.
    + apply Match_alt_inv in H as [H|H];
        [apply M_alt_l; now apply IHr1 | apply M_alt_r; now apply IHr2].
    + apply Match_alt_inv in H as [H|H];
        [apply M_alt_l; now apply IHr1 | apply M_alt_r; now apply IHr2].
  - rewrite mkSeq_Match. split; intro H.
    + apply Match_seq_inv in H as (u & v & -> & Hu & Hv). apply IHr in Hu.
      change (c :: u ++ v) with ((c :: u) ++ v). now constructor.
    + apply Match_star_cons in H as (u & v & -> & Hu & Hv).
      apply (Match_seq_intro _ _ u v); auto. now apply IHr.
Qed.

Theorem matches_Match r s : matches r s = true <-> Match r s.
Proof.
  revert r. induction s as [|c s IH]; intro r; simpl.
  - apply nullable_Match.
  - rewrite IH. apply deriv_Match.
Qed.

Lemma regex_test_Match r s : regex_test r s = true <-> Match r s.
Proof. apply matches_Match. Qed.

Lemma regex_test_false r s : ~ Match r s -> regex_test r s = false.
Proof.
  intro H. destruct (regex_test r s) eqn:E; [|reflexivity].
  now apply regex_test_Match in E.
Qed.

(** ** Languages of the repetition operators on a character class *)

Lemma Match_star_cls p t : Match (Star (Cls p)) t <-> forallb p t = true.
Proof.
  split.
  - intro H. remember (Star (Cls p)) as r eqn:Er.
    induction H; try discriminate; [reflexivity|].
    injection Er as ->. apply Match_cls_inv in H as (c & -> & Hc).
    simpl. rewrite Hc. auto.
  - induction t as [|c t IH]; simpl; intro H; [constructor|].
    apply andb_true_iff in H as [Hc Ht].
    change (c :: t) with ([c] ++ t). constructor; [now constructor | auto].
Qed.

Lemma Match_rep_S r n t : Match (Rep (S n) r) t <-> Match (Seq r (Rep n r)) t.
Proof.
  destruct n; [simpl|reflexivity]. split; intro H.
  - apply (Match_seq_intro _ _ t []); [now rewrite app_nil_r | exact H | constructor].
  - apply Match_seq_inv in H as (u & v & -> & Hu & Hv).
    apply Match_eps_inv in Hv. subst. now rewrite app_nil_r.
Qed.

Lemma Match_rep_cls p n t :
  Match (Rep n (Cls p)) t <-> List.length t = n /\ forallb p t = true.
Proof.
  revert t. induction n as [|n IH]; intro t.
  - simpl. split.
    + intro H. apply Match_eps_inv in H. now subst.
    + intros [H _]. destruct t; [constructor | discriminate].
  - rewrite Match_rep_S. split.
    + intro H. apply Match_seq_inv in H as (u & v & -> & Hu & Hv).
      apply Match_cls_inv in Hu as (c & -> & Hc). apply IH in Hv as [Hl Hv].
      simpl. rewrite Hc, Hv, Hl. auto.
    + intros [Hl Hp]. destruct t as [|c t]; [discriminate|].
      simpl in *. apply andb_true_iff in Hp as [Hc Ht].
      apply (Match_seq_intro _ _ [c] t); [reflexivity | now constructor |].
      apply IH. split; [lia | exact Ht].
Qed.

Lemma Match_upto_cls p k t :
  Match (UpTo k (Cls p)) t <-> (List.length t <= k)%nat /\ forallb p t = true.
Proof.
  revert t. induction k as [|k IH]; intro t; simpl.
  - split.
    + intro H. apply Match_eps_inv in H. subst. auto.
    + intros [H _]. destruct t; [constructor | simpl in H; lia].
  - unfold Opt. split.
    + intro H. apply Match_alt_inv in H as [H|H].
      * apply Match_seq_inv in H as (u & v & -> & Hu & Hv).
        apply Match_cls_inv in Hu as (c & -> & Hc). apply IH in Hv as [Hl Hv].
        simpl. rewrite Hc, Hv. split; [lia | reflexivity].
      * apply Match_eps_inv in H. subst. simpl. split; [lia | reflexivity].
    + intros [Hl Hp]. destruct t as [|c t]; [apply M_alt_r; constructor|].
      simpl in *. apply andb_true_iff in Hp as [Hc Ht].
      apply M_alt_l.
      apply (Match_seq_intro _ _ [c] t); [reflexivity | now constructor |].
      apply IH. split; [lia | exact Ht].
Qed.

Lemma forallb_split_at {A} (p : A -> bool) n (t : list A) :
  forallb p t = true ->
  forallb p (firstn n t) = true /\ forallb p (skipn n t) = true.
Proof.
  intro H. rewrite <- (firstn_skipn n t) in H.
  rewrite forallb_app in H. now apply andb_true_iff in H.
Qed.

Lemma Match_between_cls p n k t :
  (0 < n)%nat ->
  Match (Between n k (Cls p)) t <->
  (n <= List.length t <= n + k)%nat /\ forallb p t = true.
Proof.
  intro Hn. unfold Between. destruct n as [|n]; [lia|]. split.
  - intro H. apply Match_seq_inv in H as (u & v & -> & Hu & Hv).
    apply Match_rep_cls in Hu as [Hlu Hu]. apply Match_upto_cls in Hv as [Hlv Hv].
    rewrite length_app, forallb_app, Hu, Hv. split; [lia | reflexivity].
  - intros [Hl Hp]. apply (forallb_split_at _ (S n)) in Hp as [H1 H2].
    apply (Match_seq_intro _ _ (firstn (S n) t) (skipn (S n) t)).
    + now rewrite firstn_skipn.
    + apply Match_rep_cls. split; [rewrite length_firstn; lia | exact H1].
    + apply Match_upto_cls. split; [rewrite length_skipn; lia | exact H2].
Qed.

Lemma Match_atleast_cls p n t :
  Match (AtLeast n (Cls p)) t <-> (n <= List.length t)%nat /\ forallb p t = true.
Proof.
  unfold AtLeast. destruct n as [|n].
  - rewrite Match_star_cls. split; [intro; split; [lia | assumption] | tauto].
  - split.
    + intro H. apply Match_seq_inv in H as (u & v & -> & Hu & Hv).
      apply Match_rep_cls in Hu as [Hlu Hu]. apply Match_star_cls in Hv.
      rewrite length_app, forallb_app, Hu, Hv. split; [lia | reflexivity].
    + intros [Hl Hp]. apply (forallb_split_at _ (S n)) in Hp as [H1 H2].
      apply (Match_seq_intro _ _ (firstn (S n) t) (skipn (S n) t)).
      * now rewrite firstn_skipn.
      * apply Match_rep_cls. split; [rewrite length_firstn; lia | exact H1].
      * now apply Match_star_cls.
Qed.

(** A pattern [a (c) b] only matches strings that have a [c]. *)
Lemma Match_needs_char a p b t :
  Match (Seq a (Seq (Cls p) b)) t -> exists c, In c t /\ p c = true.
Proof.
  intro H. apply Match_seq_inv in H as (u & v & -> & _ & H).
  apply Match_seq_inv in H as (w & x & -> & H & _).
  apply Match_cls_inv in H as (c & -> & Hc).
  exists c. split; [|exact Hc]. rewrite !in_app_iff. simpl. auto.
Qed.

(** A pattern that starts with a class only matches strings whose first
    character is in the class. *)
Lemma Match_first_char p b t :
  Match (Seq (Cls p) b) t -> exists c t', t = c :: t' /\ p c = true.
Proof.
  intro H. apply Match_seq_inv in H as (u & v & -> & H & _).
  apply Match_cls_inv in H as (c & -> & Hc). exists c, v. auto.
Qed.

Lemma matches_Void s : matches Void s = false.
Proof. induction s; simpl; auto. Qed.

(** If the derivative by [c] is empty, nothing that starts with [c] matches. *)
Lemma dead_start r c t : is_void (deriv c r) = true -> matches r (c :: t) = false.
Proof.
  intro H. simpl. destruct (deriv c r); try discriminate. apply matches_Void.
Qed.

(** ** No exception escapes a detector *)

Lemma returns_Normal {A} (a : A) : returns (Normal a).
Proof. now exists a. Qed.

Lemma try_catch_returns {A} (body : completion A) (a : A) :
  returns (try_catch body (Normal a)).
Proof. destruct body; simpl; eauto using returns_Normal. Qed.

Create HintDb detect.
#[local] Hint Resolve returns_Normal try_catch_returns : detect.

Ltac split_ifs :=
  repeat match goal with
         | |- context [if ?b then _ else _] => destruct b
         | |- context [match ?x with Some _ => _ | None => _ end] => destruct x
         end.

Lemma detectJwt_returns s : returns (detectJwt s).
Proof. unfold detectJwt, null. cbv zeta. split_ifs; auto with detect. Qed.

Lemma detectUuid_returns s : returns (detectUuid s).
Proof. unfold detectUuid, null, result. cbv zeta. split_ifs; auto with detect. Qed.

Lemma detectJson_returns s : returns (detectJson s).
Proof. unfold detectJson, null. cbv zeta. split_ifs; auto with detect. Qed.

Lemma detectColor_returns s : returns (detectColor s).
Proof. unfold detectColor, null, result. cbv zeta. split_ifs; auto with detect. Qed.

Lemma detectTimestamp_returns s : returns (detectTimestamp s).
Proof. unfold detectTimestamp, null, result. cbv zeta. split_ifs; auto with detect. Qed.

Lemma detectNumber_returns s : returns (detectNumber s).
Proof. unfold detectNumber, null, result. cbv zeta. split_ifs; auto with detect. Qed.

Lemma detectUrlEncoded_returns s : returns (detectUrlEncoded s).
Proof. unfold detectUrlEncoded, null. cbv zeta. split_ifs; auto with detect. Qed.

Lemma detectBase64_returns s : returns (detectBase64 s).
Proof. unfold detectBase64, null. cbv zeta. split_ifs; auto with detect. Qed.

Lemma detectHtml_returns s : returns (detectHtml s).
Proof. unfold detectHtml, null, result. cbv zeta. split_ifs; auto with detect. Qed.

Lemma detectCss_returns s : returns (detectCss s).
Proof. unfold detectCss, null, result. cbv zeta. split_ifs; auto with detect. Qed.

Lemma detectJavaScript_returns s : returns (detectJavaScript s).
Proof. unfold detectJavaScript, null, result. cbv zeta. split_ifs; auto with detect. Qed.

Lemma detectors_return d :
  In d detectors -> forall s, returns (d s).
Proof.
  unfold detectors. simpl.
  intros [<-|[<-|[<-|[<-|[<-|[<-|[<-|[<-|[<-|[<-|[<-|[]]]]]]]]]]]] s.
  - apply detectJwt_returns.
  - apply detectUuid_returns.
  - apply detectJson_returns.
  - apply detectColor_returns.
  - apply detectTimestamp_returns.
  - apply detectNumber_returns.
  - apply detectUrlEncoded_returns.
  - apply detectBase64_returns.
  - apply detectHtml_returns.
  - apply detectCss_returns.
  - apply detectJavaScript_returns.
Qed.

Lemma first_match_returns ds s :
  (forall d, In d ds -> forall s, returns (d s)) -> returns (first_match ds s).
Proof.
  induction ds as [|d ds IH]; intro H; simpl.
  - apply returns_Normal.
  - destruct (H d (or_introl eq_refl) s) as [[r|] ->]; simpl.
    + apply returns_Normal.
    + apply IH. intros d' Hd'. apply H. now right.
Qed.

(** C1. [detect] is total and never throws: every input, a string or not,
    yields a result; the empty string and every non-string input yield the
    [text] result with confidence 0.5 (and an empty [raw]). *)
Theorem detect_total :
  (forall i : input_value, exists r : DetectionResult, detect i = Normal r)
  /\ detect (Str []) = Normal (mkResult text 0.5 [] None)
  /\ detect NonString = Normal (mkResult text 0.5 [] None).
Proof.
  split; [|split; reflexivity].
  intros [s|]; unfold detect; [|eauto].
  destruct (len s =? 0); [eauto|].
  destruct (first_match_returns detectors s detectors_return) as [[r|] ->];
    simpl; eauto.
Qed.

(** ** Each detector produces its own type *)

Ltac break_goal :=
  match goal with
  | |- context [match ?x with _ => _ end] => destruct x eqn:?
  end.

(** Case analysis on an innermost scrutinee of [H]. *)
Ltac break_hyp H :=
  match type of H with
  | context [match ?x with _ => _ end] =>
      lazymatch x with
      | context [match _ with _ => _ end] => fail
      | _ => revert H; destruct x eqn:?; intro H; cbv beta iota in H
      end
  end.

Ltac detector_type :=
  let H := fresh "H" in
  intros ? H; unfold result, null, bind, try_catch in H; cbv beta iota in H;
  repeat break_hyp H; try discriminate;
  injection H as <-; reflexivity.

Lemma detectJwt_type s r : detectJwt s = Normal (Some r) -> type r = jwt.
Proof. revert r. unfold detectJwt. cbv zeta. detector_type. Qed.

Lemma detectUuid_type s r : detectUuid s = Normal (Some r) -> type r = uuid.
Proof. revert r. unfold detectUuid. cbv zeta. detector_type. Qed.

Lemma detectJson_type s r : detectJson s = Normal (Some r) -> type r = json.
Proof. revert r. unfold detectJson. cbv zeta. detector_type. Qed.

Lemma detectColor_type s r : detectColor s = Normal (Some r) -> type r = color.
Proof. revert r. unfold detectColor. cbv zeta. detector_type. Qed.

Lemma detectTimestamp_type s r :
  detectTimestamp s = Normal (Some r) -> type r = timestamp.
Proof. revert r. unfold detectTimestamp. cbv zeta. detector_type. Qed.

Lemma detectNumber_type s r : detectNumber s = Normal (Some r) -> type r = number.
Proof. revert r. unfold detectNumber. cbv zeta. detector_type. Qed.

Lemma detectUrlEncoded_type s r :
  detectUrlEncoded s = Normal (Some r) -> type r = url.
Proof. revert r. unfold detectUrlEncoded. cbv zeta. detector_type. Qed.

Lemma detectBase64_type s r : detectBase64 s = Normal (Some r) -> type r = base64.
Proof. revert r. unfold detectBase64. cbv zeta. detector_type. Qed.

Lemma detectHtml_type s r : detectHtml s = Normal (Some r) -> type r = html.
Proof. revert r. unfold detectHtml. cbv zeta. detector_type. Qed.

Lemma detectCss_type s r : detectCss s = Normal (Some r) -> type r = css.
Proof. revert r. unfold detectCss. cbv zeta. detector_type. Qed.

Lemma detectJavaScript_type s r :
  detectJavaScript s = Normal (Some r) -> type r = javascript.
Proof. revert r. unfold detectJavaScript. cbv zeta. detector_type. Qed.

(** ** [detect] in terms of its detectors *)

Lemma len_zero s : (len s =? 0) = true <-> s = [].
Proof.
  unfold len. destruct s; simpl; split; intro H; try reflexivity; discriminate.
Qed.

Lemma len_nonneg s : 0 <= len s.
Proof. unfold len. lia. Qed.

Lemma len_cons c t : len (c :: t) = 1 + len t.
Proof. unfold len. simpl List.length. lia. Qed.

Lemma first_match_hit d ds s r :
  d s = Normal (Some r) -> first_match (d :: ds) s = Normal (Some r).
Proof. intro H. simpl. now rewrite H. Qed.

Lemma first_match_miss d ds s :
  d s = Normal None -> first_match (d :: ds) s = first_match ds s.
Proof. intro H. simpl. now rewrite H. Qed.

Ltac type_of_hit :=
  match goal with
  | E : detectJwt _ = Normal (Some _) |- _ => apply detectJwt_type in E
  | E : detectUuid _ = Normal (Some _) |- _ => apply detectUuid_type in E
  | E : detectJson _ = Normal (Some _) |- _ => apply detectJson_type in E
  | E : detectColor _ = Normal (Some _) |- _ => apply detectColor_type in E
  | E : detectTimestamp _ = Normal (Some _) |- _ => apply detectTimestamp_type in E
  | E : detectNumber _ = Normal (Some _) |- _ => apply detectNumber_type in E
  | E : detectUrlEncoded _ = Normal (Some _) |- _ => apply detectUrlEncoded_type in E
  | E : detectBase64 _ = Normal (Some _) |- _ => apply detectBase64_type in E
  | E : detectHtml _ = Normal (Some _) |- _ => apply detectHtml_type in E
  | E : detectCss _ = Normal (Some _) |- _ => apply detectCss_type in E
  | E : detectJavaScript _ = Normal (Some _) |- _ => apply detectJavaScript_type in E
  end.

(** From [detect (Str s) = Normal r], one goal per way the loop can end. *)
Ltac walk_detectors H :=
  unfold detect, detectors, first_match, bind in H; cbv beta iota in H;
  repeat break_hyp H; try discriminate H;
  injection H as H; try subst.

Lemma classifies_timestamp s :
  classifies s timestamp <->
  s <> [] /\ detectJwt s = Normal None /\ detectUuid s = Normal None
  /\ detectJson s = Normal None /\ detectColor s = Normal None
  /\ exists r, detectTimestamp s = Normal (Some r).
Proof.
  split.
  - intros (r & H & T). walk_detectors H;
      try (type_of_hit; congruence); try discriminate T.
    repeat split; eauto. intros ->. discriminate.
  - intros (Hs & E1 & E2 & E3 & E4 & r & E5).
    exists r. split; [|now apply detectTimestamp_type in E5].
    unfold detect. destruct (len s =? 0) eqn:L; [now apply len_zero in L|].
    unfold detectors.
    rewrite !first_match_miss by assumption.
    now rewrite (first_match_hit _ _ _ _ E5).
Qed.

(** ** Strings of digits *)

Lemma is_digit_range c : is_digit c = true <-> 48 <= c <= 57.
Proof. unfold is_digit, in_range. rewrite andb_true_iff, !Z.leb_le. tauto. Qed.

Lemma is_digit_In c : is_digit c = true -> In c ten_digits.
Proof.
  intro H. apply is_digit_range in H. unfold ten_digits. simpl.
  assert (c = 48 \/ c = 49 \/ c = 50 \/ c = 51 \/ c = 52 \/ c = 53 \/ c = 54
          \/ c = 55 \/ c = 56 \/ c = 57) by lia.
  intuition.
Qed.

(** A property of the ten digits, checked by evaluation, holds of every
    digit. *)
Lemma by_digits (P : Z -> bool) :
  forallb P ten_digits = true -> forall c, is_digit c = true -> P c = true.
Proof.
  intros H c Hc. rewrite forallb_forall in H. apply H. now apply is_digit_In.
Qed.

Lemma digit_start_dead r :
  forallb (fun c => is_void (deriv c r)) ten_digits = true ->
  forall c t, is_digit c = true -> regex_test r (c :: t) = false.
Proof.
  intros H c t Hc. apply dead_start.
  exact (by_digits (fun c => is_void (deriv c r)) H c Hc).
Qed.

Lemma all_digits_no_char t c :
  all_digits t = true -> is_digit c = false -> ~ In c t.
Proof.
  unfold all_digits. rewrite forallb_forall. intros H Hc Hin.
  apply H in Hin. congruence.
Qed.

Lemma read_digits_all t : forall acc n,
  all_digits t = true ->
  read_digits 10 t acc n
  = (fold_left (fun a c => a * 10 + (c - 48)) t acc, n + len t, []).
Proof.
  unfold all_digits, len.
  induction t as [|c t IH]; intros acc n H; simpl.
  - f_equal. f_equal. lia.
  - simpl in H. apply andb_true_iff in H as [Hc Ht].
    unfold digit_value. rewrite Hc.
    apply is_digit_range in Hc.
    replace (c - 48 <? 10) with true by (symmetry; apply Z.ltb_lt; lia).
    rewrite IH by exact Ht. f_equal. f_equal. lia.
Qed.

Lemma parseInt_digits t :
  t <> [] -> all_digits t = true -> parseInt t 10 = Some (digits_value t).
Proof.
  intros Hne H. destruct t as [|c t]; [contradiction|].
  assert (Hc : is_digit c = true) by (simpl in H; now apply andb_true_iff in H).
  unfold parseInt.
  assert (Hd : drop_space (c :: t) = c :: t).
  { assert (Hsp : is_space c = false).
    { apply negb_true_iff.
      exact (by_digits (fun c => negb (is_space c)) eq_refl c Hc). }
    simpl. now rewrite Hsp. }
  rewrite Hd. apply is_digit_range in Hc.
  replace (c =? 45) with false by (symmetry; apply Z.eqb_neq; lia).
  replace (c =? 43) with false by (symmetry; apply Z.eqb_neq; lia).
  change (10 =? 16) with false. cbv iota.
  rewrite read_digits_all by exact H.
  unfold digits_value.
  replace (0 + len (c :: t) =? 0) with false; [reflexivity|].
  symmetry. apply Z.eqb_neq. rewrite len_cons. pose proof (len_nonneg t). lia.
Qed.

Lemma digits_value_nonneg t : all_digits t = true -> 0 <= digits_value t.
Proof.
  unfold digits_value, all_digits.
  assert (G : forall acc, 0 <= acc -> forallb is_digit t = true ->
              0 <= fold_left (fun a c => a * 10 + (c - 48)) t acc).
  { induction t as [|c t IH]; intros acc Ha H; simpl; [exact Ha|].
    simpl in H. apply andb_true_iff in H as [Hc Ht].
    apply is_digit_range in Hc. apply IH; [lia | exact Ht]. }
  apply G. lia.
Qed.

(** ** C4: timestamps *)

Lemma EPOCH_REGEX_spec t :
  regex_test EPOCH_REGEX t = true <->
  (10 <= len t <= 13) /\ all_digits t = true.
Proof.
  rewrite regex_test_Match. unfold EPOCH_REGEX, digit.
  rewrite Match_between_cls by lia. unfold len, all_digits. split.
  - intros [H1 H2]. split; [lia | exact H2].
  - intros [H1 H2]. split; [lia | exact H2].
Qed.

Lemma digits_not_jwt t : all_digits t = true -> regex_test JWT_REGEX t = false.
Proof.
  intro H. apply regex_test_false. intro M.
  unfold JWT_REGEX in M. cbn [seqs] in M.
  apply Match_needs_char in M as (c & Hin & Hc).
  apply Z.eqb_eq in Hc. subst c.
  now apply (all_digits_no_char t _ H) in Hin.
Qed.

Lemma digits_not_uuid t : all_digits t = true -> regex_test UUID_REGEX t = false.
Proof.
  intro H. apply regex_test_false. intro M.
  unfold UUID_REGEX in M. cbn [seqs] in M.
  apply Match_needs_char in M as (c & Hin & Hc).
  apply Z.eqb_eq in Hc. subst c.
  now apply (all_digits_no_char t _ H) in Hin.
Qed.

Lemma digits_detectors_miss s :
  trim s <> [] -> all_digits (trim s) = true ->
  detectJwt s = Normal None /\ detectUuid s = Normal None
  /\ detectJson s = Normal None /\ detectColor s = Normal None.
Proof.
  intros Hne H. repeat split.
  - unfold detectJwt. cbv zeta. now rewrite digits_not_jwt.
  - unfold detectUuid. cbv zeta. now rewrite digits_not_uuid.
  - unfold detectJson. cbv zeta.
    destruct (trim s) as [|c t]; [contradiction|].
    assert (Hc : is_digit c = true) by (simpl in H; now apply andb_true_iff in H).
    apply is_digit_range in Hc.
    change (js "{") with [123]. change (js "[") with [91]. cbn [startsWith].
    replace (123 =? c) with false by (symmetry; apply Z.eqb_neq; lia).
    replace (91 =? c) with false by (symmetry; apply Z.eqb_neq; lia).
    reflexivity.
  - unfold detectColor. cbv zeta.
    destruct (trim s) as [|c t]; [contradiction|].
    assert (Hc : is_digit c = true) by (simpl in H; now apply andb_true_iff in H).
    rewrite !digit_start_dead; auto; vm_compute; reflexivity.
Qed.

(** What the timestamp detector answers on a trimmed string of digits. *)
Lemma detectTimestamp_spec s r :
  detectTimestamp s = Normal (Some r) <->
  all_digits (trim s) = true
  /\ ((len (trim s) = 10 /\ digits_value (trim s) <= 4102444800)
      \/ (len (trim s) = 13 /\ digits_value (trim s) <= 4102444800000))
  /\ r = mkResult timestamp 0.9 s
           (Some (ParsedEpoch
                    (Z_to_float (if len (trim s) =? 10
                                 then digits_value (trim s) * 1000
                                 else digits_value (trim s))))).
Proof.
  unfold detectTimestamp. cbv zeta.
  destruct (regex_test EPOCH_REGEX (trim s)) eqn:Ere.
  - apply EPOCH_REGEX_spec in Ere as [Hl Hd].
    assert (Hne : trim s <> []) by (intros E; rewrite E in Hl; unfold len in Hl; simpl in Hl; lia).
    rewrite parseInt_digits by assumption.
    pose proof (digits_value_nonneg _ Hd) as Hv.
    replace (0 <=? digits_value (trim s)) with true by (symmetry; now apply Z.leb_le).
    rewrite !andb_true_r. unfold result, null.
    destruct (len (trim s) =? 10) eqn:E10.
    + apply Z.eqb_eq in E10. rewrite E10. change (10 =? 13) with false. simpl.
      rewrite orb_false_r.
      destruct (digits_value (trim s) <=? 4102444800) eqn:Ev.
      * apply Z.leb_le in Ev. split.
        -- intros [= <-]. repeat split; auto.
        -- intros (_ & _ & ->). reflexivity.
      * apply Z.leb_gt in Ev. split; [discriminate|].
        intros (_ & [[_ Hx]|[Hx _]] & _); lia.
    + apply Z.eqb_neq in E10. simpl.
      destruct (len (trim s) =? 13) eqn:E13; simpl.
      * apply Z.eqb_eq in E13.
        destruct (digits_value (trim s) <=? 4102444800000) eqn:Ev.
        -- apply Z.leb_le in Ev. split.
           ++ intros [= <-]. repeat split; auto.
           ++ intros (_ & _ & ->). reflexivity.
        -- apply Z.leb_gt in Ev. split; [discriminate|].
           intros (_ & [[Hx _]|[_ Hx]] & _); lia.
      * apply Z.eqb_neq in E13. split; [discriminate|].
        intros (_ & [[Hx _]|[Hx _]] & _); lia.
  - split; [discriminate|]. intros (Hd & Hl & _).
    assert (regex_test EPOCH_REGEX (trim s) = true); [|congruence].
    apply EPOCH_REGEX_spec. split; [|exact Hd]. lia.
Qed.

(** C4. [detect] classifies an input as [timestamp] exactly when the trimmed
    input is a string of 10 or 13 ASCII digits whose value, read as seconds
    (10 digits) or as milliseconds (13 digits), lies in [0, 4102444800]
    seconds; [parsed] is then the epoch in milliseconds, a 10-digit value
    being multiplied by 1000. So 1700000000 and 1700000000000 both parse to
    1700000000000, and 99999999999999 is not a timestamp. *)
Theorem timestamp_detection :
  (forall s,
      classifies s timestamp <->
      all_digits (trim s) = true
      /\ ((len (trim s) = 10 /\ 0 <= digits_value (trim s) <= 4102444800)
          \/ (len (trim s) = 13
              /\ 0 <= digits_value (trim s) <= 4102444800 * 1000)))
  /\ (forall s r,
         detect (Str s) = Normal r -> type r = timestamp ->
         parsed r
         = Some (ParsedEpoch
                   (Z_to_float (if len (trim s) =? 10
                                then digits_value (trim s) * 1000
                                else digits_value (trim s)))))
  /\ detect (Str (js "1700000000"))
     = Normal (mkResult timestamp 0.9 (js "1700000000")
                 (Some (ParsedEpoch 1700000000000)))
  /\ detect (Str (js "1700000000000"))
     = Normal (mkResult timestamp 0.9 (js "1700000000000")
                 (Some (ParsedEpoch 1700000000000)))
  /\ ~ classifies (js "99999999999999") timestamp.
Proof.
  assert (Hiff : forall s,
      classifies s timestamp <->
      all_digits (trim s) = true
      /\ ((len (trim s) = 10 /\ 0 <= digits_value (trim s) <= 4102444800)
          \/ (len (trim s) = 13
              /\ 0 <= digits_value (trim s) <= 4102444800 * 1000))).
  { intro s. rewrite classifies_timestamp. split.
    - intros (_ & _ & _ & _ & _ & r & Hr).
      apply detectTimestamp_spec in Hr as (Hd & Hc & _).
      pose proof (digits_value_nonneg _ Hd). split; [exact Hd | lia].
    - intros (Hd & Hc).
      assert (Hne : trim s <> []).
      { intro E. rewrite E in Hc. unfold len in Hc. simpl in Hc. lia. }
      assert (Hs : s <> []) by (intros ->; now apply Hne).
      destruct (digits_detectors_miss s Hne Hd) as (E1 & E2 & E3 & E4).
      repeat split; auto.
      eexists. apply detectTimestamp_spec. split; [exact Hd|].
      split; [lia | reflexivity]. }
  split; [exact Hiff|]. split; [|split; [|split]].
  - intros s r Hr Ht.
    assert (Hc : classifies s timestamp) by (exists r; auto).
    apply classifies_timestamp in Hc as (Hs & E1 & E2 & E3 & E4 & r' & E5).
    assert (r = r').
    { unfold detect in Hr. destruct (len s =? 0) eqn:L; [now apply len_zero in L|].
      unfold detectors in Hr. rewrite !first_match_miss in Hr by assumption.
      rewrite (first_match_hit _ _ _ _ E5) in Hr. simpl in Hr. congruence. }
    subst r'. apply detectTimestamp_spec in E5 as (_ & _ & ->). reflexivity.
  - vm_compute. reflexivity.
  - vm_compute. reflexivity.
  - intro H. apply Hiff in H as (_ & [[H _]|[H _]]); vm_compute in H; discriminate.
Qed.

(** ** C5: base64 *)

Lemma classifies_base64 s :
  classifies s base64 <->
  s <> [] /\ detectJwt s = Normal None /\ detectUuid s = Normal None
  /\ detectJson s = Normal None /\ detectColor s = Normal None
  /\ detectTimestamp s = Normal None /\ detectNumber s = Normal None
  /\ detectUrlEncoded s = Normal None
  /\ exists r, detectBase64 s = Normal (Some r).
Proof.
  split.
  - intros (r & H & T). walk_detectors H;
      try (type_of_hit; congruence); try discriminate T.
    repeat split; eauto. intros ->. discriminate.
  - intros (Hs & E1 & E2 & E3 & E4 & E5 & E6 & E7 & r & E8).
    exists r. split; [|now apply detectBase64_type in E8].
    unfold detect. destruct (len s =? 0) eqn:L; [now apply len_zero in L|].
    unfold detectors.
    rewrite !first_match_miss by assumption.
    now rewrite (first_match_hit _ _ _ _ E8).
Qed.

Lemma detectBase64_spec s r :
  detectBase64 s = Normal (Some r) <->
  32 <= len (trim s) /\ base64_shape (trim s) = true
  /\ exists decoded,
      atob (from_base64url (trim s)) = Normal decoded
      /\ over_80_percent (printable_count decoded) (len decoded) = true
      /\ r = mkResult base64 0.85 s (Some (ParsedString decoded)).
Proof.
  unfold detectBase64, base64_shape, over_80_percent, printable_count.
  cbv zeta. unfold null, result, bind, try_catch.
  destruct (len (trim s) <? 32) eqn:El.
  { apply Z.ltb_lt in El. split; [discriminate | intros [H _]; lia]. }
  apply Z.ltb_ge in El.
  destruct (regex_test BASE64_REGEX (trim s));
    destruct (regex_test BASE64_URL_SAFE_REGEX (trim s)); simpl;
    try (destruct (atob (from_base64url (trim s))) as [d|e];
         [ destruct (0.8 <? Z_to_float (len (filter printable d))
                            / Z_to_float (len d))%float eqn:Er;
           [ split;
             [ intros [= <-]; repeat split; auto; exists d; auto
             | intros (_ & _ & d' & [= <-] & _ & ->); reflexivity ]
           | split; [discriminate|];
             intros (_ & _ & d' & [= <-] & Hr & _); congruence ]
         | split; [discriminate|]; intros (_ & _ & d' & Hd & _); discriminate ]).
  split; [discriminate|]. intros (_ & Hf & _). discriminate.
Qed.

Lemma drop_space_length s : (List.length (drop_space s) <= List.length s)%nat.
Proof. induction s as [|c s IH]; simpl; [lia|]. destruct (is_space c); simpl; lia. Qed.

Lemma trim_len s : len (trim s) <= len s.
Proof.
  unfold len, trim. rewrite length_rev.
  pose proof (drop_space_length (rev (drop_space s))) as H1.
  rewrite length_rev in H1. pose proof (drop_space_length s). lia.
Qed.

Lemma short_not_base64 s : len s < 32 -> ~ classifies s base64.
Proof.
  intros Hl H. apply classifies_base64 in H.
  destruct H as (_ & _ & _ & _ & _ & _ & _ & _ & r & Hr).
  apply detectBase64_spec in Hr as [H32 _].
  pose proof (trim_len s). lia.
Qed.

(** *** What a base64-shaped string cannot be *)

Lemma forallb_weaken {A} (p q : A -> bool) l :
  (forall x, p x = true -> q x = true) -> forallb p l = true -> forallb q l = true.
Proof.
  intros Hpq. induction l as [|x l IH]; simpl; [auto|].
  rewrite !andb_true_iff. intros [Hx Hl]. auto.
Qed.

Lemma base64_shape_chars t :
  base64_shape t = true -> 32 <= len t /\ forallb b64_char t = true.
Proof.
  unfold base64_shape, len. intro H. apply orb_true_iff in H as [H|H];
    apply regex_test_Match in H.
  - unfold BASE64_REGEX in H. apply Match_atleast_cls in H as [Hl Hp].
    split; [lia|]. revert Hp. apply forallb_weaken.
    intros c Hc. unfold b64_char. now rewrite Hc.
  - unfold BASE64_URL_SAFE_REGEX in H.
    apply Match_seq_inv in H as (u & v & -> & Hu & Hv).
    apply Match_atleast_cls in Hu as [Hl Hp]. apply Match_star_cls in Hv.
    rewrite length_app, forallb_app. split; [lia|].
    apply andb_true_iff. split.
    + revert Hp. apply forallb_weaken.
      intros c Hc. unfold b64_char. rewrite Hc. apply orb_true_r.
    + revert Hv. apply forallb_weaken.
      intros c Hc. apply Z.eqb_eq in Hc. now subst c.
Qed.

Lemma b64_chars_lack t c :
  forallb b64_char t = true -> b64_char c = false -> ~ In c t.
Proof.
  rewrite forallb_forall. intros H Hc Hin. apply H in Hin. congruence.
Qed.

Lemma Match_suffix a b t :
  Match (Seq a b) t -> exists u v, t = u ++ v /\ Match b v.
Proof. intro H. apply Match_seq_inv in H as (u & v & E & _ & Hv). eauto. Qed.

Lemma Match_prefix a b t :
  Match (Seq a b) t -> exists u v, t = u ++ v /\ Match a u.
Proof. intro H. apply Match_seq_inv in H as (u & v & E & Hu & _). eauto. Qed.

(** The function-call colour patterns need an opening parenthesis. *)
Lemma rgb_needs_paren t : Match RGB_COLOR_REGEX t -> In 40 t.
Proof.
  unfold RGB_COLOR_REGEX. cbn [seqs]. intro M.
  apply Match_suffix in M as (u1 & v1 & -> & M).
  apply Match_suffix in M as (u2 & v2 & -> & M).
  apply Match_needs_char in M as (c & Hin & Hc). apply Z.eqb_eq in Hc. subst c.
  rewrite !in_app_iff. auto.
Qed.

Lemma hsl_needs_paren t : Match HSL_COLOR_REGEX t -> In 40 t.
Proof.
  unfold HSL_COLOR_REGEX. cbn [seqs]. intro M.
  apply Match_suffix in M as (u1 & v1 & -> & M).
  apply Match_suffix in M as (u2 & v2 & -> & M).
  apply Match_needs_char in M as (c & Hin & Hc). apply Z.eqb_eq in Hc. subst c.
  rewrite !in_app_iff. auto.
Qed.

Lemma hex_color_needs_hash t : Match HEX_COLOR_REGEX t -> In 35 t.
Proof.
  unfold HEX_COLOR_REGEX. intro M.
  apply Match_first_char in M as (c & t' & -> & Hc).
  apply Z.eqb_eq in Hc. subst c. now left.
Qed.

Lemma url_encoded_needs_percent t : Match URL_ENCODED_REGEX t -> In 37 t.
Proof.
  unfold URL_ENCODED_REGEX, unanchored. intro M.
  apply Match_suffix in M as (u1 & v1 & -> & M).
  apply Match_prefix in M as (u2 & v2 & -> & M).
  apply Match_first_char in M as (c & t' & -> & Hc).
  apply Z.eqb_eq in Hc. subst c.
  rewrite !in_app_iff. simpl. auto.
Qed.

Lemma jwt_needs_dot t : Match JWT_REGEX t -> In 46 t.
Proof.
  unfold JWT_REGEX. cbn [seqs]. intro M.
  apply Match_needs_char in M as (c & Hin & Hc).
  apply Z.eqb_eq in Hc. now subst c.
Qed.

(** On a base64-shaped input only the UUID and the number detector can
    answer before the base64 detector. *)
Lemma base64_shape_misses s :
  base64_shape (trim s) = true ->
  detectJwt s = Normal None /\ detectJson s = Normal None
  /\ detectColor s = Normal None /\ detectTimestamp s = Normal None
  /\ detectUrlEncoded s = Normal None.
Proof.
  intro H. apply base64_shape_chars in H as [Hl Hc].
  assert (Hno : forall c, b64_char c = false -> ~ In c (trim s))
    by (intros c; now apply b64_chars_lack).
  repeat split.
  - unfold detectJwt. cbv zeta. rewrite regex_test_false; [reflexivity|].
    intro M. apply jwt_needs_dot in M. now apply Hno in M.
  - unfold detectJson. cbv zeta.
    destruct (trim s) as [|c t]; [reflexivity|].
    change (js "{") with [123]. change (js "[") with [91]. cbn [startsWith].
    destruct (123 =? c) eqn:E1.
    { apply Z.eqb_eq in E1. subst c. exfalso. apply (Hno 123); [reflexivity | now left]. }
    destruct (91 =? c) eqn:E2.
    { apply Z.eqb_eq in E2. subst c. exfalso. apply (Hno 91); [reflexivity | now left]. }
    reflexivity.
  - unfold detectColor. cbv zeta.
    rewrite !regex_test_false; [reflexivity| | |]; intro M.
    + apply hsl_needs_paren in M. now apply Hno in M.
    + apply rgb_needs_paren in M. now apply Hno in M.
    + apply hex_color_needs_hash in M. now apply Hno in M.
  - unfold detectTimestamp. cbv zeta.
    destruct (regex_test EPOCH_REGEX (trim s)) eqn:E; [|reflexivity].
    apply EPOCH_REGEX_spec in E. lia.
  - unfold detectUrlEncoded. cbv zeta. rewrite regex_test_false; [reflexivity|].
    intro M. apply url_encoded_needs_percent in M. now apply Hno in M.
Qed.

(** C5, as amended. [detect] classifies an input as [base64] exactly when
    neither the UUID nor the number detector claims it (the only earlier
    detectors that can, on such a string), the trimmed input is at least 32
    long, matches the base64 or the base64url-safe class, decodes, and more
    than 80 percent of the decoded characters are printable, the quotient
    being strictly above 0.8. A string of 20 alphanumeric characters is
    never base64. *)
Theorem base64_detection :
  (forall s,
      classifies s base64 <->
      detectUuid s = Normal None /\ detectNumber s = Normal None
      /\ 32 <= len (trim s) /\ base64_shape (trim s) = true
      /\ exists decoded,
          atob (from_base64url (trim s)) = Normal decoded
          /\ over_80_percent (printable_count decoded) (len decoded) = true)
  /\ (forall s, len s = 20 -> forallb is_alnum s = true -> ~ classifies s base64).
Proof.
  split.
  - intro s. rewrite classifies_base64. split.
    + intros (_ & _ & E2 & _ & _ & _ & E6 & _ & r & Hr).
      apply detectBase64_spec in Hr as (Hl & Hs & d & Hd & Ho & _).
      repeat split; eauto.
    + intros (E2 & E6 & Hl & Hs & d & Hd & Ho).
      destruct (base64_shape_misses s Hs) as (E1 & E3 & E4 & E5 & E7).
      assert (s <> []).
      { intros ->. vm_compute in Hl. now apply Hl. }
      repeat split; auto.
      eexists. apply detectBase64_spec. repeat split; eauto.
  - intros s Hl _. apply short_not_base64. lia.
Qed.

Lemma base64_as_specified_fails :
  (base64_as_specified (trim exactly_80_percent)
   /\ ~ classifies exactly_80_percent base64)
  /\ (base64_as_specified (trim hex_literal_in_base64)
      /\ ~ classifies hex_literal_in_base64 base64).
Proof.
  split; split.
  - split; [vm_compute; discriminate|]. split; [vm_compute; reflexivity|].
    eexists. split; [vm_compute; reflexivity|]. vm_compute. discriminate.
  - intros (r & Hr & Ht). vm_compute in Hr. injection Hr as <-. discriminate.
  - split; [vm_compute; discriminate|]. split; [vm_compute; reflexivity|].
    eexists. split; [vm_compute; reflexivity|]. vm_compute. discriminate.
  - intros (r & Hr & Ht). vm_compute in Hr. injection Hr as <-. discriminate.
Qed.

(** ** C8: URL-encoded text *)

Lemma jsstring_eqb_eq a b : jsstring_eqb a b = true <-> a = b.
Proof.
  unfold jsstring_eqb. destruct (list_eq_dec Z.eq_dec a b); split; auto; discriminate.
Qed.

Lemma digit_value_hex h v : digit_value 16 h = Some v -> is_hex h = true /\ h <> 37.
Proof.
  unfold digit_value, is_hex, is_digit, is_lower, is_upper, in_range.
  intro H.
  destruct ((48 <=? h) && (h <=? 57)) eqn:E1.
  { split; [reflexivity|]. apply andb_true_iff in E1 as [E _].
    apply Z.leb_le in E. lia. }
  destruct ((97 <=? h) && (h <=? 122)) eqn:E2.
  { apply andb_true_iff in E2 as [Ea Eb]. apply Z.leb_le in Ea, Eb.
    destruct (h - 87 <? 16) eqn:E3; [|discriminate]. apply Z.ltb_lt in E3.
    split; [|lia]. simpl.
    replace (97 <=? h) with true by (symmetry; apply Z.leb_le; lia).
    replace (h <=? 102) with true by (symmetry; apply Z.leb_le; lia).
    apply orb_true_r. }
  destruct ((65 <=? h) && (h <=? 90)) eqn:E3.
  { apply andb_true_iff in E3 as [Ea Eb]. apply Z.leb_le in Ea, Eb.
    destruct (h - 55 <? 16) eqn:E4; [|discriminate]. apply Z.ltb_lt in E4.
    split; [|lia]. simpl.
    replace (65 <=? h) with true by (symmetry; apply Z.leb_le; lia).
    replace (h <=? 70) with true by (symmetry; apply Z.leb_le; lia).
    reflexivity. }
  simpl in H. discriminate.
Qed.

Lemma hex_octet_hex h1 h2 b :
  hex_octet h1 h2 = Some b ->
  is_hex h1 = true /\ is_hex h2 = true /\ h1 <> 37 /\ h2 <> 37.
Proof.
  unfold hex_octet. intro H.
  destruct (digit_value 16 h1) eqn:E1; [|discriminate].
  destruct (digit_value 16 h2) eqn:E2; [|discriminate].
  apply digit_value_hex in E1 as [? ?]. apply digit_value_hex in E2 as [? ?].
  auto.
Qed.

Lemma count_char_cons c d s :
  count_char c (d :: s) = (if c =? d then 1 else 0) + count_char c s.
Proof.
  unfold count_char. simpl filter. destruct (c =? d); simpl List.length; lia.
Qed.

(** What the decoder accepts has no stray percent sign: every percent sign
    starts an escape sequence. *)
Lemma uri_decode_escapes n : forall s pending d,
  (List.length s <= n)%nat ->
  uri_decode s pending = Normal d ->
  count_escapes s = count_char 37 s.
Proof.
  induction n as [|n IH]; intros s pending d Hl H.
  - destruct s; [reflexivity | simpl in Hl; lia].
  - destruct s as [|c s]; [reflexivity|].
    simpl in H. destruct (c =? 37) eqn:Ec.
    + apply Z.eqb_eq in Ec. subst c.
      destruct s as [|h1 [|h2 rest]]; try discriminate.
      destruct (hex_octet h1 h2) as [b|] eqn:Eh; [|discriminate].
      apply hex_octet_hex in Eh as (Hh1 & Hh2 & N1 & N2).
      assert (Hrest : exists p' d', uri_decode rest p' = Normal d').
      { destruct pending as [[j octets]|].
        - destruct j as [|[|j]].
          + destruct (utf8_code_point (octets ++ [b])); [|discriminate].
            destruct (uri_decode rest None) eqn:E; [eauto | discriminate].
          + destruct (utf8_code_point (octets ++ [b])); [|discriminate].
            destruct (uri_decode rest None) eqn:E; [eauto | discriminate].
          + eauto.
        - cbv zeta in H. destruct (utf8_length b =? 0).
          + destruct (uri_decode rest None) eqn:E; [eauto | discriminate].
          + destruct ((utf8_length b =? 1) || (4 <? utf8_length b)); [discriminate|].
            eauto. }
      destruct Hrest as (p' & d' & Hrest).
      apply IH in Hrest; [|simpl in Hl; lia].
      rewrite !count_char_cons.
      change (count_escapes (37 :: h1 :: h2 :: rest))
        with ((if (37 =? 37) && (is_hex h1 && is_hex h2) then 1 else 0)
              + count_escapes (h1 :: h2 :: rest)).
      rewrite Hh1, Hh2. change ((37 =? 37) && (true && true)) with true.
      cbv iota.
      replace (37 =? h1) with false by (symmetry; apply Z.eqb_neq; lia).
      replace (37 =? h2) with false by (symmetry; apply Z.eqb_neq; lia).
      cbn [count_escapes].
      replace (h1 =? 37) with false by (symmetry; apply Z.eqb_neq; lia).
      replace (h2 =? 37) with false by (symmetry; apply Z.eqb_neq; lia).
      simpl andb. change (37 =? 37) with true. cbv iota. lia.
    + destruct pending; [discriminate|].
      destruct (uri_decode s None) eqn:E; [|discriminate].
      apply IH in E; [|simpl in Hl; lia].
      rewrite count_char_cons. cbn [count_escapes]. rewrite Ec.
      rewrite Z.eqb_sym, Ec. simpl andb. cbv iota. lia.
Qed.

Lemma decodeURIComponent_escapes s d :
  decodeURIComponent s = Normal d -> count_escapes s = count_char 37 s.
Proof. apply (uri_decode_escapes (List.length s)). lia. Qed.

Lemma detectUrlEncoded_spec s r :
  detectUrlEncoded s = Normal (Some r) <->
  regex_test URL_ENCODED_REGEX (trim s) = true
  /\ 2 <= count_char 37 (trim s)
  /\ exists decoded,
      decodeURIComponent (trim s) = Normal decoded
      /\ decoded <> trim s
      /\ r = mkResult url 0.9 s (Some (ParsedString decoded)).
Proof.
  unfold detectUrlEncoded. cbv zeta. unfold null, result, bind, try_catch.
  destruct (regex_test URL_ENCODED_REGEX (trim s)); simpl.
  2: { split; [discriminate | intros [H _]; discriminate]. }
  destruct (count_char 37 (trim s) <? 2) eqn:Ec.
  { apply Z.ltb_lt in Ec. split; [discriminate | intros (_ & H & _); lia]. }
  apply Z.ltb_ge in Ec.
  destruct (decodeURIComponent (trim s)) as [d|e].
  2: { split; [discriminate | intros (_ & _ & d & Hd & _); discriminate]. }
  destruct (jsstring_eqb d (trim s)) eqn:Ed; simpl.
  - apply jsstring_eqb_eq in Ed. split; [discriminate|].
    intros (_ & _ & d' & [= <-] & Hne & _). contradiction.
  - assert (d <> trim s).
    { intro E. apply jsstring_eqb_eq in E. congruence. }
    split.
    + intros [= <-]. repeat split; auto. exists d. auto.
    + intros (_ & _ & d' & [= <-] & _ & ->). reflexivity.
Qed.

Lemma classifies_url s :
  classifies s url -> exists r, detectUrlEncoded s = Normal (Some r).
Proof.
  intros (r & H & T). walk_detectors H;
    try (type_of_hit; congruence); try discriminate T.
  eauto.
Qed.

(** C8. [detect] classifies an input as [url] only when the trimmed input
    holds at least two escape sequences (a percent sign and two hexadecimal
    digits) and [decodeURIComponent] changes it. An input with a stray
    percent sign, one whose decoding fails, and one that decoding leaves
    unchanged are not claimed by the URL detector: its answer is null and
    the loop goes on to the later detectors. *)
Theorem url_encoded_detection :
  (forall s,
      classifies s url ->
      2 <= count_escapes (trim s)
      /\ exists decoded,
          decodeURIComponent (trim s) = Normal decoded /\ decoded <> trim s)
  /\ (forall s,
         has_stray_percent (trim s)
         \/ (exists e, decodeURIComponent (trim s) = Throw e)
         \/ decodeURIComponent (trim s) = Normal (trim s) ->
         detectUrlEncoded s = Normal None /\ ~ classifies s url)
  /\ classifies (js "hello%20world%21") url
  /\ has_stray_percent (js "50%25 off, 100% sure").
Proof.
  split; [|split; [|split]].
  4: { vm_compute. discriminate. }
  3: { eexists. split; [vm_compute; reflexivity | reflexivity]. }
  - intros s H. apply classifies_url in H as (r & Hr).
    apply detectUrlEncoded_spec in Hr as (_ & Hc & d & Hd & Hne & _).
    rewrite (decodeURIComponent_escapes _ _ Hd). eauto.
  - intros s H.
    assert (Hnone : forall r, detectUrlEncoded s <> Normal (Some r)).
    { intros r Hr. apply detectUrlEncoded_spec in Hr as (_ & _ & d & Hd & Hne & _).
      destruct H as [H|[[e H]|H]].
      - apply H. now apply decodeURIComponent_escapes in Hd.
      - congruence.
      - congruence. }
    split.
    + destruct (detectUrlEncoded_returns s) as [[r|] Hr]; [|exact Hr].
      now apply Hnone in Hr.
    + intro Hc. apply classifies_url in Hc as (r & Hr). now apply Hnone in Hr.
Qed.

(** ** C9: text statistics *)

Lemma length_split_on_runs p s : forall cur b,
  Z.of_nat (List.length (split_on_runs p s cur b)) = 1 + count_runs p s b.
Proof.
  induction s as [|c s IH]; intros cur b;
    cbn [split_on_runs count_runs List.length]; [reflexivity|].
  destruct (p c); cbn [andb].
  - destruct b; cbn [negb List.length].
    + rewrite IH. lia.
    + rewrite Nat2Z.inj_succ, IH. lia.
  - rewrite IH. lia.
Qed.

Lemma length_split_lines s : forall cur,
  Z.of_nat (List.length (split_lines s cur)) = 1 + count_char 10 s.
Proof.
  induction s as [|c s IH]; intro cur; cbn [split_lines].
  - reflexivity.
  - rewrite count_char_cons, (Z.eqb_sym 10 c). destruct (c =? 10).
    + cbn [List.length]. rewrite Nat2Z.inj_succ, IH. lia.
    + rewrite IH. lia.
Qed.

Lemma length_match_runs p s : forall cur,
  Z.of_nat (List.length (match_runs p s cur))
  = count_runs p s (negb (is_nil cur)) + (if is_nil cur then 0 else 1).
Proof.
  induction s as [|c s IH]; intro cur; cbn [match_runs count_runs].
  - destruct cur; reflexivity.
  - destruct (p c) eqn:Ep; cbn [andb].
    + rewrite IH. cbn [is_nil negb]. destruct cur; cbn [is_nil negb]; lia.
    + destruct cur as [|d cur]; cbn [is_nil negb List.length].
      * rewrite IH. cbn [is_nil negb]. lia.
      * rewrite Nat2Z.inj_succ, IH. cbn [is_nil negb]. lia.
Qed.

Lemma count_runs_complement p s : forall b,
  count_runs (fun c => negb (p c)) s b + (if b then 1 else 0)
  = count_runs p s (negb b) + (if ends_outside p s b then 1 else 0).
Proof.
  unfold ends_outside.
  induction s as [|c s IH]; intro b; cbn [count_runs fold_left]; [lia|].
  specialize (IH (negb (p c))). rewrite negb_involutive in IH.
  destruct (p c), b; cbn [negb andb] in *; lia.
Qed.

Lemma count_runs_none p s : forall b,
  forallb (fun c => negb (p c)) s = true -> count_runs p s b = 0.
Proof.
  induction s as [|c s IH]; intros b H; cbn [count_runs]; [reflexivity|].
  cbn [forallb] in H. apply andb_true_iff in H as [Hc Hs].
  apply negb_true_iff in Hc. rewrite Hc. cbn [andb]. now apply IH.
Qed.

Lemma count_runs_skip_prefix p l s :
  forallb (fun c => negb (p c)) l = true ->
  count_runs p (l ++ s) false = count_runs p s false.
Proof.
  induction l as [|c l IH]; intro H; cbn [app count_runs]; [reflexivity|].
  cbn [forallb] in H. apply andb_true_iff in H as [Hc Hs].
  apply negb_true_iff in Hc. rewrite Hc. cbn [andb]. now apply IH.
Qed.

Lemma count_runs_skip_suffix p s r : forall b,
  forallb (fun c => negb (p c)) r = true ->
  count_runs p (s ++ r) b = count_runs p s b.
Proof.
  induction s as [|c s IH]; intros b H; cbn [app count_runs].
  - now apply count_runs_none.
  - now rewrite IH.
Qed.

Lemma drop_space_split s :
  exists l, s = l ++ drop_space s /\ forallb is_space l = true.
Proof.
  induction s as [|c s (l & E & Hl)]; simpl.
  - now exists [].
  - destruct (is_space c) eqn:Ec.
    + exists (c :: l). simpl. rewrite Ec, Hl. split; [now f_equal | reflexivity].
    + now exists [].
Qed.

Lemma drop_space_head s c r : drop_space s = c :: r -> is_space c = false.
Proof.
  induction s as [|d s IH]; simpl; [discriminate|].
  destruct (is_space d) eqn:Ed; [exact IH|].
  intros [= <- _]. exact Ed.
Qed.

Lemma forallb_rev {A} (p : A -> bool) l :
  forallb p l = true -> forallb p (rev l) = true.
Proof.
  rewrite !forallb_forall. intros H x Hx. apply H. now apply in_rev.
Qed.

(** The trimmed string sits between two runs of white space, and is empty
    or starts and ends with a character that is not white space. *)
Lemma trim_decompose s :
  exists l r,
    s = l ++ trim s ++ r
    /\ forallb is_space l = true /\ forallb is_space r = true
    /\ (trim s = []
        \/ (exists c t, trim s = c :: t /\ is_space c = false)
           /\ (exists t c, trim s = t ++ [c] /\ is_space c = false)).
Proof.
  unfold trim.
  destruct (drop_space_split s) as (l & El & Hl).
  destruct (drop_space_split (rev (drop_space s))) as (l2 & E2 & Hl2).
  set (u := drop_space s) in *. set (w := drop_space (rev u)) in *.
  assert (Eu : u = rev w ++ rev l2).
  { rewrite <- rev_app_distr, <- E2. now rewrite rev_involutive. }
  exists l, (rev l2). split; [now rewrite <- Eu|].
  split; [exact Hl|]. split; [now apply forallb_rev|].
  destruct w as [|c w'] eqn:Ew; [now left|]. right. split.
  - simpl rev. destruct (rev w') as [|d x] eqn:Er.
    + exists c, []. split; [reflexivity|]. now apply (drop_space_head (rev u) c w').
    + exists d, (x ++ [c]). split; [reflexivity|].
      apply (drop_space_head s d ((x ++ [c]) ++ rev l2)).
      fold u. rewrite Eu. simpl rev. rewrite Er. reflexivity.
  - exists (rev w'), c. split; [reflexivity|].
    now apply (drop_space_head (rev u) c w').
Qed.

Lemma trim_blank s : (len (trim s) =? 0) = blank s.
Proof.
  destruct (trim_decompose s) as (l & r & E & Hl & Hr & Ht).
  unfold blank. destruct Ht as [Ht|[(c & t & Ht & Hc) _]].
  - rewrite Ht in E |- *. cbn [app] in E. rewrite E.
    rewrite forallb_app, Hl, Hr. reflexivity.
  - rewrite Ht in E |- *. rewrite len_cons.
    pose proof (len_nonneg t).
    replace (1 + len t =? 0) with false by (symmetry; apply Z.eqb_neq; lia).
    rewrite E, !forallb_app. simpl. rewrite Hc.
    now rewrite andb_false_r.
Qed.

Lemma ends_outside_last p t c b : ends_outside p (t ++ [c]) b = negb (p c).
Proof. unfold ends_outside. now rewrite fold_left_app. Qed.

Lemma words_spec text :
  words (textStats text) = count_runs not_space text false.
Proof.
  unfold textStats, words.
  destruct (trim_decompose text) as (l & r & E & Hl & Hr & Ht).
  assert (Hcount : count_runs not_space text false
                   = count_runs not_space (trim text) false).
  { rewrite E at 1. rewrite count_runs_skip_prefix.
    - apply count_runs_skip_suffix.
      revert Hr. apply forallb_weaken. intros c Hc. unfold not_space.
      now rewrite Hc.
    - revert Hl. apply forallb_weaken. intros c Hc. unfold not_space.
      now rewrite Hc. }
  rewrite Hcount. destruct Ht as [Ht|[(c & t & Ht & Hc) (t2 & c2 & Ht2 & Hc2)]].
  - rewrite Ht. reflexivity.
  - rewrite length_split_on_runs. rewrite Ht. rewrite len_cons.
    pose proof (len_nonneg t).
    replace (1 + len t =? 0) with false by (symmetry; apply Z.eqb_neq; lia).
    cbn [negb count_runs].
    assert (Hns : not_space c = true) by (unfold not_space; now rewrite Hc).
    rewrite Hns, Hc. cbn [andb negb].
    pose proof (count_runs_complement is_space t true) as Hcomp.
    assert (He : ends_outside is_space t true = true).
    { rewrite Ht in Ht2. destruct t2 as [|d t2]; simpl in Ht2.
      - injection Ht2 as _ ->. reflexivity.
      - injection Ht2 as _ ->. rewrite ends_outside_last. now rewrite Hc2. }
    rewrite He in Hcomp. simpl negb in Hcomp.
    change (fun c => negb (is_space c)) with not_space in Hcomp. lia.
Qed.

Lemma filter_complement_length (p : Z -> bool) s :
  len (filter (fun c => negb (p c)) s) = len s - len (filter p s).
Proof.
  unfold len. induction s as [|c s IH]; cbn [filter List.length]; [reflexivity|].
  destruct (p c); cbn [negb List.length]; lia.
Qed.

(** C9, as amended. For every input string: [characters] is its length;
    [charactersNoSpaces] its length without its white-space characters;
    [words] the number of runs of characters that are not white space (0 for
    a blank string); [lines] one more than the number of line feeds, that
    is, the number of pieces the separators LF and CR LF leave; [sentences]
    the number of runs of [.], [!] and [?], or, when there is none, 1 for a
    string that has a character other than white space and 0 for a blank
    one. *)
Theorem textStats_postconditions text :
  characters (textStats text) = len text
  /\ charactersNoSpaces (textStats text) = len text - count_spaces text
  /\ words (textStats text) = count_runs not_space text false
  /\ (blank text = true -> words (textStats text) = 0)
  /\ lines (textStats text) = 1 + count_char 10 text
  /\ sentences (textStats text)
     = (let n := count_runs is_terminator text false in
        if 0 <? n then n else if blank text then 0 else 1).
Proof.
  split; [reflexivity|]. split; [apply filter_complement_length|].
  split; [apply words_spec|]. split; [|split].
  - intro Hb. unfold textStats, words. rewrite trim_blank, Hb. reflexivity.
  - unfold textStats, lines. apply length_split_lines.
  - unfold textStats, sentences. cbv zeta. rewrite length_match_runs.
    simpl is_nil. simpl negb. cbv iota. rewrite Z.add_0_r, trim_blank.
    assert (Hn : 0 <= count_runs is_terminator text false).
    { generalize false. induction text as [|c t IH]; intro b; simpl; [lia|].
      specialize (IH (is_terminator c)).
      destruct (is_terminator c && negb b); lia. }
    destruct (count_runs is_terminator text false =? 0) eqn:E0.
    + apply Z.eqb_eq in E0. rewrite E0. simpl. now destruct (blank text).
    + apply Z.eqb_neq in E0. simpl negb. cbv iota.
      replace (0 <? count_runs is_terminator text false) with true; [reflexivity|].
      symmetry. apply Z.ltb_lt. lia.
Qed.

(** A single space is a non-empty input without a terminator, for which the
    specification promises one sentence; the code counts none. *)
Lemma sentences_of_a_space :
  js " " <> [] /\ count_runs is_terminator (js " ") false = 0
  /\ sentences_as_specified (js " ") = 1
  /\ sentences (textStats (js " ")) = 0.
Proof. repeat split; try reflexivity. discriminate. Qed.

(** ** C10: what the colour detector accepts, [parseColor] parses *)

Lemma classifies_color s :
  classifies s color -> exists r, detectColor s = Normal (Some r).
Proof.
  intros (r & H & T). walk_detectors H;
    try (type_of_hit; congruence); try discriminate T.
  eauto.
Qed.

(** A hexadecimal colour the detector accepts has 3, 6 or 8 digits after the
    number sign, which the looser pattern of the parser accepts too. *)
Lemma hex_color_parses t :
  regex_test HEX_COLOR_REGEX t = true ->
  regex_test HEX_PARSE_REGEX t = true
  /\ (len (skipn 1 t) = 3 \/ len (skipn 1 t) = 6 \/ len (skipn 1 t) = 8).
Proof.
  rewrite !regex_test_Match. unfold HEX_COLOR_REGEX, HEX_PARSE_REGEX, hexdigit.
  intro M. apply Match_seq_inv in M as (u & v & -> & Hu & Hv).
  apply Match_cls_inv in Hu as (c & -> & Hc).
  cbn [alts] in Hv.
  assert (Hlen : (List.length v = 3 \/ List.length v = 6 \/ List.length v = 8)%nat
                 /\ forallb is_hex v = true).
  { apply Match_alt_inv in Hv as [Hv|Hv];
      [|apply Match_alt_inv in Hv as [Hv|Hv]];
      apply Match_rep_cls in Hv as [Hl Hp]; split; auto. }
  destruct Hlen as [Hl Hp]. split.
  - apply (Match_seq_intro _ _ [c] v); [reflexivity | now constructor |].
    apply Match_between_cls; [lia|]. split; [lia | exact Hp].
  - change (skipn 1 ([c] ++ v)) with v. unfold len. lia.
Qed.

Lemma hex_parse_no_paren t : Match HEX_PARSE_REGEX t -> ~ In 40 t.
Proof.
  unfold HEX_PARSE_REGEX, hexdigit. intro M.
  apply Match_seq_inv in M as (u & v & -> & Hu & Hv).
  apply Match_cls_inv in Hu as (c & -> & Hc). apply Z.eqb_eq in Hc. subst c.
  apply Match_between_cls in Hv as [_ Hp]; [|lia].
  rewrite forallb_forall in Hp.
  intros [H|H]; [discriminate|]. apply Hp in H. discriminate.
Qed.

(** The parser's patterns for [rgb()] and [hsl()] are the detector's, the
    capturing of the alpha group apart. *)
Lemma rgb_patterns_agree : RGB_PARSE_REGEX = RGB_COLOR_REGEX.
Proof. reflexivity. Qed.

Lemma hsl_patterns_agree : HSL_PARSE_REGEX = HSL_COLOR_REGEX.
Proof. reflexivity. Qed.

Lemma detected_color_parses s r :
  detectColor s = Normal (Some r) -> parseColor s <> None.
Proof.
  unfold detectColor, parseColor. cbv zeta. unfold result, null.
  destruct (regex_test HEX_COLOR_REGEX (trim s)) eqn:Ehex.
  { intros _. apply hex_color_parses in Ehex as [-> Hl].
    destruct Hl as [E | [E | E]]; rewrite E; discriminate. }
  assert (Hno : In 40 (trim s) -> regex_test HEX_PARSE_REGEX (trim s) = false).
  { intro Hin. apply regex_test_false. intro M.
    now apply hex_parse_no_paren in M. }
  rewrite rgb_patterns_agree, hsl_patterns_agree.
  destruct (regex_test RGB_COLOR_REGEX (trim s)) eqn:Ergb.
  { intros _. apply regex_test_Match, rgb_needs_paren in Ergb.
    rewrite (Hno Ergb). destruct (color_groups (trim s)) as [[[g1 g2] g3] g4].
    discriminate. }
  destruct (regex_test HSL_COLOR_REGEX (trim s)) eqn:Ehsl; [|discriminate].
  intros _. apply regex_test_Match, hsl_needs_paren in Ehsl.
  rewrite (Hno Ehsl). destruct (color_groups (trim s)) as [[[g1 g2] g3] g4].
  discriminate.
Qed.

(** C10. Whenever [detect] classifies an input as [color], [colorToFormats]
    returns a bundle for it, not null: once one of the detector's three
    patterns has matched, the null branches of [parseColor] are out of
    reach, out-of-range channel values included. *)
Theorem detected_color_has_formats s :
  classifies s color -> colorToFormats s <> None.
Proof.
  intro H. apply classifies_color in H as (r & Hr).
  apply detected_color_parses in Hr.
  unfold colorToFormats. destruct (parseColor s); [discriminate | contradiction].
Qed.

Lemma detected_color_has_formats_witness :
  classifies (js "rgb(999, 0, 0)") color
  /\ colorToFormats (js "rgb(999, 0, 0)") <> None.
Proof.
  assert (H : classifies (js "rgb(999, 0, 0)") color).
  { eexists. split; [vm_compute; reflexivity | reflexivity]. }
  split; [exact H | exact (detected_color_has_formats _ H)].
Defined.

(** ** RGB to HSL and back *)

Lemma rgbToHsl_alpha r g b a :
  rgbToHsl (ColorRGB.mk r g b a)
  = let x := rgbToHsl (ColorRGB.mk r g b 0) in
    ColorHSL.mk (ColorHSL.h x) (ColorHSL.s x) (ColorHSL.l x) a.
Proof.
  unfold rgbToHsl. cbn [ColorRGB.r ColorRGB.g ColorRGB.b ColorRGB.a]. cbv zeta.
  match goal with |- context [if ?c then _ else _] => destruct c end; reflexivity.
Qed.

Lemma hslToRgb_alpha h s l a :
  hslToRgb (ColorHSL.mk h s l a)
  = let x := hslToRgb (ColorHSL.mk h s l 0) in
    ColorRGB.mk (ColorRGB.r x) (ColorRGB.g x) (ColorRGB.b x) a.
Proof.
  unfold hslToRgb. cbn [ColorHSL.h ColorHSL.s ColorHSL.l ColorHSL.a]. cbv zeta.
  match goal with |- context [if ?c then _ else _] => destruct c end; reflexivity.
Qed.

Lemma round_trip_alpha r g b a :
  round_trip (ColorRGB.mk r g b a)
  = let x := round_trip (ColorRGB.mk r g b 0) in
    ColorRGB.mk (ColorRGB.r x) (ColorRGB.g x) (ColorRGB.b x) a.
Proof.
  unfold round_trip. rewrite rgbToHsl_alpha. cbv zeta.
  destruct (rgbToHsl (ColorRGB.mk r g b 0)) as [h s l a0].
  cbn [ColorHSL.h ColorHSL.s ColorHSL.l].
  rewrite (hslToRgb_alpha h s l a), (hslToRgb_alpha h s l a0). reflexivity.
Qed.

Lemma channel_values_In n : 0 <= n <= 255 -> In n channel_values.
Proof.
  intro H. unfold channel_values. apply in_map_iff.
  exists (Z.to_nat n). split; [lia|]. apply in_seq. lia.
Qed.

(** What is established of the round trip. Converting an RGB triple to HSL
    and back reproduces the alpha exactly, for every triple. Since
    [rgbToHsl] rounds h, s and l to integers, the channels come back only
    approximately: within 1 for every gray (r = g = b, 0 to 255), but
    (0, 0, 2) comes back as (0, 0, 0) and (2, 228, 230) as (2, 223, 227),
    five off. No bound is proved here for the other triples. *)
Lemma round_trip_facts :
  (forall r g b a, ColorRGB.a (round_trip (ColorRGB.mk r g b a)) = a)
  /\ (forall n a,
         0 <= n <= 255 ->
         channels_within 1 (round_trip (gray n a)) (gray n a) = true)
  /\ round_trip (ColorRGB.mk 0 0 2 1) = ColorRGB.mk 0 0 0 1
  /\ round_trip (ColorRGB.mk 2 228 230 1) = ColorRGB.mk 2 223 227 1.
Proof.
  split; [|split; [|split]].
  - intros r g b a. now rewrite round_trip_alpha.
  - intros n a Hn. unfold gray. rewrite round_trip_alpha. cbv zeta.
    unfold channels_within. cbn [ColorRGB.r ColorRGB.g ColorRGB.b].
    assert (Hall : forallb (fun n => channels_within 1 (round_trip (gray n 0)) (gray n 0))
                     channel_values = true) by (vm_compute; reflexivity).
    rewrite forallb_forall in Hall.
    exact (Hall n (channel_values_In n Hn)).
  - vm_compute. reflexivity.
  - vm_compute. reflexivity.
Qed.

(** The blue channel of (0, 0, 2) comes back two off, the green channel of
    (2, 228, 230) five off. *)
Lemma round_trip_not_within_one :
  channels_within 1 (round_trip (ColorRGB.mk 0 0 2 1)) (ColorRGB.mk 0 0 2 1) = false
  /\ channels_within 4 (round_trip (ColorRGB.mk 2 228 230 1))
       (ColorRGB.mk 2 228 230 1) = false.
Proof. split; vm_compute; reflexivity. Qed.

(** ** C6: [parseJwt] *)

Lemma parseJwt_null_on_failure now token :
  malformed_jwt token -> parseJwt now token = None.
Proof.
  unfold malformed_jwt, parseJwt, segment_json. cbv zeta.
  destruct (split_on 46 (trim token)) as [|p0 [|p1 [|p2 [|p3 l]]]]; try reflexivity.
  unfold bind.
  destruct (atob (from_base64url p0)) as [h|]; [|reflexivity].
  destruct (JSON_parse h) as [hv|]; [|reflexivity].
  destruct (atob (from_base64url p1)) as [p|]; [|reflexivity].
  destruct (JSON_parse p) as [pv|]; [|reflexivity].
  intros [H|H]; discriminate.
Qed.

(** On success [isExpired] is set exactly when [payload.exp] is truthy, and
    is then [now > exp * 1000]. *)
Lemma parseJwt_isExpired now token r exp :
  parseJwt now token = Some r ->
  get_prop (JwtPayload.payload r) (js "exp") = Normal exp ->
  if truthy exp
  then exists ms,
      times_1000 exp = Normal ms
      /\ JwtPayload.isExpired r = Some (ms <? now)%float
      /\ JwtPayload.expiresAt r = Some (new_Date ms)
  else JwtPayload.isExpired r = None /\ JwtPayload.expiresAt r = None.
Proof.
  unfold parseJwt. cbv zeta.
  destruct (split_on 46 (trim token)) as [|p0 [|p1 [|p2 [|p3 l]]]]; try discriminate.
  unfold bind.
  destruct (atob (from_base64url p0)) as [h|]; [|discriminate].
  destruct (JSON_parse h) as [hv|]; [|discriminate].
  destruct (atob (from_base64url p1)) as [p|]; [|discriminate].
  destruct (JSON_parse p) as [pv|]; [|discriminate].
  destruct (get_prop pv (js "exp")) as [exp'|] eqn:Eexp; [|discriminate].
  destruct (truthy exp') eqn:Et.
  - destruct (times_1000 exp') as [ms|] eqn:Ems; [|discriminate].
    destruct (get_prop pv (js "iat")) as [iat|]; [|discriminate].
    destruct (truthy iat).
    + destruct (times_1000 iat); [|discriminate].
      intros [= <-]. cbn [JwtPayload.payload JwtPayload.isExpired JwtPayload.expiresAt].
      rewrite Eexp. intros [= <-]. rewrite Et. eauto.
    + intros [= <-]. cbn [JwtPayload.payload JwtPayload.isExpired JwtPayload.expiresAt].
      rewrite Eexp. intros [= <-]. rewrite Et. eauto.
  - destruct (get_prop pv (js "iat")) as [iat|]; [|discriminate].
    destruct (truthy iat).
    + destruct (times_1000 iat); [|discriminate].
      intros [= <-]. cbn [JwtPayload.payload JwtPayload.isExpired JwtPayload.expiresAt].
      rewrite Eexp. intros [= <-]. rewrite Et. auto.
    + intros [= <-]. cbn [JwtPayload.payload JwtPayload.isExpired JwtPayload.expiresAt].
      rewrite Eexp. intros [= <-]. rewrite Et. auto.
Qed.

(** C6, at a token that expired at the epoch. Its payload carries the claim
    [exp: 0]; [parseJwt] succeeds, yet leaves [isExpired] and [expiresAt]
    unset, because the guard on [payload.exp] tests truthiness and 0 is
    falsy. The same holds whatever the clock says. *)
Theorem parseJwt_exp_zero now :
  exists r,
    parseJwt now jwt_exp_zero = Some r
    /\ JwtPayload.payload r = JObj [(js "exp", JNum 0)]
    /\ JwtPayload.isExpired r = None
    /\ JwtPayload.expiresAt r = None.
Proof. eexists. split; [vm_compute; reflexivity|]. repeat split. Qed.

(** ** JSON text reads back *)

(** *** Strings read back *)

Lemma digit_value_hex_digit_char d :
  0 <= d < 16 -> digit_value 16 (hex_digit_char d) = Some d.
Proof.
  intro H.
  assert (E : d = 0 \/ d = 1 \/ d = 2 \/ d = 3 \/ d = 4 \/ d = 5 \/ d = 6
              \/ d = 7 \/ d = 8 \/ d = 9 \/ d = 10 \/ d = 11 \/ d = 12
              \/ d = 13 \/ d = 14 \/ d = 15) by lia.
  repeat (destruct E as [-> | E]; [reflexivity|]). subst. reflexivity.
Qed.

Lemma hex4_unicode_escape c :
  0 <= c < 65536 ->
  hex4 (hex_digit_char (c / 4096 mod 16)) (hex_digit_char (c / 256 mod 16))
       (hex_digit_char (c / 16 mod 16)) (hex_digit_char (c mod 16)) = Some c.
Proof.
  intro H. unfold hex4, hex_octet.
  rewrite !digit_value_hex_digit_char by (apply Z.mod_pos_bound; lia).
  f_equal. Z.div_mod_to_equations. lia.
Qed.

Lemma parse_string_unicode c x :
  0 <= c < 65536 ->
  parse_string (unicode_escape c ++ x) = cons_fst c (parse_string x).
Proof.
  intro H. unfold unicode_escape.
  change (parse_string
            ([92; 117; hex_digit_char (c / 4096 mod 16);
              hex_digit_char (c / 256 mod 16); hex_digit_char (c / 16 mod 16);
              hex_digit_char (c mod 16)] ++ x))
    with (match hex4 (hex_digit_char (c / 4096 mod 16))
                  (hex_digit_char (c / 256 mod 16))
                  (hex_digit_char (c / 16 mod 16)) (hex_digit_char (c mod 16)) with
          | Some v => cons_fst v (parse_string x)
          | None => None
          end).
  now rewrite hex4_unicode_escape.
Qed.

Lemma parse_string_plain c x :
  32 <= c -> c <> 34 -> c <> 92 ->
  parse_string (c :: x) = cons_fst c (parse_string x).
Proof.
  intros H1 H2 H3. cbn [parse_string].
  replace (c =? 34) with false by (symmetry; apply Z.eqb_neq; lia).
  replace (c =? 92) with false by (symmetry; apply Z.eqb_neq; lia).
  replace (c <? 32) with false by (symmetry; apply Z.ltb_ge; lia).
  reflexivity.
Qed.

Lemma parse_string_escape_char c x :
  0 <= c < 65536 -> is_high_surrogate c = false -> is_low_surrogate c = false ->
  parse_string (escape_char c ++ x) = cons_fst c (parse_string x).
Proof.
  intros H _ _. unfold escape_char.
  destruct (c =? 8) eqn:E8; [apply Z.eqb_eq in E8; subst; reflexivity|].
  destruct (c =? 9) eqn:E9; [apply Z.eqb_eq in E9; subst; reflexivity|].
  destruct (c =? 10) eqn:E10; [apply Z.eqb_eq in E10; subst; reflexivity|].
  destruct (c =? 12) eqn:E12; [apply Z.eqb_eq in E12; subst; reflexivity|].
  destruct (c =? 13) eqn:E13; [apply Z.eqb_eq in E13; subst; reflexivity|].
  destruct (c =? 34) eqn:E34; [apply Z.eqb_eq in E34; subst; reflexivity|].
  destruct (c =? 92) eqn:E92; [apply Z.eqb_eq in E92; subst; reflexivity|].
  destruct (c <? 32) eqn:E32.
  - now apply parse_string_unicode.
  - apply Z.ltb_ge in E32. apply Z.eqb_neq in E34, E92.
    now apply parse_string_plain.
Qed.

Lemma surrogate_plain c x :
  is_high_surrogate c = true \/ is_low_surrogate c = true ->
  parse_string (c :: x) = cons_fst c (parse_string x).
Proof.
  unfold is_high_surrogate, is_low_surrogate, in_range.
  intro H. apply parse_string_plain;
    destruct H as [H|H]; apply andb_true_iff in H as [Ha Hb];
    apply Z.leb_le in Ha, Hb; lia.
Qed.

Lemma surrogate_range c :
  is_high_surrogate c = true \/ is_low_surrogate c = true -> 0 <= c < 65536.
Proof.
  unfold is_high_surrogate, is_low_surrogate, in_range.
  intros [H|H]; apply andb_true_iff in H as [Ha Hb];
    apply Z.leb_le in Ha, Hb; lia.
Qed.

Lemma code_unit_range c : in_range 0 65535 c = true -> 0 <= c < 65536.
Proof.
  unfold in_range. intro H. apply andb_true_iff in H as [Ha Hb].
  apply Z.leb_le in Ha, Hb. lia.
Qed.

(** What [quote] writes between the quotes, [parse_string] reads back. *)
Lemma parse_string_quote_chars n : forall s rest,
  (List.length s <= n)%nat -> code_units s = true ->
  parse_string (quote_chars s ++ 34 :: rest) = Some (s, rest).
Proof.
  unfold code_units.
  induction n as [|n IH]; intros s rest Hl Hs.
  - destruct s; [reflexivity | simpl in Hl; lia].
  - destruct s as [|c s]; [reflexivity|].
    cbn [forallb] in Hs. apply andb_true_iff in Hs as [Hc Hs].
    apply code_unit_range in Hc. cbn [List.length] in Hl.
    cbn [quote_chars].
    destruct (is_high_surrogate c) eqn:Ehi.
    + destruct s as [|d s].
      * now rewrite parse_string_unicode.
      * destruct (is_low_surrogate d) eqn:Elo.
        -- cbn [forallb] in Hs. apply andb_true_iff in Hs as [Hd Hs].
           cbn [List.length] in Hl. cbn [app].
           rewrite surrogate_plain by auto.
           rewrite surrogate_plain by auto.
           rewrite IH by (auto; lia). reflexivity.
        -- rewrite <- app_assoc, parse_string_unicode by exact Hc.
           rewrite IH by (auto; lia). reflexivity.
    + destruct (is_low_surrogate c) eqn:Elo.
      * rewrite <- app_assoc, parse_string_unicode by exact Hc.
        rewrite IH by (auto; lia). reflexivity.
      * rewrite <- app_assoc, parse_string_escape_char by auto.
        rewrite IH by (auto; lia). reflexivity.
Qed.

Lemma parse_string_quote s rest :
  code_units s = true ->
  parse_string (quote_chars s ++ 34 :: rest) = Some (s, rest).
Proof. apply (parse_string_quote_chars (List.length s)). lia. Qed.

(** *** Numbers read back before a delimiter *)

Ltac eqb_false :=
  repeat match goal with
         | |- context [?a =? ?b] =>
             replace (a =? b) with false by (symmetry; apply Z.eqb_neq; lia)
         end.

Lemma delimited_cases rest :
  delimited rest ->
  rest = [] \/ exists c r, rest = c :: r /\ (c = 44 \/ c = 93 \/ c = 125 \/ c = 10).
Proof. destruct rest as [|c r]; simpl; eauto. Qed.

Lemma delimiter_not_digit c :
  c = 44 \/ c = 93 \/ c = 125 \/ c = 10 -> digit_value 10 c = None.
Proof. intros [->|[->|[->| ->]]]; reflexivity. Qed.

Lemma read_digits_app rest t :
  delimited rest -> forall acc n,
  read_digits 10 (t ++ rest) acc n
  = (fst (fst (read_digits 10 t acc n)), snd (fst (read_digits 10 t acc n)),
     snd (read_digits 10 t acc n) ++ rest).
Proof.
  intro Hd. induction t as [|c t IH]; intros acc n.
  - cbn [app]. destruct (delimited_cases rest Hd) as [->|(c & r & -> & Hc)].
    + reflexivity.
    + cbn [read_digits]. now rewrite (delimiter_not_digit c Hc).
  - cbn [app read_digits]. destruct (digit_value 10 c); [apply IH | reflexivity].
Qed.

Lemma read_sign_app plus rest s :
  delimited rest ->
  read_sign plus (s ++ rest)
  = (fst (read_sign plus s), snd (read_sign plus s) ++ rest).
Proof.
  intro Hd. destruct s as [|c s].
  - cbn [app]. destruct (delimited_cases rest Hd) as [->|(c & r & -> & Hc)].
    + reflexivity.
    + unfold read_sign. eqb_false. now rewrite andb_false_r.
  - cbn [app]. unfold read_sign.
    destruct (c =? 45); [reflexivity|]. destruct (plus && (c =? 43)); reflexivity.
Qed.

Lemma read_int_app rest s ip s2 :
  delimited rest ->
  read_int s = Some (ip, s2) -> read_int (s ++ rest) = Some (ip, s2 ++ rest).
Proof.
  intros Hd. destruct s as [|c s]; [discriminate|].
  cbn [app]. unfold read_int. destruct (is_digit c); [|discriminate].
  destruct (c =? 48).
  - intros [= <- <-]. reflexivity.
  - change (c :: s ++ rest) with ((c :: s) ++ rest).
    rewrite (read_digits_app rest (c :: s) Hd).
    destruct (read_digits 10 (c :: s) 0 0) as [[v k] r].
    intros [= <- <-]. reflexivity.
Qed.

Lemma read_fraction_app rest ip s m n s3 :
  delimited rest ->
  read_fraction ip s = Some (m, n, s3) ->
  read_fraction ip (s ++ rest) = Some (m, n, s3 ++ rest).
Proof.
  intros Hd. destruct s as [|c s].
  - cbn [app]. intros [= <- <- <-].
    destruct (delimited_cases rest Hd) as [->|(c & r & -> & Hc)].
    + reflexivity.
    + unfold read_fraction. eqb_false. reflexivity.
  - cbn [app]. unfold read_fraction. destruct (c =? 46).
    + rewrite (read_digits_app rest s Hd).
      destruct (read_digits 10 s 0 0) as [[v k] r]. cbn [fst snd].
      destruct (k =? 0); [discriminate|]. intros [= <- <- <-]. reflexivity.
    + intros [= <- <- <-]. reflexivity.
Qed.

Lemma read_exponent_app rest s ev s4 :
  delimited rest ->
  read_exponent true s = Some (ev, s4) ->
  read_exponent true (s ++ rest) = Some (ev, s4 ++ rest).
Proof.
  intros Hd. destruct s as [|c s].
  - cbn [app]. intros [= <- <-].
    destruct (delimited_cases rest Hd) as [->|(c & r & -> & Hc)].
    + reflexivity.
    + unfold read_exponent. eqb_false. reflexivity.
  - cbn [app]. unfold read_exponent. destruct ((c =? 101) || (c =? 69)).
    + rewrite (read_sign_app true rest s Hd).
      destruct (read_sign true s) as [neg r1]. cbn [fst snd].
      rewrite (read_digits_app rest r1 Hd).
      destruct (read_digits 10 r1 0 0) as [[v k] r]. cbn [fst snd].
      destruct (k =? 0); [discriminate|]. intros [= <- <-]. reflexivity.
    + intros [= <- <-]. reflexivity.
Qed.

Lemma parse_number_app rest t x r :
  delimited rest ->
  parse_number t = Some (x, r) -> parse_number (t ++ rest) = Some (x, r ++ rest).
Proof.
  intros Hd. unfold parse_number.
  rewrite (read_sign_app false rest t Hd).
  destruct (read_sign false t) as [neg s1]. cbn [fst snd].
  destruct (read_int s1) as [[ip s2]|] eqn:Ei; [|discriminate].
  rewrite (read_int_app rest s1 ip s2 Hd Ei).
  destruct (read_fraction ip s2) as [[[m n] s3]|] eqn:Ef; [|discriminate].
  rewrite (read_fraction_app rest ip s2 m n s3 Hd Ef).
  destruct (read_exponent true s3) as [[ev s4]|] eqn:Ee; [|discriminate].
  rewrite (read_exponent_app rest s3 ev s4 Hd Ee).
  intros [= <- <-]. reflexivity.
Qed.

(** A number starts with a minus sign or a digit. *)
Lemma parse_number_head t x r :
  parse_number t = Some (x, r) ->
  exists c t', t = c :: t' /\ (c = 45 \/ 48 <= c <= 57).
Proof.
  unfold parse_number. destruct t as [|c t]; [discriminate|].
  intros H. exists c, t. split; [reflexivity|].
  unfold read_sign in H. destruct (c =? 45) eqn:E.
  - left. now apply Z.eqb_eq.
  - right. cbn [andb] in H. unfold read_int in H.
    destruct (is_digit c) eqn:Ed; [|discriminate]. now apply is_digit_range.
Qed.

(** *** Values read back *)

Lemma skip_ws_app w x : forallb json_ws w = true -> skip_ws (w ++ x) = skip_ws x.
Proof.
  induction w as [|c w IH]; intro H; [reflexivity|].
  cbn [forallb] in H. apply andb_true_iff in H as [Hc Hw].
  cbn [app skip_ws]. rewrite Hc. auto.
Qed.

Lemma value_start_not_ws c : value_start c -> json_ws c = false.
Proof. unfold value_start, json_ws. intro H. eqb_false. reflexivity. Qed.

Lemma skip_ws_value c x : value_start c -> skip_ws (c :: x) = c :: x.
Proof. intro H. cbn [skip_ws]. now rewrite value_start_not_ws. Qed.

Lemma parse_value_skip w fuel x :
  forallb json_ws w = true -> parse_value fuel (w ++ x) = parse_value fuel x.
Proof.
  intro H. destruct fuel; [reflexivity|]. cbn [parse_value].
  now rewrite skip_ws_app.
Qed.

Lemma wrap_shape open close gap indent parts :
  forallb json_ws gap = true -> forallb json_ws indent = true -> parts <> [] ->
  exists lead w wc,
    forallb json_ws lead = true /\ forallb json_ws w = true
    /\ forallb json_ws wc = true
    /\ (forall x, delimited (wc ++ close :: x) \/ wc = [])
    /\ wrap open close gap indent parts
       = open :: lead ++ join (44 :: w) parts ++ wc ++ [close].
Proof.
  intros Hg Hi Hp. unfold wrap. destruct parts as [|p parts]; [contradiction|].
  destruct gap as [|g gap].
  - exists [], [], []. repeat split; auto.
  - exists (10 :: indent ++ g :: gap), (10 :: indent ++ g :: gap), (10 :: indent).
    assert (Hig : forallb json_ws (indent ++ g :: gap) = true)
      by (rewrite forallb_app, Hi, Hg; reflexivity).
    repeat split.
    + cbn [forallb]. now rewrite Hig.
    + cbn [forallb]. now rewrite Hig.
    + cbn [forallb]. now rewrite Hi.
    + intro x. left. cbn [app delimited]. auto.
Qed.

Lemma serialize_head gap indent v :
  exact_value v ->
  exists c t, serialize gap indent v = c :: t /\ value_start c.
Proof.
  unfold value_start. destruct v as [| [|] | n | s | l | o]; cbn [serialize exact_value].
  - intros _. exists 110, (js "ull"). split; [reflexivity | lia].
  - intros _. exists 116, (js "rue"). split; [reflexivity | lia].
  - intros _. exists 102, (js "alse"). split; [reflexivity | lia].
  - intros [Hf Hp]. rewrite Hf.
    apply parse_number_head in Hp as (c & t & -> & Hc). exists c, t.
    split; [reflexivity | lia].
  - intros _. exists 34, (quote_chars s ++ [34]). split; [reflexivity | lia].
  - intros _. destruct l as [|e l].
    + exists 91, [93]. split; [reflexivity | lia].
    + unfold wrap. cbn [map]. destruct gap; eexists 91, _; (split; [reflexivity | lia]).
  - intros _. destruct o as [|kv o].
    + exists 123, [125]. split; [reflexivity | lia].
    + unfold wrap. cbn [map]. destruct gap; eexists 123, _; (split; [reflexivity | lia]).
Qed.

Lemma delimited_or_nil wc close x :
  close = 93 \/ close = 125 ->
  delimited (wc ++ close :: x) \/ wc = [] -> delimited (wc ++ close :: x).
Proof. intros Hc [H| ->]; [exact H|]. cbn [app delimited]. lia. Qed.

Lemma join_cons sep p parts :
  parts <> [] -> join sep (p :: parts) = p ++ sep ++ join sep parts.
Proof. destruct parts; [contradiction | reflexivity]. Qed.

Lemma list_sum_cons x l : list_sum (x :: l) = (x + list_sum l)%nat.
Proof. reflexivity. Qed.

Lemma parse_elements_join (ser : JValue -> jsstring) w wc :
  forallb json_ws w = true -> forallb json_ws wc = true ->
  (forall x, delimited (wc ++ 93 :: x) \/ wc = []) ->
  forall l, l <> [] -> Forall (reads_back ser) l ->
  forall acc fuel rest lead,
    forallb json_ws lead = true ->
    (list_sum (map (fun e => S (weight e)) l) <= fuel)%nat ->
    parse_elements fuel (lead ++ join (44 :: w) (map ser l) ++ wc ++ 93 :: rest) acc
    = Some (JArr (rev acc ++ l), rest).
Proof.
  intros Hw Hwc Hd l. induction l as [|e l IH]; [contradiction|].
  intros _ Hall acc fuel rest lead Hlead Hfuel.
  inversion Hall as [|? ? He Hl]; subst.
  cbn [map] in Hfuel. rewrite list_sum_cons in Hfuel.
  destruct fuel as [|f]; [lia|].
  cbn [parse_elements]. destruct l as [|e2 l].
  - cbn [map join].
    rewrite (He f (wc ++ 93 :: rest) lead Hlead); [|apply delimited_or_nil; auto|lia].
    rewrite skip_ws_app by exact Hwc. cbn [skip_ws].
    change (json_ws 93) with false. cbv iota.
    change (93 =? 44) with false. change (93 =? 93) with true. cbv iota.
    reflexivity.
  - assert (Hne : e2 :: l <> []) by discriminate.
    remember (e2 :: l) as l' eqn:El.
    cbn [map]. rewrite join_cons by (rewrite El; discriminate).
    rewrite <- !app_assoc.
    rewrite (He f _ lead Hlead); [|cbn [app delimited]; auto|lia].
    cbn [app skip_ws]. change (json_ws 44) with false. cbv iota.
    change (44 =? 44) with true. cbv iota.
    rewrite (IH Hne Hl (e :: acc) f rest w Hw) by lia.
    cbn [rev]. now rewrite <- app_assoc.
Qed.

Lemma parse_members_join (ser : JValue -> jsstring) sp w wc :
  forallb json_ws sp = true ->
  forallb json_ws w = true -> forallb json_ws wc = true ->
  (forall x, delimited (wc ++ 125 :: x) \/ wc = []) ->
  forall o, o <> [] ->
  Forall (fun kv => code_units (fst kv) = true /\ reads_back ser (snd kv)) o ->
  forall acc fuel rest lead,
    forallb json_ws lead = true ->
    (list_sum (map (fun kv => S (weight (snd kv))) o) <= fuel)%nat ->
    parse_members fuel
      (lead
       ++ join (44 :: w)
            (map (fun kv => quote (fst kv) ++ 58 :: sp ++ ser (snd kv)) o)
       ++ wc ++ 125 :: rest) acc
    = Some (JObj (fold_left (fun a kv => obj_define (fst kv) (snd kv) a) o acc),
            rest).
Proof.
  intros Hsp Hw Hwc Hd o. induction o as [|[k v] o IH]; [contradiction|].
  intros _ Hall acc fuel rest lead Hlead Hfuel.
  inversion Hall as [|? ? [Hk Hv] Ho]; subst. cbn [fst snd] in Hk, Hv.
  cbn [map] in Hfuel. rewrite list_sum_cons in Hfuel. cbn [snd] in Hfuel.
  destruct fuel as [|f]; [lia|].
  cbn [parse_members]. rewrite skip_ws_app by exact Hlead.
  destruct o as [|kv2 o].
  - cbn [map join fst snd]. unfold quote. cbn [app]. rewrite <- !app_assoc.
    cbn [app skip_ws]. change (json_ws 34) with false. cbv iota.
    change (34 =? 34) with true. cbv iota.
    rewrite parse_string_quote by exact Hk.
    cbn [skip_ws]. change (json_ws 58) with false. cbv iota.
    change (58 =? 58) with true. cbv iota.
    rewrite <- ?app_assoc.
    rewrite (Hv f (wc ++ 125 :: rest) sp Hsp); [|apply delimited_or_nil; auto|lia].
    rewrite skip_ws_app by exact Hwc. cbn [skip_ws].
    change (json_ws 125) with false. cbv iota.
    change (125 =? 44) with false. change (125 =? 125) with true. cbv iota.
    reflexivity.
  - assert (Hne : kv2 :: o <> []) by discriminate.
    remember (kv2 :: o) as o' eqn:Eo.
    cbn [map]. rewrite join_cons by (rewrite Eo; discriminate).
    cbn [fst snd]. unfold quote at 1. cbn [app]. rewrite <- !app_assoc.
    cbn [app skip_ws]. change (json_ws 34) with false. cbv iota.
    change (34 =? 34) with true. cbv iota.
    rewrite parse_string_quote by exact Hk.
    cbn [skip_ws]. change (json_ws 58) with false. cbv iota.
    change (58 =? 58) with true. cbv iota.
    rewrite <- ?app_assoc.
    rewrite (Hv f _ sp Hsp); [|cbn [app delimited]; auto|lia].
    cbn [app skip_ws]. change (json_ws 44) with false. cbv iota.
    change (44 =? 44) with true. cbv iota.
    rewrite (IH Hne Ho (obj_define k v acc) f rest w Hw) by lia.
    reflexivity.
Qed.

Lemma parse_value_number f c t :
  c = 45 \/ 48 <= c <= 57 ->
  parse_value (S f) (c :: t)
  = match parse_number (c :: t) with
    | Some (n, r') => Some (JNum n, r')
    | None => None
    end.
Proof.
  intro Hc. cbn [parse_value skip_ws]. unfold json_ws.
  replace (c =? 9) with false by (symmetry; apply Z.eqb_neq; lia).
  replace (c =? 10) with false by (symmetry; apply Z.eqb_neq; lia).
  replace (c =? 13) with false by (symmetry; apply Z.eqb_neq; lia).
  replace (c =? 32) with false by (symmetry; apply Z.eqb_neq; lia).
  cbn [orb].
  replace (c =? 123) with false by (symmetry; apply Z.eqb_neq; lia).
  replace (c =? 91) with false by (symmetry; apply Z.eqb_neq; lia).
  replace (c =? 34) with false by (symmetry; apply Z.eqb_neq; lia).
  change (js "true") with [116; 114; 117; 101].
  change (js "false") with [102; 97; 108; 115; 101].
  change (js "null") with [110; 117; 108; 108].
  cbn [startsWith].
  replace (116 =? c) with false by (symmetry; apply Z.eqb_neq; lia).
  replace (102 =? c) with false by (symmetry; apply Z.eqb_neq; lia).
  replace (110 =? c) with false by (symmetry; apply Z.eqb_neq; lia).
  reflexivity.
Qed.

Lemma parse_value_array f r c t :
  skip_ws r = c :: t -> c <> 93 ->
  parse_value (S f) (91 :: r) = parse_elements f r [].
Proof.
  intros E Hc. cbn [parse_value skip_ws]. change (json_ws 91) with false.
  cbv iota. change (91 =? 123) with false. change (91 =? 91) with true.
  cbv iota. rewrite E.
  replace (c =? 93) with false by (symmetry; apply Z.eqb_neq; lia).
  reflexivity.
Qed.

Lemma parse_value_object f r c t :
  skip_ws r = c :: t -> c <> 125 ->
  parse_value (S f) (123 :: r) = parse_members f r [].
Proof.
  intros E Hc. cbn [parse_value skip_ws]. change (json_ws 123) with false.
  cbv iota. change (123 =? 123) with true. cbv iota. rewrite E.
  replace (c =? 125) with false by (symmetry; apply Z.eqb_neq; lia).
  reflexivity.
Qed.

Lemma join_head sep (c : Z) t parts x :
  exists t', join sep ((c :: t) :: parts) ++ x = c :: t'.
Proof. destruct parts; cbn [join app]; eexists; reflexivity. Qed.

Lemma exact_value_arr l : exact_value (JArr l) <-> Forall exact_value l.
Proof.
  induction l as [|e l IH].
  - split; [constructor | exact (fun _ => I)].
  - split.
    + intros [He Hl]. constructor; [exact He | now apply IH].
    + intro H. inversion H; subst. split; [assumption | now apply IH].
Qed.

Lemma exact_value_obj o :
  exact_value (JObj o)
  <-> own_properties o
      /\ Forall (fun kv => code_units (fst kv) = true /\ exact_value (snd kv)) o.
Proof.
  cbn [exact_value].
  assert (H : forall o',
    (fix all (o : list (jsstring * JValue)) : Prop :=
       match o with
       | [] => True
       | kv :: r => code_units (fst kv) = true /\ exact_value (snd kv) /\ all r
       end) o'
    <-> Forall (fun kv => code_units (fst kv) = true /\ exact_value (snd kv)) o').
  { induction o' as [|kv o' IH].
    - split; [constructor | exact (fun _ => I)].
    - split.
      + intros (Hk & Hv & Hr). constructor; [now split | now apply IH].
      + intro H. inversion H as [|? ? [Hk Hv] Hr]; subst.
        repeat split; [assumption | assumption | now apply IH]. }
  now rewrite H.
Qed.

(** A serialized value is read back, at every indentation. *)
Lemma serialize_reads_back gap :
  forallb json_ws gap = true ->
  forall v, exact_value v ->
  forall indent, forallb json_ws indent = true ->
    reads_back (serialize gap indent) v.
Proof.
  intros Hg v.
  induction v as [| b | n | s | l IH | o IH] using JValue_induction;
    intros Hs indent Hi fuel rest lead Hlead Hd Hfuel;
    rewrite (parse_value_skip lead) by exact Hlead;
    (destruct fuel as [|f]; [cbn [weight] in Hfuel; lia|]).
  - reflexivity.
  - destruct b; reflexivity.
  - cbn [serialize]. destruct Hs as [Hf Hp]. rewrite Hf.
    destruct (parse_number_head _ _ _ Hp) as (c & t & Et & Hc).
    pose proof (parse_number_app rest _ _ _ Hd Hp) as Hp'.
    rewrite Et in Hp' |- *. cbn [app] in Hp' |- *.
    rewrite (parse_value_number f c _ Hc), Hp'. reflexivity.
  - cbn [serialize] in *. unfold quote. cbn [exact_value] in Hs.
    cbn [app]. rewrite <- app_assoc. cbn [app parse_value skip_ws].
    change (json_ws 34) with false. cbv iota.
    change (34 =? 123) with false. change (34 =? 91) with false.
    change (34 =? 34) with true. cbv iota.
    now rewrite parse_string_quote.
  - cbn [serialize]. apply exact_value_arr in Hs. cbn [weight] in Hfuel.
    destruct l as [|e l]; [reflexivity|].
    assert (Hall : Forall (reads_back (serialize gap (indent ++ gap))) (e :: l)).
    { rewrite Forall_forall in IH, Hs |- *. intros x Hx.
      apply IH; auto. now rewrite forallb_app, Hi, Hg. }
    assert (He : exact_value e) by (inversion Hs; assumption).
    destruct (serialize_head gap (indent ++ gap) e He) as (c & t & Ec & Hc).
    remember (e :: l) as l' eqn:El.
    destruct (wrap_shape 91 93 gap indent (map (serialize gap (indent ++ gap)) l')
                Hg Hi) as (ld & w & wc & Hld & Hw & Hwc & Hdl & ->).
    { rewrite El. discriminate. }
    cbn [app]. rewrite <- !app_assoc. cbn [app].
    assert (Hhead : exists t',
      skip_ws (ld ++ join (44 :: w) (map (serialize gap (indent ++ gap)) l')
               ++ wc ++ 93 :: rest) = c :: t').
    { rewrite skip_ws_app by exact Hld. rewrite El. cbn [map]. rewrite Ec.
      destruct (join_head (44 :: w) c t (map (serialize gap (indent ++ gap)) l)
                  (wc ++ 93 :: rest)) as [t' E].
      exists t'. transitivity (skip_ws (c :: t')); [|now apply skip_ws_value].
      f_equal. exact E. }
    destruct Hhead as [t' Hhead].
    rewrite (parse_value_array f _ c t' Hhead)
      by (unfold value_start in Hc; lia).
    rewrite (parse_elements_join _ w wc Hw Hwc Hdl l'); auto.
    + rewrite El. discriminate.
    + lia.
  - cbn [serialize]. apply exact_value_obj in Hs as [Hown Hs].
    cbn [weight] in Hfuel.
    destruct o as [|[k e] o]; [reflexivity|].
    assert (Hall : Forall (fun kv => code_units (fst kv) = true
                             /\ reads_back (serialize gap (indent ++ gap)) (snd kv))
                     ((k, e) :: o)).
    { rewrite Forall_forall in IH, Hs |- *. intros x Hx.
      destruct (Hs x Hx) as [Hk Hv]. split; [exact Hk|].
      apply IH; auto. now rewrite forallb_app, Hi, Hg. }
    remember ((k, e) :: o) as o' eqn:Eo.
    set (sp := match gap with [] => [] | _ :: _ => [32] end).
    assert (Hsp : forallb json_ws sp = true) by (subst sp; destruct gap; reflexivity).
    destruct (wrap_shape 123 125 gap indent
                (map (fun kv => quote (fst kv) ++ 58 :: sp
                                ++ serialize gap (indent ++ gap) (snd kv)) o')
                Hg Hi) as (ld & w & wc & Hld & Hw & Hwc & Hdl & ->).
    { rewrite Eo. discriminate. }
    cbn [app]. rewrite <- !app_assoc. cbn [app].
    assert (Hhead : exists t',
      skip_ws (ld ++ join (44 :: w)
                       (map (fun kv => quote (fst kv) ++ 58 :: sp
                                       ++ serialize gap (indent ++ gap) (snd kv)) o')
               ++ wc ++ 125 :: rest) = 34 :: t').
    { rewrite skip_ws_app by exact Hld. rewrite Eo. cbn [map fst]. unfold quote at 1.
      cbn [app].
      destruct (join_head (44 :: w) 34
                  ((quote_chars k ++ [34]) ++ 58 :: sp
                   ++ serialize gap (indent ++ gap) (snd (k, e)))
                  (map (fun kv => quote (fst kv) ++ 58 :: sp
                                  ++ serialize gap (indent ++ gap) (snd kv)) o)
                  (wc ++ 125 :: rest)) as [t' E].
      exists t'. transitivity (skip_ws (34 :: t')); [|reflexivity].
      f_equal. exact E. }
    destruct Hhead as [t' Hhead].
    rewrite (parse_value_object f _ 34 t' Hhead) by lia.
    rewrite (parse_members_join _ sp w wc Hsp Hw Hwc Hdl o'); auto.
    + cbn [fold_left]. unfold own_properties in Hown. now rewrite Hown.
    + rewrite Eo. discriminate.
    + lia.
Qed.

(** *** Enough fuel *)

Lemma list_sum_le {A} (f g : A -> nat) l :
  Forall (fun x => (f x <= g x)%nat) l ->
  (list_sum (map f l) <= list_sum (map g l))%nat.
Proof.
  induction 1 as [|x l Hx _ IH]; [reflexivity|].
  cbn [map]. rewrite !list_sum_cons. lia.
Qed.

Lemma join_length sep parts :
  parts <> [] -> (1 <= List.length sep)%nat ->
  (list_sum (map (fun p => S (List.length p)) parts)
   <= S (List.length (join sep parts)))%nat.
Proof.
  intros Hp Hsep. induction parts as [|p parts IH]; [contradiction|].
  destruct parts as [|q parts].
  - cbn [map join]. rewrite list_sum_cons. cbn [map list_sum fold_right]. lia.
  - rewrite join_cons by discriminate. cbn [map] in *.
    rewrite list_sum_cons. rewrite !length_app.
    specialize (IH ltac:(discriminate)). lia.
Qed.

Lemma wrap_length open close gap indent parts :
  (S (list_sum (map (fun p => S (List.length p)) parts))
   <= List.length (wrap open close gap indent parts))%nat.
Proof.
  unfold wrap. destruct parts as [|p parts]; [cbn; lia|].
  remember (p :: parts) as ps eqn:E.
  assert (Hne : ps <> []) by (rewrite E; discriminate).
  destruct gap as [|g gap].
  - pose proof (join_length [44] ps Hne ltac:(cbn; lia)).
    cbn [List.length]. rewrite length_app. cbn [List.length]. lia.
  - pose proof (join_length (44 :: 10 :: indent ++ g :: gap) ps Hne
                  ltac:(cbn [List.length]; lia)).
    cbn [List.length]. rewrite !length_app. cbn [List.length].
    rewrite !length_app. cbn [List.length]. lia.
Qed.

Lemma weight_le_length gap v :
  exact_value v ->
  forall indent, (weight v <= List.length (serialize gap indent v))%nat.
Proof.
  induction v as [| b | n | s | l IH | o IH] using JValue_induction;
    intros Hs indent;
    try (destruct (serialize_head gap indent _ Hs) as (c & t & -> & _);
         cbn [weight List.length]; lia).
  - cbn [serialize weight]. apply exact_value_arr in Hs.
    etransitivity; [|apply wrap_length]. apply le_n_S.
    rewrite map_map. apply list_sum_le.
    rewrite Forall_forall in IH, Hs |- *. intros x Hx.
    apply le_n_S. now apply IH, Hs.
  - cbn [serialize weight]. apply exact_value_obj in Hs as [_ Hs].
    etransitivity; [|apply wrap_length]. apply le_n_S.
    rewrite map_map. apply list_sum_le.
    rewrite Forall_forall in IH, Hs |- *. intros x Hx.
    apply le_n_S. rewrite length_app. cbn [List.length]. rewrite length_app.
    pose proof (IH x Hx (proj2 (Hs x Hx)) (indent ++ gap)). lia.
Qed.

(** [JSON.parse] reads back what [JSON.stringify] wrote, with or without
    indentation. *)
Lemma JSON_parse_serialize gap v :
  forallb json_ws gap = true -> exact_value v ->
  JSON_parse (serialize gap [] v) = Normal v.
Proof.
  intros Hg Hs. unfold JSON_parse.
  pose proof (serialize_reads_back gap Hg v Hs [] eq_refl
                (S (List.length (serialize gap [] v))) [] [] eq_refl I) as H.
  cbn [app] in H. rewrite app_nil_r in H. rewrite H; [reflexivity|].
  pose proof (weight_le_length gap v Hs []). lia.
Qed.

Lemma JSON_parse_stringify_2 v :
  exact_value v -> JSON_parse (JSON_stringify_2 v) = Normal v.
Proof. now apply JSON_parse_serialize. Qed.

Lemma JSON_parse_stringify v :
  exact_value v -> JSON_parse (JSON_stringify v) = Normal v.
Proof. now apply JSON_parse_serialize. Qed.

Lemma minify_of_pretty v :
  exact_value v -> minifyJson (Text (JSON_stringify_2 v)) = JSON_stringify v.
Proof. intro Hs. unfold minifyJson. now rewrite JSON_parse_stringify_2. Qed.

Lemma as_argument_value x : (forall s, x <> JStr s) -> as_argument x = Value x.
Proof. destruct x; try reflexivity. intro H. now contradiction (H s). Qed.

(** ** The JWT detector answers first *)



(** ** What every result of [detect] looks like *)

Ltac detector_fact :=
  let H := fresh "H" in
  intros ? H; unfold result, null, bind, try_catch in H; cbv beta iota in H;
  repeat break_hyp H; try discriminate;
  injection H as <-; try reflexivity.

Lemma html_confidence b1 b2 b3 b4 b5 b6 b7 :
  in_unit_half
    (Math_min2 (0.5 + Z_to_float (count_true [b1; b2; b3; b4; b5; b6; b7]) * 0.1) 1)%float
  = true.
Proof. destruct b1, b2, b3, b4, b5, b6, b7; vm_compute; reflexivity. Qed.

Ltac shape_done :=
  unfold well_shaped; cbn [raw confidence type];
  repeat split; try discriminate; try apply html_confidence;
  try (vm_compute; reflexivity).

Lemma detectJwt_shape s r : detectJwt s = Normal (Some r) -> well_shaped s r.
Proof. revert r. unfold detectJwt. cbv zeta. detector_fact; shape_done. Qed.

Lemma detectUuid_shape s r : detectUuid s = Normal (Some r) -> well_shaped s r.
Proof. revert r. unfold detectUuid. cbv zeta. detector_fact; shape_done. Qed.

Lemma detectJson_shape s r : detectJson s = Normal (Some r) -> well_shaped s r.
Proof. revert r. unfold detectJson. cbv zeta. detector_fact; shape_done. Qed.

Lemma detectColor_shape s r : detectColor s = Normal (Some r) -> well_shaped s r.
Proof. revert r. unfold detectColor. cbv zeta. detector_fact; shape_done. Qed.

Lemma detectTimestamp_shape s r :
  detectTimestamp s = Normal (Some r) -> well_shaped s r.
Proof. revert r. unfold detectTimestamp. cbv zeta. detector_fact; shape_done. Qed.

Lemma detectNumber_shape s r : detectNumber s = Normal (Some r) -> well_shaped s r.
Proof. revert r. unfold detectNumber. cbv zeta. detector_fact; shape_done. Qed.

Lemma detectUrlEncoded_shape s r :
  detectUrlEncoded s = Normal (Some r) -> well_shaped s r.
Proof. revert r. unfold detectUrlEncoded. cbv zeta. detector_fact; shape_done. Qed.

Lemma detectBase64_shape s r : detectBase64 s = Normal (Some r) -> well_shaped s r.
Proof. revert r. unfold detectBase64. cbv zeta. detector_fact; shape_done. Qed.

Lemma detectHtml_shape s r : detectHtml s = Normal (Some r) -> well_shaped s r.
Proof. revert r. unfold detectHtml. cbv zeta. detector_fact; shape_done. Qed.

Lemma detectCss_shape s r : detectCss s = Normal (Some r) -> well_shaped s r.
Proof. revert r. unfold detectCss. cbv zeta. detector_fact; shape_done. Qed.

Lemma detectJavaScript_shape s r :
  detectJavaScript s = Normal (Some r) -> well_shaped s r.
Proof. revert r. unfold detectJavaScript. cbv zeta. detector_fact; shape_done. Qed.

Ltac shape_of_hit :=
  match goal with
  | E : detectJwt _ = Normal (Some _) |- _ => apply detectJwt_shape in E
  | E : detectUuid _ = Normal (Some _) |- _ => apply detectUuid_shape in E
  | E : detectJson _ = Normal (Some _) |- _ => apply detectJson_shape in E
  | E : detectColor _ = Normal (Some _) |- _ => apply detectColor_shape in E
  | E : detectTimestamp _ = Normal (Some _) |- _ => apply detectTimestamp_shape in E
  | E : detectNumber _ = Normal (Some _) |- _ => apply detectNumber_shape in E
  | E : detectUrlEncoded _ = Normal (Some _) |- _ => apply detectUrlEncoded_shape in E
  | E : detectBase64 _ = Normal (Some _) |- _ => apply detectBase64_shape in E
  | E : detectHtml _ = Normal (Some _) |- _ => apply detectHtml_shape in E
  | E : detectCss _ = Normal (Some _) |- _ => apply detectCss_shape in E
  | E : detectJavaScript _ = Normal (Some _) |- _ => apply detectJavaScript_shape in E
  end.

(** X1. Whatever [detect] returns for a string, [raw] is the input as it was
    given (not trimmed), the confidence lies between 0.5 and 1, and the type
    is never [image]; a [text] result has confidence 0.5 and no [parsed]. *)
Theorem detect_result_shape s r :
  detect (Str s) = Normal r ->
  raw r = s /\ in_unit_half (confidence r) = true /\ type r <> image
  /\ (type r = text -> confidence r = 0.5%float /\ parsed r = None).
Proof.
  intro H.
  assert (W : well_shaped s r
              /\ (type r = text -> confidence r = 0.5%float /\ parsed r = None)).
  { walk_detectors H;
      try (split; [shape_of_hit; assumption | type_of_hit; congruence]).
    - apply len_zero in Heqb. subst. split; [shape_done | auto].
    - split; [shape_done | auto]. }
  destruct W as [(A & B & C) D]. auto.
Qed.

Lemma detect_result_shape_witness :
  detect (Str (js "  #fff ")) = Normal (mkResult color 1 (js "  #fff ") None)
  /\ raw (mkResult color 1 (js "  #fff ") None) = js "  #fff ".
Proof.
  assert (H : detect (Str (js "  #fff ")) = Normal (mkResult color 1 (js "  #fff ") None))
    by (vm_compute; reflexivity).
  split; [exact H | exact (proj1 (detect_result_shape _ _ H))].
Defined.

(** ** [detect] looks at the trimmed input only *)

(** Case analysis on an innermost scrutinee of the goal. *)
Ltac break_inner :=
  match goal with
  | |- context [match ?x with _ => _ end] =>
      lazymatch x with
      | context [match _ with _ => _ end] => fail
      | _ => destruct x
      end
  end.

Ltac by_trimmed :=
  let E := fresh "E" in
  intro E; cbv zeta; rewrite E;
  unfold retagged, result, null, bind, try_catch; cbv beta iota;
  repeat break_inner; reflexivity.

Lemma detectJwt_trimmed a b :
  trim a = trim b -> detectJwt b = retagged b (detectJwt a).
Proof. unfold detectJwt. by_trimmed. Qed.

Lemma detectUuid_trimmed a b :
  trim a = trim b -> detectUuid b = retagged b (detectUuid a).
Proof. unfold detectUuid. by_trimmed. Qed.

Lemma detectJson_trimmed a b :
  trim a = trim b -> detectJson b = retagged b (detectJson a).
Proof. unfold detectJson. by_trimmed. Qed.

Lemma detectColor_trimmed a b :
  trim a = trim b -> detectColor b = retagged b (detectColor a).
Proof. unfold detectColor. by_trimmed. Qed.

Lemma detectTimestamp_trimmed a b :
  trim a = trim b -> detectTimestamp b = retagged b (detectTimestamp a).
Proof. unfold detectTimestamp. by_trimmed. Qed.

Lemma detectNumber_trimmed a b :
  trim a = trim b -> detectNumber b = retagged b (detectNumber a).
Proof. unfold detectNumber. by_trimmed. Qed.

Lemma detectUrlEncoded_trimmed a b :
  trim a = trim b -> detectUrlEncoded b = retagged b (detectUrlEncoded a).
Proof. unfold detectUrlEncoded. by_trimmed. Qed.

Lemma detectBase64_trimmed a b :
  trim a = trim b -> detectBase64 b = retagged b (detectBase64 a).
Proof. unfold detectBase64. by_trimmed. Qed.

Lemma detectHtml_trimmed a b :
  trim a = trim b -> detectHtml b = retagged b (detectHtml a).
Proof. unfold detectHtml. by_trimmed. Qed.

Lemma detectCss_trimmed a b :
  trim a = trim b -> detectCss b = retagged b (detectCss a).
Proof. unfold detectCss. by_trimmed. Qed.

Lemma detectJavaScript_trimmed a b :
  trim a = trim b -> detectJavaScript b = retagged b (detectJavaScript a).
Proof. unfold detectJavaScript. by_trimmed. Qed.

Lemma first_match_trimmed ds a b :
  Forall (fun d => d b = retagged b (d a)) ds ->
  first_match ds b = retagged b (first_match ds a).
Proof.
  induction 1 as [|d ds Hd _ IH]; [reflexivity|].
  cbn [first_match]. rewrite Hd. unfold bind.
  destruct (d a) as [[r|]|e]; cbn [retagged]; [reflexivity | exact IH | reflexivity].
Qed.

Lemma detectors_trimmed a b :
  trim a = trim b -> first_match detectors b = retagged b (first_match detectors a).
Proof.
  intro E. apply first_match_trimmed. unfold detectors.
  repeat constructor;
    auto using detectJwt_trimmed, detectUuid_trimmed, detectJson_trimmed,
      detectColor_trimmed, detectTimestamp_trimmed, detectNumber_trimmed,
      detectUrlEncoded_trimmed, detectBase64_trimmed, detectHtml_trimmed,
      detectCss_trimmed, detectJavaScript_trimmed.
Qed.

Lemma no_detector_for_blank s : trim s = [] -> first_match detectors s = Normal None.
Proof.
  intro E. rewrite (detectors_trimmed [] s) by (rewrite E; reflexivity).
  reflexivity.
Qed.

(** X2. The finding of [detect] depends on the trimmed input only: two
    inputs with the same trimmed text get the same type, confidence and
    [parsed]; only [raw] differs. *)
Theorem detect_trimmed_input a b ra rb :
  trim a = trim b ->
  detect (Str a) = Normal ra -> detect (Str b) = Normal rb ->
  same_finding ra rb.
Proof.
  intros E Ha Hb. unfold detect in Ha, Hb.
  destruct (len a =? 0) eqn:La; destruct (len b =? 0) eqn:Lb.
  - injection Ha as <-. injection Hb as <-. repeat split.
  - apply len_zero in La. subst a.
    rewrite no_detector_for_blank in Hb by (rewrite <- E; reflexivity).
    injection Ha as <-. injection Hb as <-. repeat split.
  - apply len_zero in Lb. subst b.
    rewrite no_detector_for_blank in Ha by (rewrite E; reflexivity).
    injection Ha as <-. injection Hb as <-. repeat split.
  - rewrite (detectors_trimmed a b E) in Hb. unfold bind in Ha, Hb.
    destruct (first_match detectors a) as [[r|]|e]; cbn [retagged] in Hb;
      try discriminate; injection Ha as <-; injection Hb as <-; repeat split.
Qed.

Lemma detect_trimmed_input_witness :
  same_finding (mkResult timestamp 0.9 (js "1700000000") (Some (ParsedEpoch 1700000000000)))
               (mkResult timestamp 0.9 (js "  1700000000 ") (Some (ParsedEpoch 1700000000000))).
Proof.
  apply (detect_trimmed_input (js "1700000000") (js "  1700000000 "));
    vm_compute; reflexivity.
Defined.

(** ** Digits in a radix *)

Lemma digit_value_range radix c v :
  digit_value radix c = Some v -> 0 <= v < radix.
Proof.
  unfold digit_value, is_digit, is_lower, is_upper, in_range.
  destruct (48 <=? c) eqn:A; destruct (c <=? 57) eqn:B;
    destruct (97 <=? c) eqn:C; destruct (c <=? 122) eqn:D;
    destruct (65 <=? c) eqn:E; destruct (c <=? 90) eqn:F; cbn [andb];
    match goal with |- context [if ?x <? radix then _ else _] =>
      destruct (x <? radix) eqn:G end;
    try discriminate; intros [= <-]; lia.
Qed.

Lemma digit_value_fold_case radix c :
  digit_value radix (fold_case c) = digit_value radix c.
Proof.
  unfold fold_case. destruct (is_lower c) eqn:L; [|reflexivity].
  unfold digit_value. rewrite L.
  unfold is_lower, is_digit, is_upper, in_range in *.
  apply andb_true_iff in L as [L1 L2]. apply Z.leb_le in L1, L2.
  replace (48 <=? c - 32) with true by (symmetry; apply Z.leb_le; lia).
  replace (c - 32 <=? 57) with false by (symmetry; apply Z.leb_gt; lia).
  replace (97 <=? c - 32) with false by (symmetry; apply Z.leb_gt; lia).
  replace (65 <=? c - 32) with true by (symmetry; apply Z.leb_le; lia).
  replace (c - 32 <=? 90) with true by (symmetry; apply Z.leb_le; lia).
  replace (48 <=? c) with true by (symmetry; apply Z.leb_le; lia).
  replace (c <=? 57) with false by (symmetry; apply Z.leb_gt; lia).
  cbn [andb]. replace (c - 32 - 55) with (c - 87) by lia. reflexivity.
Qed.

(** The digit character that [toString] writes for the digit [d]. *)
Lemma digit_value_char radix d :
  0 <= d < radix -> radix <= 36 ->
  digit_value radix (if d <? 10 then 48 + d else 87 + d) = Some d.
Proof.
  intros Hd Hr. unfold digit_value, is_digit, is_lower, is_upper, in_range.
  destruct (d <? 10) eqn:E; [apply Z.ltb_lt in E | apply Z.ltb_ge in E].
  - replace (48 <=? 48 + d) with true by (symmetry; apply Z.leb_le; lia).
    replace (48 + d <=? 57) with true by (symmetry; apply Z.leb_le; lia).
    cbn [andb]. replace (48 + d - 48) with d by lia.
    now replace (d <? radix) with true by (symmetry; apply Z.ltb_lt; lia).
  - replace (48 + d <=? 57) with false by (symmetry; apply Z.leb_gt; lia).
    replace (87 + d <=? 57) with false by (symmetry; apply Z.leb_gt; lia).
    replace (97 <=? 87 + d) with true by (symmetry; apply Z.leb_le; lia).
    replace (87 + d <=? 122) with true by (symmetry; apply Z.leb_le; lia).
    rewrite !andb_false_r. cbn [andb]. replace (87 + d - 87) with d by lia.
    now replace (d <? radix) with true by (symmetry; apply Z.ltb_lt; lia).
Qed.

(** Reading digits of the radix: every one is read, and the value is the
    one they denote. *)
Lemma read_digits_valid radix ds : forall acc n,
  forallb (is_digit_of radix) ds = true ->
  read_digits radix ds acc n
  = (fold_left (fun a c => a * radix + match digit_value radix c with
                                       | Some v => v
                                       | None => 0
                                       end) ds acc,
     n + len ds, []).
Proof.
  induction ds as [|c ds IH]; intros acc n H; cbn [read_digits fold_left].
  - unfold len. cbn [List.length]. f_equal. f_equal. lia.
  - cbn [forallb] in H. apply andb_true_iff in H as [Hc Hds].
    unfold is_digit_of in Hc. destruct (digit_value radix c) as [v|]; [|discriminate].
    rewrite IH by exact Hds. rewrite len_cons. f_equal. f_equal. lia.
Qed.

(** What [toString] wrote in a radix reads back, whatever is read before
    and after. *)
Lemma read_digits_fuel radix :
  2 <= radix <= 36 ->
  forall fuel n acc,
    0 <= n < 2 ^ Z.of_nat fuel -> (0 < fuel)%nat ->
    exists d, 1 <= d /\ forall a k,
      read_digits radix (digits_fuel fuel radix n acc) a k
      = read_digits radix acc (a * radix ^ d + n) (k + d).
Proof.
  intros Hr. induction fuel as [|f IH]; intros n acc Hn Hf; [lia|].
  cbn [digits_fuel]. cbv zeta.
  assert (Hm : 0 <= n mod radix < radix) by (apply Z.mod_pos_bound; lia).
  pose proof (digit_value_char radix (n mod radix) Hm (proj2 Hr)) as Hc.
  destruct (n <? radix) eqn:E; [apply Z.ltb_lt in E | apply Z.ltb_ge in E].
  - exists 1. split; [lia|]. intros a k. cbn [read_digits]. rewrite Hc.
    rewrite Z.mod_small by lia. now rewrite Z.pow_1_r.
  - assert (Hq : 0 <= n / radix < 2 ^ Z.of_nat f).
    { split; [apply Z.div_pos; lia|].
      apply Z.div_lt_upper_bound; [lia|].
      rewrite Nat2Z.inj_succ, Z.pow_succ_r in Hn by lia. nia. }
    assert (Hf' : (0 < f)%nat).
    { destruct f; [|lia]. cbn in Hq.
      assert (1 <= n / radix) by (apply Z.div_le_lower_bound; lia). lia. }
    destruct (IH (n / radix)
                ((if n mod radix <? 10 then 48 + n mod radix else 87 + n mod radix)
                 :: acc) Hq Hf') as (d & Hd & Hread).
    exists (d + 1). split; [lia|]. intros a k. rewrite Hread.
    cbn [read_digits]. rewrite Hc. f_equal; [|lia].
    rewrite Z.pow_add_r, Z.pow_1_r by lia.
    pose proof (Z.div_mod n radix ltac:(lia)). lia.
Qed.

Lemma log2_fuel n : 0 <= n -> n < 2 ^ Z.of_nat (S (Z.to_nat (Z.log2 n))).
Proof.
  intro Hn. rewrite Nat2Z.inj_succ, Z2Nat.id by apply Z.log2_nonneg.
  destruct (Z.eq_dec n 0) as [->|Hz]; [reflexivity|].
  apply Z.log2_spec. lia.
Qed.

Lemma read_digits_Z_digits radix n rest :
  2 <= radix <= 36 -> 0 <= n ->
  exists d, 1 <= d /\ forall a k,
    read_digits radix (Z_digits radix n ++ rest) a k
    = read_digits radix rest (a * radix ^ d + n) (k + d).
Proof.
  intros Hr Hn. unfold Z_digits.
  assert (G : forall fuel m acc, 
             digits_fuel fuel radix m acc ++ rest = digits_fuel fuel radix m (acc ++ rest)).
  { induction fuel as [|f IH]; intros m acc; cbn [digits_fuel]; [reflexivity|].
    cbv zeta. destruct (m <? radix); [reflexivity|]. now rewrite IH. }
  rewrite G. cbn [app].
  apply read_digits_fuel; [exact Hr | split; [exact Hn | now apply log2_fuel] | lia].
Qed.

(** Every character that [toString] writes is a digit of the radix. *)
Lemma digits_fuel_valid radix :
  2 <= radix <= 36 ->
  forall fuel n acc,
    0 <= n -> forallb (is_digit_of radix) acc = true ->
    forallb (is_digit_of radix) (digits_fuel fuel radix n acc) = true.
Proof.
  intros Hr. induction fuel as [|f IH]; intros n acc Hn Hacc; [exact Hacc|].
  cbn [digits_fuel]. cbv zeta.
  assert (Hm : 0 <= n mod radix < radix) by (apply Z.mod_pos_bound; lia).
  pose proof (digit_value_char radix (n mod radix) Hm (proj2 Hr)) as Hc.
  assert (Hv : forallb (is_digit_of radix)
                 ((if n mod radix <? 10 then 48 + n mod radix else 87 + n mod radix)
                  :: acc) = true).
  { cbn [forallb]. unfold is_digit_of at 1. now rewrite Hc. }
  destruct (n <? radix); [exact Hv|].
  apply IH; [apply Z.div_pos; lia | exact Hv].
Qed.

Lemma Z_digits_valid radix n :
  2 <= radix <= 36 -> 0 <= n -> forallb (is_digit_of radix) (Z_digits radix n) = true.
Proof. intros Hr Hn. now apply digits_fuel_valid. Qed.

Lemma Z_digits_nonempty radix n : Z_digits radix n <> [].
Proof.
  unfold Z_digits.
  assert (G : forall fuel m acc, acc <> [] -> digits_fuel fuel radix m acc <> []).
  { induction fuel as [|f IH]; intros m acc Ha; cbn [digits_fuel]; [exact Ha|].
    cbv zeta. destruct (m <? radix); [discriminate|]. apply IH. discriminate. }
  cbn [digits_fuel]. cbv zeta. destruct (n <? radix); [discriminate|].
  apply G. discriminate.
Qed.

(** ** Number literals *)

Lemma in_range_out lo hi c : c < lo \/ hi < c -> in_range lo hi c = false.
Proof.
  intro H. unfold in_range. apply andb_false_iff.
  destruct H; [left; apply Z.leb_gt | right; apply Z.leb_gt]; lia.
Qed.

Lemma in_range_in lo hi c : in_range lo hi c = true <-> lo <= c <= hi.
Proof. unfold in_range. rewrite andb_true_iff, !Z.leb_le. tauto. Qed.

Lemma is_alnum_range c :
  is_alnum c = true <-> 48 <= c <= 57 \/ 65 <= c <= 90 \/ 97 <= c <= 122.
Proof.
  unfold is_alnum, is_alpha, is_upper, is_lower, is_digit.
  rewrite !orb_true_iff, !in_range_in. tauto.
Qed.

Ltac no_space :=
  unfold is_space; repeat apply orb_false_intro;
  try (apply Z.eqb_neq; lia); apply in_range_out; lia.

Lemma alnum_not_space c : is_alnum c = true -> is_space c = false.
Proof. intro H. apply is_alnum_range in H. no_space. Qed.

Lemma is_digit_of_alnum radix c :
  radix <= 36 -> is_digit_of radix c = true -> is_alnum c = true.
Proof.
  intros Hr. unfold is_digit_of, digit_value, is_alnum, is_alpha.
  destruct (is_digit c), (is_lower c), (is_upper c); cbn [orb]; try reflexivity.
  replace (99 <? radix) with false by (symmetry; apply Z.ltb_ge; lia).
  discriminate.
Qed.

Lemma is_hex_digit_of c : is_hex c = is_digit_of 16 c.
Proof.
  unfold is_hex, is_digit_of, digit_value, is_digit, is_lower, is_upper, in_range.
  destruct (Z.leb_spec 48 c), (Z.leb_spec c 57), (Z.leb_spec 65 c),
    (Z.leb_spec c 70), (Z.leb_spec 97 c), (Z.leb_spec c 102),
    (Z.leb_spec c 122), (Z.leb_spec c 90); cbn [andb orb];
    match goal with |- context [if ?x <? 16 then _ else _] =>
      destruct (Z.ltb_spec x 16) end; try reflexivity; lia.
Qed.

Lemma binary_digit_of c : one_of "01" c = is_digit_of 2 c.
Proof.
  unfold one_of, is_digit_of, digit_value, is_digit, is_lower, is_upper, in_range.
  change (js "01") with [48; 49]. cbn [existsb].
  destruct (Z.eqb_spec c 48), (Z.eqb_spec c 49), (Z.leb_spec 48 c),
    (Z.leb_spec c 57), (Z.leb_spec 65 c), (Z.leb_spec 97 c),
    (Z.leb_spec c 122), (Z.leb_spec c 90); cbn [andb orb];
    match goal with |- context [if ?x <? 2 then _ else _] =>
      destruct (Z.ltb_spec x 2) end; try reflexivity; lia.
Qed.

Lemma octal_digit_of c : in_range 48 55 c = is_digit_of 8 c.
Proof.
  unfold is_digit_of, digit_value, is_digit, is_lower, is_upper, in_range.
  destruct (Z.leb_spec 48 c), (Z.leb_spec c 55),
    (Z.leb_spec c 57), (Z.leb_spec 65 c), (Z.leb_spec 97 c),
    (Z.leb_spec c 122), (Z.leb_spec c 90); cbn [andb orb];
    match goal with |- context [if ?x <? 8 then _ else _] =>
      destruct (Z.ltb_spec x 8) end; try reflexivity; lia.
Qed.

Lemma forallb_ext_eq {A} (p q : A -> bool) l :
  (forall x, p x = q x) -> forallb p l = forallb q l.
Proof. intro H. induction l as [|x l IH]; cbn [forallb]; [reflexivity|]. now rewrite H, IH. Qed.

(** A pattern [0p[cls]+], as a test on the characters. *)
Lemma literal_pattern p cls t :
  regex_test (Seq (Seq (Cls (Z.eqb 48)) (Cls (Z.eqb p))) (Plus (Cls cls))) t
  = literal_of p cls t.
Proof.
  apply eq_true_iff_eq. rewrite regex_test_Match. unfold literal_of, Plus. split.
  - intro M. apply Match_seq_inv in M as (u & v & -> & Mu & Mv).
    apply Match_seq_inv in Mu as (u1 & u2 & -> & M1 & M2).
    apply Match_cls_inv in M1 as (z & -> & Hz). apply Match_cls_inv in M2 as (q & -> & Hq).
    apply Match_seq_inv in Mv as (v1 & v2 & -> & M3 & M4).
    apply Match_cls_inv in M3 as (d & -> & Hd). apply Match_star_cls in M4.
    cbn [app forallb]. apply Z.eqb_eq in Hz, Hq. subst z q.
    now rewrite !Z.eqb_refl, Hd, M4.
  - destruct t as [|z [|q [|d ds]]]; try discriminate.
    intro H. apply andb_true_iff in H as [H Hds]. apply andb_true_iff in H as [Hz Hq].
    cbn [forallb] in Hds. apply andb_true_iff in Hds as [Hd Hds].
    apply Z.eqb_eq in Hz, Hq. subst z q.
    apply (Match_seq_intro _ _ [48; p] (d :: ds)); [reflexivity | |].
    + apply (Match_seq_intro _ _ [48] [p]); [reflexivity | |];
        constructor; apply Z.eqb_refl.
    + apply (Match_seq_intro _ _ [d] ds); [reflexivity | now constructor |].
      now apply Match_star_cls.
Qed.

Lemma HEX_NUMBER_REGEX_test t :
  regex_test HEX_NUMBER_REGEX t = literal_of 120 (is_digit_of 16) t.
Proof.
  unfold HEX_NUMBER_REGEX, hexdigit.
  change (Lit "0x") with (Seq (Cls (Z.eqb 48)) (Cls (Z.eqb 120))).
  rewrite literal_pattern. unfold literal_of.
  destruct t as [|z [|q [|d ds]]]; try reflexivity.
  f_equal. apply forallb_ext_eq, is_hex_digit_of.
Qed.

Lemma BINARY_REGEX_test t :
  regex_test BINARY_REGEX t = literal_of 98 (is_digit_of 2) t.
Proof.
  unfold BINARY_REGEX.
  change (Lit "0b") with (Seq (Cls (Z.eqb 48)) (Cls (Z.eqb 98))).
  rewrite literal_pattern. unfold literal_of.
  destruct t as [|z [|q [|d ds]]]; try reflexivity.
  f_equal. apply forallb_ext_eq, binary_digit_of.
Qed.

Lemma OCTAL_REGEX_test t :
  regex_test OCTAL_REGEX t = literal_of 111 (is_digit_of 8) t.
Proof.
  unfold OCTAL_REGEX.
  change (Lit "0o") with (Seq (Cls (Z.eqb 48)) (Cls (Z.eqb 111))).
  rewrite literal_pattern. unfold literal_of.
  destruct t as [|z [|q [|d ds]]]; try reflexivity.
  f_equal. apply forallb_ext_eq, octal_digit_of.
Qed.

Lemma literal_of_shape p cls t :
  literal_of p cls t = true ->
  exists d ds, t = 48 :: p :: d :: ds /\ forallb cls (d :: ds) = true.
Proof.
  unfold literal_of. destruct t as [|z [|q [|d ds]]]; try discriminate.
  intro H. apply andb_true_iff in H as [H Hds]. apply andb_true_iff in H as [Hz Hq].
  apply Z.eqb_eq in Hz, Hq. subst. eauto.
Qed.

Lemma digits_not_space radix ds :
  radix <= 36 -> forallb (is_digit_of radix) ds = true ->
  forallb not_space ds = true.
Proof.
  intros Hr. apply forallb_weaken. intros c Hc. unfold not_space.
  now rewrite (alnum_not_space c (is_digit_of_alnum radix c Hr Hc)).
Qed.

(** [parseInt] on a string of digits of a radix other than 16. *)
Lemma parseInt_valid radix ds :
  2 <= radix <= 36 -> radix <> 16 -> ds <> [] ->
  forallb (is_digit_of radix) ds = true ->
  parseInt ds radix = Some (digits_value_in radix ds).
Proof.
  intros Hr H16 Hne Hds. destruct ds as [|c ds]; [contradiction|].
  assert (Hc : is_alnum c = true).
  { cbn [forallb] in Hds. apply andb_true_iff in Hds as [Hc _].
    apply (is_digit_of_alnum radix); [lia | exact Hc]. }
  unfold parseInt. cbn [drop_space]. rewrite (alnum_not_space c Hc).
  apply is_alnum_range in Hc.
  replace (c =? 45) with false by (symmetry; apply Z.eqb_neq; lia).
  replace (c =? 43) with false by (symmetry; apply Z.eqb_neq; lia).
  replace (radix =? 16) with false by (symmetry; apply Z.eqb_neq; lia).
  rewrite read_digits_valid by exact Hds.
  replace (0 + len (c :: ds) =? 0) with false; [reflexivity|].
  symmetry. apply Z.eqb_neq. rewrite len_cons. pose proof (len_nonneg ds). lia.
Qed.

(** [parseInt] in radix 16 on [0x] and hexadecimal digits. *)
Lemma parseInt_hex_literal ds :
  ds <> [] -> forallb (is_digit_of 16) ds = true ->
  parseInt (48 :: 120 :: ds) 16 = Some (digits_value_in 16 ds).
Proof.
  intros Hne Hds. unfold parseInt. cbn [drop_space].
  change (is_space 48) with false. cbv iota.
  change (48 =? 45) with false. change (48 =? 43) with false. cbv iota.
  change (16 =? 16) with true. cbv iota.
  change ((48 =? 48) && ((120 =? 120) || (120 =? 88))) with true. cbv iota.
  rewrite read_digits_valid by exact Hds.
  replace (0 + len ds =? 0) with false; [reflexivity|].
  symmetry. apply Z.eqb_neq. destruct ds; [contradiction|].
  rewrite len_cons. pose proof (len_nonneg ds). lia.
Qed.

Lemma detectNumber_spec s r :
  detectNumber s = Normal (Some r) <->
  exists base ds,
    number_literal (trim s) = Some (base, ds)
    /\ r = mkResult number 1 s
             (Some (ParsedNumber base (Z_to_float (digits_value_in base ds)))).
Proof.
  unfold detectNumber, number_literal, result, null. cbv zeta.
  rewrite HEX_NUMBER_REGEX_test, BINARY_REGEX_test, OCTAL_REGEX_test.
  destruct (literal_of 120 (is_digit_of 16) (trim s)) eqn:H16.
  { apply literal_of_shape in H16 as (d & ds & E & Hds). rewrite E.
    rewrite parseInt_hex_literal by (try discriminate; exact Hds).
    cbn [skipn int_number]. split.
    - intros [= <-]. eauto.
    - intros (base & ds' & [= <- <-] & ->). reflexivity. }
  destruct (literal_of 98 (is_digit_of 2) (trim s)) eqn:H2.
  { apply literal_of_shape in H2 as (d & ds & E & Hds). rewrite E. cbn [skipn].
    rewrite parseInt_valid by (try discriminate; try lia; exact Hds).
    cbn [int_number]. split.
    - intros [= <-]. eauto.
    - intros (base & ds' & [= <- <-] & ->). reflexivity. }
  destruct (literal_of 111 (is_digit_of 8) (trim s)) eqn:H8.
  { apply literal_of_shape in H8 as (d & ds & E & Hds). rewrite E. cbn [skipn].
    rewrite parseInt_valid by (try discriminate; try lia; exact Hds).
    cbn [int_number]. split.
    - intros [= <-]. eauto.
    - intros (base & ds' & [= <- <-] & ->). reflexivity. }
  split; [discriminate | intros (? & ? & ? & _); discriminate].
Qed.

Lemma number_literal_shape t base ds :
  number_literal t = Some (base, ds) ->
  exists p, t = 48 :: p :: ds /\ (p = 120 \/ p = 98 \/ p = 111)
            /\ (base = 16 \/ base = 2 \/ base = 8)
            /\ ds <> [] /\ forallb (is_digit_of base) ds = true.
Proof.
  unfold number_literal.
  destruct (literal_of 120 (is_digit_of 16) t) eqn:H16.
  { apply literal_of_shape in H16 as (d & ds' & -> & Hds). intros [= <- <-].
    exists 120. cbn [skipn]. repeat split; auto. discriminate. }
  destruct (literal_of 98 (is_digit_of 2) t) eqn:H2.
  { apply literal_of_shape in H2 as (d & ds' & -> & Hds). intros [= <- <-].
    exists 98. cbn [skipn]. repeat split; auto. discriminate. }
  destruct (literal_of 111 (is_digit_of 8) t) eqn:H8.
  { apply literal_of_shape in H8 as (d & ds' & -> & Hds). intros [= <- <-].
    exists 111. cbn [skipn]. repeat split; auto. discriminate. }
  discriminate.
Qed.

Lemma uuid_needs_hyphen t : Match UUID_REGEX t -> In 45 t.
Proof.
  intro M. unfold UUID_REGEX in M. cbn [seqs] in M.
  apply Match_needs_char in M as (c & Hin & Hc).
  apply Z.eqb_eq in Hc. now subst c.
Qed.

Lemma alnum_lacks t c : forallb is_alnum t = true -> is_alnum c = false -> ~ In c t.
Proof.
  rewrite forallb_forall. intros H Hc Hin. apply H in Hin. congruence.
Qed.

(** No detector before [detectNumber] takes a number literal. *)
Lemma number_literal_misses s base ds :
  number_literal (trim s) = Some (base, ds) ->
  detectJwt s = Normal None /\ detectUuid s = Normal None
  /\ detectJson s = Normal None /\ detectColor s = Normal None
  /\ detectTimestamp s = Normal None.
Proof.
  intro H. apply number_literal_shape in H as (p & E & Hp & Hb & Hne & Hds).
  assert (Hal : forallb is_alnum (trim s) = true).
  { rewrite E. cbn [forallb].
    replace (is_alnum 48) with true by reflexivity.
    replace (is_alnum p) with true
      by (symmetry; apply is_alnum_range; lia).
    cbn [andb]. revert Hds. apply forallb_weaken. intros c.
    apply is_digit_of_alnum. lia. }
  repeat split.
  - unfold detectJwt. cbv zeta.
    replace (regex_test JWT_REGEX (trim s)) with false; [reflexivity|].
    symmetry. apply regex_test_false. intro M. apply jwt_needs_dot in M.
    now apply (alnum_lacks _ 46 Hal).
  - unfold detectUuid. cbv zeta.
    replace (regex_test UUID_REGEX (trim s)) with false; [reflexivity|].
    symmetry. apply regex_test_false. intro M. apply uuid_needs_hyphen in M.
    now apply (alnum_lacks _ 45 Hal).
  - unfold detectJson. cbv zeta. rewrite E. reflexivity.
  - unfold detectColor. cbv zeta. rewrite E.
    rewrite !digit_start_dead; auto; vm_compute; reflexivity.
  - unfold detectTimestamp. cbv zeta.
    replace (regex_test EPOCH_REGEX (trim s)) with false; [reflexivity|].
    symmetry. apply not_true_is_false. intro M. apply EPOCH_REGEX_spec in M as [_ M].
    rewrite E in M. unfold all_digits in M. cbn [forallb] in M.
    apply andb_true_iff in M as [_ M]. apply andb_true_iff in M as [M _].
    apply is_digit_range in M. lia.
Qed.

Lemma classifies_number s :
  classifies s number <->
  s <> [] /\ detectJwt s = Normal None /\ detectUuid s = Normal None
  /\ detectJson s = Normal None /\ detectColor s = Normal None
  /\ detectTimestamp s = Normal None
  /\ exists r, detectNumber s = Normal (Some r).
Proof.
  split.
  - intros (r & H & T). walk_detectors H;
      try (type_of_hit; congruence); try discriminate T.
    repeat split; eauto. intros ->. discriminate.
  - intros (Hs & E1 & E2 & E3 & E4 & E5 & r & E6).
    exists r. split; [|now apply detectNumber_type in E6].
    unfold detect. destruct (len s =? 0) eqn:L; [now apply len_zero in L|].
    unfold detectors.
    rewrite !first_match_miss by assumption.
    now rewrite (first_match_hit _ _ _ _ E6).
Qed.

Lemma trim_nonempty s : trim s <> [] -> s <> [].
Proof. intros H ->. now apply H. Qed.

Lemma starts_with_literal p ds :
  p = 120 \/ p = 98 \/ p = 111 ->
  startsWith (js "0x") (48 :: p :: ds) = (p =? 120)
  /\ startsWith (js "0X") (48 :: p :: ds) = false
  /\ startsWith (js "0b") (48 :: p :: ds) = (p =? 98)
  /\ startsWith (js "0B") (48 :: p :: ds) = false
  /\ startsWith (js "0o") (48 :: p :: ds) = (p =? 111)
  /\ startsWith (js "0O") (48 :: p :: ds) = false.
Proof.
  intros [-> | [-> | ->]]; repeat split; reflexivity.
Qed.

(** [parseNumber] reads a number literal as [detectNumber] does. *)
Lemma parseNumber_literal s base ds :
  number_literal (trim s) = Some (base, ds) ->
  parseNumber s = Some (digits_value_in base ds).
Proof.
  intro H. pose proof H as H'.
  apply number_literal_shape in H' as (p & E & Hp & Hb & Hne & Hds).
  unfold parseNumber. cbv zeta. rewrite E.
  destruct (starts_with_literal p ds Hp) as (-> & -> & -> & -> & -> & ->).
  unfold number_literal in H. rewrite E in H. unfold literal_of in H.
  destruct ds as [|d ds]; [contradiction|].
  change (48 =? 48) with true in H. cbn [andb skipn] in H.
  rewrite !orb_false_r.
  destruct (p =? 120) eqn:P1.
  { apply Z.eqb_eq in P1. subst p.
    destruct (forallb (is_digit_of 16) (d :: ds)) eqn:F; cbn [andb] in H.
    - injection H as <-. now apply parseInt_hex_literal.
    - change (120 =? 98) with false in H. change (120 =? 111) with false in H.
      discriminate. }
  cbn [andb] in H.
  destruct (p =? 98) eqn:P2.
  { cbn [skipn]. cbn [andb] in H.
    destruct (forallb (is_digit_of 2) (d :: ds)) eqn:F.
    - injection H as <-. apply parseInt_valid; try lia; try discriminate; exact F.
    - apply Z.eqb_eq in P2. subst p. change (98 =? 111) with false in H.
      discriminate. }
  cbn [andb] in H.
  destruct (p =? 111) eqn:P3; [|discriminate].
  cbn [skipn]. cbn [andb] in H.
  destruct (forallb (is_digit_of 8) (d :: ds)) eqn:F; [|discriminate].
  injection H as <-. apply parseInt_valid; try lia; try discriminate; exact F.
Qed.

(** X3. [detect] classifies an input as [number] exactly when its trimmed
    text is a literal [0x], [0b] or [0o] (lower case) followed by one or more
    digits of the radix; no earlier detector takes such a text. The [parsed]
    artifact is then the radix and the value of the digits, and [parseNumber]
    reads the same value from the input. *)
Theorem number_detection s :
  (classifies s number <-> number_literal (trim s) <> None)
  /\ (forall r,
         detect (Str s) = Normal r -> type r = number ->
         exists base ds,
           number_literal (trim s) = Some (base, ds)
           /\ parsed r
              = Some (ParsedNumber base (Z_to_float (digits_value_in base ds)))
           /\ parseNumber s = Some (digits_value_in base ds)).
Proof.
  split.
  - rewrite classifies_number. split.
    + intros (_ & _ & _ & _ & _ & _ & r & Hr).
      apply detectNumber_spec in Hr as (base & ds & -> & _). discriminate.
    + intro H. destruct (number_literal (trim s)) as [[base ds]|] eqn:E;
        [|contradiction].
      destruct (number_literal_misses s base ds E) as (E1 & E2 & E3 & E4 & E5).
      repeat split; try assumption.
      * apply trim_nonempty. apply number_literal_shape in E as (p & -> & _).
        discriminate.
      * eexists. apply detectNumber_spec. eauto.
  - intros r H T.
    assert (C : classifies s number) by (exists r; auto).
    apply classifies_number in C as (_ & E1 & E2 & E3 & E4 & E5 & r' & Hr).
    assert (r' = r).
    { unfold detect in H. destruct (len s =? 0); [injection H as <-; discriminate|].
      unfold detectors in H. rewrite !first_match_miss in H by assumption.
      rewrite (first_match_hit _ _ _ _ Hr) in H. cbn [bind] in H. congruence. }
    subst r'. apply detectNumber_spec in Hr as (base & ds & E & ->).
    exists base, ds. repeat split; [exact E | now apply parseNumber_literal].
Qed.

(** ** A number written in a base and read again *)

Lemma drop_space_no_space s : forallb not_space s = true -> drop_space s = s.
Proof.
  destruct s as [|c s]; [reflexivity|]. cbn [forallb drop_space]. unfold not_space at 1.
  intro H. apply andb_true_iff in H as [Hc _]. apply negb_true_iff in Hc.
  now rewrite Hc.
Qed.

Lemma trim_no_space s : forallb not_space s = true -> trim s = s.
Proof.
  intro H. unfold trim. rewrite (drop_space_no_space s H).
  rewrite drop_space_no_space by (apply forallb_rev; exact H).
  apply rev_involutive.
Qed.

Lemma digits_value_Z_digits radix n :
  2 <= radix <= 36 -> 0 <= n -> digits_value_in radix (Z_digits radix n) = n.
Proof.
  intros Hr Hn.
  destruct (read_digits_Z_digits radix n [] Hr Hn) as (d & Hd & Hread).
  specialize (Hread 0 0). rewrite app_nil_r in Hread.
  rewrite read_digits_valid in Hread by now apply Z_digits_valid.
  cbn [read_digits] in Hread. injection Hread as Hv _. exact Hv.
Qed.

Lemma parseInt_Z_toString radix n :
  2 <= radix <= 36 -> radix <> 16 -> parseInt (Z_toString radix n) radix = Some n.
Proof.
  intros Hr H16. unfold Z_toString.
  destruct (n <? 0) eqn:E; [apply Z.ltb_lt in E | apply Z.ltb_ge in E].
  - unfold parseInt. cbn [drop_space]. change (is_space 45) with false. cbv iota.
    change (45 =? 45) with true. cbv iota.
    replace (radix =? 16) with false by (symmetry; apply Z.eqb_neq; lia).
    rewrite read_digits_valid by (apply Z_digits_valid; lia).
    fold (digits_value_in radix (Z_digits radix (- n))).
    rewrite digits_value_Z_digits by lia.
    replace (0 + len (Z_digits radix (- n)) =? 0) with false; [f_equal; lia|].
    symmetry. apply Z.eqb_neq. pose proof (Z_digits_nonempty radix (- n)).
    destruct (Z_digits radix (- n)) as [|c l]; [contradiction|].
    rewrite len_cons. pose proof (len_nonneg l). lia.
  - rewrite parseInt_valid;
      [now rewrite digits_value_Z_digits | exact Hr | exact H16
      | apply Z_digits_nonempty | now apply Z_digits_valid].
Qed.

Lemma Z_toString_no_space radix n :
  2 <= radix <= 36 -> forallb not_space (Z_toString radix n) = true.
Proof.
  intro Hr. unfold Z_toString.
  destruct (n <? 0) eqn:E; [apply Z.ltb_lt in E | apply Z.ltb_ge in E].
  - cbn [forallb]. change (not_space 45) with true. cbn [andb].
    apply (digits_not_space radix); [lia | apply Z_digits_valid; lia].
  - apply (digits_not_space radix); [lia | apply Z_digits_valid; lia].
Qed.

Lemma fold_case_not_space c : not_space c = true -> not_space (fold_case c) = true.
Proof.
  unfold fold_case. destruct (is_lower c) eqn:L; [|auto]. intros _.
  unfold is_lower in L. apply in_range_in in L.
  unfold not_space. apply negb_true_iff. no_space.
Qed.

Lemma ascii_upper_no_space s :
  forallb not_space s = true -> forallb not_space (ascii_upper s) = true.
Proof.
  unfold ascii_upper. induction s as [|c s IH]; [reflexivity|].
  cbn [forallb map]. intro H. apply andb_true_iff in H as [Hc Hs].
  now rewrite fold_case_not_space, IH.
Qed.

Lemma digits_value_ascii_upper radix s :
  digits_value_in radix (ascii_upper s) = digits_value_in radix s.
Proof.
  unfold digits_value_in, ascii_upper.
  set (f := fun acc c => acc * radix + match digit_value radix c with
                                       | Some v => v
                                       | None => 0
                                       end).
  assert (G : forall a, fold_left f (map fold_case s) a = fold_left f s a).
  { induction s as [|c s IH]; intro a; [reflexivity|].
    cbn [map fold_left]. rewrite IH. f_equal. unfold f.
    now rewrite digit_value_fold_case. }
  apply G.
Qed.

Lemma ascii_upper_valid radix s :
  forallb (is_digit_of radix) s = true ->
  forallb (is_digit_of radix) (ascii_upper s) = true.
Proof.
  unfold ascii_upper. induction s as [|c s IH]; [reflexivity|].
  cbn [forallb map]. intro H. apply andb_true_iff in H as [Hc Hs].
  unfold is_digit_of at 1. rewrite digit_value_fold_case.
  fold (is_digit_of radix c). now rewrite Hc, IH.
Qed.

(** A string of decimal digits, with or without a sign, has none of the
    prefixes that [parseNumber] looks for. *)
Lemma decimal_no_prefix n q :
  is_digit_of 10 q = false ->
  startsWith [48; q] (Z_toString 10 n) = false.
Proof.
  intro Hq. unfold Z_toString. destruct (n <? 0) eqn:E; [reflexivity|].
  apply Z.ltb_ge in E.
  pose proof (Z_digits_valid 10 n ltac:(lia) E) as Hv.
  destruct (Z_digits 10 n) as [|z [|p ds]]; try reflexivity.
  - cbn [startsWith]. now rewrite andb_false_r.
  - cbn [startsWith]. destruct (Z.eqb_spec q p) as [->|]; [|now rewrite andb_false_r].
    cbn [forallb] in Hv.
    apply andb_true_iff in Hv as [_ Hv]. apply andb_true_iff in Hv as [Hv _].
    congruence.
Qed.

Lemma ascii_upper_nonempty s : s <> [] -> ascii_upper s <> [].
Proof. destruct s; [contradiction | discriminate]. Qed.

(** X4. What [numberToAllBases] writes for an integer, [parseNumber] reads
    back: the decimal, binary and octal forms for every integer, the
    hexadecimal form for the integers from 0 on; for a negative integer the
    hexadecimal form, [0x-...], reads as NaN, since [parseInt] looks for the
    sign before the prefix. *)
Theorem number_bases_round_trip n :
  Z.abs n < 2 ^ 53 ->
  parseNumber (NumberFormats.decimal (numberToAllBases n)) = Some n
  /\ parseNumber (NumberFormats.binary (numberToAllBases n)) = Some n
  /\ parseNumber (NumberFormats.octal (numberToAllBases n)) = Some n
  /\ parseNumber (NumberFormats.hex (numberToAllBases n))
     = if n <? 0 then None else Some n.
Proof.
  intros _. unfold numberToAllBases.
  cbn [NumberFormats.decimal NumberFormats.binary NumberFormats.octal
       NumberFormats.hex].
  change (js "0x") with [48; 120]. change (js "0b") with [48; 98].
  change (js "0o") with [48; 111]. cbn [app].
  repeat split.
  - unfold parseNumber. cbv zeta.
    rewrite trim_no_space by (apply Z_toString_no_space; lia).
    change (js "0x") with [48; 120]. change (js "0X") with [48; 88].
    change (js "0b") with [48; 98]. change (js "0B") with [48; 66].
    change (js "0o") with [48; 111]. change (js "0O") with [48; 79].
    rewrite !decimal_no_prefix by reflexivity. cbn [orb].
    apply parseInt_Z_toString; lia.
  - unfold parseNumber. cbv zeta.
    rewrite trim_no_space
      by (cbn [forallb]; rewrite Z_toString_no_space by lia; reflexivity).
    change (startsWith (js "0x") (48 :: 98 :: Z_toString 2 n)) with false.
    change (startsWith (js "0X") (48 :: 98 :: Z_toString 2 n)) with false.
    change (startsWith (js "0b") (48 :: 98 :: Z_toString 2 n)) with true.
    cbn [orb skipn]. apply parseInt_Z_toString; lia.
  - unfold parseNumber. cbv zeta.
    rewrite trim_no_space
      by (cbn [forallb]; rewrite Z_toString_no_space by lia; reflexivity).
    change (startsWith (js "0x") (48 :: 111 :: Z_toString 8 n)) with false.
    change (startsWith (js "0X") (48 :: 111 :: Z_toString 8 n)) with false.
    change (startsWith (js "0b") (48 :: 111 :: Z_toString 8 n)) with false.
    change (startsWith (js "0B") (48 :: 111 :: Z_toString 8 n)) with false.
    change (startsWith (js "0o") (48 :: 111 :: Z_toString 8 n)) with true.
    cbn [orb skipn]. apply parseInt_Z_toString; lia.
  - unfold parseNumber. cbv zeta.
    rewrite trim_no_space
      by (cbn [forallb]; rewrite ascii_upper_no_space
            by (apply Z_toString_no_space; lia); reflexivity).
    change (startsWith (js "0x") (48 :: 120 :: ascii_upper (Z_toString 16 n)))
      with true.
    cbn [orb]. unfold Z_toString.
    destruct (n <? 0) eqn:E; [reflexivity|]. apply Z.ltb_ge in E.
    rewrite parseInt_hex_literal.
    + now rewrite digits_value_ascii_upper, digits_value_Z_digits by lia.
    + apply ascii_upper_nonempty, Z_digits_nonempty.
    + apply ascii_upper_valid, Z_digits_valid; lia.
Qed.

Lemma number_bases_round_trip_witness :
  parseNumber (NumberFormats.decimal (numberToAllBases 255)) = Some 255
  /\ parseNumber (NumberFormats.binary (numberToAllBases 255)) = Some 255
  /\ parseNumber (NumberFormats.octal (numberToAllBases 255)) = Some 255
  /\ parseNumber (NumberFormats.hex (numberToAllBases 255)) = Some 255.
Proof. apply (number_bases_round_trip 255). reflexivity. Defined.

Lemma number_literal_classifies s r :
  detectNumber s = Normal (Some r) ->
  detect (Str s) = Normal r.
Proof.
  intro Hr. pose proof Hr as H.
  apply detectNumber_spec in H as (base & ds & E & _).
  destruct (number_literal_misses s base ds E) as (E1 & E2 & E3 & E4 & E5).
  unfold detect.
  replace (len s =? 0) with false.
  - unfold detectors. rewrite !first_match_miss by assumption.
    now rewrite (first_match_hit _ _ _ _ Hr).
  - symmetry. apply not_true_is_false. intro L. apply len_zero in L. subst s.
    discriminate.
Qed.

Lemma literal_detected p base ds :
  (p = 120 /\ base = 16) \/ (p = 98 /\ base = 2) \/ (p = 111 /\ base = 8) ->
  ds <> [] -> forallb (is_digit_of base) ds = true ->
  detect (Str (48 :: p :: ds))
  = Normal (mkResult number 1 (48 :: p :: ds)
              (Some (ParsedNumber base (Z_to_float (digits_value_in base ds))))).
Proof.
  intros Hp Hne Hds. apply number_literal_classifies, detectNumber_spec.
  exists base, ds. split; [|reflexivity].
  assert (Hb : base <= 36) by lia.
  rewrite trim_no_space.
  - unfold number_literal, literal_of. destruct ds as [|d ds]; [contradiction|].
    destruct Hp as [[-> ->] | [[-> ->] | [-> ->]]]; cbn [andb Z.eqb Pos.eqb];
      now rewrite Hds.
  - cbn [forallb]. rewrite (digits_not_space base ds Hb Hds).
    destruct Hp as [[-> _] | [[-> _] | [-> _]]]; reflexivity.
Qed.

(** X5. The hexadecimal, binary and octal forms that [numberToAllBases]
    writes for an integer from 0 on are literals that [detect] classifies as
    [number], with the integer as the parsed value. *)
Theorem number_bases_detected n :
  0 <= n < 2 ^ 53 ->
  detect (Str (NumberFormats.hex (numberToAllBases n)))
  = Normal (mkResult number 1 (NumberFormats.hex (numberToAllBases n))
              (Some (ParsedNumber 16 (Z_to_float n))))
  /\ detect (Str (NumberFormats.binary (numberToAllBases n)))
     = Normal (mkResult number 1 (NumberFormats.binary (numberToAllBases n))
                 (Some (ParsedNumber 2 (Z_to_float n))))
  /\ detect (Str (NumberFormats.octal (numberToAllBases n)))
     = Normal (mkResult number 1 (NumberFormats.octal (numberToAllBases n))
                 (Some (ParsedNumber 8 (Z_to_float n)))).
Proof.
  intros [Hn _]. unfold numberToAllBases.
  cbn [NumberFormats.binary NumberFormats.octal NumberFormats.hex].
  change (js "0x") with [48; 120]. change (js "0b") with [48; 98].
  change (js "0o") with [48; 111]. cbn [app].
  unfold Z_toString. replace (n <? 0) with false by (symmetry; apply Z.ltb_ge; lia).
  repeat split.
  - rewrite (literal_detected 120 16); auto.
    + now rewrite digits_value_ascii_upper, digits_value_Z_digits by lia.
    + apply ascii_upper_nonempty, Z_digits_nonempty.
    + apply ascii_upper_valid, Z_digits_valid; lia.
  - rewrite (literal_detected 98 2); auto.
    + now rewrite digits_value_Z_digits by lia.
    + apply Z_digits_nonempty.
    + apply Z_digits_valid; lia.
  - rewrite (literal_detected 111 8).
    + now rewrite digits_value_Z_digits by lia.
    + auto.
    + apply Z_digits_nonempty.
    + apply Z_digits_valid; lia.
Qed.

Lemma number_bases_detected_witness :
  detect (Str (js "0xFF"))
  = Normal (mkResult number 1 (js "0xFF") (Some (ParsedNumber 16 255))).
Proof. refine (proj1 (number_bases_detected 255 _)). lia. Defined.

(** ** UUIDs *)

Lemma split_on_app sep a rest :
  forallb (fun c => negb (c =? sep)) a = true ->
  split_on sep (a ++ sep :: rest) = a :: split_on sep rest.
Proof.
  induction a as [|c a IH]; intro H; cbn [app split_on].
  - now rewrite Z.eqb_refl.
  - cbn [forallb] in H. apply andb_true_iff in H as [Hc Ha].
    apply negb_true_iff in Hc. rewrite Hc, IH by exact Ha. reflexivity.
Qed.

Lemma split_on_last sep a :
  forallb (fun c => negb (c =? sep)) a = true -> split_on sep a = [a].
Proof.
  induction a as [|c a IH]; intro H; cbn [split_on]; [reflexivity|].
  cbn [forallb] in H. apply andb_true_iff in H as [Hc Ha].
  apply negb_true_iff in Hc. rewrite Hc, IH by exact Ha. reflexivity.
Qed.

Lemma split_on_nonempty sep t : split_on sep t <> [].
Proof.
  induction t as [|c t IH]; cbn [split_on]; [discriminate|].
  destruct (c =? sep); [discriminate|].
  destruct (split_on sep t); discriminate.
Qed.

(** Joining what [split] gave restores the string. *)
Lemma join_split_on sep t : join [sep] (split_on sep t) = t.
Proof.
  induction t as [|c t IH]; cbn [split_on]; [reflexivity|].
  destruct (Z.eqb_spec c sep) as [->|Hc].
  - rewrite join_cons by apply split_on_nonempty. now rewrite IH.
  - pose proof (split_on_nonempty sep t) as Hne.
    destruct (split_on sep t) as [|p ps]; [contradiction|].
    destruct ps as [|q ps].
    + cbn [join] in *. now rewrite IH.
    + rewrite join_cons in * by discriminate. cbn [app] in *. now rewrite IH.
Qed.

(** The pattern of five hyphen-separated groups, as a test on the
    characters. *)
Lemma hyphenated_pattern p t :
  (forall c, p c = true -> c <> 45) ->
  regex_test
    (seqs [Rep 8 (Cls p); Chr "-"; Rep 4 (Cls p); Chr "-"; Rep 4 (Cls p); Chr "-";
           Rep 4 (Cls p); Chr "-"; Rep 12 (Cls p)]) t
  = hyphenated p t.
Proof.
  intro Hp. apply eq_true_iff_eq. rewrite regex_test_Match.
  assert (Hno : forall a, forallb p a = true ->
                          forallb (fun c => negb (c =? 45)) a = true).
  { intro a. apply forallb_weaken. intros c Hc. apply negb_true_iff, Z.eqb_neq.
    now apply Hp. }
  cbn [seqs]. change (Chr "-") with (Cls (Z.eqb 45)). unfold hyphenated. split.
  - intro M.
    apply Match_seq_inv in M as (a & r1 & -> & Ma & M).
    apply Match_seq_inv in M as (h1 & r2 & -> & H1 & M).
    apply Match_seq_inv in M as (b & r3 & -> & Mb & M).
    apply Match_seq_inv in M as (h2 & r4 & -> & H2 & M).
    apply Match_seq_inv in M as (c & r5 & -> & Mc & M).
    apply Match_seq_inv in M as (h3 & r6 & -> & H3 & M).
    apply Match_seq_inv in M as (d & r7 & -> & Md & M).
    apply Match_seq_inv in M as (h4 & e & -> & H4 & Me).
    apply Match_cls_inv in H1 as (x1 & -> & E1). apply Z.eqb_eq in E1. subst x1.
    apply Match_cls_inv in H2 as (x2 & -> & E2). apply Z.eqb_eq in E2. subst x2.
    apply Match_cls_inv in H3 as (x3 & -> & E3). apply Z.eqb_eq in E3. subst x3.
    apply Match_cls_inv in H4 as (x4 & -> & E4). apply Z.eqb_eq in E4. subst x4.
    apply Match_rep_cls in Ma as [La Pa]. apply Match_rep_cls in Mb as [Lb Pb].
    apply Match_rep_cls in Mc as [Lc Pc]. apply Match_rep_cls in Md as [Ld Pd].
    apply Match_rep_cls in Me as [Le Pe].
    cbn [app].
    rewrite !split_on_app, split_on_last by auto.
    unfold len. rewrite La, Lb, Lc, Ld, Le.
    rewrite !forallb_app, Pa, Pb, Pc, Pd, Pe. reflexivity.
  - intro H. pose proof (join_split_on 45 t) as J.
    destruct (split_on 45 t) as [|a [|b [|c [|d [|e [|f l]]]]]]; try discriminate.
    rewrite !andb_true_iff in H. destruct H as (((((La & Lb) & Lc) & Ld) & Le) & P).
    rewrite !forallb_app, !andb_true_iff in P.
    destruct P as (Pa & Pb & Pc & Pd & Pe).
    apply Z.eqb_eq in La, Lb, Lc, Ld, Le. unfold len in *.
    rewrite !join_cons in J by discriminate. cbn [join app] in J. subst t.
    apply (Match_seq_intro _ _ a (45 :: b ++ 45 :: c ++ 45 :: d ++ 45 :: e));
      [reflexivity | apply Match_rep_cls; split; [lia | exact Pa] |].
    apply (Match_seq_intro _ _ [45] (b ++ 45 :: c ++ 45 :: d ++ 45 :: e));
      [reflexivity | constructor; reflexivity |].
    apply (Match_seq_intro _ _ b (45 :: c ++ 45 :: d ++ 45 :: e));
      [reflexivity | apply Match_rep_cls; split; [lia | exact Pb] |].
    apply (Match_seq_intro _ _ [45] (c ++ 45 :: d ++ 45 :: e));
      [reflexivity | constructor; reflexivity |].
    apply (Match_seq_intro _ _ c (45 :: d ++ 45 :: e));
      [reflexivity | apply Match_rep_cls; split; [lia | exact Pc] |].
    apply (Match_seq_intro _ _ [45] (d ++ 45 :: e));
      [reflexivity | constructor; reflexivity |].
    apply (Match_seq_intro _ _ d (45 :: e));
      [reflexivity | apply Match_rep_cls; split; [lia | exact Pd] |].
    apply (Match_seq_intro _ _ [45] e);
      [reflexivity | constructor; reflexivity |].
    apply Match_rep_cls; split; [lia | exact Pe].
Qed.

Lemma is_hex_range c :
  is_hex c = true <-> 48 <= c <= 57 \/ 65 <= c <= 70 \/ 97 <= c <= 102.
Proof.
  unfold is_hex, is_digit. rewrite !orb_true_iff, !in_range_in. tauto.
Qed.

Lemma is_lower_hex_range c :
  is_lower_hex c = true <-> 48 <= c <= 57 \/ 97 <= c <= 102.
Proof.
  unfold is_lower_hex, is_digit. rewrite !orb_true_iff, !in_range_in. tauto.
Qed.

Lemma UUID_REGEX_shape t : regex_test UUID_REGEX t = uuid_shape t.
Proof.
  unfold UUID_REGEX, hexdigit, uuid_shape. apply hyphenated_pattern.
  intros c Hc. apply is_hex_range in Hc. lia.
Qed.

Lemma UUID_PARSE_REGEX_shape t :
  regex_test UUID_PARSE_REGEX t = hyphenated is_lower_hex t.
Proof.
  unfold UUID_PARSE_REGEX, lhex.
  change (Seq (Cls is_lower_hex) (Rep 3 (Cls is_lower_hex)))
    with (Rep 4 (Cls is_lower_hex)).
  apply hyphenated_pattern.
  intros c Hc. apply is_lower_hex_range in Hc. lia.
Qed.

Lemma hyphenated_groups p t :
  hyphenated p t = true ->
  exists a b c d e,
    t = a ++ 45 :: b ++ 45 :: c ++ 45 :: d ++ 45 :: e
    /\ (List.length a = 8 /\ List.length b = 4 /\ List.length c = 4
        /\ List.length d = 4 /\ List.length e = 12)%nat
    /\ forallb p a = true /\ forallb p b = true /\ forallb p c = true
    /\ forallb p d = true /\ forallb p e = true.
Proof.
  unfold hyphenated. intro H. pose proof (join_split_on 45 t) as J.
  destruct (split_on 45 t) as [|a [|b [|c [|d [|e [|f l]]]]]]; try discriminate.
  rewrite !andb_true_iff in H. destruct H as (((((La & Lb) & Lc) & Ld) & Le) & P).
  rewrite !forallb_app, !andb_true_iff in P.
  destruct P as (Pa & Pb & Pc & Pd & Pe).
  apply Z.eqb_eq in La, Lb, Lc, Ld, Le. unfold len in *.
  rewrite !join_cons in J by discriminate. cbn [join app] in J.
  exists a, b, c, d, e. repeat split; auto; lia.
Qed.

Lemma groups_hyphenated p a b c d e :
  (forall x, p x = true -> x <> 45) ->
  (List.length a = 8 /\ List.length b = 4 /\ List.length c = 4
   /\ List.length d = 4 /\ List.length e = 12)%nat ->
  forallb p a = true -> forallb p b = true -> forallb p c = true ->
  forallb p d = true -> forallb p e = true ->
  hyphenated p (a ++ 45 :: b ++ 45 :: c ++ 45 :: d ++ 45 :: e) = true.
Proof.
  intros Hp (La & Lb & Lc & Ld & Le) Pa Pb Pc Pd Pe.
  assert (Hno : forall a, forallb p a = true ->
                          forallb (fun c => negb (c =? 45)) a = true).
  { intro l. apply forallb_weaken. intros x Hx. apply negb_true_iff, Z.eqb_neq.
    now apply Hp. }
  unfold hyphenated. rewrite !split_on_app, split_on_last by auto.
  unfold len. rewrite La, Lb, Lc, Ld, Le.
  rewrite !forallb_app, Pa, Pb, Pc, Pd, Pe. reflexivity.
Qed.

Lemma hex_not_hyphen c : is_hex c = true -> c <> 45.
Proof. intro H. apply is_hex_range in H. lia. Qed.

Lemma lower_hex_not_hyphen c : is_lower_hex c = true -> c <> 45.
Proof. intro H. apply is_lower_hex_range in H. lia. Qed.

Lemma hex_not_space c : is_hex c = true -> not_space c = true.
Proof.
  intro H. apply is_hex_range in H. unfold not_space. apply negb_true_iff. no_space.
Qed.

(** The characters of a string in UUID form: hexadecimal digits and
    hyphens, none of them white space or a point. *)
Lemma uuid_shape_chars t :
  uuid_shape t = true ->
  forallb (fun c => is_hex c || (c =? 45)) t = true.
Proof.
  intro H. apply hyphenated_groups in H
    as (a & b & c & d & e & -> & _ & Pa & Pb & Pc & Pd & Pe).
  assert (W : forall l, forallb is_hex l = true ->
                        forallb (fun c => is_hex c || (c =? 45)) l = true).
  { intro l. apply forallb_weaken. intros x Hx. now rewrite Hx. }
  rewrite !forallb_app. cbn [forallb]. rewrite !forallb_app. cbn [forallb].
  rewrite !forallb_app. cbn [forallb]. rewrite !forallb_app. cbn [forallb].
  rewrite !W by assumption. reflexivity.
Qed.

Lemma uuid_shape_not_jwt s :
  uuid_shape (trim s) = true -> detectJwt s = Normal None.
Proof.
  intro H. unfold detectJwt. cbv zeta.
  replace (regex_test JWT_REGEX (trim s)) with false; [reflexivity|].
  symmetry. apply regex_test_false. intro M. apply jwt_needs_dot in M.
  apply uuid_shape_chars in H. rewrite forallb_forall in H. apply H in M.
  discriminate.
Qed.

Lemma uuid_shape_detected s :
  uuid_shape (trim s) = true -> detect (Str s) = Normal (mkResult uuid 1 s None).
Proof.
  intro H. unfold detect.
  replace (len s =? 0) with false.
  - unfold detectors. rewrite first_match_miss by now apply uuid_shape_not_jwt.
    rewrite (first_match_hit _ _ _ (mkResult uuid 1 s None)); [reflexivity|].
    unfold detectUuid. cbv zeta. now rewrite UUID_REGEX_shape, H.
  - symmetry. apply not_true_is_false. intro L. apply len_zero in L. subst s.
    discriminate.
Qed.

Lemma classifies_uuid s :
  classifies s uuid -> exists r, detectUuid s = Normal (Some r).
Proof.
  intros (r & H & T). walk_detectors H;
    try (type_of_hit; congruence); try discriminate T.
  eauto.
Qed.

(** X6. [detect] classifies an input as [uuid] exactly when its trimmed
    text has the form of a UUID: five groups of 8, 4, 4, 4 and 12
    hexadecimal digits, in either case, with hyphens between them; the
    result then has confidence 1 and the input as [raw]. *)
Theorem uuid_detection s :
  (classifies s uuid <-> uuid_shape (trim s) = true)
  /\ (uuid_shape (trim s) = true ->
      detect (Str s) = Normal (mkResult uuid 1 s None)).
Proof.
  split; [split|].
  - intro C. apply classifies_uuid in C as (r & Hr).
    unfold detectUuid in Hr. cbv zeta in Hr. rewrite UUID_REGEX_shape in Hr.
    destruct (uuid_shape (trim s)); [reflexivity | discriminate].
  - intro H. exists (mkResult uuid 1 s None).
    split; [now apply uuid_shape_detected | reflexivity].
  - apply uuid_shape_detected.
Qed.

(** A list of a known length, by its elements. *)
Ltac explode l :=
  repeat match goal with
         | H : List.length l = _ |- _ => idtac
         end;
  let rec go l :=
    match goal with
    | H : List.length l = O |- _ => destruct l; [clear H | discriminate H]
    | H : List.length l = S _ |- _ =>
        let x := fresh "x" in
        let l' := fresh "l" in
        destruct l as [|x l']; [discriminate H|];
        cbn [List.length] in H; apply Nat.succ_inj in H; go l'
    end in
  go l.

Lemma ToInt32_small z : 0 <= z < 2 ^ 31 -> ToInt32 (Some z) = z.
Proof.
  intro H. unfold ToInt32. rewrite Z.mod_small; lia.
Qed.

(** [parseInt] in radix 16 on one character. *)
Lemma parseInt_hex_char c :
  parseInt [c] 16 = if is_space c then None else digit_value 16 c.
Proof.
  unfold parseInt. cbn [drop_space].
  destruct (is_space c) eqn:S.
  - reflexivity.
  - destruct (Z.eqb_spec c 45) as [->|H45]; [reflexivity|].
    destruct (Z.eqb_spec c 43) as [->|H43]; [reflexivity|].
    change (16 =? 16) with true. cbv iota. cbn [read_digits].
    destruct (digit_value 16 c); reflexivity.
Qed.

Lemma hex_digit_value c :
  is_hex c = true -> exists v, digit_value 16 c = Some v /\ 0 <= v <= 15.
Proof.
  intro H. rewrite is_hex_digit_of in H. unfold is_digit_of in H.
  destruct (digit_value 16 c) as [v|] eqn:E; [|discriminate].
  exists v. split; [reflexivity|]. apply digit_value_range in E. lia.
Qed.

Lemma lower_hex_is_hex c : is_lower_hex c = true -> is_hex c = true.
Proof. rewrite is_lower_hex_range, is_hex_range. lia. Qed.

Lemma variant_by_bits w :
  0 <= w <= 15 ->
  (if Z.land w 8 =? 0 then js "NCS"
   else if Z.land w 12 =? 8 then js "RFC 4122"
   else if Z.land w 14 =? 12 then js "Microsoft"
   else if Z.land w 14 =? 14 then js "Future"
   else js "Unknown") = variant_of w.
Proof.
  intro H.
  assert (C : w = 0 \/ w = 1 \/ w = 2 \/ w = 3 \/ w = 4 \/ w = 5 \/ w = 6 \/ w = 7
              \/ w = 8 \/ w = 9 \/ w = 10 \/ w = 11 \/ w = 12 \/ w = 13 \/ w = 14
              \/ w = 15) by lia.
  repeat (destruct C as [-> | C]; [reflexivity|]). subst. reflexivity.
Qed.

(** What [parseUuid] returns for a text that, lowered, has the form of a
    UUID. *)
Lemma parseUuid_cleaned lower s :
  hyphenated is_lower_hex (lower (trim s)) = true ->
  exists v w,
    hex_digit_at 14 (lower (trim s)) = Some v /\ 0 <= v <= 15
    /\ hex_digit_at 19 (lower (trim s)) = Some w /\ 0 <= w <= 15
    /\ parseUuid lower s = Some (UuidInfo.mk (Some v) (variant_of w)).
Proof.
  intro H. unfold parseUuid. cbv zeta. rewrite UUID_PARSE_REGEX_shape, H.
  cbn [negb]. cbv iota.
  apply hyphenated_groups in H
    as (a & b & c & d & e & -> & (La & Lb & Lc & Ld & Le) & Pa & Pb & Pc & Pd & Pe).
  explode a. explode b. explode c. explode d.
  cbn [forallb] in Pc, Pd.
  apply andb_true_iff in Pc as [Pc _]. apply andb_true_iff in Pd as [Pd _].
  apply lower_hex_is_hex in Pc, Pd.
  destruct (hex_digit_value _ Pc) as (v & Ev & Hv).
  destruct (hex_digit_value _ Pd) as (w & Ew & Hw).
  exists v, w. unfold hex_digit_at, slice. cbn [app nth skipn firstn Nat.sub].
  rewrite !parseInt_hex_char.
  apply hex_not_space in Pc, Pd. unfold not_space in Pc, Pd.
  apply negb_true_iff in Pc, Pd. rewrite Pc, Pd, Ev, Ew.
  rewrite ToInt32_small by lia. rewrite variant_by_bits by lia.
  repeat split; assumption || lia.
Qed.

(** X7. Whatever [parseUuid] returns that is not null, the version is the
    value of the hexadecimal digit at index 14 and the variant is decided by
    the digit at index 19: [NCS] below 8, [RFC 4122] from 8 to 11,
    [Microsoft] for 12 and 13, [Future] for 14 and 15. The four tests of the
    code cover every digit, so the initial [Unknown] is never returned. *)
Theorem parseUuid_result lower s r :
  parseUuid lower s = Some r ->
  exists v w,
    hex_digit_at 14 (lower (trim s)) = Some v /\ 0 <= v <= 15
    /\ hex_digit_at 19 (lower (trim s)) = Some w /\ 0 <= w <= 15
    /\ UuidInfo.version r = Some v
    /\ UuidInfo.variant r = variant_of w
    /\ UuidInfo.variant r <> js "Unknown".
Proof.
  intro H.
  assert (S : hyphenated is_lower_hex (lower (trim s)) = true).
  { unfold parseUuid in H. cbv zeta in H. rewrite UUID_PARSE_REGEX_shape in H.
    destruct (hyphenated is_lower_hex (lower (trim s))); [reflexivity | discriminate]. }
  destruct (parseUuid_cleaned lower s S) as (v & w & Ev & Hv & Ew & Hw & E).
  rewrite E in H. injection H as <-. exists v, w.
  cbn [UuidInfo.version UuidInfo.variant]. repeat split; try assumption; try lia.
  unfold variant_of.
  destruct (w <? 8); [discriminate|]. destruct (w <? 12); [discriminate|].
  destruct (w <? 14); discriminate.
Qed.

Lemma parseUuid_result_witness :
  parseUuid lower_ascii_only sample_uuid
  = Some (UuidInfo.mk (Some 1) (js "RFC 4122"))
  /\ UuidInfo.variant (UuidInfo.mk (Some 1) (js "RFC 4122")) <> js "Unknown".
Proof.
  assert (H : parseUuid lower_ascii_only sample_uuid
              = Some (UuidInfo.mk (Some 1) (js "RFC 4122")))
    by (vm_compute; reflexivity).
  split; [exact H|].
  destruct (parseUuid_result lower_ascii_only sample_uuid _ H)
    as (v & w & _ & _ & _ & _ & _ & _ & U).
  exact U.
Defined.

Lemma digit_value_ascii_lower radix c :
  digit_value radix (ascii_lower c) = digit_value radix c.
Proof.
  unfold ascii_lower. destruct (is_upper c) eqn:U; [|reflexivity].
  unfold digit_value. rewrite U.
  unfold is_lower, is_digit, is_upper, in_range in *.
  apply andb_true_iff in U as [U1 U2]. apply Z.leb_le in U1, U2.
  replace (48 <=? c + 32) with true by (symmetry; apply Z.leb_le; lia).
  replace (c + 32 <=? 57) with false by (symmetry; apply Z.leb_gt; lia).
  replace (97 <=? c + 32) with true by (symmetry; apply Z.leb_le; lia).
  replace (c + 32 <=? 122) with true by (symmetry; apply Z.leb_le; lia).
  replace (c <=? 57) with false by (symmetry; apply Z.leb_gt; lia).
  replace (97 <=? c) with false by (symmetry; apply Z.leb_gt; lia).
  rewrite !andb_false_r. cbn [andb].
  replace (c + 32 - 87) with (c - 55) by lia. reflexivity.
Qed.

Lemma ascii_lower_hex c : is_hex c = true -> is_lower_hex (ascii_lower c) = true.
Proof.
  intro H. apply is_hex_range in H. apply is_lower_hex_range.
  unfold ascii_lower, is_upper. destruct H as [H|[H|H]].
  - rewrite in_range_out by lia. lia.
  - replace (in_range 65 90 c) with true by (symmetry; apply in_range_in; lia).
    lia.
  - rewrite in_range_out by lia. lia.
Qed.

Lemma map_ascii_lower_hex l :
  forallb is_hex l = true -> forallb is_lower_hex (map ascii_lower l) = true.
Proof.
  induction l as [|c l IH]; [reflexivity|]. cbn [forallb map].
  intro H. apply andb_true_iff in H as [Hc Hl].
  now rewrite ascii_lower_hex, IH.
Qed.

Lemma uuid_shape_ascii t : uuid_shape t = true -> forallb is_ascii t = true.
Proof.
  intro H. apply uuid_shape_chars in H. revert H. apply forallb_weaken.
  intros c Hc. unfold is_ascii. apply in_range_in.
  apply orb_true_iff in Hc as [Hc|Hc];
    [apply is_hex_range in Hc | apply Z.eqb_eq in Hc]; lia.
Qed.

(** Lowering a text in UUID form gives the form that [parseUuid] expects. *)
Lemma uuid_shape_lowered t :
  uuid_shape t = true -> hyphenated is_lower_hex (map ascii_lower t) = true.
Proof.
  intro H. apply hyphenated_groups in H
    as (a & b & c & d & e & -> & (La & Lb & Lc & Ld & Le) & Pa & Pb & Pc & Pd & Pe).
  rewrite map_app. cbn [map]. rewrite map_app. cbn [map].
  rewrite map_app. cbn [map]. rewrite map_app. cbn [map].
  change (ascii_lower 45) with 45.
  apply groups_hyphenated;
    auto using lower_hex_not_hyphen, map_ascii_lower_hex.
  rewrite !length_map. auto.
Qed.

(** X8. Every input that [detect] classifies as [uuid], [parseUuid] parses:
    it does not return null, and reports the version digit (index 14 of the
    trimmed text) and the variant of the digit at index 19. This assumes of
    [toLowerCase] only that it lowers the ASCII letters of an ASCII string. *)
Theorem detected_uuid_parses lower s :
  lowers_ascii lower ->
  classifies s uuid ->
  exists v w,
    hex_digit_at 14 (trim s) = Some v /\ hex_digit_at 19 (trim s) = Some w
    /\ parseUuid lower s = Some (UuidInfo.mk (Some v) (variant_of w)).
Proof.
  intros Hl C. apply classifies_uuid in C as (r & Hr).
  assert (S : uuid_shape (trim s) = true).
  { unfold detectUuid in Hr. cbv zeta in Hr. rewrite UUID_REGEX_shape in Hr.
    destruct (uuid_shape (trim s)); [reflexivity | discriminate]. }
  assert (E : lower (trim s) = map ascii_lower (trim s))
    by (apply Hl; now apply uuid_shape_ascii).
  destruct (parseUuid_cleaned lower s) as (v & w & Ev & _ & Ew & _ & P).
  { rewrite E. now apply uuid_shape_lowered. }
  exists v, w. rewrite E in Ev, Ew. unfold hex_digit_at in *.
  change 0 with (ascii_lower 0) in Ev, Ew. rewrite map_nth in Ev, Ew.
  rewrite digit_value_ascii_lower in Ev, Ew. auto.
Qed.

Lemma lower_ascii_only_lowers : lowers_ascii lower_ascii_only.
Proof. intros s _. reflexivity. Qed.

Lemma detected_uuid_parses_witness :
  classifies sample_uuid uuid
  /\ parseUuid lower_ascii_only sample_uuid <> None.
Proof.
  assert (C : classifies sample_uuid uuid).
  { eexists. split; [vm_compute; reflexivity | reflexivity]. }
  split; [exact C|].
  destruct (detected_uuid_parses lower_ascii_only sample_uuid
              lower_ascii_only_lowers C) as (v & w & _ & _ & ->).
  discriminate.
Defined.

(** *** Generated UUIDs *)

Lemma Z_toString16_digit v :
  0 <= v <= 15 -> Z_toString 16 v = [hex_digit_char v].
Proof.
  intro H. unfold Z_toString, Z_digits, hex_digit_char.
  replace (v <? 0) with false by (symmetry; apply Z.ltb_ge; lia).
  cbn [digits_fuel]. cbv zeta.
  replace (v <? 16) with true by (symmetry; apply Z.ltb_lt; lia).
  now rewrite Z.mod_small by lia.
Qed.

Lemma hex_digit_char_lower_hex v :
  0 <= v <= 15 -> is_lower_hex (hex_digit_char v) = true.
Proof.
  intro H. apply is_lower_hex_range. unfold hex_digit_char.
  destruct (Z.ltb_spec v 10); lia.
Qed.

Lemma hex_digit_char_value v :
  0 <= v <= 15 -> digit_value 16 (hex_digit_char v) = Some v.
Proof. intro H. unfold hex_digit_char. apply digit_value_char; lia. Qed.

Lemma variant_bits_range r : 0 <= r <= 15 -> 8 <= Z.lor (Z.land r 3) 8 <= 11.
Proof.
  intro H.
  assert (C : r = 0 \/ r = 1 \/ r = 2 \/ r = 3 \/ r = 4 \/ r = 5 \/ r = 6 \/ r = 7
              \/ r = 8 \/ r = 9 \/ r = 10 \/ r = 11 \/ r = 12 \/ r = 13 \/ r = 14
              \/ r = 15) by lia.
  repeat (destruct C as [-> | C]; [cbn; lia|]). subst. cbn. lia.
Qed.

Lemma lower_hex_fixed c : is_lower_hex c = true -> ascii_lower c = c.
Proof.
  intro H. apply is_lower_hex_range in H. unfold ascii_lower, is_upper.
  rewrite in_range_out; [reflexivity | lia].
Qed.

Lemma map_lower_hex_fixed l :
  forallb is_lower_hex l = true -> map ascii_lower l = l.
Proof.
  induction l as [|c l IH]; [reflexivity|]. cbn [forallb map].
  intro H. apply andb_true_iff in H as [Hc Hl].
  now rewrite lower_hex_fixed, IH.
Qed.

(** The generated string, group by group. *)
Lemma generateUuid_groups rnd :
  draws_below_16 rnd ->
  exists a b c d e,
    generateUuid rnd = a ++ 45 :: b ++ 45 :: (52 :: c) ++ 45 :: d ++ 45 :: e
    /\ (List.length a = 8 /\ List.length b = 4 /\ List.length c = 3
        /\ List.length d = 4 /\ List.length e = 12)%nat
    /\ forallb is_lower_hex a = true /\ forallb is_lower_hex b = true
    /\ forallb is_lower_hex c = true /\ forallb is_lower_hex d = true
    /\ forallb is_lower_hex e = true
    /\ exists w, nth 0 d 0 = hex_digit_char w /\ 8 <= w <= 11.
Proof.
  intro H. unfold generateUuid.
  change uuid_template
    with [120; 120; 120; 120; 120; 120; 120; 120; 45; 120; 120; 120; 120; 45;
          52; 120; 120; 120; 45; 121; 120; 120; 120; 45;
          120; 120; 120; 120; 120; 120; 120; 120; 120; 120; 120; 120].
  cbn [replace_xy Z.eqb Pos.eqb orb]. cbv zeta.
  pose proof (variant_bits_range (rnd 15%nat) (H 15%nat)) as Hw.
  rewrite !Z_toString16_digit by (apply H || lia).
  cbn [app].
  set (h := fun k => hex_digit_char (rnd k)).
  exists [h 0; h 1; h 2; h 3; h 4; h 5; h 6; h 7]%nat,
         [h 8; h 9; h 10; h 11]%nat, [h 12; h 13; h 14]%nat,
         [hex_digit_char (Z.lor (Z.land (rnd 15%nat) 3) 8); h 16; h 17; h 18]%nat,
         [h 19; h 20; h 21; h 22; h 23; h 24; h 25; h 26; h 27; h 28; h 29; h 30]%nat.
  split; [reflexivity|]. split; [repeat split|].
  unfold h. cbn [forallb].
  rewrite !hex_digit_char_lower_hex by (apply H || lia).
  repeat split. eexists. split; [reflexivity | exact Hw].
Qed.

Lemma uuid_shape_trim t : uuid_shape t = true -> trim t = t.
Proof.
  intro H. apply trim_no_space. apply uuid_shape_chars in H. revert H.
  apply forallb_weaken. intros c Hc.
  apply orb_true_iff in Hc as [Hc|Hc]; [now apply hex_not_space|].
  apply Z.eqb_eq in Hc. now subst.
Qed.

Lemma lower_hex_all_hex l : forallb is_lower_hex l = true -> forallb is_hex l = true.
Proof. apply forallb_weaken, lower_hex_is_hex. Qed.

(** X9. Whatever numbers are drawn, [generateUuid] returns a text in UUID
    form that [detect] classifies as [uuid] and that [parseUuid] reads as
    version 4, variant RFC 4122. *)
Theorem generated_uuid rnd lower :
  draws_below_16 rnd -> lowers_ascii lower ->
  detect (Str (generateUuid rnd))
  = Normal (mkResult uuid 1 (generateUuid rnd) None)
  /\ parseUuid lower (generateUuid rnd)
     = Some (UuidInfo.mk (Some 4) (js "RFC 4122")).
Proof.
  intros Hr Hl.
  destruct (generateUuid_groups rnd Hr)
    as (a & b & c & d & e & -> & (La & Lb & Lc & Ld & Le)
        & Pa & Pb & Pc & Pd & Pe & w & Ew & Hw).
  set (g := a ++ 45 :: b ++ 45 :: (52 :: c) ++ 45 :: d ++ 45 :: e).
  assert (Pc' : forallb is_lower_hex (52 :: c) = true)
    by (cbn [forallb]; now rewrite Pc).
  assert (Lc' : List.length (52 :: c) = 4%nat) by (cbn [List.length]; lia).
  assert (G : hyphenated is_lower_hex g = true)
    by (apply groups_hyphenated; auto using lower_hex_not_hyphen).
  assert (S : uuid_shape g = true)
    by (apply groups_hyphenated; auto using hex_not_hyphen, lower_hex_all_hex).
  assert (T : trim g = g) by now apply uuid_shape_trim.
  split.
  - apply uuid_shape_detected. now rewrite T.
  - assert (E : lower (trim g) = g).
    { rewrite T, Hl by now apply uuid_shape_ascii. unfold g.
      rewrite map_app. cbn [map]. rewrite map_app. cbn [map].
      rewrite map_app. cbn [map]. rewrite map_app. cbn [map].
      change (ascii_lower 45) with 45. change (ascii_lower 52) with 52.
      now rewrite !map_lower_hex_fixed by assumption. }
    destruct (parseUuid_cleaned lower g) as (v & x & Ev & _ & Ex & _ & P);
      [now rewrite E|].
    rewrite P. rewrite E in Ev, Ex. unfold g, hex_digit_at in Ev, Ex.
    clear - Ev Ex Ew Hw La Lb Lc Ld.
    explode a. explode b. explode c. explode d.
    cbn [app nth] in Ev, Ex, Ew. rewrite Ew in Ex.
    rewrite hex_digit_char_value in Ex by lia.
    injection Ex as <-. change (digit_value 16 52) with (Some 4) in Ev.
    injection Ev as <-. f_equal. f_equal. unfold variant_of.
    replace (w <? 8) with false by (symmetry; apply Z.ltb_ge; lia).
    replace (w <? 12) with true by (symmetry; apply Z.ltb_lt; lia).
    reflexivity.
Qed.

Lemma generated_uuid_witness :
  detect (Str (js "00000000-0000-4000-8000-000000000000"))
  = Normal (mkResult uuid 1 (js "00000000-0000-4000-8000-000000000000") None)
  /\ parseUuid lower_ascii_only (js "00000000-0000-4000-8000-000000000000")
     = Some (UuidInfo.mk (Some 4) (js "RFC 4122")).
Proof.
  apply (generated_uuid (fun _ => 0) lower_ascii_only).
  - intro k. lia.
  - exact lower_ascii_only_lowers.
Defined.

(** ** JWT: [parseJwt] on what [detect] calls a JWT *)

Lemma detectJwt_spec s r :
  detectJwt s = Normal (Some r) ->
  exists p0 p1 p2 h p,
    split_on 46 (trim s) = [p0; p1; p2]
    /\ segment_json p0 = Some h /\ segment_json p1 = Some p
    /\ r = mkResult jwt 1 s (Some (ParsedJwt h p p2)).
Proof.
  unfold detectJwt. cbv zeta.
  destruct (negb (regex_test JWT_REGEX (trim s))); [discriminate|].
  destruct (split_on 46 (trim s)) as [|p0 [|p1 [|p2 [|p3 l]]]]; try discriminate.
  unfold bind, try_catch, result, null.
  destruct (atob (from_base64url p0)) as [h|] eqn:E1; [|discriminate].
  destruct (JSON_parse h) as [hv|] eqn:E2; [|discriminate].
  destruct (atob (from_base64url p1)) as [p|] eqn:E3; [|discriminate].
  destruct (JSON_parse p) as [pv|] eqn:E4; [|discriminate].
  destruct (get_prop hv (js "alg")) as [alg|]; [|discriminate].
  intro H. exists p0, p1, p2, hv, pv. unfold segment_json.
  rewrite E1, E2, E3, E4. repeat split.
  destruct (truthy alg).
  - now injection H as <-.
  - destruct (get_prop hv (js "typ")) as [typ|]; [|discriminate].
    destruct (truthy typ); [|discriminate]. now injection H as <-.
Qed.

(** [parseJwt] on a token whose two leading segments decode. *)
Lemma parseJwt_decoded now s p0 p1 p2 h p :
  split_on 46 (trim s) = [p0; p1; p2] ->
  segment_json p0 = Some h -> segment_json p1 = Some p ->
  if reads_claim p (js "exp") && reads_claim p (js "iat")
  then exists j,
      parseJwt now s = Some j /\ JwtPayload.header j = h
      /\ JwtPayload.payload j = p /\ JwtPayload.signature j = p2
  else parseJwt now s = None.
Proof.
  intros Hs Hh Hp. unfold parseJwt, reads_claim. cbv zeta. rewrite Hs.
  unfold segment_json in Hh, Hp. unfold bind.
  destruct (atob (from_base64url p0)) as [hs|]; [|discriminate].
  destruct (JSON_parse hs) as [hv|]; [|discriminate]. injection Hh as ->.
  destruct (atob (from_base64url p1)) as [ps|]; [|discriminate].
  destruct (JSON_parse ps) as [pv|]; [|discriminate]. injection Hp as ->.
  destruct (get_prop p (js "exp")) as [exp|]; [|reflexivity].
  destruct (get_prop p (js "iat")) as [iat|];
    [|destruct (truthy exp); [destruct (times_1000 exp)|]; reflexivity].
  destruct (truthy exp); [destruct (times_1000 exp) as [ms|]; [|reflexivity]|];
    (destruct (truthy iat); [destruct (times_1000 iat) as [ms'|]; [|reflexivity]|]);
    cbn [andb]; eexists; repeat split.
Qed.

Lemma classifies_jwt s r :
  detect (Str s) = Normal r -> type r = jwt -> detectJwt s = Normal (Some r).
Proof.
  intros H T. walk_detectors H; try assumption;
    try (type_of_hit; congruence); discriminate T.
Qed.

(** X10. For every input that [detect] classifies as [jwt], [parseJwt]
    returns the header, payload and signature that [detect] reported,
    provided it can read the claims [exp] and [iat] of the payload;
    otherwise it returns null, although the input was detected: so for a
    token whose payload is the JSON value null, which has no properties to
    read. *)
Theorem detected_jwt_parses s r :
  detect (Str s) = Normal r -> type r = jwt ->
  exists h p sig,
    parsed r = Some (ParsedJwt h p sig)
    /\ forall now,
        if reads_claim p (js "exp") && reads_claim p (js "iat")
        then exists j,
            parseJwt now s = Some j /\ JwtPayload.header j = h
            /\ JwtPayload.payload j = p /\ JwtPayload.signature j = sig
        else parseJwt now s = None.
Proof.
  intros H T. apply (classifies_jwt s r H) in T.
  apply detectJwt_spec in T as (p0 & p1 & p2 & h & p & Hs & Hh & Hp & ->).
  exists h, p, p2. split; [reflexivity|]. intro now.
  now apply (parseJwt_decoded now s p0 p1 p2 h p).
Qed.

Lemma detected_jwt_parses_witness :
  (exists r, detect (Str jwt_null_payload) = Normal r /\ type r = jwt)
  /\ forall now, parseJwt now jwt_null_payload = None.
Proof.
  assert (H : detect (Str jwt_null_payload)
              = Normal (mkResult jwt 1 jwt_null_payload
                          (Some (ParsedJwt (JObj [(js "alg", JStr (js "HS256"))])
                                   JNull (js "sig")))))
    by (vm_compute; reflexivity).
  split; [eexists; split; [exact H | reflexivity]|].
  intro now.
  destruct (detected_jwt_parses jwt_null_payload _ H eq_refl)
    as (h & p & sig & E & P).
  injection E as <- <- <-. exact (P now).
Defined.

(** X11. [parseJwt] returns null exactly when the trimmed token does not
    split into three segments at the points, or the first or the second
    segment does not decode to JSON, or a claim [exp] or [iat] of the
    payload cannot be read. The third segment, the signature, is not looked
    at, and neither is the clock. *)
Theorem parseJwt_null_cases now token :
  parseJwt now token = None <->
  malformed_jwt token
  \/ exists p, payload_of token = Some p
               /\ reads_claim p (js "exp") && reads_claim p (js "iat") = false.
Proof.
  split.
  - intro H. unfold malformed_jwt, payload_of.
    destruct (split_on 46 (trim token)) as [|p0 [|p1 [|p2 [|p3 l]]]] eqn:Es; auto.
    destruct (segment_json p0) as [h|] eqn:Eh; [|auto].
    destruct (segment_json p1) as [p|] eqn:Ep; [|auto].
    right. exists p. split; [reflexivity|].
    pose proof (parseJwt_decoded now token p0 p1 p2 h p Es Eh Ep) as D.
    destruct (reads_claim p (js "exp") && reads_claim p (js "iat")); [|reflexivity].
    destruct D as (j & D & _). congruence.
  - intros [H | (p & Hp & R)]; [now apply parseJwt_null_on_failure|].
    unfold payload_of in Hp.
    destruct (split_on 46 (trim token)) as [|p0 [|p1 [|p2 [|p3 l]]]] eqn:Es;
      try discriminate.
    destruct (segment_json p0) as [h|] eqn:Eh.
    + pose proof (parseJwt_decoded now token p0 p1 p2 h p Es Eh Hp) as D.
      now rewrite R in D.
    + apply parseJwt_null_on_failure. unfold malformed_jwt. rewrite Es. auto.
Qed.

(** The three dates of a result, from the claims of its payload. *)
Lemma parseJwt_dates now token j :
  parseJwt now token = Some j ->
  exists exp iat,
    get_prop (JwtPayload.payload j) (js "exp") = Normal exp
    /\ get_prop (JwtPayload.payload j) (js "iat") = Normal iat
    /\ (if truthy exp
        then exists ms,
            times_1000 exp = Normal ms
            /\ JwtPayload.isExpired j = Some (ms <? now)%float
            /\ JwtPayload.expiresAt j = Some (new_Date ms)
        else JwtPayload.isExpired j = None /\ JwtPayload.expiresAt j = None)
    /\ (if truthy iat
        then exists ms,
            times_1000 iat = Normal ms
            /\ JwtPayload.issuedAt j = Some (new_Date ms)
        else JwtPayload.issuedAt j = None).
Proof.
  unfold parseJwt. cbv zeta.
  destruct (split_on 46 (trim token)) as [|p0 [|p1 [|p2 [|p3 l]]]]; try discriminate.
  unfold bind.
  destruct (atob (from_base64url p0)) as [h|]; [|discriminate].
  destruct (JSON_parse h) as [hv|]; [|discriminate].
  destruct (atob (from_base64url p1)) as [p|]; [|discriminate].
  destruct (JSON_parse p) as [pv|]; [|discriminate].
  destruct (get_prop pv (js "exp")) as [exp|] eqn:Eexp; [|discriminate].
  destruct (get_prop pv (js "iat")) as [iat|] eqn:Eiat;
    [|destruct (truthy exp); [destruct (times_1000 exp)|]; discriminate].
  destruct (truthy exp) eqn:Te;
    [destruct (times_1000 exp) as [ms|] eqn:Me; [|discriminate]|];
    (destruct (truthy iat) eqn:Ti;
     [destruct (times_1000 iat) as [ms'|] eqn:Mi; [|discriminate]|]);
    intros [= <-];
    cbn [JwtPayload.payload JwtPayload.isExpired JwtPayload.expiresAt
         JwtPayload.issuedAt];
    exists exp, iat; rewrite Te, Ti; repeat split; eauto.
Qed.

(** X12. In a result of [parseJwt], a claim [exp] that is a number other
    than 0 and NaN gives [expiresAt = new Date(exp * 1000)] and
    [isExpired = (now > exp * 1000)]; a claim [iat] that is such a number
    gives [issuedAt = new Date(iat * 1000)]; a claim that is absent leaves
    its fields unset. *)
Theorem parseJwt_numeric_claims now token j :
  parseJwt now token = Some j ->
  (forall n,
      get_prop (JwtPayload.payload j) (js "exp") = Normal (Some (JNum n)) ->
      PrimFloat.is_nan n || PrimFloat.is_zero n = false ->
      JwtPayload.isExpired j = Some (n * 1000 <? now)%float
      /\ JwtPayload.expiresAt j = Some (new_Date (n * 1000)%float))
  /\ (forall n,
         get_prop (JwtPayload.payload j) (js "iat") = Normal (Some (JNum n)) ->
         PrimFloat.is_nan n || PrimFloat.is_zero n = false ->
         JwtPayload.issuedAt j = Some (new_Date (n * 1000)%float))
  /\ (get_prop (JwtPayload.payload j) (js "exp") = Normal None ->
      JwtPayload.isExpired j = None /\ JwtPayload.expiresAt j = None)
  /\ (get_prop (JwtPayload.payload j) (js "iat") = Normal None ->
      JwtPayload.issuedAt j = None).
Proof.
  intro H. apply parseJwt_dates in H as (exp & iat & Ee & Ei & De & Di).
  split; [|split; [|split]].
  - intros n E T. rewrite Ee in E. injection E as ->.
    cbn [truthy] in De. rewrite T in De. destruct De as (ms & M & D1 & D2).
    cbn in M. injection M as <-. auto.
  - intros n E T. rewrite Ei in E. injection E as ->.
    cbn [truthy] in Di. rewrite T in Di. destruct Di as (ms & M & D).
    cbn in M. injection M as <-. exact D.
  - intro E. rewrite Ee in E. injection E as ->. exact De.
  - intro E. rewrite Ei in E. injection E as ->. exact Di.
Qed.

Lemma parseJwt_numeric_claims_witness :
  parseJwt 2000 jwt_exp_one = Some jwt_exp_one_parsed
  /\ JwtPayload.isExpired jwt_exp_one_parsed = Some (1 * 1000 <? 2000)%float.
Proof.
  assert (H : parseJwt 2000 jwt_exp_one = Some jwt_exp_one_parsed)
    by (vm_compute; reflexivity).
  split; [exact H|].
  exact (proj1 (proj1 (parseJwt_numeric_claims _ _ _ H) 1%float eq_refl eq_refl)).
Defined.

(** ** Bits as arithmetic *)

Lemma lor_high_low a b k :
  0 <= k -> 0 <= b < 2 ^ k -> Z.lor (a * 2 ^ k) b = a * 2 ^ k + b.
Proof.
  intros Hk Hb. rewrite <- Z.add_lor_land.
  replace (Z.land (a * 2 ^ k) b) with 0; [lia|].
  symmetry. apply Z.bits_inj'. intros n Hn.
  rewrite Z.land_spec, Z.bits_0.
  destruct (Z.ltb_spec n k).
  - now rewrite Z.mul_pow2_bits_low.
  - rewrite <- (Z.mod_small b (2 ^ k)) by lia.
    rewrite Z.mod_pow2_bits_high by lia. apply andb_false_r.
Qed.

Lemma lor_shiftl a b k :
  0 <= k -> 0 <= b < 2 ^ k -> Z.lor (Z.shiftl a k) b = a * 2 ^ k + b.
Proof. intros Hk Hb. rewrite Z.shiftl_mul_pow2 by lia. now apply lor_high_low. Qed.

Lemma land_3 x : Z.land x 3 = x mod 4.
Proof. change 3 with (Z.ones 2). now rewrite Z.land_ones. Qed.

Lemma land_7 x : Z.land x 7 = x mod 8.
Proof. change 7 with (Z.ones 3). now rewrite Z.land_ones. Qed.

Lemma land_15 x : Z.land x 15 = x mod 16.
Proof. change 15 with (Z.ones 4). now rewrite Z.land_ones. Qed.

Lemma land_31 x : Z.land x 31 = x mod 32.
Proof. change 31 with (Z.ones 5). now rewrite Z.land_ones. Qed.

Lemma land_63 x : Z.land x 63 = x mod 64.
Proof. change 63 with (Z.ones 6). now rewrite Z.land_ones. Qed.

Lemma land_1023 x : Z.land x 1023 = x mod 1024.
Proof. change 1023 with (Z.ones 10). now rewrite Z.land_ones. Qed.

Lemma lor_lead m k q :
  0 <= k -> 0 <= q < 2 ^ k -> Z.lor (m * 2 ^ k) q = m * 2 ^ k + q.
Proof. apply lor_high_low. Qed.

(** The octets of a code point, by division. *)
Lemma utf8_encode_arith v :
  0 <= v < 2097152 ->
  utf8_encode v =
  if v <? 128 then [v]
  else if v <? 2048 then [192 + v / 64; 128 + v mod 64]
  else if v <? 65536 then [224 + v / 4096; 128 + v / 64 mod 64; 128 + v mod 64]
  else [240 + v / 262144; 128 + v / 4096 mod 64; 128 + v / 64 mod 64;
        128 + v mod 64].
Proof.
  intro Hv. unfold utf8_encode.
  rewrite !land_63, !Z.shiftr_div_pow2 by lia.
  change (2 ^ 6) with 64. change (2 ^ 12) with 4096. change (2 ^ 18) with 262144.
  assert (L128 : forall q, Z.lor 128 (q mod 64) = 128 + q mod 64).
  { intro q. apply (lor_high_low 2 (q mod 64) 6); [lia|].
    apply Z.mod_pos_bound. lia. }
  rewrite !L128.
  assert (Lead : forall m k q, 0 <= k -> 0 <= q -> q < 2 ^ k ->
                              Z.lor (m * 2 ^ k) q = m * 2 ^ k + q)
    by (intros; apply lor_high_low; lia).
  destruct (Z.ltb_spec v 128); [reflexivity|].
  destruct (Z.ltb_spec v 2048).
  { replace (Z.lor 192 (v / 64)) with (192 + v / 64); [reflexivity|].
    symmetry. apply (Lead 3 6);
      [lia | apply Z.div_pos; lia | apply Z.div_lt_upper_bound; lia]. }
  destruct (Z.ltb_spec v 65536).
  { replace (Z.lor 224 (v / 4096)) with (224 + v / 4096); [reflexivity|].
    symmetry. apply (Lead 14 4);
      [lia | apply Z.div_pos; lia | apply Z.div_lt_upper_bound; lia]. }
  replace (Z.lor 240 (v / 262144)) with (240 + v / 262144); [reflexivity|].
  symmetry. apply (Lead 30 3);
    [lia | apply Z.div_pos; lia | apply Z.div_lt_upper_bound; lia].
Qed.

(** The code point of two, three and four octets, by multiplication. *)
Lemma utf8_code_point_2 a b :
  utf8_code_point [a; b]
  = if in_range 194 223 a && in_range 128 191 b
    then Some (a mod 32 * 64 + b mod 64) else None.
Proof.
  unfold utf8_code_point. cbv zeta. rewrite land_31, land_63.
  rewrite lor_shiftl by (try lia; apply Z.mod_pos_bound; lia).
  reflexivity.
Qed.

Lemma utf8_code_point_3 a b c :
  utf8_code_point [a; b; c]
  = let v := a mod 16 * 4096 + (b mod 64 * 64 + c mod 64) in
    if in_range 224 239 a && in_range 128 191 b && in_range 128 191 c
       && (2048 <=? v) && negb (in_range 55296 57343 v)
    then Some v else None.
Proof.
  unfold utf8_code_point. cbv zeta. rewrite land_15, !land_63.
  pose proof (Z.mod_pos_bound b 64 ltac:(lia)).
  pose proof (Z.mod_pos_bound c 64 ltac:(lia)).
  rewrite (lor_shiftl (b mod 64)) by lia.
  rewrite lor_shiftl by lia. reflexivity.
Qed.

Lemma utf8_code_point_4 a b c d :
  utf8_code_point [a; b; c; d]
  = let v := a mod 8 * 262144
             + (b mod 64 * 4096 + (c mod 64 * 64 + d mod 64)) in
    if in_range 240 244 a && in_range 128 191 b && in_range 128 191 c
       && in_range 128 191 d && (65536 <=? v) && (v <=? 1114111)
    then Some v else None.
Proof.
  unfold utf8_code_point. cbv zeta. rewrite land_7, !land_63.
  pose proof (Z.mod_pos_bound b 64 ltac:(lia)).
  pose proof (Z.mod_pos_bound c 64 ltac:(lia)).
  pose proof (Z.mod_pos_bound d 64 ltac:(lia)).
  rewrite (lor_shiftl (c mod 64)) by lia.
  rewrite (lor_shiftl (b mod 64)) by lia.
  rewrite lor_shiftl by lia. reflexivity.
Qed.

(** ** Percent escapes *)

Lemma hex_upper_char_value d :
  0 <= d <= 15 -> digit_value 16 (hex_upper_char d) = Some d.
Proof.
  intro H. replace (hex_upper_char d) with (fold_case (hex_digit_char d)).
  - rewrite digit_value_fold_case. now apply hex_digit_char_value.
  - unfold hex_upper_char, hex_digit_char, fold_case, is_lower.
    destruct (Z.ltb_spec d 10).
    + rewrite in_range_out by lia. reflexivity.
    + replace (in_range 97 122 (87 + d)) with true
        by (symmetry; apply in_range_in; lia).
      lia.
Qed.

Lemma hex_octet_percent b :
  0 <= b <= 255 ->
  hex_octet (hex_upper_char (b / 16)) (hex_upper_char (b mod 16)) = Some b.
Proof.
  intro H. unfold hex_octet.
  assert (Hq : 0 <= b / 16 <= 15).
  { split; [apply Z.div_pos; lia|].
    assert (b / 16 < 16) by (apply Z.div_lt_upper_bound; lia). lia. }
  assert (Hm : 0 <= b mod 16 <= 15)
    by (pose proof (Z.mod_pos_bound b 16 ltac:(lia)); lia).
  rewrite !hex_upper_char_value by assumption.
  f_equal. pose proof (Z.div_mod b 16 ltac:(lia)). lia.
Qed.

Ltac divmod := Z.div_mod_to_equations; lia.

(** The decoder on one escaped octet, without and with octets pending. *)
Lemma uri_decode_octet_start b rest :
  0 <= b <= 255 ->
  uri_decode (percent_octet b ++ rest) None
  = if utf8_length b =? 0 then r <- uri_decode rest None ;; Normal (b :: r)
    else if (utf8_length b =? 1) || (4 <? utf8_length b) then Throw URIError
    else uri_decode rest (Some (Z.to_nat (utf8_length b - 1), [b])).
Proof.
  intro H. unfold percent_octet. cbn [app uri_decode].
  change (37 =? 37) with true. cbv iota.
  now rewrite hex_octet_percent.
Qed.

Lemma uri_decode_octet_next b rest j octets :
  0 <= b <= 255 ->
  uri_decode (percent_octet b ++ rest) (Some (j, octets))
  = match j with
    | S (S j') => uri_decode rest (Some (S j', octets ++ [b]))
    | _ =>
        match utf8_code_point (octets ++ [b]) with
        | Some v => r <- uri_decode rest None ;; Normal (utf16_encode v ++ r)
        | None => Throw URIError
        end
    end.
Proof.
  intro H. unfold percent_octet. cbn [app uri_decode].
  change (37 =? 37) with true. cbv iota.
  now rewrite hex_octet_percent.
Qed.

Lemma in_range_true lo hi c : lo <= c <= hi -> in_range lo hi c = true.
Proof. intro H. now apply in_range_in. Qed.

(** The escaped UTF-8 octets of a code point from 128 on decode to the code
    point, in UTF-16. *)
Lemma uri_decode_code_point v rest :
  scalar_value v -> 128 <= v ->
  uri_decode (percent_octets (utf8_encode v) ++ rest) None
  = (r <- uri_decode rest None ;; Normal (utf16_encode v ++ r)).
Proof.
  intros [Hv Hs] H128. rewrite utf8_encode_arith by lia.
  replace (v <? 128) with false by (symmetry; apply Z.ltb_ge; lia).
  unfold percent_octets.
  destruct (Z.ltb_spec v 2048); [|destruct (Z.ltb_spec v 65536)].
  - cbn [flat_map]. rewrite app_nil_r, <- app_assoc.
    rewrite uri_decode_octet_start by divmod.
    assert (L : utf8_length (192 + v / 64) = 2).
    { unfold utf8_length.
      replace (192 + v / 64 <? 128) with false by (symmetry; apply Z.ltb_ge; divmod).
      replace (192 + v / 64 <? 192) with false by (symmetry; apply Z.ltb_ge; divmod).
      replace (192 + v / 64 <? 224) with true by (symmetry; apply Z.ltb_lt; divmod).
      reflexivity. }
    rewrite L. change (2 =? 0) with false.
    change ((2 =? 1) || (4 <? 2)) with false.
    change (Z.to_nat (2 - 1)) with 1%nat. cbv iota.
    rewrite uri_decode_octet_next by divmod. cbn [app].
    rewrite utf8_code_point_2.
    rewrite !in_range_true by divmod. cbn [andb].
    replace ((192 + v / 64) mod 32 * 64 + (128 + v mod 64) mod 64) with v by divmod.
    reflexivity.
  - cbn [flat_map]. rewrite app_nil_r, <- !app_assoc.
    rewrite uri_decode_octet_start by divmod.
    assert (L : utf8_length (224 + v / 4096) = 3).
    { unfold utf8_length.
      replace (224 + v / 4096 <? 128) with false by (symmetry; apply Z.ltb_ge; divmod).
      replace (224 + v / 4096 <? 192) with false by (symmetry; apply Z.ltb_ge; divmod).
      replace (224 + v / 4096 <? 224) with false by (symmetry; apply Z.ltb_ge; divmod).
      replace (224 + v / 4096 <? 240) with true by (symmetry; apply Z.ltb_lt; divmod).
      reflexivity. }
    rewrite L. change (3 =? 0) with false.
    change ((3 =? 1) || (4 <? 3)) with false.
    change (Z.to_nat (3 - 1)) with 2%nat. cbv iota.
    rewrite uri_decode_octet_next by divmod. cbn [app].
    rewrite uri_decode_octet_next by divmod. cbn [app].
    rewrite utf8_code_point_3. cbv zeta.
    replace ((224 + v / 4096) mod 16 * 4096
             + ((128 + v / 64 mod 64) mod 64 * 64 + (128 + v mod 64) mod 64))
      with v by divmod.
    rewrite !in_range_true by divmod.
    replace (2048 <=? v) with true by (symmetry; apply Z.leb_le; lia).
    rewrite in_range_out by lia. reflexivity.
  - cbn [flat_map]. rewrite app_nil_r, <- !app_assoc.
    rewrite uri_decode_octet_start by divmod.
    assert (L : utf8_length (240 + v / 262144) = 4).
    { unfold utf8_length.
      replace (240 + v / 262144 <? 128) with false by (symmetry; apply Z.ltb_ge; divmod).
      replace (240 + v / 262144 <? 192) with false by (symmetry; apply Z.ltb_ge; divmod).
      replace (240 + v / 262144 <? 224) with false by (symmetry; apply Z.ltb_ge; divmod).
      replace (240 + v / 262144 <? 240) with false by (symmetry; apply Z.ltb_ge; divmod).
      replace (240 + v / 262144 <? 248) with true by (symmetry; apply Z.ltb_lt; divmod).
      reflexivity. }
    rewrite L. change (4 =? 0) with false.
    change ((4 =? 1) || (4 <? 4)) with false.
    change (Z.to_nat (4 - 1)) with 3%nat. cbv iota.
    rewrite uri_decode_octet_next by divmod. cbn [app].
    rewrite uri_decode_octet_next by divmod. cbn [app].
    rewrite uri_decode_octet_next by divmod. cbn [app].
    rewrite utf8_code_point_4. cbv zeta.
    replace ((240 + v / 262144) mod 8 * 262144
             + ((128 + v / 4096 mod 64) mod 64 * 4096
                + ((128 + v / 64 mod 64) mod 64 * 64 + (128 + v mod 64) mod 64)))
      with v by divmod.
    rewrite !in_range_true by divmod.
    replace (65536 <=? v) with true by (symmetry; apply Z.leb_le; lia).
    replace (v <=? 1114111) with true by (symmetry; apply Z.leb_le; lia).
    reflexivity.
Qed.

Lemma uri_decode_plain c rest :
  c <> 37 ->
  uri_decode (c :: rest) None = (r <- uri_decode rest None ;; Normal (c :: r)).
Proof.
  intro H. cbn [uri_decode].
  now replace (c =? 37) with false by (symmetry; apply Z.eqb_neq; lia).
Qed.

Lemma uri_decode_ascii_octet c rest :
  0 <= c < 128 ->
  uri_decode (percent_octet c ++ rest) None
  = (r <- uri_decode rest None ;; Normal (c :: r)).
Proof.
  intro H. rewrite uri_decode_octet_start by lia. unfold utf8_length.
  now replace (c <? 128) with true by (symmetry; apply Z.ltb_lt; lia).
Qed.

Lemma surrogate_pair c d :
  is_high_surrogate c = true -> is_low_surrogate d = true ->
  scalar_value (surrogate_pair_code_point c d)
  /\ 65536 <= surrogate_pair_code_point c d
  /\ utf16_encode (surrogate_pair_code_point c d) = [c; d].
Proof.
  unfold is_high_surrogate, is_low_surrogate, scalar_value,
    surrogate_pair_code_point, utf16_encode.
  rewrite !in_range_in. intros Hc Hd.
  replace ((c - 55296) * 1024 + (d - 56320) + 65536 <? 65536) with false
    by (symmetry; apply Z.ltb_ge; lia).
  rewrite land_1023, Z.shiftr_div_pow2 by lia. change (2 ^ 10) with 1024.
  repeat split; try lia.
  f_equal; [|f_equal]; divmod.
Qed.

Lemma not_surrogate_low c : c < 55296 -> is_high_surrogate c = false /\ is_low_surrogate c = false.
Proof.
  intro H. unfold is_high_surrogate, is_low_surrogate.
  split; apply in_range_out; lia.
Qed.

(** The percent-encoded form of a well-formed string decodes to the string,
    whatever ASCII characters other than the percent sign the encoder leaves
    as they are. *)
Lemma uri_round_trip unescaped :
  plain_set unescaped ->
  forall n s,
    (List.length s <= n)%nat -> well_formed s = true ->
    exists e, uri_encode unescaped s = Normal e /\ uri_decode e None = Normal s.
Proof.
  intros Hu. induction n as [|n IH]; intros s Hn Hw.
  { destruct s; [|cbn in Hn; lia]. exists []. split; reflexivity. }
  destruct s as [|c s]; [exists []; split; reflexivity|].
  cbn [List.length] in Hn. cbn [uri_encode well_formed] in *.
  destruct (unescaped c) eqn:Uc.
  { destruct (Hu c Uc) as [Hc H37].
    destruct (not_surrogate_low c ltac:(lia)) as [Hh Hl]. rewrite Hh, Hl in Hw.
    cbn [negb andb] in Hw. apply andb_true_iff in Hw as [_ Hw].
    destruct (IH s ltac:(lia) Hw) as (e & -> & Hd).
    exists (c :: e). split; [reflexivity|].
    now rewrite uri_decode_plain, Hd. }
  destruct (is_high_surrogate c) eqn:Hh.
  - destruct s as [|d s]; [discriminate|].
    apply andb_true_iff in Hw as [Hl Hw]. rewrite Hl.
    cbn [List.length] in Hn.
    destruct (IH s ltac:(lia) Hw) as (e & -> & Hd).
    destruct (surrogate_pair c d Hh Hl) as (Hs & H64 & E16).
    eexists. split; [reflexivity|].
    rewrite uri_decode_code_point by (try assumption; lia).
    now rewrite Hd, E16.
  - apply andb_true_iff in Hw as [Hw Hs]. apply andb_true_iff in Hw as [Hl Hr].
    apply negb_true_iff in Hl. rewrite Hl. apply in_range_in in Hr.
    destruct (IH s ltac:(lia) Hs) as (e & -> & Hd).
    eexists. split; [reflexivity|].
    destruct (Z.ltb_spec c 128).
    + unfold utf8_encode.
      replace (c <? 128) with true by (symmetry; apply Z.ltb_lt; lia).
      unfold percent_octets. cbn [flat_map]. rewrite app_nil_r.
      now rewrite uri_decode_ascii_octet, Hd by lia.
    + rewrite uri_decode_code_point.
      * rewrite Hd. unfold utf16_encode.
        now replace (c <? 65536) with true by (symmetry; apply Z.ltb_lt; lia).
      * unfold is_high_surrogate, is_low_surrogate in *.
        split; [lia|]. intro Hx.
        assert (55296 <= c <= 56319 \/ 56320 <= c <= 57343) as [X|X] by lia.
        -- apply in_range_true in X. congruence.
        -- apply in_range_true in X. congruence.
      * lia.
Qed.

Lemma uri_unescaped_plain : plain_set uri_unescaped.
Proof.
  intros c H. unfold uri_unescaped in H. apply orb_true_iff in H as [H|H].
  - apply is_alnum_range in H. lia.
  - unfold one_of in H. cbn in H.
    repeat (apply orb_true_iff in H as [H|H]; [apply Z.eqb_eq in H; lia|]).
    discriminate.
Qed.

Lemma uri_reserved_plain : plain_set uri_reserved_or_unescaped.
Proof.
  intros c H. unfold uri_reserved_or_unescaped in H.
  apply orb_true_iff in H as [H|H]; [now apply uri_unescaped_plain|].
  unfold one_of in H. cbn in H.
  repeat (apply orb_true_iff in H as [H|H]; [apply Z.eqb_eq in H; lia|]).
  discriminate.
Qed.

(** X13. What [encodeUrl] or [encodeFullUrl] made of a well-formed string
    (every surrogate with its partner), [decodeUrl] turns back into the
    string. *)
Theorem url_round_trip s :
  well_formed s = true ->
  (exists e, encodeUrl s = Normal e /\ decodeUrl e = s)
  /\ (exists e, encodeFullUrl s = Normal e /\ decodeUrl e = s).
Proof.
  intro H. split.
  - destruct (uri_round_trip uri_unescaped uri_unescaped_plain _ s (le_n _) H)
      as (e & E & D).
    exists e. split; [exact E|]. unfold decodeUrl, decodeURIComponent.
    now rewrite D.
  - destruct (uri_round_trip uri_reserved_or_unescaped uri_reserved_plain _ s
                (le_n _) H) as (e & E & D).
    exists e. split; [exact E|]. unfold decodeUrl, decodeURIComponent.
    now rewrite D.
Qed.

Lemma url_round_trip_witness :
  (exists e, encodeUrl sample_text = Normal e /\ decodeUrl e = sample_text)
  /\ (exists e, encodeFullUrl sample_text = Normal e /\ decodeUrl e = sample_text).
Proof. apply url_round_trip. reflexivity. Defined.

Lemma uri_encode_lone_surrogate unescaped :
  plain_set unescaped ->
  forall n s,
    (List.length s <= n)%nat -> code_units s = true -> well_formed s = false ->
    uri_encode unescaped s = Throw URIError.
Proof.
  intros Hu. induction n as [|n IH]; intros s Hn Hc Hw.
  { destruct s; [discriminate | cbn in Hn; lia]. }
  destruct s as [|c s]; [discriminate|].
  cbn [List.length] in Hn. unfold code_units in Hc. cbn [forallb] in Hc.
  apply andb_true_iff in Hc as [Hr Hc]. cbn [uri_encode well_formed] in *.
  destruct (unescaped c) eqn:Uc.
  { destruct (Hu c Uc) as [Ha H37].
    destruct (not_surrogate_low c ltac:(lia)) as [Hh Hl]. rewrite Hh, Hl in Hw.
    rewrite Hr in Hw. cbn [negb andb] in Hw.
    now rewrite (IH s ltac:(lia) Hc Hw). }
  destruct (is_high_surrogate c) eqn:Hh.
  - destruct s as [|d s]; [reflexivity|].
    destruct (is_low_surrogate d) eqn:Hl; [|reflexivity].
    cbn [andb] in Hw. cbn [forallb] in Hc. apply andb_true_iff in Hc as [_ Hc].
    cbn [List.length] in Hn. now rewrite (IH s ltac:(lia) Hc Hw).
  - destruct (is_low_surrogate c) eqn:Hl; [reflexivity|].
    rewrite Hr in Hw. cbn [negb andb] in Hw.
    now rewrite (IH s ltac:(lia) Hc Hw).
Qed.

(** ** Base64 *)

Lemma b64_value_char v : 0 <= v <= 63 -> b64_value (b64_char_of v) = Some v.
Proof.
  intro H. unfold b64_char_of, b64_value, is_upper, is_lower, is_digit.
  destruct (Z.ltb_spec v 26).
  { rewrite in_range_true by lia. f_equal. lia. }
  destruct (Z.ltb_spec v 52).
  { rewrite in_range_out by lia. rewrite in_range_true by lia. f_equal. lia. }
  destruct (Z.ltb_spec v 62).
  { rewrite !in_range_out by lia. rewrite in_range_true by lia. f_equal. lia. }
  destruct (Z.eqb_spec v 62) as [->|]; [reflexivity|].
  assert (v = 63) by lia. subst. reflexivity.
Qed.

(** A character of the alphabet is not the padding character and not white
    space. *)
Lemma b64_char_of_plain v :
  0 <= v <= 63 ->
  b64_char_of v <> 61 /\ is_ascii_ws (b64_char_of v) = false
  /\ b64_char_of v <> 45 /\ b64_char_of v <> 95.
Proof.
  intro H.
  assert (R : 65 <= b64_char_of v <= 90 \/ 97 <= b64_char_of v <= 122
              \/ 48 <= b64_char_of v <= 57 \/ b64_char_of v = 43
              \/ b64_char_of v = 47).
  { unfold b64_char_of.
    destruct (Z.ltb_spec v 26); [lia|]. destruct (Z.ltb_spec v 52); [lia|].
    destruct (Z.ltb_spec v 62); [lia|]. destruct (Z.eqb_spec v 62); lia. }
  repeat split; try lia.
  unfold is_ascii_ws. repeat apply orb_false_intro; apply Z.eqb_neq; lia.
Qed.

(** The four sextets of three octets, and the octets back. *)
Lemma sextets_range a b c :
  0 <= a <= 255 -> 0 <= b <= 255 -> 0 <= c <= 255 ->
  0 <= Z.shiftr a 2 <= 63
  /\ 0 <= Z.lor (Z.shiftl (Z.land a 3) 4) (Z.shiftr b 4) <= 63
  /\ 0 <= Z.lor (Z.shiftl (Z.land b 15) 2) (Z.shiftr c 6) <= 63
  /\ 0 <= Z.land c 63 <= 63
  /\ 0 <= Z.shiftl (Z.land a 3) 4 <= 63
  /\ 0 <= Z.shiftl (Z.land b 15) 2 <= 63.
Proof.
  intros Ha Hb Hc.
  rewrite land_3, land_15, land_63, !Z.shiftr_div_pow2 by lia.
  change (2 ^ 2) with 4. change (2 ^ 4) with 16. change (2 ^ 6) with 64.
  rewrite !lor_shiftl by (try lia; divmod).
  rewrite !Z.shiftl_mul_pow2 by lia.
  change (2 ^ 2) with 4. change (2 ^ 4) with 16.
  repeat split; divmod.
Qed.

Lemma octets_of_sextets a b c :
  0 <= a <= 255 -> 0 <= b <= 255 -> 0 <= c <= 255 ->
  let s1 := Z.shiftr a 2 in
  let s2 := Z.lor (Z.shiftl (Z.land a 3) 4) (Z.shiftr b 4) in
  let s3 := Z.lor (Z.shiftl (Z.land b 15) 2) (Z.shiftr c 6) in
  let s4 := Z.land c 63 in
  Z.lor (Z.shiftl s1 2) (Z.shiftr s2 4) = a
  /\ Z.lor (Z.shiftl (Z.land s2 15) 4) (Z.shiftr s3 2) = b
  /\ Z.lor (Z.shiftl (Z.land s3 3) 6) s4 = c.
Proof.
  intros Ha Hb Hc. cbv zeta.
  rewrite !land_3, !land_15, !land_63, !Z.shiftr_div_pow2 by lia.
  change (2 ^ 2) with 4. change (2 ^ 4) with 16. change (2 ^ 6) with 64.
  rewrite (lor_shiftl (a mod 4) (b / 16) 4) by (try lia; divmod).
  rewrite (lor_shiftl (b mod 16) (c / 64) 2) by (try lia; divmod).
  change (2 ^ 2) with 4. change (2 ^ 4) with 16.
  rewrite !lor_shiftl by (try lia; divmod).
  change (2 ^ 2) with 4. change (2 ^ 4) with 16. change (2 ^ 6) with 64.
  repeat split; divmod.
Qed.

(** Induction on a list, three elements at a time. *)
Lemma list_ind3 {A} (P : list A -> Prop) :
  P [] -> (forall a, P [a]) -> (forall a b, P [a; b]) ->
  (forall a b c rest, P rest -> P (a :: b :: c :: rest)) ->
  forall l, P l.
Proof.
  intros H0 H1 H2 H3 l.
  assert (G : forall n l, (List.length l <= n)%nat -> P l).
  { induction n as [|n IH]; intros l' Hn.
    - destruct l'; [exact H0 | cbn in Hn; lia].
    - destruct l' as [|a [|b [|c rest]]]; auto.
      apply H3, IH. cbn [List.length] in Hn. lia. }
  exact (G _ l (le_n _)).
Qed.

Lemma b64_encode_form bytes :
  b64_encode bytes = map b64_char_of (sextets_of bytes) ++ b64_padding bytes.
Proof.
  induction bytes as [|a|a b|a b c rest IH] using list_ind3; try reflexivity.
  cbn [b64_encode sextets_of b64_padding map app]. now rewrite IH.
Qed.

Lemma sextets_of_range bytes :
  octets bytes = true -> forallb (in_range 0 63) (sextets_of bytes) = true.
Proof.
  unfold octets.
  induction bytes as [|a|a b|a b c rest IH] using list_ind3;
    cbn [forallb sextets_of]; rewrite ?andb_true_r, ?andb_true_iff, ?in_range_in.
  - reflexivity.
  - intro Ha.
    destruct (sextets_range a 0 0 Ha ltac:(lia) ltac:(lia)) as (S1 & _ & _ & _ & S5 & _).
    auto.
  - intros [Ha Hb].
    destruct (sextets_range a b 0 Ha Hb ltac:(lia)) as (S1 & S2 & _ & _ & _ & S6).
    auto.
  - intros (Ha & Hb & Hc & Hrest).
    destruct (sextets_range a b c Ha Hb Hc) as (S1 & S2 & S3 & S4 & _).
    rewrite IH by exact Hrest. auto.
Qed.

Lemma b64_values_chars vs :
  forallb (in_range 0 63) vs = true -> b64_values (map b64_char_of vs) = Some vs.
Proof.
  induction vs as [|v vs IH]; [reflexivity|]. cbn [forallb map b64_values].
  intro H. apply andb_true_iff in H as [Hv Hvs]. apply in_range_in in Hv.
  now rewrite b64_value_char, IH.
Qed.

Lemma b64_bytes_sextets bytes :
  octets bytes = true -> b64_bytes (sextets_of bytes) = bytes.
Proof.
  unfold octets.
  induction bytes as [|a|a b|a b c rest IH] using list_ind3;
    cbn [forallb sextets_of b64_bytes]; rewrite ?andb_true_r, ?andb_true_iff, ?in_range_in.
  - reflexivity.
  - intro Ha.
    destruct (octets_of_sextets a 0 0 Ha ltac:(lia) ltac:(lia)) as (E1 & _).
    change (Z.shiftr 0 4) with 0 in E1. rewrite Z.lor_0_r in E1. now rewrite E1.
  - intros [Ha Hb].
    destruct (octets_of_sextets a b 0 Ha Hb ltac:(lia)) as (E1 & E2 & _).
    change (Z.shiftr 0 6) with 0 in E2. rewrite Z.lor_0_r in E2.
    now rewrite E1, E2.
  - intros (Ha & Hb & Hc & Hrest).
    destruct (octets_of_sextets a b c Ha Hb Hc) as (E1 & E2 & E3).
    rewrite IH by exact Hrest. now rewrite E1, E2, E3.
Qed.

(** [strip_padding], by tests on the last two characters. *)
Lemma strip_padding_cases s :
  len s mod 4 = 0 ->
  strip_padding s =
  match rev s with
  | x :: r =>
      if x =? 61
      then match r with
           | y :: r' => if y =? 61 then rev r' else rev r
           | [] => rev r
           end
      else s
  | [] => s
  end.
Proof.
  intro H. unfold strip_padding. rewrite H. change (0 =? 0) with true. cbv iota.
  destruct (rev s) as [|x r]; [reflexivity|].
  destruct (Z.eqb_spec x 61) as [->|Hx].
  - destruct r as [|y r']; [reflexivity|].
    destruct (Z.eqb_spec y 61) as [->|Hy]; [reflexivity|].
    destruct y as [|p|p]; try reflexivity.
    do 6 (destruct p as [p|p|]; try reflexivity). contradiction.
  - destruct x as [|p|p]; try reflexivity.
    do 6 (destruct p as [p|p|]; try reflexivity). contradiction.
Qed.

Lemma sextets_length bytes :
  ((List.length (sextets_of bytes) + List.length (b64_padding bytes)) mod 4 = 0)%nat
  /\ (List.length (sextets_of bytes) mod 4 <> 1)%nat.
Proof.
  induction bytes as [|a|a b|a b c rest [IH1 IH2]] using list_ind3;
    cbn [sextets_of b64_padding List.length]; try (split; [reflexivity | discriminate]).
  split.
  - replace (S (S (S (S (List.length (sextets_of rest))))) + List.length (b64_padding rest))%nat
      with (List.length (sextets_of rest) + List.length (b64_padding rest) + 1 * 4)%nat
      by lia.
    now rewrite Nat.Div0.mod_add.
  - replace (S (S (S (S (List.length (sextets_of rest))))))
      with (List.length (sextets_of rest) + 1 * 4)%nat by lia.
    now rewrite Nat.Div0.mod_add.
Qed.

Lemma b64_chars_no_ws vs :
  forallb (in_range 0 63) vs = true ->
  filter (fun c => negb (is_ascii_ws c)) (map b64_char_of vs) = map b64_char_of vs.
Proof.
  induction vs as [|v vs IH]; [reflexivity|]. cbn [forallb map filter].
  intro H. apply andb_true_iff in H as [Hv Hvs]. apply in_range_in in Hv.
  destruct (b64_char_of_plain v Hv) as (_ & W & _). rewrite W. cbn [negb].
  now rewrite IH.
Qed.

Lemma padding_no_ws bytes :
  filter (fun c => negb (is_ascii_ws c)) (b64_padding bytes) = b64_padding bytes.
Proof.
  induction bytes as [|a|a b|a b c rest IH] using list_ind3; try reflexivity.
  exact IH.
Qed.

Lemma padding_cases bytes :
  b64_padding bytes = [] \/ (b64_padding bytes = [61] /\ sextets_of bytes <> [])
  \/ (b64_padding bytes = [61; 61] /\ sextets_of bytes <> []).
Proof.
  induction bytes as [|a|a b|a b c rest IH] using list_ind3;
    cbn [b64_padding sextets_of].
  - auto.
  - right. right. split; [reflexivity | discriminate].
  - right. left. split; [reflexivity | discriminate].
  - destruct IH as [IH|[[IH _]|[IH _]]]; rewrite IH; auto.
    + right. left. split; [reflexivity | discriminate].
    + right. right. split; [reflexivity | discriminate].
Qed.

Lemma last_char_not_padding vs :
  forallb (in_range 0 63) vs = true ->
  match rev (map b64_char_of vs) with
  | x :: _ => x <> 61
  | [] => True
  end.
Proof.
  intro H. rewrite <- map_rev.
  assert (Hr : forallb (in_range 0 63) (rev vs) = true) by now apply forallb_rev.
  destruct (rev vs) as [|v r]; [exact I|]. cbn [map].
  cbn [forallb] in Hr. apply andb_true_iff in Hr as [Hv _].
  apply in_range_in in Hv. now destruct (b64_char_of_plain v Hv).
Qed.

(** [atob] undoes the base64 encoding of octets. *)
Lemma atob_b64_encode bytes :
  octets bytes = true -> atob (b64_encode bytes) = Normal bytes.
Proof.
  intro Hb. pose proof (sextets_of_range bytes Hb) as Hs.
  unfold atob. cbv zeta. rewrite b64_encode_form.
  rewrite filter_app, b64_chars_no_ws, padding_no_ws by exact Hs.
  destruct (sextets_length bytes) as [L0 L1].
  assert (E : strip_padding (map b64_char_of (sextets_of bytes) ++ b64_padding bytes)
              = map b64_char_of (sextets_of bytes)).
  { rewrite strip_padding_cases.
    - rewrite rev_app_distr.
      pose proof (last_char_not_padding _ Hs) as Hl.
      destruct (padding_cases bytes) as [P|[[P N]|[P N]]]; rewrite P.
      + cbn [rev app]. rewrite app_nil_r.
        destruct (rev (map b64_char_of (sextets_of bytes))) as [|x r]; [reflexivity|].
        now replace (x =? 61) with false by (symmetry; apply Z.eqb_neq; lia).
      + cbn [rev app]. change (61 =? 61) with true. cbv iota.
        destruct (rev (map b64_char_of (sextets_of bytes))) as [|x r] eqn:R.
        * apply (f_equal (@rev Z)) in R. rewrite rev_involutive in R.
          destruct (sextets_of bytes); [contradiction | discriminate].
        * replace (x =? 61) with false by (symmetry; apply Z.eqb_neq; lia).
          rewrite <- R. apply rev_involutive.
      + cbn [rev app]. change (61 =? 61) with true. cbv iota.
        apply rev_involutive.
    - unfold len. rewrite length_app, length_map.
      rewrite <- (Nat2Z.inj_mod _ 4), L0. reflexivity. }
  rewrite E.
  replace (len (map b64_char_of (sextets_of bytes)) mod 4 =? 1) with false.
  - rewrite b64_values_chars by exact Hs. now rewrite b64_bytes_sextets.
  - symmetry. apply Z.eqb_neq. unfold len. rewrite length_map.
    change 4 with (Z.of_nat 4). rewrite <- Nat2Z.inj_mod. lia.
Qed.

(** *** UTF-8 through [unescape] and [escape] *)

Lemma hex_upper_char_range d :
  0 <= d <= 15 -> 48 <= hex_upper_char d <= 70.
Proof. intro H. unfold hex_upper_char. destruct (Z.ltb_spec d 10); lia. Qed.

Lemma unescape_octet b rest :
  0 <= b <= 255 ->
  unescape_from (percent_octet b ++ rest) 0 = b :: unescape_from rest 0.
Proof.
  intro H. unfold percent_octet. cbn [app unescape_from].
  change (37 =? 37) with true. cbv iota.
  assert (Hq : 0 <= b / 16 <= 15) by divmod.
  pose proof (hex_upper_char_range (b / 16) Hq) as Hh.
  replace (hex_upper_char (b / 16) =? 117) with false
    by (symmetry; apply Z.eqb_neq; lia).
  unfold hex2_at. now rewrite hex_octet_percent.
Qed.

Lemma unescape_octets bytes rest :
  octets bytes = true ->
  unescape_from (percent_octets bytes ++ rest) 0 = bytes ++ unescape_from rest 0.
Proof.
  unfold octets, percent_octets.
  induction bytes as [|b bytes IH]; [reflexivity|].
  cbn [forallb flat_map]. intro H. apply andb_true_iff in H as [Hb Hbs].
  apply in_range_in in Hb. rewrite <- app_assoc.
  now rewrite unescape_octet, IH.
Qed.

Lemma unescape_plain c rest :
  c <> 37 -> unescape_from (c :: rest) 0 = c :: unescape_from rest 0.
Proof.
  intro H. cbn [unescape_from].
  now replace (c =? 37) with false by (symmetry; apply Z.eqb_neq; lia).
Qed.

(** The octets of a code point are octets; from 128 on, every one of them
    has its high bit set. *)
Lemma utf8_encode_octets v :
  0 <= v <= 1114111 ->
  octets (utf8_encode v) = true
  /\ (128 <= v -> forallb (in_range 128 255) (utf8_encode v) = true).
Proof.
  intro H. rewrite utf8_encode_arith by lia. unfold octets.
  destruct (Z.ltb_spec v 128); [|destruct (Z.ltb_spec v 2048);
                                 [|destruct (Z.ltb_spec v 65536)]];
    cbn [forallb]; rewrite ?andb_true_r.
  - split; [apply in_range_true; lia | lia].
  - rewrite !in_range_true by divmod. auto.
  - rewrite !in_range_true by divmod. auto.
  - rewrite !in_range_true by divmod. auto.
Qed.

(** What [encodeURIComponent] writes, [unescape] reads as the UTF-8 octets
    of the string. *)
Lemma unescape_encoded n : forall s,
  (List.length s <= n)%nat -> well_formed s = true ->
  exists e,
    uri_encode uri_unescaped s = Normal e
    /\ unescape e = utf8_of s /\ octets (utf8_of s) = true.
Proof.
  unfold unescape.
  induction n as [|n IH]; intros s Hn Hw.
  { destruct s; [|cbn in Hn; lia]. exists []. repeat split. }
  destruct s as [|c s]; [exists []; repeat split|].
  cbn [List.length] in Hn. cbn [uri_encode well_formed utf8_of] in *.
  destruct (uri_unescaped c) eqn:Uc.
  { destruct (uri_unescaped_plain c Uc) as [Hc H37].
    destruct (not_surrogate_low c ltac:(lia)) as [Hh Hl]. rewrite Hh, Hl in Hw.
    rewrite Hh. cbn [negb andb] in Hw. apply andb_true_iff in Hw as [_ Hw].
    destruct (IH s ltac:(lia) Hw) as (e & -> & Hd & Ho).
    exists (c :: e). split; [reflexivity|].
    unfold utf8_encode.
    replace (c <? 128) with true by (symmetry; apply Z.ltb_lt; lia).
    cbn [app]. split; [now rewrite unescape_plain, Hd|].
    unfold octets in *. cbn [forallb]. rewrite Ho.
    now rewrite in_range_true by lia. }
  destruct (is_high_surrogate c) eqn:Hh.
  - destruct s as [|d s]; [discriminate|].
    apply andb_true_iff in Hw as [Hl Hw]. rewrite Hl.
    cbn [List.length] in Hn.
    destruct (IH s ltac:(lia) Hw) as (e & -> & Hd & Ho).
    destruct (surrogate_pair c d Hh Hl) as ((Hs & _) & H64 & E16).
    destruct (utf8_encode_octets _ Hs) as [Hoct _].
    eexists. split; [reflexivity|].
    cbn [bind]. rewrite unescape_octets by exact Hoct. rewrite Hd.
    split; [reflexivity|]. unfold octets in *. now rewrite forallb_app, Hoct, Ho.
  - apply andb_true_iff in Hw as [Hw Hs]. apply andb_true_iff in Hw as [Hl Hr].
    apply negb_true_iff in Hl. rewrite Hl. apply in_range_in in Hr.
    destruct (IH s ltac:(lia) Hs) as (e & -> & Hd & Ho).
    destruct (utf8_encode_octets c ltac:(lia)) as [Hoct _].
    eexists. split; [reflexivity|].
    cbn [bind]. rewrite unescape_octets by exact Hoct. rewrite Hd.
    split; [reflexivity|]. unfold octets in *. now rewrite forallb_app, Hoct, Ho.
Qed.

Lemma escape_app a b : escape (a ++ b) = escape a ++ escape b.
Proof. apply flat_map_app. Qed.

Lemma escape_high_octets bytes :
  forallb (in_range 128 255) bytes = true -> escape bytes = percent_octets bytes.
Proof.
  unfold escape, percent_octets.
  induction bytes as [|b bytes IH]; [reflexivity|].
  cbn [forallb flat_map]. intro H. apply andb_true_iff in H as [Hb Hbs].
  apply in_range_in in Hb. rewrite IH by exact Hbs. f_equal.
  unfold escape_unit.
  replace (is_alnum b) with false.
  - replace (one_of "@*_+-./" b) with false.
    + cbn [orb]. now replace (b <? 256) with true by (symmetry; apply Z.ltb_lt; lia).
    + symmetry. unfold one_of. cbn.
      repeat apply orb_false_intro; try reflexivity; apply Z.eqb_neq; lia.
  - symmetry. apply not_true_is_false. intro A. apply is_alnum_range in A. lia.
Qed.

(** An ASCII character, escaped by [escape] or left as it is, decodes to
    itself. *)
Lemma uri_decode_escape_ascii c rest :
  0 <= c < 128 ->
  uri_decode (escape_unit c ++ rest) None
  = (r <- uri_decode rest None ;; Normal (c :: r)).
Proof.
  intro H. unfold escape_unit.
  destruct (is_alnum c || one_of "@*_+-./" c) eqn:E.
  - cbn [app]. apply uri_decode_plain. intros ->. discriminate.
  - replace (c <? 256) with true by (symmetry; apply Z.ltb_lt; lia).
    now apply uri_decode_ascii_octet.
Qed.

(** The UTF-8 octets of a well-formed string, escaped, decode to the
    string. *)
Lemma decode_escaped n : forall s,
  (List.length s <= n)%nat -> well_formed s = true ->
  uri_decode (escape (utf8_of s)) None = Normal s.
Proof.
  induction n as [|n IH]; intros s Hn Hw.
  { destruct s; [reflexivity | cbn in Hn; lia]. }
  destruct s as [|c s]; [reflexivity|].
  cbn [List.length] in Hn. cbn [well_formed utf8_of] in *.
  destruct (is_high_surrogate c) eqn:Hh.
  - destruct s as [|d s]; [discriminate|].
    apply andb_true_iff in Hw as [Hl Hw]. cbn [List.length] in Hn.
    destruct (surrogate_pair c d Hh Hl) as (Hs & H64 & E16).
    destruct (utf8_encode_octets _ (proj1 Hs)) as [_ Hhigh].
    rewrite escape_app, escape_high_octets by (apply Hhigh; lia).
    rewrite uri_decode_code_point by (try assumption; lia).
    now rewrite (IH s ltac:(lia) Hw), E16.
  - apply andb_true_iff in Hw as [Hw Hs]. apply andb_true_iff in Hw as [Hl Hr].
    apply negb_true_iff in Hl. apply in_range_in in Hr.
    rewrite escape_app.
    destruct (Z.ltb_spec c 128).
    + unfold utf8_encode.
      replace (c <? 128) with true by (symmetry; apply Z.ltb_lt; lia).
      unfold escape at 1. cbn [flat_map]. rewrite app_nil_r.
      now rewrite uri_decode_escape_ascii, (IH s ltac:(lia) Hs) by lia.
    + destruct (utf8_encode_octets c ltac:(lia)) as [_ Hhigh].
      rewrite escape_high_octets by (apply Hhigh; lia).
      rewrite uri_decode_code_point.
      * rewrite (IH s ltac:(lia) Hs). unfold utf16_encode.
        now replace (c <? 65536) with true by (symmetry; apply Z.ltb_lt; lia).
      * unfold is_high_surrogate, is_low_surrogate in *.
        split; [lia|]. intro Hx.
        assert (55296 <= c <= 56319 \/ 56320 <= c <= 57343) as [X|X] by lia.
        -- apply in_range_true in X. congruence.
        -- apply in_range_true in X. congruence.
      * lia.
Qed.

(** *** [encodeBase64] and [decodeBase64] *)

Lemma replace_char_absent a b s :
  includes_char a s = false -> replace_char a b s = s.
Proof.
  unfold includes_char, replace_char.
  induction s as [|c s IH]; [reflexivity|].
  cbn [existsb map]. intro H. apply orb_false_iff in H as [Hc Hs].
  rewrite IH by exact Hs. rewrite Z.eqb_sym in Hc. now rewrite Hc.
Qed.

Lemma includes_char_In a s : includes_char a s = true <-> In a s.
Proof.
  unfold includes_char. rewrite existsb_exists. split.
  - intros (x & Hx & E). apply Z.eqb_eq in E. now subst.
  - intro H. exists a. split; [exact H | apply Z.eqb_refl].
Qed.

Lemma b64_alphabet_lacks c vs :
  forallb (in_range 0 63) vs = true ->
  (c = 45 \/ c = 95) -> includes_char c (map b64_char_of vs) = false.
Proof.
  intros Hr Hc. unfold includes_char.
  induction vs as [|v vs IH]; [reflexivity|].
  cbn [forallb] in Hr. apply andb_true_iff in Hr as [Hv Hvs].
  apply in_range_in in Hv. cbn [map existsb]. rewrite IH by exact Hvs.
  destruct (b64_char_of_plain v Hv) as (_ & _ & H45 & H95).
  rewrite orb_false_r. apply Z.eqb_neq. lia.
Qed.

Lemma padding_lacks c bytes :
  c <> 61 -> includes_char c (b64_padding bytes) = false.
Proof.
  intro Hc. unfold includes_char.
  assert (E : (c =? 61) = false) by (apply Z.eqb_neq; lia).
  destruct (padding_cases bytes) as [P|[[P _]|[P _]]]; rewrite P; cbn [existsb];
    now rewrite ?E.
Qed.

(** The base64 form of octets has no character of the URL alphabet. *)
Lemma from_base64url_b64_encode bytes :
  octets bytes = true -> from_base64url (b64_encode bytes) = b64_encode bytes.
Proof.
  intro Hb. pose proof (sextets_of_range bytes Hb) as Hs.
  assert (L : forall c, c = 45 \/ c = 95 -> includes_char c (b64_encode bytes) = false).
  { intros c Hc. rewrite b64_encode_form. unfold includes_char.
    rewrite existsb_app. fold (includes_char c (map b64_char_of (sextets_of bytes))).
    fold (includes_char c (b64_padding bytes)).
    rewrite b64_alphabet_lacks, padding_lacks by (assumption || lia). reflexivity. }
  unfold from_base64url.
  rewrite (replace_char_absent 45) by (apply L; lia).
  apply replace_char_absent, L. lia.
Qed.

Lemma strip_padding_keeps c s :
  In c s -> c <> 61 -> In c (strip_padding s).
Proof.
  intros Hin Hc.
  destruct (Z.eqb_spec (len s mod 4) 0) as [E|E].
  - rewrite strip_padding_cases by exact E.
    apply in_rev in Hin.
    destruct (rev s) as [|x r] eqn:R; [contradiction|].
    destruct (Z.eqb_spec x 61) as [->|Hx].
    + destruct Hin as [Hin|Hin]; [lia|].
      destruct r as [|y r']; [contradiction|].
      destruct (Z.eqb_spec y 61) as [->|Hy].
      * destruct Hin as [Hin|Hin]; [lia|]. now apply in_rev in Hin.
      * now apply in_rev in Hin.
    + rewrite <- R in Hin. now apply in_rev.
  - unfold strip_padding. apply Z.eqb_neq in E. now rewrite E.
Qed.

Lemma b64_values_invalid c s :
  In c s -> b64_value c = None -> b64_values s = None.
Proof.
  intros Hin Hc. induction s as [|x s IH]; [contradiction|].
  cbn [b64_values]. destruct Hin as [->|Hin].
  - now rewrite Hc.
  - rewrite (IH Hin). now destruct (b64_value x).
Qed.

(** [atob] refuses the two characters of the URL alphabet. *)
Lemma atob_url_alphabet s :
  includes_char 45 s || includes_char 95 s = true ->
  atob s = Throw InvalidCharacterError.
Proof.
  intro H.
  assert (X : exists c, In c s /\ (c = 45 \/ c = 95)).
  { apply orb_true_iff in H as [H|H]; apply includes_char_In in H; eauto. }
  destruct X as (c & Hin & Hc).
  unfold atob. cbv zeta.
  set (data := strip_padding _).
  assert (D : In c data).
  { apply strip_padding_keeps; [|lia]. apply filter_In. split; [exact Hin|].
    destruct Hc as [->| ->]; reflexivity. }
  destruct (len data mod 4 =? 1); [reflexivity|].
  rewrite (b64_values_invalid c data D); [reflexivity|].
  destruct Hc as [->| ->]; reflexivity.
Qed.

Lemma from_base64url_plain s :
  includes_char 45 s || includes_char 95 s = false -> from_base64url s = s.
Proof.
  intro H. apply orb_false_iff in H as [H45 H95]. unfold from_base64url.
  rewrite (replace_char_absent 45) by exact H45.
  now apply replace_char_absent.
Qed.

Lemma octets_narrow bytes :
  octets bytes = true -> forallb (fun c => c <=? 255) bytes = true.
Proof.
  unfold octets. induction bytes as [|b bytes IH]; [reflexivity|].
  cbn [forallb]. intro H. apply andb_true_iff in H as [Hb Hbs].
  apply in_range_in in Hb. rewrite IH by exact Hbs.
  now replace (b <=? 255) with true by (symmetry; apply Z.leb_le; lia).
Qed.

(** A string that is not well-formed holds a surrogate, a code unit too
    wide for [btoa]. *)
Lemma ill_formed_wide n : forall s,
  (List.length s <= n)%nat -> code_units s = true -> well_formed s = false ->
  forallb (fun c => c <=? 255) s = false.
Proof.
  unfold code_units.
  induction n as [|n IH]; intros s Hn Hc Hw.
  { destruct s; [discriminate | cbn in Hn; lia]. }
  destruct s as [|c s]; [discriminate|].
  cbn [List.length] in Hn. cbn [forallb well_formed] in *.
  apply andb_true_iff in Hc as [Hr Hc].
  destruct (is_high_surrogate c) eqn:Hh.
  - unfold is_high_surrogate in Hh. apply in_range_in in Hh.
    now replace (c <=? 255) with false by (symmetry; apply Z.leb_gt; lia).
  - rewrite Hr in Hw. destruct (is_low_surrogate c) eqn:Hl.
    + unfold is_low_surrogate in Hl. apply in_range_in in Hl.
      now replace (c <=? 255) with false by (symmetry; apply Z.leb_gt; lia).
    + cbn [negb andb] in Hw. rewrite (IH s ltac:(lia) Hc Hw).
      apply andb_false_r.
Qed.

(** X14. [decodeBase64] undoes [encodeBase64] on a well-formed string, also
    when the encoded text is handed over in the URL alphabet, with [-] for
    [+] and [_] for [/]. *)
Theorem base64_round_trip s :
  well_formed s = true ->
  exists e,
    encodeBase64 s = Normal e
    /\ decodeBase64 e = s
    /\ forall e', from_base64url e' = e -> decodeBase64 e' = s.
Proof.
  intro H.
  destruct (unescape_encoded _ s (le_n _) H) as (e0 & E & U & O).
  exists (b64_encode (utf8_of s)).
  assert (A : forall e', from_base64url e' = b64_encode (utf8_of s) ->
                         decodeBase64 e' = s).
  { intros e' N. unfold decodeBase64. cbv zeta. rewrite N.
    rewrite atob_b64_encode by exact O. cbn [bind].
    unfold decodeURIComponent. now rewrite (decode_escaped _ s (le_n _) H). }
  split; [|split].
  - unfold encodeBase64, encodeURIComponent. rewrite E. cbn [bind].
    rewrite U. unfold btoa. now rewrite octets_narrow by exact O.
  - apply A. now apply from_base64url_b64_encode.
  - exact A.
Qed.

Lemma base64_round_trip_witness :
  exists e,
    encodeBase64 sample_text = Normal e
    /\ decodeBase64 e = sample_text
    /\ forall e', from_base64url e' = e -> decodeBase64 e' = sample_text.
Proof. apply base64_round_trip. reflexivity. Defined.

(** X15. A string with a surrogate that lacks its partner cannot be encoded:
    [encodeUrl] and [encodeFullUrl] throw a URIError, and [encodeBase64],
    whose fallback meets the same surrogate, throws an
    InvalidCharacterError. *)
Theorem lone_surrogate_not_encoded s :
  code_units s = true -> well_formed s = false ->
  encodeUrl s = Throw URIError
  /\ encodeFullUrl s = Throw URIError
  /\ encodeBase64 s = Throw InvalidCharacterError.
Proof.
  intros Hc Hw. split; [|split].
  - apply (uri_encode_lone_surrogate _ uri_unescaped_plain _ s (le_n _) Hc Hw).
  - apply (uri_encode_lone_surrogate _ uri_reserved_plain _ s (le_n _) Hc Hw).
  - unfold encodeBase64, encodeURIComponent.
    rewrite (uri_encode_lone_surrogate _ uri_unescaped_plain _ s (le_n _) Hc Hw).
    cbn [bind try_catch]. unfold btoa.
    now rewrite (ill_formed_wide _ s (le_n _) Hc Hw).
Qed.

Lemma lone_surrogate_not_encoded_witness :
  encodeUrl (js "a" ++ [55357]) = Throw URIError
  /\ encodeFullUrl (js "a" ++ [55357]) = Throw URIError
  /\ encodeBase64 (js "a" ++ [55357]) = Throw InvalidCharacterError.
Proof. apply lone_surrogate_not_encoded; reflexivity. Defined.

(** X16. The three outcomes of [decodeBase64]. Text that is not base64, also
    after the URL alphabet is put back, gives the words Invalid Base64. Octets
    that are UTF-8 give the string they encode. Octets that are not UTF-8
    come back one character each, unless the text used the URL alphabet: then
    the second attempt fails and the answer is again Invalid Base64. *)
Theorem decodeBase64_cases s :
  decodeBase64 s =
  match atob (from_base64url s) with
  | Throw _ => js "Invalid Base64"
  | Normal bytes =>
      match decodeURIComponent (escape bytes) with
      | Normal r => r
      | Throw _ =>
          if includes_char 45 s || includes_char 95 s
          then js "Invalid Base64" else bytes
      end
  end.
Proof.
  unfold decodeBase64. cbv zeta.
  destruct (includes_char 45 s || includes_char 95 s) eqn:U.
  - rewrite (atob_url_alphabet s U).
    destruct (atob (from_base64url s)) as [bytes|]; [|reflexivity].
    cbn [bind]. now destruct (decodeURIComponent (escape bytes)).
  - rewrite (from_base64url_plain s U).
    destruct (atob s) as [bytes|]; [|reflexivity].
    cbn [bind]. now destruct (decodeURIComponent (escape bytes)).
Qed.

(** ** Colours in hexadecimal *)

(** The channel values, through [toString(16)] and [padStart], through the
    subtraction of [getComplementary], through the division and the rounding
    of the transparency, and back through [parseInt]. *)
Lemma byte_forms v :
  0 <= v <= 255 ->
  hex2 (Z_to_float v) = hex_pair v
  /\ hex2 (255 - Z_to_float v)%float = hex_pair (255 - v)
  /\ hex2 (Math_round (Z_to_float v / 255 * 255)%float) = hex_pair v
  /\ parseInt (hex_pair v) 16 = Some v.
Proof.
  intro H.
  assert (Hall : forallb (fun v =>
                   jsstring_eqb (hex2 (Z_to_float v)) (hex_pair v)
                   && jsstring_eqb (hex2 (255 - Z_to_float v)%float) (hex_pair (255 - v))
                   && jsstring_eqb (hex2 (Math_round (Z_to_float v / 255 * 255)%float))
                        (hex_pair v)
                   && match parseInt (hex_pair v) 16 with
                      | Some w => w =? v
                      | None => false
                      end) channel_values = true) by (vm_compute; reflexivity).
  rewrite forallb_forall in Hall.
  specialize (Hall v (channel_values_In v H)).
  apply andb_true_iff in Hall as [Hall P]. apply andb_true_iff in Hall as [Hall A].
  apply andb_true_iff in Hall as [X C].
  apply jsstring_eqb_eq in X, C, A.
  repeat split; try assumption.
  destruct (parseInt (hex_pair v) 16) as [w|]; [|discriminate].
  apply Z.eqb_eq in P. now subst.
Qed.

(** Two hexadecimal digits, of either case, read as an octet whose two
    digits are the two in lower case. *)
Lemma parse_hex_pair h1 h2 :
  is_hex h1 = true -> is_hex h2 = true ->
  exists v, 0 <= v <= 255 /\ parseInt [h1; h2] 16 = Some v
            /\ hex_pair v = [ascii_lower h1; ascii_lower h2].
Proof.
  intros H1 H2.
  assert (In_hex : forall c, is_hex c = true ->
                     In c (filter is_hex (map Z.of_nat (seq 0 128)))).
  { intros c Hc. apply filter_In. split; [|exact Hc].
    apply is_hex_range in Hc. apply in_map_iff.
    exists (Z.to_nat c). split; [lia|]. apply in_seq. lia. }
  assert (Hall : forallb (fun h1 =>
                   forallb (fun h2 =>
                     match parseInt [h1; h2] 16 with
                     | Some v => (0 <=? v) && (v <=? 255)
                                 && jsstring_eqb (hex_pair v)
                                      [ascii_lower h1; ascii_lower h2]
                     | None => false
                     end) (filter is_hex (map Z.of_nat (seq 0 128))))
                   (filter is_hex (map Z.of_nat (seq 0 128))) = true)
    by (vm_compute; reflexivity).
  rewrite forallb_forall in Hall. specialize (Hall h1 (In_hex h1 H1)).
  rewrite forallb_forall in Hall. specialize (Hall h2 (In_hex h2 H2)).
  destruct (parseInt [h1; h2] 16) as [v|]; [|discriminate].
  apply andb_true_iff in Hall as [Hall E]. apply andb_true_iff in Hall as [L U].
  apply jsstring_eqb_eq in E. exists v. repeat split; try assumption; lia.
Qed.

Lemma hex_pair_lower_hex v :
  0 <= v <= 255 -> forallb is_lower_hex (hex_pair v) = true.
Proof.
  intro H. unfold hex_pair. cbn [forallb].
  rewrite !hex_digit_char_lower_hex by divmod. reflexivity.
Qed.

(** A number sign and hexadecimal digits, three to eight of them. *)
Lemma HEX_PARSE_REGEX_test ds :
  (3 <= List.length ds <= 8)%nat -> forallb is_hex ds = true ->
  regex_test HEX_PARSE_REGEX (35 :: ds) = true.
Proof.
  intros Hl Hd. apply regex_test_Match. unfold HEX_PARSE_REGEX, hexdigit.
  apply (Match_seq_intro _ _ [35] ds); [reflexivity | now constructor |].
  apply Match_between_cls; [lia|]. split; [lia | exact Hd].
Qed.

Lemma hex_color_shape t :
  regex_test HEX_COLOR_REGEX t = true ->
  exists ds, t = 35 :: ds /\ forallb is_hex ds = true
             /\ (List.length ds = 3 \/ List.length ds = 6 \/ List.length ds = 8)%nat.
Proof.
  rewrite regex_test_Match. unfold HEX_COLOR_REGEX, hexdigit.
  intro M. apply Match_seq_inv in M as (u & v & -> & Hu & Hv).
  apply Match_cls_inv in Hu as (c & -> & Hc). apply Z.eqb_eq in Hc. subst c.
  cbn [alts] in Hv. exists v. split; [reflexivity|].
  apply Match_alt_inv in Hv as [Hv|Hv];
    [|apply Match_alt_inv in Hv as [Hv|Hv]];
    apply Match_rep_cls in Hv as [Hl Hp]; split; auto.
Qed.

Lemma channel_of_pair h1 h2 :
  is_hex h1 = true -> is_hex h2 = true ->
  exists v,
    0 <= v <= 255
    /\ parseInt_number [h1; h2] 16 = Z_to_float v
    /\ hex2 (Z_to_float v) = [ascii_lower h1; ascii_lower h2]
    /\ hex2 (Math_round (Z_to_float v / 255 * 255)%float)
       = [ascii_lower h1; ascii_lower h2].
Proof.
  intros H1 H2. destruct (parse_hex_pair h1 h2 H1 H2) as (v & Hv & P & E).
  destruct (byte_forms v Hv) as (X & _ & A & _).
  exists v. unfold parseInt_number. rewrite P, X, A, E. now repeat split.
Qed.

Lemma parseColor_hex s ds :
  trim s = 35 :: ds -> forallb is_hex ds = true ->
  (3 <= List.length ds <= 8)%nat ->
  parseColor s =
  if len ds =? 3 then
    Some (ColorRGB.mk
            (parseInt_number (slice 0 1 ds ++ slice 0 1 ds) 16)
            (parseInt_number (slice 1 2 ds ++ slice 1 2 ds) 16)
            (parseInt_number (slice 2 3 ds ++ slice 2 3 ds) 16)
            1)
  else if len ds =? 6 then
    Some (ColorRGB.mk
            (parseInt_number (slice 0 2 ds) 16)
            (parseInt_number (slice 2 4 ds) 16)
            (parseInt_number (slice 4 6 ds) 16)
            1)
  else if len ds =? 8 then
    Some (ColorRGB.mk
            (parseInt_number (slice 0 2 ds) 16)
            (parseInt_number (slice 2 4 ds) 16)
            (parseInt_number (slice 4 6 ds) 16)
            (parseInt_number (slice 6 8 ds) 16 / 255)%float)
  else None.
Proof.
  intros T Hd Hl. unfold parseColor. cbv zeta. rewrite T.
  now rewrite HEX_PARSE_REGEX_test.
Qed.

Ltac hex_channel a b v :=
  let R := fresh "R" in let P := fresh "P" in
  let X := fresh "X" in let A := fresh "A" in
  destruct (channel_of_pair a b) as (v & R & P & X & A);
  [assumption | assumption |].

(** X17. A hexadecimal colour that the detector accepts is read into
    channels from 0 to 255, and comes back in lower case: the short form
    with every digit written twice, the long forms as they are, the
    transparency in [hex8] alone, where an opaque colour gets [ff]. *)
Theorem hex_color_formats s :
  regex_test HEX_COLOR_REGEX (trim s) = true ->
  exists f,
    colorToFormats s = Some f
    /\ byte_channels (ColorFormats.original f)
    /\ ColorFormats.hex f = map ascii_lower (six_digits (trim s))
    /\ ColorFormats.hex8 f
       = if len (trim s) =? 9 then map ascii_lower (trim s)
         else ColorFormats.hex f ++ js "ff".
Proof.
  intro H. apply hex_color_shape in H as (ds & T & Hd & L).
  unfold colorToFormats.
  rewrite (parseColor_hex s ds T Hd) by lia. rewrite T.
  destruct L as [L|[L|L]].
  - destruct ds as [|a [|b [|c [|]]]]; try discriminate L.
    cbn [forallb] in Hd. apply andb_true_iff in Hd as [Ha Hd].
    apply andb_true_iff in Hd as [Hb Hd]. apply andb_true_iff in Hd as [Hc _].
    hex_channel a a r. hex_channel b b g. hex_channel c c bl.
    change (len [a; b; c] =? 3) with true. cbv iota.
    change (slice 0 1 [a; b; c] ++ slice 0 1 [a; b; c]) with [a; a].
    change (slice 1 2 [a; b; c] ++ slice 1 2 [a; b; c]) with [b; b].
    change (slice 2 3 [a; b; c] ++ slice 2 3 [a; b; c]) with [c; c].
    rewrite P, P0, P1. eexists. split; [reflexivity|].
    cbn [ColorFormats.original ColorFormats.hex ColorFormats.hex8
         ColorRGB.r ColorRGB.g ColorRGB.b ColorRGB.a].
    rewrite X, X0, X1. split; [|split].
    + exists r, g, bl. cbn [ColorRGB.r ColorRGB.g ColorRGB.b]. now repeat split.
    + reflexivity.
    + reflexivity.
  - destruct ds as [|a [|b [|c [|d [|e [|f [|]]]]]]]; try discriminate L.
    cbn [forallb] in Hd. repeat (apply andb_true_iff in Hd as [? Hd]).
    hex_channel a b r. hex_channel c d g. hex_channel e f bl.
    change (len [a; b; c; d; e; f] =? 3) with false.
    change (len [a; b; c; d; e; f] =? 6) with true. cbv iota.
    change (slice 0 2 [a; b; c; d; e; f]) with [a; b].
    change (slice 2 4 [a; b; c; d; e; f]) with [c; d].
    change (slice 4 6 [a; b; c; d; e; f]) with [e; f].
    rewrite P, P0, P1. eexists. split; [reflexivity|].
    cbn [ColorFormats.original ColorFormats.hex ColorFormats.hex8
         ColorRGB.r ColorRGB.g ColorRGB.b ColorRGB.a].
    rewrite X, X0, X1. split; [|split].
    + exists r, g, bl. cbn [ColorRGB.r ColorRGB.g ColorRGB.b]. now repeat split.
    + reflexivity.
    + reflexivity.
  - destruct ds as [|a [|b [|c [|d [|e [|f [|x [|y [|]]]]]]]]]; try discriminate L.
    cbn [forallb] in Hd. repeat (apply andb_true_iff in Hd as [? Hd]).
    hex_channel a b r. hex_channel c d g. hex_channel e f bl. hex_channel x y al.
    change (len [a; b; c; d; e; f; x; y] =? 3) with false.
    change (len [a; b; c; d; e; f; x; y] =? 6) with false.
    change (len [a; b; c; d; e; f; x; y] =? 8) with true. cbv iota.
    change (slice 0 2 [a; b; c; d; e; f; x; y]) with [a; b].
    change (slice 2 4 [a; b; c; d; e; f; x; y]) with [c; d].
    change (slice 4 6 [a; b; c; d; e; f; x; y]) with [e; f].
    change (slice 6 8 [a; b; c; d; e; f; x; y]) with [x; y].
    rewrite P, P0, P1, P2. eexists. split; [reflexivity|].
    cbn [ColorFormats.original ColorFormats.hex ColorFormats.hex8
         ColorRGB.r ColorRGB.g ColorRGB.b ColorRGB.a].
    rewrite X, X0, X1, A2. split; [|split].
    + exists r, g, bl. cbn [ColorRGB.r ColorRGB.g ColorRGB.b]. now repeat split.
    + reflexivity.
    + reflexivity.
Qed.

Lemma hex_color_formats_witness :
  exists f,
    colorToFormats (js " #F0a ") = Some f
    /\ byte_channels (ColorFormats.original f)
    /\ ColorFormats.hex f = map ascii_lower (six_digits (trim (js " #F0a ")))
    /\ ColorFormats.hex8 f
       = if len (trim (js " #F0a ")) =? 9 then map ascii_lower (trim (js " #F0a "))
         else ColorFormats.hex f ++ js "ff".
Proof. apply hex_color_formats. reflexivity. Defined.

Lemma hex_digit_not_space d : 0 <= d <= 15 -> not_space (hex_digit_char d) = true.
Proof.
  intro H. apply hex_not_space, lower_hex_is_hex. now apply hex_digit_char_lower_hex.
Qed.

(** A number sign and three octets in hexadecimal are read as the three
    octets, opaque. *)
Lemma parseColor_pairs r g b :
  0 <= r <= 255 -> 0 <= g <= 255 -> 0 <= b <= 255 ->
  parseColor (35 :: hex_pair r ++ hex_pair g ++ hex_pair b)
  = Some (ColorRGB.mk (Z_to_float r) (Z_to_float g) (Z_to_float b) 1).
Proof.
  intros Hr Hg Hb.
  pose proof (hex_pair_lower_hex r Hr) as Lr.
  pose proof (hex_pair_lower_hex g Hg) as Lg.
  pose proof (hex_pair_lower_hex b Hb) as Lb.
  destruct (byte_forms r Hr) as (_ & _ & _ & Pr).
  destruct (byte_forms g Hg) as (_ & _ & _ & Pg).
  destruct (byte_forms b Hb) as (_ & _ & _ & Pb).
  rewrite (parseColor_hex _ (hex_pair r ++ hex_pair g ++ hex_pair b)).
  - unfold hex_pair in *. cbn [app].
    set (r1 := hex_digit_char (r / 16)) in *. set (r2 := hex_digit_char (r mod 16)) in *.
    set (g1 := hex_digit_char (g / 16)) in *. set (g2 := hex_digit_char (g mod 16)) in *.
    set (b1 := hex_digit_char (b / 16)) in *. set (b2 := hex_digit_char (b mod 16)) in *.
    change (len [r1; r2; g1; g2; b1; b2] =? 3) with false.
    change (len [r1; r2; g1; g2; b1; b2] =? 6) with true. cbv iota.
    change (slice 0 2 [r1; r2; g1; g2; b1; b2]) with [r1; r2].
    change (slice 2 4 [r1; r2; g1; g2; b1; b2]) with [g1; g2].
    change (slice 4 6 [r1; r2; g1; g2; b1; b2]) with [b1; b2].
    unfold parseInt_number. now rewrite Pr, Pg, Pb.
  - apply trim_no_space. unfold hex_pair. cbn [app forallb].
    rewrite !hex_digit_not_space by divmod. reflexivity.
  - rewrite !forallb_app.
    now rewrite !lower_hex_all_hex by assumption.
  - unfold hex_pair. cbn [app List.length]. lia.
Qed.

Ltac formats_of H c :=
  unfold colorToFormats in H;
  destruct (parseColor _) as [c|]; [|discriminate H];
  injection H as <-;
  cbn [ColorFormats.original ColorFormats.hex ColorFormats.complementary] in *.

Ltac bytes_of B c r g b :=
  let Hr := fresh "Hr" in let Hg := fresh "Hg" in let Hb := fresh "Hb" in
  destruct B as (r & g & b & (Hr & Hg & Hb) & Er & Eg & Eb);
  destruct c as [fr fg fb fa]; cbn [ColorRGB.r ColorRGB.g ColorRGB.b] in *;
  subst fr fg fb.

(** X18. The [hex] text that [colorToFormats] returns for a colour with
    channels from 0 to 255 is itself a colour: read again, it gives the same
    channels, opaque, and therefore the same [hex], [rgb], [hsl], [tailwind]
    and [complementary] texts. *)
Theorem hex_format_reparses s f :
  colorToFormats s = Some f ->
  byte_channels (ColorFormats.original f) ->
  exists f',
    colorToFormats (ColorFormats.hex f) = Some f'
    /\ ColorFormats.original f' = opaque (ColorFormats.original f)
    /\ ColorFormats.hex f' = ColorFormats.hex f
    /\ ColorFormats.rgb f' = ColorFormats.rgb f
    /\ ColorFormats.hsl f' = ColorFormats.hsl f
    /\ ColorFormats.tailwind f' = ColorFormats.tailwind f
    /\ ColorFormats.complementary f' = ColorFormats.complementary f.
Proof.
  intros H B. formats_of H c. bytes_of B c r g b.
  destruct (byte_forms r Hr) as (Xr & _). destruct (byte_forms g Hg) as (Xg & _).
  destruct (byte_forms b Hb) as (Xb & _).
  unfold colorToFormats at 1. rewrite Xr, Xg, Xb.
  change (js "#" ++ hex_pair r ++ hex_pair g ++ hex_pair b)
    with (35 :: hex_pair r ++ hex_pair g ++ hex_pair b).
  rewrite parseColor_pairs by assumption.
  eexists. split; [reflexivity|].
  cbn [ColorFormats.original ColorFormats.hex ColorFormats.rgb ColorFormats.hsl
       ColorFormats.tailwind ColorFormats.complementary
       ColorRGB.r ColorRGB.g ColorRGB.b ColorRGB.a].
  rewrite Xr, Xg, Xb.
  rewrite (rgbToHsl_alpha _ _ _ 1), (rgbToHsl_alpha _ _ _ fa). cbv zeta.
  cbn [ColorHSL.h ColorHSL.s ColorHSL.l].
  unfold opaque, findTailwindColor, getComplementary.
  cbn [ColorRGB.r ColorRGB.g ColorRGB.b].
  split; [|split; [|split; [|split; [|split]]]]; reflexivity.
Qed.

Lemma hex_format_reparses_witness :
  exists f,
    colorToFormats (js "#F0a") = Some f
    /\ exists f',
         colorToFormats (ColorFormats.hex f) = Some f'
         /\ ColorFormats.original f' = opaque (ColorFormats.original f)
         /\ ColorFormats.hex f' = ColorFormats.hex f
         /\ ColorFormats.rgb f' = ColorFormats.rgb f
         /\ ColorFormats.hsl f' = ColorFormats.hsl f
         /\ ColorFormats.tailwind f' = ColorFormats.tailwind f
         /\ ColorFormats.complementary f' = ColorFormats.complementary f.
Proof.
  eexists. split; [vm_compute; reflexivity|].
  apply (hex_format_reparses (js "#F0a")); [vm_compute; reflexivity|].
  exists 255, 0, 170. repeat split; try lia; vm_compute; reflexivity.
Defined.

(** X19. The complementary colour of a colour with channels from 0 to 255
    is a colour with such channels, and its own complementary colour is the
    colour one started from. *)
Theorem complementary_involution s f :
  colorToFormats s = Some f ->
  byte_channels (ColorFormats.original f) ->
  exists f',
    colorToFormats (ColorFormats.complementary f) = Some f'
    /\ byte_channels (ColorFormats.original f')
    /\ ColorFormats.hex f' = ColorFormats.complementary f
    /\ ColorFormats.complementary f' = ColorFormats.hex f.
Proof.
  intros H B. formats_of H c. bytes_of B c r g b.
  destruct (byte_forms r Hr) as (Xr & Cr & _).
  destruct (byte_forms g Hg) as (Xg & Cg & _).
  destruct (byte_forms b Hb) as (Xb & Cb & _).
  destruct (byte_forms (255 - r) ltac:(lia)) as (Xr' & Cr' & _).
  destruct (byte_forms (255 - g) ltac:(lia)) as (Xg' & Cg' & _).
  destruct (byte_forms (255 - b) ltac:(lia)) as (Xb' & Cb' & _).
  unfold colorToFormats at 1. unfold getComplementary at 1.
  cbn [ColorRGB.r ColorRGB.g ColorRGB.b]. rewrite Cr, Cg, Cb.
  change (js "#" ++ hex_pair (255 - r) ++ hex_pair (255 - g) ++ hex_pair (255 - b))
    with (35 :: hex_pair (255 - r) ++ hex_pair (255 - g) ++ hex_pair (255 - b)).
  rewrite parseColor_pairs by lia.
  eexists. split; [reflexivity|].
  cbn [ColorFormats.original ColorFormats.hex ColorFormats.complementary].
  unfold getComplementary. cbn [ColorRGB.r ColorRGB.g ColorRGB.b].
  rewrite Xr', Xg', Xb', Cr', Cg', Cb', Cr, Cg, Cb, Xr, Xg, Xb.
  replace (255 - (255 - r)) with r by lia.
  replace (255 - (255 - g)) with g by lia.
  replace (255 - (255 - b)) with b by lia.
  split; [|split; reflexivity].
  exists (255 - r), (255 - g), (255 - b). cbn [ColorRGB.r ColorRGB.g ColorRGB.b].
  repeat split; lia.
Qed.

Lemma complementary_involution_witness :
  exists f,
    colorToFormats (js "#F0a") = Some f
    /\ exists f',
         colorToFormats (ColorFormats.complementary f) = Some f'
         /\ byte_channels (ColorFormats.original f')
         /\ ColorFormats.hex f' = ColorFormats.complementary f
         /\ ColorFormats.complementary f' = ColorFormats.hex f.
Proof.
  eexists. split; [vm_compute; reflexivity|].
  apply (complementary_involution (js "#F0a")); [vm_compute; reflexivity|].
  exists 255, 0, 170. repeat split; try lia; vm_compute; reflexivity.
Defined.

(** ** Detection of JSON and of colours *)

(** A JWT is made of the characters of base64url and of points. *)
Lemma jwt_chars t :
  Match JWT_REGEX t -> forallb (fun c => is_b64url c || (c =? 46)) t = true.
Proof.
  unfold JWT_REGEX. cbn [seqs]. intro M.
  assert (P : forall u, Match (Plus (Cls is_b64url)) u ->
                        forallb (fun c => is_b64url c || (c =? 46)) u = true).
  { intros u Hu. unfold Plus in Hu. apply Match_seq_inv in Hu as (a & b & -> & Ha & Hb).
    apply Match_cls_inv in Ha as (c & -> & Hc). apply Match_star_cls in Hb.
    cbn [app forallb]. rewrite Hc. cbn [orb andb].
    revert Hb. apply forallb_weaken. intros x Hx. now rewrite Hx. }
  assert (D : forall u, Match (Chr ".") u ->
                        forallb (fun c => is_b64url c || (c =? 46)) u = true).
  { intros u Hu. apply Match_cls_inv in Hu as (c & -> & Hc).
    apply Z.eqb_eq in Hc. subst c. reflexivity. }
  apply Match_seq_inv in M as (u1 & v1 & -> & H1 & M).
  apply Match_seq_inv in M as (u2 & v2 & -> & H2 & M).
  apply Match_seq_inv in M as (u3 & v3 & -> & H3 & M).
  apply Match_seq_inv in M as (u4 & v4 & -> & H4 & M).
  apply Match_star_cls in M.
  rewrite !forallb_app, (P _ H1), (D _ H2), (P _ H3), (D _ H4). cbn [andb].
  revert M. apply forallb_weaken. intros x Hx. now rewrite Hx.
Qed.

(** Neither the JWT nor the UUID detector takes a text with a character
    outside letters, digits, hyphen, underscore and point. *)
Lemma foreign_char_misses s c :
  In c (trim s) -> is_b64url c || (c =? 46) = false ->
  detectJwt s = Normal None /\ detectUuid s = Normal None.
Proof.
  intros Hin Hc. split.
  - unfold detectJwt. cbv zeta.
    replace (regex_test JWT_REGEX (trim s)) with false; [reflexivity|].
    symmetry. apply regex_test_false. intro M. apply jwt_chars in M.
    rewrite forallb_forall in M. apply M in Hin. congruence.
  - unfold detectUuid. cbv zeta. rewrite UUID_REGEX_shape.
    destruct (uuid_shape (trim s)) eqn:U; [|reflexivity].
    apply uuid_shape_chars in U. rewrite forallb_forall in U. apply U in Hin.
    apply orb_false_iff in Hc as [Hb Hd].
    apply orb_true_iff in Hin as [Hh|Hh].
    + apply is_hex_range in Hh. unfold is_b64url in Hb.
      apply orb_false_iff in Hb as [Ha _].
      assert (A : is_alnum c = true) by (apply is_alnum_range; lia). congruence.
    + apply Z.eqb_eq in Hh. subst c. discriminate.
Qed.

Lemma opens_json_head t :
  opens_json t = true -> exists c r, t = c :: r /\ (c = 123 \/ c = 91).
Proof.
  unfold opens_json. destruct t as [|c r]; [discriminate|].
  cbn [js startsWith]. intro H. exists c, r. split; [reflexivity|].
  apply orb_true_iff in H as [H|H]; apply andb_true_iff in H as [H _];
    apply Z.eqb_eq in H; cbn in H; lia.
Qed.

Lemma detect_after_two s r :
  s <> [] -> detectJwt s = Normal None -> detectUuid s = Normal None ->
  (detect (Str s) = Normal r <->
   match first_match [detectJson; detectColor; detectTimestamp; detectNumber;
                      detectUrlEncoded; detectBase64; detectHtml; detectCss;
                      detectJavaScript] s with
   | Normal (Some res) => res = r
   | Normal None => detectText s = r
   | Throw _ => False
   end).
Proof.
  intros Hs J U. unfold detect.
  replace (len s =? 0) with false
    by (symmetry; apply not_true_is_false; intro L; now apply len_zero in L).
  unfold detectors. rewrite (first_match_miss _ _ _ J), (first_match_miss _ _ _ U).
  destruct (first_match _ s) as [[res|]|e]; cbn [bind]; split; intro H;
    try (now injection H); try (now subst); try discriminate; contradiction.
Qed.

(** X20. [detect] classifies an input as [json] exactly when its trimmed
    text opens with a brace or a bracket and [JSON.parse] accepts it; the
    artifact is then the parsed value. A JSON text that is a number, a string,
    true, false or null is never classified as [json]. *)
Theorem json_detection s :
  (classifies s json <->
   opens_json (trim s) = true /\ exists v, JSON_parse (trim s) = Normal v)
  /\ (forall v,
         opens_json (trim s) = true -> JSON_parse (trim s) = Normal v ->
         detect (Str s) = Normal (mkResult json 1 s (Some (ParsedJson v)))).
Proof.
  assert (Hit : forall v,
             opens_json (trim s) = true -> JSON_parse (trim s) = Normal v ->
             detect (Str s) = Normal (mkResult json 1 s (Some (ParsedJson v)))).
  { intros v O P. destruct (opens_json_head _ O) as (c & r & E & Hc).
    destruct (foreign_char_misses s c) as [J U].
    - rewrite E. now left.
    - destruct Hc as [-> | ->]; reflexivity.
    - apply detect_after_two; try assumption.
      + apply trim_nonempty. now rewrite E.
      + rewrite (first_match_hit _ _ _ (mkResult json 1 s (Some (ParsedJson v))));
          [reflexivity|].
        unfold detectJson. cbv zeta. fold (opens_json (trim s)) in *.
        unfold opens_json in O. apply orb_true_iff in O.
        replace (negb (startsWith (js "{") (trim s))
                 && negb (startsWith (js "[") (trim s))) with false
          by (destruct O as [-> | ->]; cbn [negb andb];
              [reflexivity | now rewrite andb_false_r]).
        now rewrite P. }
  split; [split|exact Hit].
  - intros (r & H & T). walk_detectors H;
      try (type_of_hit; congruence); try discriminate T.
    match goal with
    | E : detectJson s = Normal (Some _) |- _ => rename E into D
    end.
    unfold detectJson in D. cbv zeta in D. unfold opens_json.
    destruct (startsWith (js "{") (trim s)), (startsWith (js "[") (trim s));
      cbn [negb andb] in D; try discriminate D;
      (split; [reflexivity|]);
      destruct (JSON_parse (trim s)) as [v|]; try discriminate D; eauto.
  - intros (O & v & P). eexists. split; [apply (Hit v O P) | reflexivity].
Qed.

Lemma color_shape_not_json t : color_shape t = true -> opens_json t = false.
Proof.
  intro C. destruct (opens_json t) eqn:O; [|reflexivity].
  destruct (opens_json_head _ O) as (c & r & -> & Hc).
  unfold color_shape in C.
  rewrite !dead_start in C by (destruct Hc as [-> | ->]; vm_compute; reflexivity).
  discriminate.
Qed.

Lemma color_shape_foreign t :
  color_shape t = true ->
  exists c, In c t /\ is_b64url c || (c =? 46) = false.
Proof.
  unfold color_shape. intro C.
  apply orb_true_iff in C as [C|C]; [apply orb_true_iff in C as [C|C]|].
  - apply hex_color_shape in C as (ds & -> & _). exists 35. split; [now left | reflexivity].
  - apply regex_test_Match, rgb_needs_paren in C. exists 40. now split.
  - apply regex_test_Match, hsl_needs_paren in C. exists 40. now split.
Qed.

Lemma detectColor_spec s :
  detectColor s
  = if color_shape (trim s) then Normal (Some (mkResult color 1 s None))
    else Normal None.
Proof.
  unfold detectColor, color_shape, result, null. cbv zeta.
  destruct (regex_test HEX_COLOR_REGEX (trim s)); [reflexivity|].
  destruct (regex_test RGB_COLOR_REGEX (trim s)); [reflexivity|].
  destruct (regex_test HSL_COLOR_REGEX (trim s)); reflexivity.
Qed.

(** X21. [detect] classifies an input as [color] exactly when its trimmed
    text is a number sign with 3, 6 or 8 hexadecimal digits, or has the
    [rgb()] or [hsl()] notation of the detector; the result then has
    confidence 1 and no artifact. No earlier detector takes such a text. *)
Theorem color_detection s :
  (classifies s color <-> color_shape (trim s) = true)
  /\ (color_shape (trim s) = true ->
      detect (Str s) = Normal (mkResult color 1 s None)).
Proof.
  assert (Hit : color_shape (trim s) = true ->
                detect (Str s) = Normal (mkResult color 1 s None)).
  { intro C. destruct (color_shape_foreign _ C) as (c & Hin & Hc).
    destruct (foreign_char_misses s c Hin Hc) as [J U].
    apply detect_after_two; try assumption.
    - apply trim_nonempty. intro E. rewrite E in Hin. contradiction.
    - rewrite first_match_miss.
      + rewrite (first_match_hit _ _ _ (mkResult color 1 s None)); [reflexivity|].
        now rewrite detectColor_spec, C.
      + unfold detectJson. cbv zeta. fold (opens_json (trim s)).
        apply color_shape_not_json in C. unfold opens_json in C.
        apply orb_false_iff in C as [-> ->]. reflexivity. }
  split; [split|exact Hit].
  - intro C. apply classifies_color in C as (r & Hr).
    rewrite detectColor_spec in Hr.
    destruct (color_shape (trim s)); [reflexivity | discriminate].
  - intro C. eexists. split; [apply (Hit C) | reflexivity].
Qed.

(** ** The beautifiers change white space only *)

Lemma ink_app a b : ink (a ++ b) = ink a ++ ink b.
Proof. apply filter_app. Qed.

Lemma ink_blank l : forallb is_space l = true -> ink l = [].
Proof.
  unfold ink. induction l as [|c l IH]; [reflexivity|].
  cbn [forallb filter]. intro H. apply andb_true_iff in H as [Hc Hl].
  unfold not_space. rewrite Hc. cbn [negb]. now apply IH.
Qed.

Lemma ink_trim s : ink (trim s) = ink s.
Proof.
  destruct (trim_decompose s) as (l & r & E & Hl & Hr & _).
  rewrite E at 2. rewrite !ink_app, (ink_blank l Hl), (ink_blank r Hr).
  now rewrite app_nil_r.
Qed.

Lemma ink_repeat c n : is_space c = true -> ink (repeat c n) = [].
Proof.
  intro H. apply ink_blank. induction n as [|n IH]; [reflexivity|].
  cbn [repeat forallb]. now rewrite H, IH.
Qed.

Lemma startsWith_prefix p s :
  startsWith p s = true -> s = p ++ skipn (List.length p) s.
Proof.
  revert s. induction p as [|a p IH]; intros s H; [reflexivity|].
  destruct s as [|b s]; [discriminate|]. cbn [startsWith] in H.
  apply andb_true_iff in H as [E H]. apply Z.eqb_eq in E. subst b.
  cbn [List.length skipn app]. f_equal. now apply IH.
Qed.

Lemma ink_replace_lit pat rep :
  pat <> [] -> ink rep = ink pat ->
  forall s k, ink (replace_lit_from pat rep s k) = ink (skipn k s).
Proof.
  intros Hp Hr. induction s as [|c s IH]; intro k.
  - now destruct k.
  - destruct k as [|k]; cbn [replace_lit_from skipn]; [|apply IH].
    destruct (startsWith pat (c :: s)) eqn:E.
    + rewrite ink_app, IH, Hr. apply startsWith_prefix in E.
      rewrite E at 1. rewrite ink_app. f_equal.
      destruct pat as [|p pat]; [contradiction|].
      replace (List.length (p :: pat) - 1)%nat with (List.length pat)
        by (cbn [List.length]; lia).
      reflexivity.
    + unfold ink in *. cbn [filter]. rewrite (IH 0%nat). reflexivity.
Qed.

Lemma ink_squeeze c n rep :
  is_space c = true -> ink rep = [] ->
  forall s run, ink (squeeze_runs c n rep s run) = ink s.
Proof.
  intros Hc Hr.
  assert (Q : forall run, ink (squeezed c n rep run) = []).
  { intro run. unfold squeezed. destruct (n <=? run)%nat; [exact Hr|].
    now apply ink_repeat. }
  induction s as [|x s IH]; intro run; cbn [squeeze_runs]; [apply Q|].
  destruct (Z.eqb_spec x c) as [->|Hx].
  - rewrite IH. unfold ink. cbn [filter]. unfold not_space. now rewrite Hc.
  - rewrite ink_app, Q. unfold ink in *. cbn [app filter]. now rewrite IH.
Qed.

Lemma span_split p s :
  s = fst (span p s) ++ snd (span p s) /\ forallb p (fst (span p s)) = true.
Proof.
  induction s as [|c s [E F]]; [now split|].
  cbn [span]. destruct (p c) eqn:Hc; [|now split].
  destruct (span p s) as [u v]. cbn [fst snd] in *. split.
  - cbn [app]. now f_equal.
  - cbn [forallb]. now rewrite Hc.
Qed.

Lemma ink_drop_blank s : forall k, ink (drop_blank_from s k) = ink (skipn k s).
Proof.
  induction s as [|c s IH]; intro k.
  - now destruct k.
  - destruct k as [|k]; cbn [drop_blank_from skipn]; [|apply IH].
    assert (Plain : ink (c :: drop_blank_from s 0) = ink (c :: s)).
    { unfold ink in *. cbn [filter]. now rewrite (IH 0%nat). }
    destruct (Z.eqb_spec c 10) as [->|Hc]; [|exact Plain].
    destruct (span_split (Z.eqb 32) s) as [E F].
    destruct (span (Z.eqb 32) s) as [spaces rest]. cbn [fst snd] in E, F.
    destruct spaces as [|sp spaces]; [exact Plain|].
    destruct rest as [|x rest]; [exact Plain|].
    destruct (Z.eqb_spec x 10) as [->|Hx]; [|exact Plain].
    unfold ink at 1 2. cbn [filter]. change (not_space 10) with false. cbv iota.
    fold (ink (drop_blank_from s (List.length (sp :: spaces) + 1))). fold (ink s).
    rewrite IH. rewrite E at 2.
    rewrite E, skipn_app.
    replace (List.length (sp :: spaces) + 1 - List.length (sp :: spaces))%nat
      with 1%nat by lia.
    rewrite skipn_all2 by lia. cbn [skipn app].
    change (sp :: spaces ++ 10 :: rest) with ((sp :: spaces) ++ 10 :: rest).
    rewrite ink_app. rewrite (ink_blank (sp :: spaces)).
    + unfold ink. cbn [app filter]. reflexivity.
    + revert F. apply forallb_weaken. intros y Hy. apply Z.eqb_eq in Hy. now subst y.
Qed.

(** X22. [beautifyCss] changes white space only: without its white space,
    what it returns is the input without its white space. *)
Theorem beautifyCss_keeps_ink input : ink (beautifyCss input) = ink input.
Proof.
  unfold beautifyCss. cbv zeta. unfold replace_lit.
  rewrite ink_trim.
  rewrite ink_squeeze by reflexivity.
  rewrite ink_squeeze by reflexivity.
  repeat (rewrite ink_replace_lit by (discriminate || reflexivity); cbn [skipn]).
  apply ink_trim.
Qed.

(** *** Runs of one character *)

Lemma has_run_reached c n t r : (n <= r)%nat -> has_run_from c n t r = true.
Proof.
  intro H. destruct t; cbn [has_run_from];
    now replace (n <=? r)%nat with true by (symmetry; apply Nat.leb_le; lia).
Qed.

Lemma has_run_same c n t r :
  has_run_from c n (c :: t) r = has_run_from c n t (S r).
Proof.
  cbn [has_run_from]. rewrite Z.eqb_refl.
  destruct (Nat.leb_spec n r) as [H|H]; [|reflexivity].
  symmetry. apply has_run_reached. lia.
Qed.

Lemma has_run_repeat c n j t : forall r,
  has_run_from c n (repeat c j ++ t) r = has_run_from c n t (r + j).
Proof.
  induction j as [|j IH]; intro r; cbn [repeat app].
  - now rewrite Nat.add_0_r.
  - rewrite has_run_same, IH. f_equal. lia.
Qed.

Lemma has_run_other c d n t r :
  d <> c ->
  has_run_from d n (c :: t) r = (n <=? r)%nat || has_run_from d n t 0.
Proof.
  intro H. cbn [has_run_from].
  now replace (c =? d) with false by (symmetry; apply Z.eqb_neq; congruence).
Qed.

Lemma has_run_start d n t : has_run_from d n t 0 = (n <=? 0)%nat || has_run_from d n t 0.
Proof. destruct t; cbn [has_run_from]; now destruct (n <=? 0)%nat. Qed.

Lemma has_run_other_repeat c d n j t r :
  d <> c -> (1 <= j)%nat ->
  has_run_from d n (repeat c j ++ t) r = (n <=? r)%nat || has_run_from d n t 0.
Proof.
  intros H Hj. destruct j as [|j]; [lia|]. clear Hj. cbn [repeat app].
  rewrite has_run_other by exact H. f_equal.
  induction j as [|j IH]; [reflexivity|].
  cbn [repeat app]. rewrite has_run_other by exact H. rewrite IH.
  now rewrite <- has_run_start.
Qed.

(** A text with [n] characters [c] in a row has such a run. *)
Lemma infix_has_run c n u v : forall r,
  has_run_from c n (u ++ repeat c n ++ v) r = true.
Proof.
  induction u as [|x u IH]; intro r.
  - cbn [app]. rewrite has_run_repeat. apply has_run_reached. lia.
  - cbn [app has_run_from]. destruct (x =? c); rewrite IH; apply orb_true_r.
Qed.

Lemma squeezed_run c n' m run :
  (1 <= m)%nat -> (1 <= n')%nat ->
  exists j, squeezed c n' (repeat c m) run = repeat c j
            /\ (j <= Nat.max m (n' - 1))%nat /\ (run = 0%nat <-> j = 0%nat).
Proof.
  intros Hm Hn. unfold squeezed. destruct (Nat.leb_spec n' run).
  - exists m. split; [reflexivity|]. lia.
  - exists run. split; [reflexivity|]. lia.
Qed.

(** After runs of at least [n'] have been cut down to [m], no run is longer
    than both [m] and [n' - 1]. *)
Lemma squeeze_no_run c n' m n s :
  (1 <= m < n)%nat -> (1 <= n' <= n)%nat ->
  forall run, has_run_from c n (squeeze_runs c n' (repeat c m) s run) 0 = false.
Proof.
  intros Hm Hn. induction s as [|x s IH]; intro run; cbn [squeeze_runs].
  - destruct (squeezed_run c n' m run) as (j & -> & Hj & _); try lia.
    rewrite <- (app_nil_r (repeat c j)), has_run_repeat. cbn [has_run_from].
    rewrite orb_false_r. apply Nat.leb_gt. lia.
  - destruct (Z.eqb_spec x c) as [->|Hx]; [apply IH|].
    destruct (squeezed_run c n' m run) as (j & -> & Hj & _); try lia.
    rewrite has_run_repeat. cbn [has_run_from].
    replace (x =? c) with false by (symmetry; now apply Z.eqb_neq).
    rewrite IH, orb_false_r. apply Nat.leb_gt. lia.
Qed.

(** Cutting down the runs of one character leaves the runs of another as
    they are. *)
Lemma squeeze_other_runs c d n' m n s :
  d <> c -> (1 <= m)%nat -> (1 <= n')%nat ->
  forall run r,
    has_run_from d n (squeeze_runs c n' (repeat c m) s run) r
    = has_run_from d n (repeat c run ++ s) r.
Proof.
  intros Hd Hm Hn. induction s as [|x s IH]; intros run r; cbn [squeeze_runs].
  - destruct (squeezed_run c n' m run) as (j & -> & _ & Hj); try lia.
    destruct run as [|run].
    + replace j with 0%nat by (symmetry; now apply Hj). reflexivity.
    + assert (1 <= j)%nat
        by (destruct j; [|lia]; assert (S run = 0%nat) by (now apply Hj); lia).
      rewrite <- (app_nil_r (repeat c j)).
      now rewrite !has_run_other_repeat by (assumption || lia).
  - destruct (Z.eqb_spec x c) as [->|Hx].
    + rewrite IH. f_equal. cbn [repeat]. rewrite repeat_cons, <- app_assoc. reflexivity.
    + destruct (squeezed_run c n' m run) as (j & -> & _ & Hj); try lia.
      assert (Step : forall r, has_run_from d n (x :: squeeze_runs c n' (repeat c m) s 0) r
                               = has_run_from d n (x :: s) r).
      { intro r'. cbn [has_run_from]. now rewrite !(IH 0%nat). }
      destruct run as [|run].
      * replace j with 0%nat by (symmetry; now apply Hj). cbn [repeat app]. apply Step.
      * assert (1 <= j)%nat
          by (destruct j; [|lia]; assert (S run = 0%nat) by (now apply Hj); lia).
        rewrite !has_run_other_repeat by (assumption || lia).
        now rewrite Step.
Qed.

(** What [trim] returns has no run that its argument lacks. *)
Lemma trim_no_run c n s u v :
  has_run c n s = false -> trim s <> u ++ repeat c n ++ v.
Proof.
  intros H E. destruct (trim_decompose s) as (l & r & D & _).
  rewrite E in D. unfold has_run in H.
  replace (l ++ (u ++ repeat c n ++ v) ++ r)
    with ((l ++ u) ++ repeat c n ++ (v ++ r)) in D
    by now rewrite <- !app_assoc.
  rewrite D, infix_has_run in H. discriminate.
Qed.

(** X23. What [beautifyCss] returns never has three line feeds in a row,
    nor three spaces in a row. *)
Theorem beautifyCss_layout input u v :
  beautifyCss input <> u ++ [10; 10; 10] ++ v
  /\ beautifyCss input <> u ++ [32; 32; 32] ++ v.
Proof.
  unfold beautifyCss. cbv zeta. split.
  - apply (trim_no_run 10 3). unfold has_run.
    rewrite (squeeze_other_runs 32 10 2 2 3) by (lia || discriminate).
    cbn [repeat app]. apply (squeeze_no_run 10 3 2 3); lia.
  - apply (trim_no_run 32 3). apply (squeeze_no_run 32 2 2 3); lia.
Qed.

(** *** [beautifyJs] *)

Lemma ink_padding k : ink (List.concat (repeat [32; 32] k)) = [].
Proof. induction k as [|k IH]; [reflexivity|]. cbn [repeat List.concat app]. exact IH. Qed.

Lemma String_repeat_padding n pad :
  String_repeat [32; 32] n = Returned pad -> 0 <= n /\ ink pad = [].
Proof.
  unfold String_repeat. destruct (Z.ltb_spec n 0); [discriminate|].
  intros [= <-]. split; [lia | apply ink_padding].
Qed.

Lemma ink_cons c s : ink (c :: s) = ink [c] ++ ink s.
Proof. apply (ink_app [c] s). Qed.

(** The loop adds line feeds and spaces to the characters it copies. *)
Lemma beautifyJs_loop_ink s : forall prev indent result inString stringChar t,
  beautifyJs_loop s prev indent result inString stringChar = Returned t ->
  ink t = ink result ++ ink s.
Proof.
  induction s as [|char s IH]; intros prev indent result inString stringChar t H.
  - injection H as <-. now rewrite app_nil_r.
  - cbn [beautifyJs_loop] in H. rewrite (ink_cons char s), app_assoc.
    assert (Copy : ink (result ++ [char]) = ink result ++ ink [char])
      by apply ink_app.
    assert (Pad : forall pad, ink pad = [] ->
              ink (result ++ char :: 10 :: pad) = ink result ++ ink [char]).
    { intros pad Hp. rewrite ink_app, (ink_cons char), (ink_cons 10), Hp.
      change (ink [10]) with (@nil Z). now rewrite !app_nil_r. }
    assert (Pad' : forall pad, ink pad = [] ->
              ink (result ++ 10 :: pad ++ [char]) = ink result ++ ink [char]).
    { intros pad Hp. rewrite ink_app, (ink_cons 10), ink_app, Hp.
      change (ink [10]) with (@nil Z). reflexivity. }
    repeat match type of H with
           | (if ?b then _ else _) = _ => destruct b eqn:?
           | (let '(_, _) := ?p in _) = _ => destruct p
           | match String_repeat ?s ?n with _ => _ end = _ =>
               let E := fresh "E" in
               destruct (String_repeat s n) as [pad|] eqn:E; [|discriminate H];
               apply String_repeat_padding in E as [_ E]
           end;
      apply IH in H; rewrite H; f_equal; auto;
      match goal with
      | Hc : (char =? _) = true |- _ => apply Z.eqb_eq in Hc; subst char; now apply Pad
      end.
Qed.

(** X24. When [beautifyJs] returns, it has changed white space only:
    without its white space the result is the input without its white space.
    The result has no three line feeds in a row. *)
Theorem beautifyJs_keeps_ink input t :
  beautifyJs input = Returned t ->
  ink t = ink input /\ forall u v, t <> u ++ [10; 10; 10] ++ v.
Proof.
  unfold beautifyJs.
  destruct (beautifyJs_loop (trim input) None 0 [] false []) as [result|] eqn:L;
    [|discriminate].
  cbv zeta. intros [= <-]. split.
  - rewrite ink_trim, ink_squeeze by reflexivity.
    rewrite ink_drop_blank. cbn [skipn].
    rewrite (beautifyJs_loop_ink _ _ _ _ _ _ _ L). cbn [app]. apply ink_trim.
  - intros u v. apply (trim_no_run 10 3). apply (squeeze_no_run 10 3 2 3); lia.
Qed.

Lemma beautifyJs_keeps_ink_witness :
  beautifyJs (js "f(a){return [a,1];}")
  = Returned [102; 40; 97; 41; 123; 10; 32; 32; 114; 101; 116; 117; 114; 110;
              32; 91; 10; 32; 32; 32; 32; 97; 44; 10; 32; 32; 32; 32; 49; 10;
              32; 32; 93; 59; 10; 125]
  /\ ink [102; 40; 97; 41; 123; 10; 32; 32; 114; 101; 116; 117; 114; 110;
          32; 91; 10; 32; 32; 32; 32; 97; 44; 10; 32; 32; 32; 32; 49; 10;
          32; 32; 93; 59; 10; 125]
     = ink (js "f(a){return [a,1];}").
Proof.
  split; [reflexivity|].
  exact (proj1 (beautifyJs_keeps_ink (js "f(a){return [a,1];}") _ eq_refl)).
Defined.

Lemma opened_cons c p :
  opened (c :: p) = opened p + (if (c =? 123) || (c =? 91) then 1 else 0).
Proof.
  unfold opened, len. cbn [filter].
  destruct ((c =? 123) || (c =? 91)); cbn [List.length]; lia.
Qed.

Lemma closed_cons c p :
  closed (c :: p) = closed p + (if (c =? 125) || (c =? 93) then 1 else 0).
Proof.
  unfold closed, len. cbn [filter].
  destruct ((c =? 125) || (c =? 93)); cbn [List.length]; lia.
Qed.

Lemma prefix_shift char s k :
  0 <= k ->
  (exists p q, s = p ++ q
               /\ k - ((if (char =? 125) || (char =? 93) then 1 else 0)
                       - (if (char =? 123) || (char =? 91) then 1 else 0))
                  < closed p - opened p)
  <-> exists p q, char :: s = p ++ q /\ k < closed p - opened p.
Proof.
  intro Hk. split.
  - intros (p & q & -> & H). exists (char :: p), q. split; [reflexivity|].
    rewrite closed_cons, opened_cons. lia.
  - intros (p & q & E & H). destruct p as [|c p].
    + change (closed []) with 0 in H. change (opened []) with 0 in H. lia.
    + injection E as -> ->. exists p, q. split; [reflexivity|].
      rewrite closed_cons, opened_cons in H. lia.
Qed.

(** Outside string literals the loop throws at the first closing bracket
    or brace that has nothing left to close. *)
Lemma beautifyJs_loop_range s : forall prev indent result stringChar,
  quote_free s = true -> 0 <= indent ->
  (beautifyJs_loop s prev indent result false stringChar = RangeError
   <-> exists p q, s = p ++ q /\ indent < closed p - opened p).
Proof.
  induction s as [|char s IH]; intros prev indent result stringChar Q Hi.
  - split; [discriminate|]. intros (p & q & E & H).
    symmetry in E. apply app_eq_nil in E as [-> _].
    change (closed []) with 0 in H. change (opened []) with 0 in H. lia.
  - cbn [quote_free forallb] in Q. apply andb_true_iff in Q as [Qc Q].
    apply negb_true_iff in Qc. fold (quote_free s) in Q.
    cbn [beautifyJs_loop]. rewrite Qc. cbn [andb].
    pose proof (prefix_shift char s indent Hi) as Shift.
    destruct ((char =? 123) || (char =? 91)) eqn:Op.
    { assert (Cl : (char =? 125) || (char =? 93) = false).
      { apply orb_true_iff in Op as [Op|Op]; apply Z.eqb_eq in Op; now subst char. }
      rewrite Cl in Shift. unfold String_repeat.
      replace (indent + 1 <? 0) with false by (symmetry; apply Z.ltb_ge; lia).
      rewrite <- Shift. replace (indent - (0 - 1)) with (indent + 1) by lia.
      apply IH; [exact Q | lia]. }
    destruct ((char =? 125) || (char =? 93)) eqn:Cl.
    { unfold String_repeat. destruct (Z.ltb_spec (indent - 1) 0) as [Neg|Pos].
      - split; [|reflexivity]. intros _. exists [char], s. split; [reflexivity|].
        rewrite closed_cons, opened_cons, Cl, Op.
        change (closed []) with 0. change (opened []) with 0. lia.
      - rewrite <- Shift. replace (indent - (1 - 0)) with (indent - 1) by lia.
        apply IH; [exact Q | lia]. }
    replace (indent - (0 - 0)) with indent in Shift by lia.
    rewrite <- Shift. unfold String_repeat.
    replace (indent <? 0) with false by (symmetry; apply Z.ltb_ge; lia).
    destruct (char =? 59); [now apply IH|].
    destruct (char =? 44); now apply IH.
Qed.

(** X25. On an input without quotation marks [beautifyJs] throws a
    RangeError exactly when, somewhere in the trimmed input, more brackets and
    braces have been closed than opened. *)
Theorem beautifyJs_unbalanced input :
  quote_free (trim input) = true ->
  (beautifyJs input = RangeError
   <-> exists p q, trim input = p ++ q /\ opened p < closed p).
Proof.
  intro Q.
  pose proof (beautifyJs_loop_range (trim input) None 0 [] [] Q (Z.le_refl 0)) as R.
  unfold beautifyJs.
  destruct (beautifyJs_loop (trim input) None 0 [] false []) as [result|].
  - split; [discriminate|]. intros (p & q & E & H).
    assert (X : @Returned jsstring result = RangeError);
      [|discriminate X].
    apply R. exists p, q. split; [exact E | lia].
  - split; [|reflexivity]. intros _.
    destruct (proj1 R eq_refl) as (p & q & E & H). exists p, q. split; [exact E | lia].
Qed.

Lemma beautifyJs_unbalanced_witness :
  beautifyJs (js "f(){}}") = RangeError
  <-> exists p q, trim (js "f(){}}") = p ++ q /\ opened p < closed p.
Proof. apply beautifyJs_unbalanced. reflexivity. Defined.

(** ** The Lorem Ipsum generator *)

(** The words of the list are lower-case letters; with a capital they are
    still words of the text, and none ends in a full stop. *)
Lemma lorem_entry_forms s :
  lorem_entry s = true ->
  lorem_entry (cap s) = true /\ starts_upper (cap s) = true
  /\ ends_with_stop s = false.
Proof.
  intro H. unfold lorem_entry in H. apply existsb_exists in H as (b & Hb & E).
  assert (Hall : forallb (fun b =>
                   lorem_entry (cap (js b)) && starts_upper (cap (js b))
                   && negb (ends_with_stop (js b))
                   && negb (ends_with_stop (cap (js b)))
                   && jsstring_eqb (cap (cap (js b))) (cap (js b)))
                   LOREM_WORDS = true) by (vm_compute; reflexivity).
  rewrite forallb_forall in Hall. specialize (Hall b Hb).
  apply andb_true_iff in Hall as [Hall C]. apply andb_true_iff in Hall as [Hall S2].
  apply andb_true_iff in Hall as [Hall S1]. apply andb_true_iff in Hall as [L U].
  apply jsstring_eqb_eq in C. apply negb_true_iff in S1, S2.
  apply orb_true_iff in E as [E|E]; apply jsstring_eqb_eq in E; subst s.
  - now repeat split.
  - rewrite C. now repeat split.
Qed.

Lemma capitalize_word s : capitalize (Some s) = Normal (cap s).
Proof. now destruct s. Qed.

Lemma lorem_word_plain s : lorem_entry s = true -> is_lorem_word s = true.
Proof. intro H. unfold is_lorem_word. now rewrite H. Qed.

Lemma lorem_word_stop s :
  lorem_entry s = true ->
  is_lorem_word (s ++ js ".") = true /\ ends_with_stop (s ++ js ".") = true.
Proof.
  intro H. unfold is_lorem_word, ends_with_stop. rewrite rev_app_distr.
  change (rev (js ".") ++ rev s) with (46 :: rev s). change (46 =? 46) with true.
  cbn [andb]. rewrite rev_involutive, H. split; [apply orb_true_r | reflexivity].
Qed.


Lemma array_get_entry word_draws k :
  draws_below_62 word_draws ->
  exists s, array_get (map js LOREM_WORDS) (word_draws k) = Some s
            /\ lorem_entry s = true.
Proof.
  intro D. specialize (D k). unfold array_get.
  replace (word_draws k <? 0) with false by (symmetry; apply Z.ltb_ge; lia).
  destruct (nth_error (map js LOREM_WORDS) (Z.to_nat (word_draws k))) as [s|] eqn:E.
  - exists s. split; [reflexivity|]. apply nth_error_In in E.
    apply in_map_iff in E as (b & <- & Hb). unfold lorem_entry.
    apply existsb_exists. exists b. split; [exact Hb|].
    apply orb_true_iff. left. now apply jsstring_eqb_eq.
  - apply nth_error_None in E. rewrite length_map in E.
    change (List.length LOREM_WORDS) with 62%nat in E. lia.
Qed.

Lemma lorem_push_entries word_draws n :
  draws_below_62 word_draws ->
  forall k, lorem_entries (lorem_push word_draws k n)
            /\ List.length (lorem_push word_draws k n) = n.
Proof.
  intro D. induction n as [|n IH]; intro k; cbn [lorem_push].
  - split; [constructor | reflexivity].
  - destruct (IH (S k)) as [E L]. split; [|cbn [List.length]; now rewrite L].
    constructor; [|exact E]. now apply array_get_entry.
Qed.

Lemma lorem_entries_nth words i :
  lorem_entries words -> (i < List.length words)%nat ->
  exists s, nth i words None = Some s /\ lorem_entry s = true.
Proof.
  intros E. revert i. induction E as [|w words Hw E IH]; intros i Hi.
  - cbn in Hi. lia.
  - destruct i as [|i]; [exact Hw|]. cbn [nth]. apply IH. cbn in Hi. lia.
Qed.

Lemma array_set_entries words i v :
  lorem_entries words -> (i < List.length words)%nat -> lorem_entry v = true ->
  lorem_entries (array_set words i v)
  /\ List.length (array_set words i v) = List.length words
  /\ nth i (array_set words i v) None = Some v.
Proof.
  intros E. revert i. induction E as [|w words Hw E IH]; intros i Hi Hv.
  - cbn in Hi. lia.
  - destruct i as [|i]; cbn [array_set List.length nth].
    + split; [|split; reflexivity]. constructor; [eauto | exact E].
    + destruct (IH i) as (E' & L & N); [cbn in Hi; lia | exact Hv |].
      split; [|split; [now rewrite L | exact N]]. now constructor.
Qed.

(** The second loop: as many words come out as are left, each a word of the
    list, the one behind a full stop with a capital. *)
Lemma lorem_map_words maxSentence n : forall i words sentenceLength after_stop,
  List.length words = (i + n)%nat -> lorem_entries words ->
  (after_stop = true ->
   forall s, nth i words None = Some s -> starts_upper s = true) ->
  exists out,
    lorem_map n i words sentenceLength maxSentence = Normal out
    /\ List.length out = n
    /\ forallb is_lorem_word (map join_item out) = true
    /\ capitals_follow after_stop (map join_item out) = true.
Proof.
  induction n as [|n IH]; intros i words sl after_stop L E U.
  - exists []. now repeat split.
  - cbn [lorem_map]. cbv zeta.
    destruct (lorem_entries_nth words i E ltac:(lia)) as (s & Ns & Hs).
    destruct (lorem_entry_forms s Hs) as (_ & _ & Stop).
    assert (Up : (if after_stop then starts_upper s else true) = true).
    { destruct after_stop; [|reflexivity]. now apply U. }
    destruct ((maxSentence <=? sl + 1)
              && (Z.of_nat i <? Z.of_nat (List.length words) - 1)) eqn:C.
    + apply andb_true_iff in C as [_ C]. apply Z.ltb_lt in C.
      destruct (lorem_entries_nth words (S i) E ltac:(lia)) as (s' & Ns' & Hs').
      destruct (lorem_entry_forms s' Hs') as (Cap & CapU & _).
      rewrite Ns', capitalize_word. cbn [bind].
      destruct (array_set_entries words (S i) (cap s') E ltac:(lia) Cap)
        as (E' & L' & N').
      destruct (IH (S i) (array_set words (S i) (cap s')) 0 true) as (out & -> & Lo & W & F).
      * rewrite L'. lia.
      * exact E'.
      * intros _ x Hx. rewrite N' in Hx. injection Hx as <-. exact CapU.
      * cbn [bind]. eexists. split; [reflexivity|].
        rewrite Ns. cbn [text_of List.length map join_item forallb capitals_follow].
        destruct (lorem_word_stop s Hs) as [Ws Es].
        rewrite Ws, Es, W, F, Lo. repeat split.
        destruct after_stop; [|reflexivity].
        destruct s as [|c r]; [discriminate Up|]. cbn [app starts_upper] in *.
        now rewrite Up.
    + destruct (IH (S i) words (sl + 1) false) as (out & -> & Lo & W & F).
      * lia.
      * exact E.
      * discriminate.
      * cbn [bind]. eexists. split; [reflexivity|].
        rewrite Ns. cbn [List.length map join_item forallb capitals_follow].
        rewrite (lorem_word_plain s Hs), Stop, W, F, Lo, Up. now repeat split.
Qed.

(** X26. For a count of at least one, whatever numbers are drawn,
    [generateLorem] returns that many words joined by single spaces and a full
    stop: every word is taken from the list, the first word and each word
    behind a full stop with a capital. For a count of zero or less there is no
    first word to give a capital to, and a TypeError is thrown. *)
Theorem generateLorem_text word_draws sentence_draw wordCount :
  draws_below_62 word_draws ->
  (wordCount <= 0 ->
   generateLorem word_draws sentence_draw wordCount = Throw TypeError)
  /\ (1 <= wordCount ->
      exists ws,
        generateLorem word_draws sentence_draw wordCount
        = Normal (join (js " ") ws ++ js ".")
        /\ len_words ws = wordCount
        /\ forallb is_lorem_word ws = true
        /\ capitals_follow true ws = true).
Proof.
  intros D. unfold generateLorem. cbv zeta. split.
  { intro Hn. replace (Z.to_nat wordCount) with 0%nat by lia. reflexivity. }
  intro Hn.
  destruct (lorem_push_entries word_draws (Z.to_nat wordCount) D 0) as [E L].
  set (words := lorem_push word_draws 0 (Z.to_nat wordCount)) in *.
  destruct (lorem_entries_nth words 0 E ltac:(lia)) as (s & Ns & Hs).
  destruct (lorem_entry_forms s Hs) as (Cap & CapU & _).
  rewrite Ns, capitalize_word. cbn [bind].
  destruct (array_set_entries words 0 (cap s) E ltac:(lia) Cap) as (E' & L' & N').
  destruct (lorem_map_words (8 + sentence_draw) (List.length (array_set words 0 (cap s)))
              0 (array_set words 0 (cap s)) 0 true) as (out & -> & Lo & W & F).
  - reflexivity.
  - exact E'.
  - intros _ x Hx. rewrite N' in Hx. injection Hx as <-. exact CapU.
  - cbn [bind]. exists (map join_item out). split; [reflexivity|].
    split; [|split; assumption].
    unfold len_words. rewrite length_map, Lo, L', L. lia.
Qed.

Lemma generateLorem_text_witness :
  (20 <= 0 ->
   generateLorem (fun k => Z.of_nat k mod 62) 3 20 = Throw TypeError)
  /\ (1 <= 20 ->
      exists ws,
        generateLorem (fun k => Z.of_nat k mod 62) 3 20
        = Normal (join (js " ") ws ++ js ".")
        /\ len_words ws = 20
        /\ forallb is_lorem_word ws = true
        /\ capitals_follow true ws = true).
Proof.
  apply generateLorem_text. intro k. apply Z.mod_pos_bound. lia.
Defined.

(** ** What [encodeUrl] writes, [detect] reads as a URL *)

Lemma hex_upper_hex d : 0 <= d <= 15 -> is_hex (hex_upper_char d) = true.
Proof.
  intro H. apply is_hex_range. unfold hex_upper_char.
  destruct (Z.ltb_spec d 10); lia.
Qed.

Lemma hex_is_uri_char c : is_hex c = true -> uri_char c = true.
Proof.
  intro H. apply is_hex_range in H. unfold uri_char, uri_unescaped.
  replace (is_alnum c) with true by (symmetry; apply is_alnum_range; lia).
  reflexivity.
Qed.

Lemma percent_octet_chars b :
  0 <= b <= 255 -> forallb uri_char (percent_octet b) = true.
Proof.
  intro H. unfold percent_octet. cbn [forallb]. change (uri_char 37) with true.
  rewrite !hex_is_uri_char by (apply hex_upper_hex; divmod). reflexivity.
Qed.

Lemma percent_octets_chars bytes :
  octets bytes = true ->
  forallb uri_char (percent_octets bytes) = true
  /\ List.length (percent_octets bytes) = (3 * List.length bytes)%nat.
Proof.
  unfold octets, percent_octets. induction bytes as [|b bytes IH]; [now split|].
  cbn [forallb flat_map List.length]. intro H. apply andb_true_iff in H as [Hb Hbs].
  apply in_range_in in Hb. destruct (IH Hbs) as [C L].
  rewrite forallb_app, length_app, percent_octet_chars, C, L by exact Hb.
  split; [reflexivity|]. cbn [percent_octet List.length]. lia.
Qed.

Lemma utf8_encode_head v :
  0 <= v <= 1114111 ->
  exists b rest, utf8_encode v = b :: rest /\ 0 <= b <= 255.
Proof.
  intro H. destruct (utf8_encode_octets v H) as [O _].
  destruct (utf8_encode v) as [|b rest] eqn:E.
  - rewrite utf8_encode_arith in E by lia.
    destruct (v <? 128), (v <? 2048), (v <? 65536); discriminate.
  - exists b, rest. split; [reflexivity|]. unfold octets in O. cbn [forallb] in O.
    apply andb_true_iff in O as [O _]. now apply in_range_in in O.
Qed.

(** An escaped code point: one or two code units become three characters
    or more, the first three an escape. *)
Lemma escaped_code_point v rest :
  0 <= v <= 1114111 ->
  forallb uri_char (percent_octets (utf8_encode v)) = true
  /\ (3 <= List.length (percent_octets (utf8_encode v)))%nat
  /\ exists b w, percent_octets (utf8_encode v) ++ rest = percent_octet b ++ w
                 /\ 0 <= b <= 255.
Proof.
  intro H. destruct (utf8_encode_octets v H) as [O _].
  destruct (percent_octets_chars _ O) as [C L].
  destruct (utf8_encode_head v H) as (b & bs & E & Hb).
  split; [exact C|]. split.
  - rewrite L, E. cbn [List.length]. lia.
  - exists b, (percent_octets bs ++ rest). split; [|exact Hb].
    rewrite E. unfold percent_octets. cbn [flat_map]. now rewrite <- app_assoc.
Qed.

(** The text [encodeURIComponent] writes for a well-formed string: its
    characters, its length, and the escape it holds as soon as it holds a
    percent sign. *)
Lemma uri_encode_text n : forall s,
  (List.length s <= n)%nat -> well_formed s = true ->
  exists e,
    uri_encode uri_unescaped s = Normal e
    /\ forallb uri_char e = true
    /\ (List.length s <= List.length e)%nat
    /\ (In 37 e ->
        (List.length s < List.length e)%nat
        /\ exists u b w, e = u ++ percent_octet b ++ w /\ 0 <= b <= 255).
Proof.
  induction n as [|n IH]; intros s Hn Hw.
  { destruct s; [|cbn in Hn; lia]. exists []. repeat split; try (cbn; lia).
    all: contradiction. }
  destruct s as [|c s].
  { exists []. repeat split; try (cbn; lia). all: contradiction. }
  cbn [List.length] in Hn. cbn [uri_encode well_formed] in *.
  destruct (uri_unescaped c) eqn:Uc.
  { destruct (uri_unescaped_plain c Uc) as [Hc H37].
    destruct (not_surrogate_low c ltac:(lia)) as [Hh Hl]. rewrite Hh, Hl in Hw.
    cbn [negb andb] in Hw. apply andb_true_iff in Hw as [_ Hw].
    destruct (IH s ltac:(lia) Hw) as (e & -> & C & L & P).
    exists (c :: e). split; [reflexivity|]. cbn [forallb List.length].
    unfold uri_char at 1. rewrite Uc, C. split; [reflexivity|]. split; [lia|].
    intros [E|Hin]; [congruence|]. destruct (P Hin) as (L' & u & b & w & -> & Hb).
    split; [lia|]. now exists (c :: u), b, w. }
  assert (Esc : forall v k s',
             0 <= v <= 1114111 -> (k <= 2)%nat ->
             (List.length s' <= n)%nat -> well_formed s' = true ->
             exists e,
               (r <- uri_encode uri_unescaped s' ;;
                Normal (percent_octets (utf8_encode v) ++ r)) = Normal e
               /\ forallb uri_char e = true
               /\ (k + List.length s' <= List.length e)%nat
               /\ (In 37 e ->
                   (k + List.length s' < List.length e)%nat
                   /\ exists u b w, e = u ++ percent_octet b ++ w /\ 0 <= b <= 255)).
  { intros v k s' Hv Hk Hn' Hw'.
    destruct (IH s' Hn' Hw') as (e & -> & C & L & _).
    destruct (escaped_code_point v e Hv) as (Cv & Lv & b & w & E & Hb).
    cbn [bind]. eexists. split; [reflexivity|].
    rewrite forallb_app, length_app, Cv, C. split; [reflexivity|].
    split; [lia|]. intros _. split; [lia|]. now exists [], b, w. }
  destruct (is_high_surrogate c) eqn:Hh.
  - destruct s as [|d s]; [discriminate|].
    apply andb_true_iff in Hw as [Hl Hw]. rewrite Hl. cbn [List.length] in Hn.
    destruct (surrogate_pair c d Hh Hl) as ((Hs & _) & _).
    apply (Esc _ 2%nat s Hs); try assumption; lia.
  - apply andb_true_iff in Hw as [Hw Hs]. apply andb_true_iff in Hw as [Hl Hr].
    apply negb_true_iff in Hl. rewrite Hl. apply in_range_in in Hr.
    apply (Esc c 1%nat s); try assumption; lia.
Qed.

Lemma uri_char_facts c :
  uri_char c = true ->
  not_space c = true /\ c <> 44 /\ c <> 35 /\ c <> 123 /\ c <> 91.
Proof.
  intro H.
  assert (R : 0 <= c < 128).
  { unfold uri_char in H. apply orb_true_iff in H as [H|H].
    - now apply uri_unescaped_plain in H.
    - apply Z.eqb_eq in H. lia. }
  assert (Hall : forallb (fun c =>
                   negb (uri_char c)
                   || (not_space c && negb (c =? 44) && negb (c =? 35)
                       && negb (c =? 123) && negb (c =? 91)))
                   (map Z.of_nat (seq 0 128)) = true) by (vm_compute; reflexivity).
  rewrite forallb_forall in Hall.
  assert (Hin : In c (map Z.of_nat (seq 0 128))).
  { apply in_map_iff. exists (Z.to_nat c). split; [lia|]. apply in_seq. lia. }
  apply Hall in Hin. rewrite H in Hin. cbn [negb orb] in Hin.
  repeat (apply andb_true_iff in Hin as [Hin ?]).
  repeat match goal with
         | X : negb (_ =? _) = true |- _ =>
             apply negb_true_iff in X; apply Z.eqb_neq in X
         end.
  now repeat split.
Qed.

Lemma uri_chars_lack e c :
  forallb uri_char e = true -> uri_char c = false -> ~ In c e.
Proof.
  rewrite forallb_forall. intros H Hc Hin. apply H in Hin. congruence.
Qed.

Lemma escape_matches u b w :
  0 <= b <= 255 ->
  regex_test URL_ENCODED_REGEX (u ++ percent_octet b ++ w) = true.
Proof.
  intro H. apply regex_test_Match. unfold URL_ENCODED_REGEX, unanchored.
  assert (A : forall t, Match (Star Any) t)
    by (intro t; apply Match_star_cls; now induction t).
  apply (Match_seq_intro _ _ u (percent_octet b ++ w)); [reflexivity | apply A |].
  apply (Match_seq_intro _ _ (percent_octet b) w); [reflexivity | | apply A].
  unfold percent_octet.
  apply (Match_seq_intro _ _ [37] [hex_upper_char (b / 16); hex_upper_char (b mod 16)]);
    [reflexivity | now constructor |].
  unfold hexdigit. apply Match_rep_cls. split; [reflexivity|].
  cbn [forallb]. rewrite !hex_upper_hex by divmod. reflexivity.
Qed.

Lemma rgb_needs_comma t : Match RGB_COLOR_REGEX t -> In 44 t.
Proof.
  unfold RGB_COLOR_REGEX. cbn [seqs]. intro M.
  do 6 (apply Match_suffix in M as (? & ? & -> & M)).
  apply Match_needs_char in M as (c & Hin & Hc). apply Z.eqb_eq in Hc. subst c.
  rewrite !in_app_iff. tauto.
Qed.

Lemma hsl_needs_comma t : Match HSL_COLOR_REGEX t -> In 44 t.
Proof.
  unfold HSL_COLOR_REGEX. cbn [seqs]. intro M.
  do 6 (apply Match_suffix in M as (? & ? & -> & M)).
  apply Match_needs_char in M as (c & Hin & Hc). apply Z.eqb_eq in Hc. subst c.
  rewrite !in_app_iff. tauto.
Qed.

Lemma uri_chars_trim e : forallb uri_char e = true -> trim e = e.
Proof.
  intro C. apply trim_no_space. revert C. apply forallb_weaken. intros c Hc.
  now apply uri_char_facts in Hc.
Qed.

(** No detector before the URL detector takes a text of the characters of
    [encodeURIComponent] that holds a percent sign. *)
Lemma encoded_text_misses e :
  forallb uri_char e = true -> In 37 e ->
  trim e = e
  /\ detectJwt e = Normal None /\ detectUuid e = Normal None
  /\ detectJson e = Normal None /\ detectColor e = Normal None
  /\ detectTimestamp e = Normal None /\ detectNumber e = Normal None.
Proof.
  intros C P.
  pose proof (uri_chars_trim e C) as T.
  assert (Lack : forall c, c = 44 \/ c = 35 \/ c = 123 \/ c = 91 -> ~ In c e).
  { intros c Hc. apply uri_chars_lack; [exact C|].
    destruct Hc as [->|[->|[->| ->]]]; reflexivity. }
  destruct (foreign_char_misses e 37) as [J U]; [now rewrite T | reflexivity |].
  split; [exact T|]. split; [exact J|]. split; [exact U|]. split; [|split; [|split]].
  - unfold detectJson. cbv zeta. rewrite T.
    destruct e as [|c e]; [contradiction|]. cbn [js startsWith map list_ascii_of_string].
    replace (cu "{" =? c) with false.
    + replace (cu "[" =? c) with false; [reflexivity|].
      symmetry. apply Z.eqb_neq. intros <-. apply (Lack 91); [auto | now left].
    + symmetry. apply Z.eqb_neq. intros <-. apply (Lack 123); [auto | now left].
  - rewrite detectColor_spec, T.
    replace (color_shape e) with false; [reflexivity|].
    symmetry. apply not_true_is_false. unfold color_shape. intro S.
    apply orb_true_iff in S as [S|S]; [apply orb_true_iff in S as [S|S]|].
    + apply hex_color_shape in S as (ds & -> & _). apply (Lack 35); [auto | now left].
    + apply regex_test_Match, rgb_needs_comma in S. now apply (Lack 44); auto.
    + apply regex_test_Match, hsl_needs_comma in S. now apply (Lack 44); auto.
  - unfold detectTimestamp. cbv zeta. rewrite T.
    replace (regex_test EPOCH_REGEX e) with false; [reflexivity|].
    symmetry. apply not_true_is_false. intro M. apply EPOCH_REGEX_spec in M as [_ M].
    now apply (all_digits_no_char e 37 M).
  - destruct (detectNumber_returns e) as [[r|] Hr]; [|exact Hr].
    apply detectNumber_spec in Hr as (base & ds & N & _).
    rewrite T in N. apply number_literal_shape in N as (p & -> & Hp & Hb & _ & D).
    exfalso. destruct P as [P|[P|P]]; [discriminate | lia |].
    rewrite forallb_forall in D. apply D in P.
    destruct Hb as [->|[->| ->]]; discriminate.
Qed.

(** X27. What [encodeUrl] writes for a well-formed string is classified by
    [detect] as [url] exactly when it holds two percent signs or more, that
    is, when two octets or more had to be escaped; the artifact of the
    detection is then the string that was encoded. *)
Theorem encoded_url_detected s :
  well_formed s = true ->
  exists e,
    encodeUrl s = Normal e
    /\ (classifies e url <-> 2 <= count_char 37 e)
    /\ (2 <= count_char 37 e ->
        detect (Str e) = Normal (mkResult url 0.9 e (Some (ParsedString s)))).
Proof.
  intro W.
  destruct (uri_encode_text _ s (le_n _) W) as (e & E & C & L & P).
  destruct (uri_round_trip uri_unescaped uri_unescaped_plain _ s (le_n _) W)
    as (e' & E' & D).
  rewrite E in E'. injection E' as <-.
  exists e. split; [exact E|].
  assert (Hit : 2 <= count_char 37 e ->
                detect (Str e) = Normal (mkResult url 0.9 e (Some (ParsedString s)))).
  { intro N.
    assert (Hin : In 37 e).
    { unfold count_char in N. destruct (filter (Z.eqb 37) e) as [|x l] eqn:F;
        [cbn in N; lia|].
      assert (X : In x (filter (Z.eqb 37) e)) by (rewrite F; now left).
      apply filter_In in X as [X Y]. apply Z.eqb_eq in Y. now subst x. }
    destruct (P Hin) as (Len & u & b & w & Eq & Hb).
    destruct (encoded_text_misses e C Hin) as (T & J & U & Jn & Co & Ti & Nu).
    apply detect_after_two; try assumption.
    - intros ->. contradiction.
    - rewrite !first_match_miss by assumption.
      rewrite (first_match_hit _ _ _ (mkResult url 0.9 e (Some (ParsedString s))));
        [reflexivity|].
      apply detectUrlEncoded_spec. rewrite T. split; [|split; [exact N|]].
      + rewrite Eq. now apply escape_matches.
      + exists s. split; [exact D|]. split; [|reflexivity].
        intros ->. lia. }
  split; [split|exact Hit].
  - intro Cl. apply classifies_url in Cl as (r & Hr).
    apply detectUrlEncoded_spec in Hr as (_ & N & _).
    rewrite (uri_chars_trim e C) in N. exact N.
  - intro N. eexists. split; [apply (Hit N) | reflexivity].
Qed.

Lemma encoded_url_detected_witness :
  exists e,
    encodeUrl sample_text = Normal e
    /\ (classifies e url <-> 2 <= count_char 37 e)
    /\ (2 <= count_char 37 e ->
        detect (Str e)
        = Normal (mkResult url 0.9 e (Some (ParsedString sample_text)))).
Proof. apply encoded_url_detected. reflexivity. Defined.

(** ** How the five counts of [textStats] relate *)

(** There are no more runs of a class than characters of the class, and
    there is a run as soon as there is a character. *)
Lemma count_runs_bounds p s : forall prev,
  0 <= count_runs p s prev <= len (filter p s)
  /\ (prev = false -> count_runs p s prev = 0 -> filter p s = []).
Proof.
  unfold len. induction s as [|c s IH]; intro prev; cbn [count_runs filter].
  - cbn. split; [lia | reflexivity].
  - destruct (IH (p c)) as [B Z0]. destruct (p c) eqn:Pc; cbn [andb List.length].
    + split; [destruct prev; cbn [negb]; lia|].
      intros -> H. cbn [negb] in H. lia.
    + split; [lia|]. intros _ H. apply Z0; [reflexivity | lia].
Qed.

Lemma filter_subclass (p q : Z -> bool) s :
  (forall c, p c = true -> q c = true) ->
  len (filter p s) <= len (filter q s).
Proof.
  intro H. unfold len. induction s as [|c s IH]; cbn [filter]; [lia|].
  destruct (p c) eqn:Pc.
  - rewrite (H c Pc). cbn [List.length]. lia.
  - destruct (q c); cbn [List.length]; lia.
Qed.

Lemma filter_length_le (p : Z -> bool) s : len (filter p s) <= len s.
Proof.
  unfold len. induction s as [|c s IH]; cbn [filter List.length]; [lia|].
  destruct (p c); cbn [List.length]; lia.
Qed.

Lemma blank_no_ink s : blank s = true <-> filter not_space s = [].
Proof.
  unfold blank, not_space. induction s as [|c s IH]; cbn [forallb filter].
  - tauto.
  - destruct (is_space c); cbn [negb andb]; [exact IH|].
    split; discriminate.
Qed.

Lemma terminator_not_space c : is_terminator c = true -> not_space c = true.
Proof.
  unfold is_terminator, one_of. cbn [js map list_ascii_of_string existsb].
  intro H. repeat (apply orb_true_iff in H as [H|H]); try discriminate H;
    apply Z.eqb_eq in H; subst c; reflexivity.
Qed.

(** X28. The five counts of [textStats] are ordered: no more words than
    characters that are not white space, no more of these than characters, no
    more sentences than characters that are not white space, at least one
    line and at most one more than there are characters. The counts of words,
    of sentences and of characters that are not white space are zero for a
    blank text and for no other. *)
Theorem textStats_bounds text :
  0 <= words (textStats text) <= charactersNoSpaces (textStats text)
  /\ charactersNoSpaces (textStats text) <= characters (textStats text)
  /\ 0 <= sentences (textStats text) <= charactersNoSpaces (textStats text)
  /\ 1 <= lines (textStats text) <= characters (textStats text) + 1
  /\ (words (textStats text) = 0 <-> blank text = true)
  /\ (sentences (textStats text) = 0 <-> blank text = true)
  /\ (charactersNoSpaces (textStats text) = 0 <-> blank text = true).
Proof.
  destruct (count_runs_bounds not_space text false) as [[W0 W1] Wz].
  destruct (count_runs_bounds is_terminator text false) as [[S0 S1] Sz].
  pose proof (filter_subclass is_terminator not_space text terminator_not_space) as TS.
  pose proof (filter_length_le not_space text) as NL.
  assert (Ink : len (filter not_space text) = 0 <-> blank text = true).
  { rewrite blank_no_ink. unfold len. destruct (filter not_space text); cbn [List.length].
    - tauto.
    - split; [lia | discriminate]. }
  assert (Sent : sentences (textStats text)
                 = if count_runs is_terminator text false =? 0
                   then if blank text then 0 else 1
                   else count_runs is_terminator text false).
  { unfold textStats, sentences. cbv zeta. rewrite length_match_runs.
    cbn [is_nil negb]. rewrite Z.add_0_r, trim_blank.
    destruct (count_runs is_terminator text false =? 0); cbn [negb];
      [now destruct (blank text) | reflexivity]. }
  assert (Lines : lines (textStats text) = 1 + count_char 10 text).
  { unfold textStats, lines. apply length_split_lines. }
  assert (LF : 0 <= count_char 10 text <= len text).
  { unfold count_char. fold (len (filter (Z.eqb 10) text)).
    pose proof (filter_length_le (Z.eqb 10) text). unfold len in *. lia. }
  rewrite words_spec, Sent, Lines.
  change (charactersNoSpaces (textStats text)) with (len (filter not_space text)).
  change (characters (textStats text)) with (len text).
  split; [lia|]. split; [lia|]. split; [|split; [lia|split; [|split; [|exact Ink]]]].
  - destruct (Z.eqb_spec (count_runs is_terminator text false) 0) as [E|E]; [|lia].
    destruct (blank text) eqn:B; [lia|].
    assert (len (filter not_space text) <> 0) by (rewrite Ink; discriminate).
    lia.
  - rewrite <- Ink. split.
    + intro H. now rewrite (Wz eq_refl H).
    + lia.
  - destruct (Z.eqb_spec (count_runs is_terminator text false) 0) as [E|E].
    + destruct (blank text); split; (reflexivity || discriminate).
    + split; [lia|]. intro B. apply Ink in B. lia.
Qed.

(** ** The nearest palette colour *)

Lemma findTailwindColor_opaque r g b a :
  findTailwindColor (ColorRGB.mk r g b a) = findTailwindColor (ColorRGB.mk r g b 0).
Proof.
  unfold findTailwindColor. cbn [ColorRGB.r ColorRGB.g ColorRGB.b]. reflexivity.
Qed.

(** X29. [findTailwindColor] always answers with the name of a colour of
    its palette, whatever the channels are; and for the channels of a colour
    of the palette it answers with the name of that colour. *)
Theorem findTailwindColor_palette :
  (forall rgb,
      exists name,
        In name (map fst tailwindColors)
        /\ findTailwindColor rgb = js "bg-" ++ js name)
  /\ (forall name r g b a,
         In (name, (r, g, b)) tailwindColors ->
         findTailwindColor (ColorRGB.mk r g b a) = js "bg-" ++ js name).
Proof.
  split.
  - intro rgb. unfold findTailwindColor. cbv zeta.
    set (step := fun (acc : string * float) (entry : string * (float * float * float)) => _).
    assert (Inv : forall l acc,
               incl l tailwindColors -> In (fst acc) (map fst tailwindColors) ->
               In (fst (fold_left step l acc)) (map fst tailwindColors)).
    { induction l as [|[name [[r g] b]] l IH]; intros [closest d] Hl Hacc; [exact Hacc|].
      cbn [fold_left]. apply IH.
      - intros x Hx. apply Hl. now right.
      - unfold step at 1. cbv beta iota.
        match goal with |- context [if ?c then _ else _] => destruct c end;
          [|exact Hacc].
        cbn [fst]. apply in_map_iff. exists (name, (r, g, b)).
        split; [reflexivity|]. apply Hl. now left. }
    specialize (Inv tailwindColors ("slate-500"%string, infinity) (incl_refl _)).
    destruct (fold_left step tailwindColors ("slate-500"%string, infinity))
      as [closest d].
    exists closest. split; [|reflexivity]. apply Inv.
    cbn [fst]. apply in_map_iff. exists ("slate-500"%string, (100, 116, 139)%float).
    split; [reflexivity|]. unfold tailwindColors. do 5 right. now left.
  - intros name r g b a Hin. rewrite findTailwindColor_opaque.
    assert (Hall : forallb (fun entry : string * (float * float * float) =>
                     let '(name, (r, g, b)) := entry in
                     jsstring_eqb (findTailwindColor (ColorRGB.mk r g b 0))
                       (js "bg-" ++ js name)) tailwindColors = true)
      by (vm_compute; reflexivity).
    rewrite forallb_forall in Hall. apply Hall in Hin.
    now apply jsstring_eqb_eq in Hin.
Qed.

(** ** Detection of URL-encoded text, exactly *)

(** The detectors of JWTs, UUIDs, timestamps and numbers take no text with a
    percent sign. *)
Lemma percent_misses s :
  In 37 (trim s) ->
  detectJwt s = Normal None /\ detectUuid s = Normal None
  /\ detectTimestamp s = Normal None /\ detectNumber s = Normal None.
Proof.
  intro P.
  destruct (foreign_char_misses s 37 P eq_refl) as [J U].
  split; [exact J|]. split; [exact U|]. split.
  - unfold detectTimestamp. cbv zeta.
    replace (regex_test EPOCH_REGEX (trim s)) with false; [reflexivity|].
    symmetry. apply not_true_is_false. intro M. apply EPOCH_REGEX_spec in M as [_ M].
    now apply (all_digits_no_char (trim s) 37 M).
  - destruct (detectNumber_returns s) as [[r|] Hr]; [|exact Hr].
    apply detectNumber_spec in Hr as (base & ds & N & _).
    apply number_literal_shape in N as (p & E & Hp & Hb & _ & D).
    exfalso. rewrite E in P. destruct P as [P|[P|P]]; [discriminate | lia |].
    rewrite forallb_forall in D. apply D in P.
    destruct Hb as [->|[->| ->]]; discriminate.
Qed.

Lemma detectJson_spec s :
  detectJson s = Normal None <->
  ~ (opens_json (trim s) = true /\ exists v, JSON_parse (trim s) = Normal v).
Proof.
  unfold detectJson. cbv zeta. fold (opens_json (trim s)).
  replace (negb (startsWith (js "{") (trim s)) && negb (startsWith (js "[") (trim s)))
    with (negb (opens_json (trim s)))
    by (unfold opens_json; now rewrite negb_orb).
  destruct (opens_json (trim s)); cbn [negb].
  - destruct (JSON_parse (trim s)) as [v|e]; cbn [bind try_catch result null].
    + split; [discriminate|]. intro H. exfalso. apply H. eauto.
    + split; [|reflexivity]. intros _ (_ & v & Hv). discriminate Hv.
  - split; [|reflexivity]. intros _ (H & _). discriminate H.
Qed.

(** X30. [detect] classifies an input as [url] exactly when the trimmed
    text holds an escape sequence and at least two percent signs,
    [decodeURIComponent] decodes it to a different text, and neither the JSON
    nor the colour detector, which come first, takes it; the artifact is the
    decoded text. So a JSON array of percent-encoded strings is [json], not
    [url]. *)
Theorem url_detection s :
  (classifies s url <->
   (regex_test URL_ENCODED_REGEX (trim s) = true
    /\ 2 <= count_char 37 (trim s)
    /\ exists decoded,
        decodeURIComponent (trim s) = Normal decoded /\ decoded <> trim s)
   /\ ~ (opens_json (trim s) = true /\ exists v, JSON_parse (trim s) = Normal v)
   /\ color_shape (trim s) = false)
  /\ (forall r,
         detect (Str s) = Normal r -> type r = url ->
         exists decoded,
           decodeURIComponent (trim s) = Normal decoded
           /\ r = mkResult url 0.9 s (Some (ParsedString decoded))).
Proof.
  assert (Walk : forall r,
             detect (Str s) = Normal r -> type r = url ->
             detectJson s = Normal None /\ detectColor s = Normal None
             /\ detectUrlEncoded s = Normal (Some r)).
  { intros r H T. walk_detectors H;
      try (type_of_hit; congruence); try discriminate T.
    now repeat split. }
  split; [split|].
  - intros (r & H & T). destruct (Walk r H T) as (Jn & Co & Hr).
    apply detectUrlEncoded_spec in Hr as (M & N & d & Hd & Hne & _).
    split; [eauto|]. split; [now apply detectJson_spec|].
    rewrite detectColor_spec in Co. destruct (color_shape (trim s)); [discriminate | reflexivity].
  - intros ((M & N & d & Hd & Hne) & Jn & Co).
    assert (P : In 37 (trim s)).
    { apply regex_test_Match in M. now apply url_encoded_needs_percent. }
    destruct (percent_misses s P) as (J & U & Ti & Nu).
    exists (mkResult url 0.9 s (Some (ParsedString d))). split; [|reflexivity].
    apply detect_after_two; try assumption.
    + apply trim_nonempty. intro E. rewrite E in P. contradiction.
    + rewrite first_match_miss by now apply detectJson_spec.
      rewrite first_match_miss by now rewrite detectColor_spec, Co.
      rewrite !first_match_miss by assumption.
      rewrite (first_match_hit _ _ _ (mkResult url 0.9 s (Some (ParsedString d))));
        [reflexivity|].
      apply detectUrlEncoded_spec. eauto 10.
  - intros r H T. destruct (Walk r H T) as (_ & _ & Hr).
    apply detectUrlEncoded_spec in Hr as (_ & _ & d & Hd & _ & ->). eauto.
Qed.

(** ** C2: the JWT and the base64 detector never meet *)








(** ** Rounding in SpecFloat, by value *)

Lemma digits2_size p : digits2_pos p = Pos.size p.
Proof. induction p as [p IH|p IH|]; cbn; now rewrite ?IH. Qed.

Lemma Zdigits2_log2 n : 0 < n -> Zdigits2 n = Z.log2 n + 1.
Proof.
  destruct n as [|p|p]; try lia. intros _. cbn [Zdigits2].
  rewrite digits2_size. destruct p; cbn; lia.
Qed.

Lemma Zdigits2_bounds n :
  0 < n -> 2 ^ (Zdigits2 n - 1) <= n < 2 ^ Zdigits2 n.
Proof.
  intro H. rewrite Zdigits2_log2 by exact H.
  replace (Z.log2 n + 1 - 1) with (Z.log2 n) by lia.
  replace (Z.log2 n + 1) with (Z.succ (Z.log2 n)) by lia.
  now apply Z.log2_spec.
Qed.

Lemma Zdigits2_unique n d :
  0 < d -> 2 ^ (d - 1) <= n < 2 ^ d -> Zdigits2 n = d.
Proof.
  intros Hd H. assert (0 < n) by (pose proof (Z.pow_pos_nonneg 2 (d - 1)); lia).
  rewrite Zdigits2_log2 by assumption.
  assert (E : Z.log2 n = d - 1).
  { apply Z.log2_unique; [lia|].
    now replace (Z.succ (d - 1)) with d by lia. }
  lia.
Qed.

Lemma Zdigits2_nonneg n : 0 <= Zdigits2 n.
Proof. destruct n; cbn; lia. Qed.

Lemma iter_pos_nat {A} (f : A -> A) p :
  forall x, iter_pos f p x = Nat.iter (Pos.to_nat p) f x.
Proof.
  induction p as [p IH|p IH|]; intro x; cbn [iter_pos].
  - rewrite !IH, Pos2Nat.inj_xI.
    replace (S (2 * Pos.to_nat p)) with (Pos.to_nat p + S (Pos.to_nat p))%nat by lia.
    rewrite Nat.iter_add. f_equal. now rewrite Nat.iter_succ_r.
  - rewrite !IH, Pos2Nat.inj_xO.
    replace (2 * Pos.to_nat p)%nat with (Pos.to_nat p + Pos.to_nat p)%nat by lia.
    now rewrite Nat.iter_add.
  - reflexivity.
Qed.

Lemma shr_record_loc m l :
  shr_m (shr_record_of_loc m l) = m
  /\ loc_of_shr_record (shr_record_of_loc m l) = l.
Proof. destruct l as [|[| |]]; split; reflexivity. Qed.

(** One step of [shr]: the denominator doubles. *)
Lemma shr_1_halves N D :
  0 <= N -> 0 < D ->
  shr_1 (shr_record_of_loc (N / D) (loc_of N D))
  = shr_record_of_loc (N / (2 * D)) (loc_of N (2 * D)).
Proof.
  intros HN HD.
  pose proof (Z.div_mod N D ltac:(lia)) as E.
  pose proof (Z.mod_pos_bound N D HD) as Hr.
  assert (Hq : 0 <= N / D) by (apply Z.div_pos; lia).
  set (q := N / D) in *. set (r := N mod D) in *.
  assert (Hdiv : N / (2 * D) = q / 2).
  { unfold q. rewrite Z.mul_comm. now rewrite Z.div_div by lia. }
  assert (Hmod : N mod (2 * D) = (q mod 2) * D + r).
  { pose proof (Z.div_mod N (2 * D) ltac:(lia)) as E2.
    pose proof (Z.div_mod q 2 ltac:(lia)) as E3.
    rewrite Hdiv in E2. nia. }
  pose proof (Z.mod_pos_bound q 2 ltac:(lia)) as Hb.
  unfold loc_of. rewrite Hmod, Hdiv. fold r.
  assert (Hcase : (q mod 2 = 0 \/ q mod 2 = 1)) by lia.
  destruct q as [|[p|p|]|p]; try lia.
  - (* q = 0 *)
    change (0 / 2) with 0. change (0 mod 2) with 0. rewrite Z.mul_0_l, Z.add_0_l.
    destruct (r =? 0) eqn:Er; [reflexivity|].
    apply Z.eqb_neq in Er.
    assert (Hc : (2 * r ?= 2 * D) = Lt) by (apply Z.compare_lt_iff; lia).
    rewrite Hc. destruct (2 * r ?= D); reflexivity.
  - (* q = 2p + 1 *)
    replace (Z.pos p~1 / 2) with (Z.pos p)
      by (apply (Z.div_unique _ _ _ 1); lia).
    replace (Z.pos p~1 mod 2) with 1
      by (apply (Z.mod_unique _ _ (Z.pos p)); lia).
    rewrite Z.mul_1_l.
    replace (D + r =? 0) with false by (symmetry; apply Z.eqb_neq; lia).
    destruct (r =? 0) eqn:Er.
    + apply Z.eqb_eq in Er. rewrite Er, Z.add_0_r.
      now rewrite Z.compare_refl.
    + apply Z.eqb_neq in Er.
      assert (Hc : (2 * (D + r) ?= 2 * D) = Gt) by (apply Z.compare_gt_iff; lia).
      rewrite Hc. destruct (2 * r ?= D); reflexivity.
  - (* q = 2p *)
    replace (Z.pos p~0 / 2) with (Z.pos p)
      by (apply (Z.div_unique _ _ _ 0); lia).
    replace (Z.pos p~0 mod 2) with 0
      by (apply (Z.mod_unique _ _ (Z.pos p)); lia).
    rewrite Z.mul_0_l, Z.add_0_l.
    destruct (r =? 0) eqn:Er; [reflexivity|].
    apply Z.eqb_neq in Er.
    assert (Hc : (2 * r ?= 2 * D) = Lt) by (apply Z.compare_lt_iff; lia).
    rewrite Hc. destruct (2 * r ?= D); reflexivity.
  - (* q = 1 *)
    change (1 / 2) with 0. change (1 mod 2) with 1. rewrite Z.mul_1_l.
    replace (D + r =? 0) with false by (symmetry; apply Z.eqb_neq; lia).
    destruct (r =? 0) eqn:Er.
    + apply Z.eqb_eq in Er. rewrite Er, Z.add_0_r.
      now rewrite Z.compare_refl.
    + apply Z.eqb_neq in Er.
      assert (Hc : (2 * (D + r) ?= 2 * D) = Gt) by (apply Z.compare_gt_iff; lia).
      rewrite Hc. destruct (2 * r ?= D); reflexivity.
Qed.
Lemma shr_steps N D e j :
  0 <= N -> 0 < D -> 0 <= j ->
  shr (shr_record_of_loc (N / D) (loc_of N D)) e j
  = (shr_record_of_loc (N / (D * 2 ^ j)) (loc_of N (D * 2 ^ j)), e + j).
Proof.
  intros HN HD Hj.
  destruct j as [|p|p]; [| |pose proof (Pos2Z.neg_is_neg p); lia].
  - cbn [shr]. now rewrite Z.pow_0_r, Z.mul_1_r, Z.add_0_r.
  - cbn [shr]. f_equal. rewrite iter_pos_nat.
    rewrite <- (positive_nat_Z p). generalize (Pos.to_nat p) as n.
    induction n as [|n IH].
    + cbn. now rewrite Z.mul_1_r.
    + rewrite Nat.iter_succ, IH.
      rewrite shr_1_halves by (try apply Z.mul_pos_pos; try apply Z.pow_pos_nonneg; lia).
      rewrite Nat2Z.inj_succ, Z.pow_succ_r by lia.
      now replace (2 * (D * 2 ^ Z.of_nat n)) with (D * (2 * 2 ^ Z.of_nat n)) by ring.
Qed.

(** [binary_round_aux] on the integer part and the location of [N / D] at
    the exponent [e]: the quotient is cut at the exponent of the format and
    rounded there. *)
Lemma binary_round_aux_value sx N D e :
  0 <= N -> 0 < D ->
  let j := fexp prec emax (Zdigits2 (N / D) + e) - e in
  0 <= j ->
  binary_round_aux prec emax sx (N / D) e (loc_of N D)
  = finish sx (rne N (D * 2 ^ j)) (e + j).
Proof.
  intros HN HD j Hj. unfold binary_round_aux, shr_fexp. fold j.
  rewrite shr_steps by assumption.
  destruct (shr_record_loc (N / (D * 2 ^ j)) (loc_of N (D * 2 ^ j))) as [-> ->].
  reflexivity.
Qed.

Lemma new_location_loc_of N b :
  0 < b -> new_location b (N mod b) = loc_of N b.
Proof.
  intro Hb. pose proof (Z.mod_pos_bound N b Hb) as Hr.
  unfold new_location, new_location_even, new_location_odd, loc_of.
  destruct (Z.even b) eqn:Ev; destruct (N mod b =? 0) eqn:Er; try reflexivity.
  apply Z.eqb_neq in Er.
  assert (Hodd : Z.odd b = true) by (rewrite <- Z.negb_even, Ev; reflexivity).
  apply Z.odd_spec in Hodd as [k Hk].
  f_equal.
  destruct (Z.compare_spec (2 * (N mod b) + 1) b) as [C|C|C];
    symmetry; (apply Z.compare_lt_iff || apply Z.compare_gt_iff); lia.
Qed.

Lemma loc_of_scale c N D :
  0 < c -> 0 < D -> loc_of (c * N) (c * D) = loc_of N D.
Proof.
  intros Hc HD. unfold loc_of.
  rewrite Z.mul_mod_distr_l by lia.
  pose proof (Z.mod_pos_bound N D HD) as Hr.
  destruct (N mod D =? 0) eqn:E.
  - apply Z.eqb_eq in E. rewrite E, Z.mul_0_r. reflexivity.
  - apply Z.eqb_neq in E.
    replace (c * (N mod D) =? 0) with false by (symmetry; apply Z.eqb_neq; nia).
    f_equal.
    destruct (Z.compare_spec (2 * (N mod D)) D) as [C|C|C];
      [apply Z.compare_eq_iff | apply Z.compare_lt_iff | apply Z.compare_gt_iff]; nia.
Qed.

Lemma rne_scale c N D : 0 < c -> 0 < D -> rne (c * N) (c * D) = rne N D.
Proof.
  intros Hc HD. unfold rne.
  rewrite loc_of_scale by assumption.
  now rewrite Z.div_mul_cancel_l by lia.
Qed.

Lemma Zdigits2_scaled N D t :
  0 < D -> 1 <= N / D -> 0 <= t ->
  Zdigits2 (N * 2 ^ t / D) = Zdigits2 (N / D) + t.
Proof.
  intros HD Hq Ht.
  pose proof (Zdigits2_bounds (N / D) ltac:(lia)) as [Hlo Hhi].
  pose proof (Zdigits2_nonneg (N / D)).
  assert (Hd : 1 <= Zdigits2 (N / D)).
  { destruct (N / D); cbn [Zdigits2]; lia. }
  pose proof (Z.div_mod N D ltac:(lia)) as E.
  pose proof (Z.mod_pos_bound N D HD) as Hr.
  assert (Hp : 0 < 2 ^ t) by (apply Z.pow_pos_nonneg; lia).
  apply Zdigits2_unique; [lia|].
  replace (Zdigits2 (N / D) + t - 1) with (Zdigits2 (N / D) - 1 + t) by lia.
  rewrite !Z.pow_add_r by lia.
  set (q := N / D) in *. set (P := 2 ^ (Zdigits2 q - 1)) in *.
  set (P' := 2 ^ Zdigits2 q) in *.
  assert (H1 : D * P <= N) by nia.
  assert (H2 : N < D * P') by nia.
  split.
  - apply Z.div_le_lower_bound; [lia|].
    replace (D * (P * 2 ^ t)) with (D * P * 2 ^ t) by ring.
    apply Z.mul_le_mono_nonneg_r; lia.
  - apply Z.div_lt_upper_bound; [lia|].
    replace (D * (P' * 2 ^ t)) with (D * P' * 2 ^ t) by ring.
    apply Z.mul_lt_mono_pos_r; lia.
Qed.

(** The exponent of the format, read off a quotient taken with [s] digits
    below the point. *)
Lemma cexp_of_quotient a b s :
  0 < b -> 0 <= s <= guard -> 1 <= a * 2 ^ s / b ->
  fexp prec emax (Zdigits2 (a * 2 ^ s / b) - s) = cexp a b.
Proof.
  intros Hb Hs Hq. unfold cexp.
  replace (a * 2 ^ guard) with (a * 2 ^ s * 2 ^ (guard - s)).
  - rewrite (Zdigits2_scaled (a * 2 ^ s) b (guard - s)); [|assumption|assumption|lia].
    f_equal. lia.
  - rewrite <- Z.mul_assoc, <- Z.pow_add_r by lia. do 2 f_equal. lia.
Qed.

Lemma fexp_mono x y : x <= y -> fexp prec emax x <= fexp prec emax y.
Proof. unfold fexp, SpecFloat.emin. intro H. lia. Qed.

Lemma fexp_low x : x <= -1021 -> fexp prec emax x = -1074.
Proof. unfold fexp, SpecFloat.emin, prec, emax. lia. Qed.

Lemma fexp_ge x : -1074 <= fexp prec emax x.
Proof. unfold fexp, SpecFloat.emin, prec, emax. lia. Qed.

(** A quotient below one at the exponent -1074 is of the least magnitude. *)
Lemma cexp_tiny a b :
  0 < a -> 0 < b -> a * 2 ^ 1074 < b -> cexp a b = -1074.
Proof.
  intros Ha Hb H. unfold cexp. apply fexp_low.
  assert (Hq : a * 2 ^ guard / b < 2 ^ 26).
  { apply Z.div_lt_upper_bound; [lia|].
    unfold guard. change 1100 with (1074 + 26).
    rewrite Z.pow_add_r by lia. nia. }
  assert (0 <= a * 2 ^ guard / b).
  { apply Z.div_pos; [|lia]. apply Z.mul_nonneg_nonneg; [lia|].
    apply Z.pow_nonneg. lia. }
  destruct (Z.eq_dec (a * 2 ^ guard / b) 0) as [->|Hz]; [unfold guard; cbn; lia|].
  pose proof (Zdigits2_bounds (a * 2 ^ guard / b) ltac:(lia)) as [Hlo _].
  assert (Zdigits2 (a * 2 ^ guard / b) - 1 < 26).
  { apply (Z.pow_lt_mono_r_iff 2); lia. }
  unfold guard in *. lia.
Qed.
Lemma div_eucl_div_mod a b : Z.div_eucl a b = (a / b, a mod b).
Proof. unfold Z.div, Z.modulo. now destruct (Z.div_eucl a b). Qed.

Lemma SFdiv_core_value a b :
  let e' := Z.min (fexp prec emax (Zdigits2 (Zpos a) - Zdigits2 (Zpos b))) 0 in
  SFdiv_core_binary prec emax (Zpos a) 0 (Zpos b) 0
  = (Zpos a * 2 ^ (- e') / Zpos b, e', loc_of (Zpos a * 2 ^ (- e')) (Zpos b)).
Proof.
  intro e'. unfold SFdiv_core_binary.
  rewrite !Z.add_0_r, Z.sub_0_r. fold e'. rewrite Z.sub_0_l.
  assert (He : e' <= 0) by (unfold e'; lia).
  assert (Hm : match - e' with
               | 0 => Zpos a
               | Zpos _ => Z.shiftl (Zpos a) (- e')
               | Zneg _ => 0
               end = Zpos a * 2 ^ (- e')).
  { destruct (- e') as [|p|p] eqn:E.
    - now rewrite Z.pow_0_r, Z.mul_1_r.
    - rewrite Z.shiftl_mul_pow2 by lia. reflexivity.
    - pose proof (Pos2Z.neg_is_neg p). lia. }
  rewrite Hm, div_eucl_div_mod.
  now rewrite new_location_loc_of by lia.
Qed.

Lemma pow2_digits_lt x y d : 0 <= d -> 2 ^ x <= y -> y < 2 ^ d -> 0 <= x -> x < d.
Proof. intros Hd H1 H2 Hx. apply (Z.pow_lt_mono_r_iff 2); lia. Qed.

(** Division of two positive integers rounds their quotient. *)
Lemma SFdiv_round_ratio sx a b :
  SFdiv prec emax (S754_finite sx a 0) (S754_finite false b 0)
  = round_ratio sx (Zpos a) (Zpos b).
Proof.
  unfold SFdiv. rewrite SFdiv_core_value. rewrite xorb_false_r.
  set (d1 := Zdigits2 (Zpos a)). set (d2 := Zdigits2 (Zpos b)).
  set (e' := Z.min (fexp prec emax (d1 - d2)) 0).
  set (s := - e').
  pose proof (fexp_ge (d1 - d2)) as Hfe.
  assert (Hs : 0 <= s <= 1074) by (unfold s, e'; lia).
  destruct (Zdigits2_bounds (Zpos a) ltac:(lia)) as [Ha1 Ha2]. fold d1 in Ha1, Ha2.
  destruct (Zdigits2_bounds (Zpos b) ltac:(lia)) as [Hb1 Hb2]. fold d2 in Hb1, Hb2.
  assert (Hd1 : 1 <= d1) by (unfold d1; cbn; lia).
  assert (Hd2 : 1 <= d2) by (unfold d2; cbn; lia).
  assert (Hps : 0 < 2 ^ s) by (apply Z.pow_pos_nonneg; lia).
  assert (Hq0 : 0 <= Zpos a * 2 ^ s / Zpos b) by (apply Z.div_pos; lia).
  unfold round_ratio.
  destruct (Z_lt_le_dec (Zpos a * 2 ^ s / Zpos b) 1) as [Hq|Hq].
  - (* the quotient is below one *)
    assert (Hlt : Zpos a * 2 ^ s < Zpos b).
    { assert (E : Zpos a * 2 ^ s / Zpos b = 0) by lia.
      apply Z.div_small_iff in E; lia. }
    assert (Hds : d1 - 1 + s < d2).
    { apply (pow2_digits_lt _ (Zpos a * 2 ^ s)); try lia.
      rewrite Z.pow_add_r by lia. nia. }
    assert (He' : e' = -1074).
    { unfold e', fexp, SpecFloat.emin, prec, emax in *. lia. }
    assert (Hs' : s = 1074) by (unfold s; lia).
    rewrite Hs' in Hlt.
    rewrite (cexp_tiny (Zpos a) (Zpos b)) by lia.
    rewrite binary_round_aux_value; try lia.
    + replace (Zpos a * 2 ^ s / Zpos b) with 0 by lia.
      cbn [Zdigits2]. rewrite He'. rewrite Hs'.
      change (fexp prec emax (0 + -1074) - -1074) with 0.
      change (-1074 + 0) with (-1074). f_equal.
      change (Zpos b * 2 ^ 0) with (Zpos b * 1). rewrite Z.mul_1_r.
      rewrite <- (rne_scale (2 ^ 26) (Zpos a * 2 ^ 1074) (Zpos b)) by lia.
      f_equal; unfold guard.
      * change 1100 with (1074 + 26). rewrite Z.pow_add_r by lia. ring.
      * change (-1074 + 1100) with 26. ring.
    + replace (Zpos a * 2 ^ s / Zpos b) with 0 by lia.
      cbn [Zdigits2]. rewrite He'. vm_compute. discriminate.
  - (* the quotient has digits *)
    pose proof (cexp_of_quotient (Zpos a) (Zpos b) s ltac:(lia)
                  ltac:(unfold guard; lia) Hq) as HE.
    set (E := cexp (Zpos a) (Zpos b)) in *.
    set (q := Zpos a * 2 ^ s / Zpos b) in *.
    assert (Hdq : d1 - d2 + s <= Zdigits2 q).
    { destruct (Zdigits2_bounds q ltac:(lia)) as [_ Hq2].
      assert (1 <= Zdigits2 q) by (destruct q; cbn; lia).
      destruct (Z_lt_le_dec (d1 - d2 + s - 1) 0) as [Ht|Ht]; [lia|].
      assert (2 ^ (d1 - d2 + s - 1) <= q).
      { apply Z.div_le_lower_bound; [lia|].
        assert (Zpos b * 2 ^ (d1 - d2 + s - 1) < 2 ^ d2 * 2 ^ (d1 - d2 + s - 1)).
        { apply Z.mul_lt_mono_pos_r; [apply Z.pow_pos_nonneg|]; lia. }
        rewrite <- Z.pow_add_r in H0 by lia.
        replace (d2 + (d1 - d2 + s - 1)) with (d1 - 1 + s) in H0 by lia.
        rewrite Z.pow_add_r in H0 by lia. nia. }
      assert (d1 - d2 + s - 1 < Zdigits2 q)
        by (apply (pow2_digits_lt _ q); lia).
      lia. }
    assert (HEe : e' <= E).
    { rewrite <- HE. pose proof (fexp_mono (d1 - d2) (Zdigits2 q - s) ltac:(lia)).
      unfold e'. lia. }
    assert (Hj : fexp prec emax (Zdigits2 q + e') - e' = E - e').
    { f_equal. rewrite <- HE. f_equal. unfold s. lia. }
    unfold q. rewrite binary_round_aux_value; try lia; fold q; rewrite Hj; [|lia].
    replace (e' + (E - e')) with E by lia. f_equal.
    rewrite <- (rne_scale (2 ^ (guard - s)) (Zpos a * 2 ^ s) (Zpos b * 2 ^ (E - e'))).
    + f_equal.
      * rewrite Z.mul_comm, <- Z.mul_assoc, <- Z.pow_add_r by (unfold guard; lia).
        do 2 f_equal. lia.
      * rewrite Z.mul_comm, <- Z.mul_assoc, <- Z.pow_add_r by (unfold guard; lia).
        do 2 f_equal. unfold s. lia.
    + apply Z.pow_pos_nonneg; unfold guard; lia.
    + apply Z.mul_pos_pos; [lia|]. apply Z.pow_pos_nonneg; lia.
Qed.
Lemma iter_xO_pow2 a d : Zpos (Pos.iter xO a d) = Zpos a * 2 ^ Zpos d.
Proof.
  revert a. induction d as [|d IH] using Pos.peano_ind; intro a.
  - cbn [Pos.iter]. rewrite Z.pow_1_r. lia.
  - rewrite Pos.iter_succ, Pos2Z.inj_succ, Z.pow_succ_r by lia.
    rewrite Pos2Z.inj_xO, IH. ring.
Qed.

Lemma finish_rne_eq sx N1 D1 N2 D2 E :
  N1 = N2 -> D1 = D2 -> finish sx (rne N1 D1) E = finish sx (rne N2 D2) E.
Proof. now intros -> ->. Qed.

(** An integer rounds as the quotient of itself by one. *)
Lemma binary_round_round_ratio sx a :
  binary_round prec emax sx a 0 = round_ratio sx (Zpos a) 1.
Proof.
  unfold binary_round, shl_align, round_ratio.
  assert (HE : cexp (Zpos a) 1 = fexp prec emax (Zpos (digits2_pos a) + 0)).
  { unfold cexp. rewrite Z.div_1_r.
    rewrite <- (Z.div_1_r (Zpos a * 2 ^ guard)).
    rewrite (Zdigits2_scaled (Zpos a) 1 guard);
      [|lia | rewrite Z.div_1_r; lia | unfold guard; lia].
    rewrite Z.div_1_r. f_equal. cbn [Zdigits2]. lia. }
  rewrite HE. set (E0 := fexp prec emax (Zpos (digits2_pos a) + 0)).
  pose proof (fexp_ge (Zpos (digits2_pos a) + 0)) as HEl. fold E0 in HEl.
  assert (Hloc : forall N, loc_of N 1 = loc_Exact).
  { intro N. unfold loc_of. now rewrite Z.mod_1_r. }
  rewrite Z.sub_0_r.
  destruct E0 as [|p|p] eqn:EE.
  - (* no shift either way *)
    rewrite <- (Z.div_1_r (Zpos a)) at 1. rewrite <- (Hloc (Zpos a)).
    rewrite binary_round_aux_value; rewrite ?Z.div_1_r; try lia.
    + cbn [Zdigits2]. fold E0. rewrite EE. cbn [Z.sub Z.opp Z.add].
      rewrite <- (rne_scale (2 ^ guard) (Zpos a) (1 * 2 ^ 0)) by (cbn; unfold guard; lia).
      apply finish_rne_eq; [ring|]. cbn [Z.add]. change (2 ^ 0) with 1. ring.
    + cbn [Zdigits2]. fold E0. rewrite EE. lia.
  - (* the integer has more digits than a mantissa *)
    rewrite <- (Z.div_1_r (Zpos a)) at 1. rewrite <- (Hloc (Zpos a)).
    rewrite binary_round_aux_value; rewrite ?Z.div_1_r; try lia.
    + cbn [Zdigits2]. fold E0. rewrite EE. rewrite Z.sub_0_r, Z.add_0_l.
      rewrite <- (rne_scale (2 ^ guard) (Zpos a) (1 * 2 ^ Zpos p))
        by (try apply Z.mul_pos_pos; try apply Z.pow_pos_nonneg; unfold guard; lia).
      apply finish_rne_eq; [ring|]. rewrite Z.pow_add_r by (unfold guard; lia). ring.
    + cbn [Zdigits2]. fold E0. rewrite EE. lia.
  - (* the integer is brought up to the digits of a mantissa *)
    rewrite <- (Z.div_1_r (Zpos (Pos.iter xO a p))).
    rewrite <- (Hloc (Zpos (Pos.iter xO a p))).
    assert (Hd : Zdigits2 (Zpos (Pos.iter xO a p)) + Z.neg p = Zpos (digits2_pos a) + 0).
    { rewrite iter_xO_pow2.
      rewrite <- (Z.div_1_r (Zpos a * 2 ^ Zpos p)).
      rewrite (Zdigits2_scaled (Zpos a) 1 (Zpos p));
        [|lia | rewrite Z.div_1_r; lia | lia].
      rewrite Z.div_1_r. cbn [Zdigits2]. lia. }
    rewrite binary_round_aux_value; rewrite ?Z.div_1_r; try lia.
    + rewrite Hd. fold E0. rewrite EE. rewrite Z.sub_diag, Z.add_0_r.
      rewrite iter_xO_pow2.
      assert (Hp : Zpos p <= 1074) by lia.
      rewrite <- (rne_scale (2 ^ (guard - Zpos p)) (Zpos a * 2 ^ Zpos p) (1 * 2 ^ 0));
        [| apply Z.pow_pos_nonneg; unfold guard; lia | reflexivity].
      apply finish_rne_eq.
      * rewrite Z.mul_comm, <- Z.mul_assoc, <- Z.pow_add_r by (unfold guard; lia).
        do 2 f_equal. lia.
      * change (2 ^ 0) with 1. rewrite !Z.mul_1_l, Z.mul_1_r. f_equal; lia.
    + rewrite Hd. fold E0. rewrite EE. lia.
Qed.

Lemma cexp_scale c a b : 0 < c -> 0 < b -> cexp (c * a) (c * b) = cexp a b.
Proof.
  intros Hc Hb. unfold cexp.
  now rewrite <- Z.mul_assoc, Z.div_mul_cancel_l by lia.
Qed.

(** The rounding depends on the quotient only. *)
Lemma round_ratio_scale sx c a b :
  0 < c -> 0 < b -> round_ratio sx (c * a) (c * b) = round_ratio sx a b.
Proof.
  intros Hc Hb. unfold round_ratio. rewrite cexp_scale by assumption.
  f_equal. rewrite <- !Z.mul_assoc. apply rne_scale; [assumption|].
  apply Z.mul_pos_pos; [assumption|]. apply Z.pow_pos_nonneg; [lia|].
  pose proof (fexp_ge (Zdigits2 (a * 2 ^ guard / b) - guard)) as H.
  unfold cexp, guard in *. lia.
Qed.
Lemma rne_near N D M :
  0 < D -> (2 * M - 1) * D < 2 * N -> 2 * N < (2 * M + 1) * D -> rne N D = M.
Proof.
  intros HD Hlo Hhi. unfold rne, loc_of.
  pose proof (Z.div_mod N D ltac:(lia)) as E.
  pose proof (Z.mod_pos_bound N D HD) as Hr.
  set (q := N / D) in *. set (r := N mod D) in *.
  assert (Hq : q = M \/ q = M - 1) by nia.
  destruct Hq as [Hq|Hq].
  - assert (2 * r < D) by nia.
    destruct (r =? 0); [exact Hq|].
    replace (2 * r ?= D) with Lt by (symmetry; apply Z.compare_lt_iff; lia).
    exact Hq.
  - assert (D < 2 * r) by nia.
    replace (r =? 0) with false by (symmetry; apply Z.eqb_neq; lia).
    replace (2 * r ?= D) with Gt by (symmetry; apply Z.compare_gt_iff; lia).
    cbn [round_nearest_even]. lia.
Qed.

Lemma bounded_canonical mx ex :
  bounded prec emax mx ex = true ->
  fexp prec emax (Zpos (digits2_pos mx) + ex) = ex /\ ex <= 971
  /\ -1074 <= ex /\ Zpos (digits2_pos mx) <= 53
  /\ (Zpos (digits2_pos mx) = 53 \/ ex = -1074).
Proof.
  unfold bounded, canonical_mantissa. intro H.
  apply andb_true_iff in H as [H1 H2].
  apply Z.eqb_eq in H1. apply Z.leb_le in H2.
  split; [exact H1|]. revert H1 H2.
  unfold fexp, SpecFloat.emin, prec, emax. lia.
Qed.

Lemma finish_canonical sx mx ex :
  bounded prec emax mx ex = true -> finish sx (Zpos mx) ex = S754_finite sx mx ex.
Proof.
  intro H. apply bounded_canonical in H as (Hc & He & _).
  unfold finish, shr_fexp. cbn [Zdigits2]. rewrite Hc, Z.sub_diag.
  cbn [shr shr_record_of_loc shr_m].
  replace (ex <=? emax - prec) with true; [reflexivity|].
  symmetry. apply Z.leb_le. unfold emax, prec. lia.
Qed.

(** A quotient nearer to a Number than to the one below and the one above
    it, and not below the binade of that Number, rounds to it. *)
Lemma round_ratio_near sx a b mx ex :
  0 < a -> 0 < b ->
  bounded prec emax mx ex = true ->
  (2 * Zpos mx - 1) * (b * 2 ^ (ex + guard)) < 2 * (a * 2 ^ guard) ->
  2 * (a * 2 ^ guard) < (2 * Zpos mx + 1) * (b * 2 ^ (ex + guard)) ->
  2 ^ (Zpos (digits2_pos mx) - 1) * (b * 2 ^ (ex + guard)) <= a * 2 ^ guard
  \/ ex = -1074 ->
  round_ratio sx a b = S754_finite sx mx ex.
Proof.
  intros Ha Hb Hbd Hlo Hhi Hbin.
  pose proof Hbd as Hbd'.
  apply bounded_canonical in Hbd' as (Hc & He1 & He2 & Hd & Hcase).
  set (dm := Zpos (digits2_pos mx)) in *.
  assert (Hdm : 1 <= dm) by (unfold dm; lia).
  set (A := a * 2 ^ guard) in *. set (W := 2 ^ (ex + guard)) in *.
  assert (HW : 0 < W) by (apply Z.pow_pos_nonneg; unfold guard; lia).
  assert (HA : 0 < A) by (apply Z.mul_pos_pos; [lia|]; apply Z.pow_pos_nonneg;
                          unfold guard; lia).
  assert (HbW : 0 < b * W) by (apply Z.mul_pos_pos; lia).
  assert (Hmx : Zpos mx < 2 ^ dm).
  { destruct (Zdigits2_bounds (Zpos mx) ltac:(lia)) as [_ H]. exact H. }
  assert (Hup : A < 2 ^ dm * (b * W)) by nia.
  assert (Hq0 : 0 <= A / b) by (apply Z.div_pos; lia).
  assert (Hqup : A / b < 2 ^ (dm + ex + guard)).
  { apply Z.div_lt_upper_bound; [lia|].
    replace (dm + ex + guard) with (dm + (ex + guard)) by lia.
    rewrite Z.pow_add_r by (unfold guard; lia). fold W. nia. }
  assert (HE : cexp a b = ex).
  { unfold cexp. fold A. destruct Hbin as [Hbin|Hbin].
    - rewrite (Zdigits2_unique (A / b) (dm + ex + guard)).
      + replace (dm + ex + guard - guard) with (dm + ex) by lia. exact Hc.
      + unfold guard. lia.
      + split; [|exact Hqup].
        apply Z.div_le_lower_bound; [lia|].
        replace (dm + ex + guard - 1) with (dm - 1 + (ex + guard)) by lia.
        rewrite Z.pow_add_r by (unfold guard; lia). fold W. nia.
    - rewrite Hbin. apply fexp_low.
      destruct (Z.eq_dec (A / b) 0) as [->|Hz]; [unfold guard; cbn; lia|].
      destruct (Zdigits2_bounds (A / b) ltac:(lia)) as [Hl _].
      assert (Zdigits2 (A / b) - 1 < dm + ex + guard).
      { apply (pow2_digits_lt _ (A / b)); try lia; unfold guard; try lia.
        pose proof (Zdigits2_nonneg (A / b)).
        destruct (A / b); cbn [Zdigits2] in *; lia. }
      unfold guard in *. lia. }
  unfold round_ratio. rewrite HE. fold A. fold W.
  rewrite (rne_near A (b * W) (Zpos mx)) by lia.
  now apply finish_canonical.
Qed.
(** ** Decimals as quotients *)

Lemma pow_num_pos base e : 0 < base -> 0 < pow_num base e.
Proof.
  intro H. unfold pow_num. destruct (0 <=? e) eqn:E; [|lia].
  apply Z.leb_le in E. now apply Z.pow_pos_nonneg.
Qed.

Lemma pow_den_pos base e : 0 < base -> 0 < pow_den base e.
Proof.
  intro H. unfold pow_den. destruct (0 <=? e) eqn:E; [lia|].
  apply Z.leb_gt in E. apply Z.pow_pos_nonneg; lia.
Qed.

(** [base ^ (x + y) = base ^ x * base ^ y], multiplied out. *)
Lemma pow_num_den_add base x y :
  0 < base ->
  pow_num base (x + y) * (pow_den base x * pow_den base y)
  = pow_num base x * pow_num base y * pow_den base (x + y).
Proof.
  intro Hb. unfold pow_num, pow_den.
  destruct (0 <=? x) eqn:Ex; destruct (0 <=? y) eqn:Ey;
    destruct (0 <=? x + y) eqn:Es;
    rewrite ?Z.leb_le, ?Z.leb_gt in *; try lia.
  - rewrite Z.pow_add_r by lia. ring.
  - replace x with (x + y + - y) at 2 by lia. rewrite (Z.pow_add_r base (x + y)) by lia. ring.
  - replace (- y) with (x + - (x + y)) by lia. rewrite Z.pow_add_r by lia. ring.
  - replace y with (x + y + - x) at 2 by lia. rewrite (Z.pow_add_r base (x + y)) by lia. ring.
  - replace (- x) with (y + - (x + y)) by lia. rewrite Z.pow_add_r by lia. ring.
  - replace (- (x + y)) with (- x + - y) by lia. rewrite Z.pow_add_r by lia. ring.
Qed.

(** What [decimal_to_float] computes: the rounding of the quotient that the
    decimal denotes. *)
Lemma decimal_to_float_value neg s e :
  0 < s -> -1000 <= e <= 400 ->
  decimal_to_float neg s e
  = SF2Prim (round_ratio neg (s * pow_num 10 e) (pow_den 10 e)).
Proof.
  intros Hs He. unfold decimal_to_float, pow_num, pow_den.
  replace (s =? 0) with false by (symmetry; apply Z.eqb_neq; lia).
  replace (400 <? e) with false by (symmetry; apply Z.ltb_ge; lia).
  destruct (0 <=? e) eqn:E.
  - apply Z.leb_le in E.
    assert (Hp : 0 < s * 10 ^ e) by (apply Z.mul_pos_pos; [lia|apply Z.pow_pos_nonneg; lia]).
    destruct (s * 10 ^ e) as [|p|p] eqn:Ep; try lia.
    destruct neg.
    + change (-1 * Zpos p) with (Zneg p). cbn [binary_normalize].
      now rewrite binary_round_round_ratio.
    + change (1 * Zpos p) with (Zpos p). cbn [binary_normalize].
      now rewrite binary_round_round_ratio.
  - apply Z.leb_gt in E.
    pose proof (Z.log2_nonneg s).
    replace (e + Z.log2 s <? -1200) with false by (symmetry; apply Z.ltb_ge; lia).
    assert (Hp : 0 < 10 ^ (- e)) by (apply Z.pow_pos_nonneg; lia).
    unfold ratio_to_float.
    destruct s as [|ps|ps]; try lia.
    destruct (10 ^ (- e)) as [|pd|pd]; try lia.
    rewrite SFdiv_round_ratio. now rewrite Z.mul_1_r.
Qed.

(** A decimal with one more digit, a zero, is the same Number. *)
Lemma decimal_to_float_shift neg s e :
  0 < s -> -1000 <= e < 400 ->
  decimal_to_float neg (s * 10) e = decimal_to_float neg s (e + 1).
Proof.
  intros Hs He. rewrite !decimal_to_float_value by lia. f_equal.
  pose proof (pow_num_den_add 10 e 1 ltac:(lia)) as H.
  change (pow_num 10 1) with 10 in H. change (pow_den 10 1) with 1 in H.
  pose proof (pow_num_pos 10 e ltac:(lia)). pose proof (pow_den_pos 10 e ltac:(lia)).
  pose proof (pow_num_pos 10 (e + 1) ltac:(lia)).
  pose proof (pow_den_pos 10 (e + 1) ltac:(lia)).
  rewrite <- (round_ratio_scale neg (pow_den 10 (e + 1))
                (s * 10 * pow_num 10 e) (pow_den 10 e)) by lia.
  rewrite <- (round_ratio_scale neg (pow_den 10 e)
                (s * pow_num 10 (e + 1)) (pow_den 10 (e + 1))) by lia.
  f_equal; [|ring].
  replace (pow_den 10 e * (s * pow_num 10 (e + 1)))
    with (s * (pow_num 10 (e + 1) * (pow_den 10 e * 1))) by ring.
  rewrite H. ring.
Qed.
(** ** The decimal exponent of a Number *)

Lemma cross_le_lt_trans a b c d e f :
  0 < b -> 0 < d -> 0 < f ->
  a * d <= c * b -> c * f < e * d -> a * f < e * b.
Proof.
  intros Hb Hd Hf H1 H2.
  assert (a * d * f <= c * b * f) by (apply Z.mul_le_mono_nonneg_r; lia).
  assert (c * f * b < e * d * b) by (apply Z.mul_lt_mono_pos_r; lia).
  apply (Z.mul_lt_mono_pos_r d); [lia|].
  replace (a * f * d) with (a * d * f) by ring.
  replace (e * b * d) with (e * d * b) by ring.
  replace (c * b * f) with (c * f * b) in * by ring. lia.
Qed.

Lemma cross_lt_le_trans a b c d e f :
  0 < b -> 0 < d -> 0 < f ->
  a * d < c * b -> c * f <= e * d -> a * f < e * b.
Proof.
  intros Hb Hd Hf H1 H2.
  assert (a * d * f < c * b * f) by (apply Z.mul_lt_mono_pos_r; lia).
  assert (c * f * b <= e * d * b) by (apply Z.mul_le_mono_nonneg_r; lia).
  apply (Z.mul_lt_mono_pos_r d); [lia|].
  replace (a * f * d) with (a * d * f) by ring.
  replace (e * b * d) with (e * d * b) by ring.
  replace (c * b * f) with (c * f * b) in * by ring. lia.
Qed.

Lemma cross_le_le_trans a b c d e f :
  0 < b -> 0 < d -> 0 < f ->
  a * d <= c * b -> c * f <= e * d -> a * f <= e * b.
Proof.
  intros Hb Hd Hf H1 H2.
  assert (a * d * f <= c * b * f) by (apply Z.mul_le_mono_nonneg_r; lia).
  assert (c * f * b <= e * d * b) by (apply Z.mul_le_mono_nonneg_r; lia).
  apply (Z.mul_le_mono_pos_r _ _ d); [lia|].
  replace (a * f * d) with (a * d * f) by ring.
  replace (e * b * d) with (e * d * b) by ring.
  replace (c * b * f) with (c * f * b) in * by ring. lia.
Qed.

(** Powers of a base above one grow with the exponent. *)
Lemma pow_num_den_mono base x y :
  1 < base -> x <= y ->
  pow_num base x * pow_den base y <= pow_num base y * pow_den base x.
Proof.
  intros Hb Hxy.
  pose proof (pow_num_den_add base x (y - x) ltac:(lia)) as H.
  replace (x + (y - x)) with y in H by lia.
  unfold pow_num at 3 in H. unfold pow_den at 2 in H.
  replace (0 <=? y - x) with true in H by (symmetry; apply Z.leb_le; lia).
  assert (1 <= base ^ (y - x)) by (pose proof (Z.pow_pos_nonneg base (y - x)); lia).
  pose proof (pow_num_pos base x ltac:(lia)).
  pose proof (pow_den_pos base y ltac:(lia)).
  rewrite Z.mul_1_r in H. rewrite H. nia.
Qed.

Lemma pow_num_den_strict base x y :
  1 < base -> x < y ->
  pow_num base x * pow_den base y < pow_num base y * pow_den base x.
Proof.
  intros Hb Hxy.
  pose proof (pow_num_den_add base x (y - x) ltac:(lia)) as H.
  replace (x + (y - x)) with y in H by lia.
  unfold pow_num at 3 in H. unfold pow_den at 2 in H.
  replace (0 <=? y - x) with true in H by (symmetry; apply Z.leb_le; lia).
  assert (1 < base ^ (y - x)) by (apply Z.pow_gt_1; lia).
  pose proof (pow_num_pos base x ltac:(lia)).
  pose proof (pow_den_pos base y ltac:(lia)).
  rewrite Z.mul_1_r in H. rewrite H. nia.
Qed.

Lemma below_pow10_iff num den n :
  below_pow10 num den n = true <-> num * pow_den 10 n < den * pow_num 10 n.
Proof.
  unfold below_pow10, pow_num, pow_den. destruct (0 <=? n).
  - rewrite Z.mul_1_r. apply Z.ltb_lt.
  - rewrite Z.mul_1_r. apply Z.ltb_lt.
Qed.

Lemma below_pow10_mono num den n m :
  0 <= num -> 0 < den -> n <= m ->
  below_pow10 num den n = true -> below_pow10 num den m = true.
Proof.
  intros Hn Hd Hnm. rewrite !below_pow10_iff. intro H.
  pose proof (pow_num_den_mono 10 n m ltac:(lia) Hnm) as Hm.
  pose proof (pow_num_pos 10 n ltac:(lia)). pose proof (pow_den_pos 10 n ltac:(lia)).
  pose proof (pow_num_pos 10 m ltac:(lia)). pose proof (pow_den_pos 10 m ltac:(lia)).
  rewrite (Z.mul_comm den).
  apply (cross_lt_le_trans num den (pow_num 10 n) (pow_den 10 n)); lia.
Qed.

Lemma adjust_up_spec num den :
  forall fuel n,
    below_pow10 num den (n + Z.of_nat fuel) = true ->
    let r := adjust_up fuel num den n in
    below_pow10 num den r = true /\ n <= r <= n + Z.of_nat fuel
    /\ (r = n \/ below_pow10 num den (r - 1) = false).
Proof.
  induction fuel as [|f IH]; intros n H; cbn [adjust_up]; cbv zeta.
  - rewrite Z.add_0_r in H. repeat split; auto; lia.
  - destruct (below_pow10 num den n) eqn:E.
    + repeat split; auto; lia.
    + destruct (IH (n + 1)) as (H1 & H2 & H3).
      { now replace (n + 1 + Z.of_nat f) with (n + Z.of_nat (S f)) by lia. }
      split; [exact H1|]. split; [lia|]. right.
      destruct H3 as [->|H3]; [|exact H3].
      now replace (n + 1 - 1) with n by lia.
Qed.

Lemma adjust_down_spec num den :
  forall fuel n,
    below_pow10 num den n = true ->
    below_pow10 num den (n - Z.of_nat fuel - 1) = false ->
    let r := adjust_down fuel num den n in
    below_pow10 num den r = true /\ below_pow10 num den (r - 1) = false
    /\ n - Z.of_nat fuel <= r <= n.
Proof.
  induction fuel as [|f IH]; intros n H1 H2; cbn [adjust_down]; cbv zeta.
  - rewrite Z.sub_0_r in H2. repeat split; auto; lia.
  - destruct (below_pow10 num den (n - 1)) eqn:E.
    + destruct (IH (n - 1) E) as (G1 & G2 & G3).
      { now replace (n - 1 - Z.of_nat f - 1) with (n - Z.of_nat (S f) - 1) by lia. }
      repeat split; auto; lia.
    + repeat split; auto; lia.
Qed.

(** Ten binary digits are between three and five decimal digits. *)
Lemma pow_1024_1000 q :
  0 <= q <= 108 -> 1000 ^ q <= 1024 ^ q <= 100 * 1000 ^ q.
Proof.
  intro Hq. split; [apply Z.pow_le_mono_l; lia|].
  assert (H1 : 1024 ^ 108 <= 100 * 1000 ^ 108) by (vm_compute; discriminate).
  assert (H2 : 1000 ^ (108 - q) <= 1024 ^ (108 - q)) by (apply Z.pow_le_mono_l; lia).
  assert (H3 : 0 < 1000 ^ (108 - q)) by (apply Z.pow_pos_nonneg; lia).
  assert (H4 : 0 < 1024 ^ q) by (apply Z.pow_pos_nonneg; lia).
  replace 108 with (q + (108 - q)) in H1 by lia.
  rewrite !Z.pow_add_r in H1 by lia.
  apply (Z.mul_le_mono_pos_r _ _ (1000 ^ (108 - q))); [lia|].
  assert (1024 ^ q * 1000 ^ (108 - q) <= 1024 ^ q * 1024 ^ (108 - q))
    by (apply Z.mul_le_mono_nonneg_l; lia).
  lia.
Qed.

Lemma pow2_10 q : 0 <= q -> 2 ^ (10 * q) = 1024 ^ q.
Proof. intro H. now rewrite Z.pow_mul_r by lia. Qed.

Lemma pow10_3 q : 0 <= q -> 10 ^ (3 * q) = 1000 ^ q.
Proof. intro H. now rewrite Z.pow_mul_r by lia. Qed.

(** [2 ^ (10 q) <= 10 ^ u] where [u] is [3 q + 2] for [q >= 0] and [3 q]
    below. *)
Lemma pow2_below_pow10 q :
  -108 <= q <= 108 ->
  let u := if 0 <=? q then 3 * q + 2 else 3 * q in
  pow_num 2 (10 * q) * pow_den 10 u <= pow_num 10 u * pow_den 2 (10 * q).
Proof.
  intros Hq u. unfold u, pow_num, pow_den. destruct (0 <=? q) eqn:E.
  - apply Z.leb_le in E.
    replace (0 <=? 10 * q) with true by (symmetry; apply Z.leb_le; lia).
    replace (0 <=? 3 * q + 2) with true by (symmetry; apply Z.leb_le; lia).
    rewrite pow2_10, Z.pow_add_r, pow10_3 by lia.
    pose proof (pow_1024_1000 q ltac:(lia)). change (10 ^ 2) with 100. lia.
  - apply Z.leb_gt in E.
    replace (0 <=? 10 * q) with false by (symmetry; apply Z.leb_gt; lia).
    replace (0 <=? 3 * q) with false by (symmetry; apply Z.leb_gt; lia).
    replace (- (10 * q)) with (10 * (- q)) by lia.
    replace (- (3 * q)) with (3 * (- q)) by lia.
    rewrite pow2_10, pow10_3 by lia.
    pose proof (pow_1024_1000 (- q) ltac:(lia)). lia.
Qed.

(** [10 ^ l <= 2 ^ (10 q)] where [l] is [3 q] for [q >= 0] and [3 q - 2]
    below. *)
Lemma pow10_below_pow2 q :
  -108 <= q <= 108 ->
  let l := if 0 <=? q then 3 * q else 3 * q - 2 in
  pow_num 10 l * pow_den 2 (10 * q) <= pow_num 2 (10 * q) * pow_den 10 l.
Proof.
  intros Hq l. unfold l, pow_num, pow_den. destruct (0 <=? q) eqn:E.
  - apply Z.leb_le in E.
    replace (0 <=? 10 * q) with true by (symmetry; apply Z.leb_le; lia).
    replace (0 <=? 3 * q) with true by (symmetry; apply Z.leb_le; lia).
    rewrite pow2_10, pow10_3 by lia.
    pose proof (pow_1024_1000 q ltac:(lia)). lia.
  - apply Z.leb_gt in E.
    replace (0 <=? 10 * q) with false by (symmetry; apply Z.leb_gt; lia).
    replace (0 <=? 3 * q - 2) with false by (symmetry; apply Z.leb_gt; lia).
    replace (- (10 * q)) with (10 * (- q)) by lia.
    replace (- (3 * q - 2)) with (3 * (- q) + 2) by lia.
    rewrite pow2_10, Z.pow_add_r, pow10_3 by lia.
    pose proof (pow_1024_1000 (- q) ltac:(lia)). change (10 ^ 2) with 100. lia.
Qed.

(** The numerator and the denominator of a Number of mantissa [mx] and
    exponent [ex], as [Number::toString] takes them. *)
Lemma number_between_powers mx ex :
  let num := Zpos mx * pow_num 2 ex in
  let den := pow_den 2 ex in
  let L := Z.log2 (Zpos mx) + ex in
  Z.log2 num - Z.log2 den = L
  /\ pow_num 2 L * den <= num * pow_den 2 L
  /\ num * pow_den 2 (L + 1) < pow_num 2 (L + 1) * den.
Proof.
  intros num den L.
  destruct (Z.log2_spec (Zpos mx) ltac:(lia)) as [Hl Hh].
  pose proof (Z.log2_nonneg (Zpos mx)) as Hn.
  set (lm := Z.log2 (Zpos mx)) in *.
  pose proof (pow_num_pos 2 ex ltac:(lia)). pose proof (pow_den_pos 2 ex ltac:(lia)).
  split; [|split].
  - unfold num, den, L, pow_num, pow_den. fold lm. destruct (0 <=? ex) eqn:E.
    + apply Z.leb_le in E. rewrite Z.log2_mul_pow2 by lia. change (Z.log2 1) with 0. fold lm. lia.
    + apply Z.leb_gt in E. rewrite Z.mul_1_r, Z.log2_pow2 by lia. fold lm. lia.
  - pose proof (pow_num_den_add 2 lm ex ltac:(lia)) as H1. fold L in H1.
    unfold pow_num at 2 in H1. unfold pow_den at 1 in H1.
    replace (0 <=? lm) with true in H1 by (symmetry; apply Z.leb_le; lia).
    pose proof (pow_den_pos 2 L ltac:(lia)).
    unfold num, den. rewrite Z.mul_1_l in H1. rewrite H1. nia.
  - pose proof (pow_num_den_add 2 (lm + 1) ex ltac:(lia)) as H1.
    replace (lm + 1 + ex) with (L + 1) in H1 by (unfold L; lia).
    unfold pow_num at 2 in H1. unfold pow_den at 1 in H1.
    replace (0 <=? lm + 1) with true in H1 by (symmetry; apply Z.leb_le; lia).
    pose proof (pow_den_pos 2 (L + 1) ltac:(lia)).
    replace (Z.succ lm) with (lm + 1) in Hh by lia.
    unfold num, den. rewrite Z.mul_1_l in H1. rewrite H1. nia.
Qed.

(** [decimal_exponent] finds the decimal exponent. *)
Lemma decimal_exponent_spec mx ex :
  -1074 <= ex <= 971 -> Zpos mx < 2 ^ 53 ->
  let num := Zpos mx * pow_num 2 ex in
  let den := pow_den 2 ex in
  let n := decimal_exponent num den in
  below_pow10 num den n = true /\ below_pow10 num den (n - 1) = false
  /\ -340 <= n <= 320.
Proof.
  intros Hex Hmx num den n.
  destruct (number_between_powers mx ex) as (HL & Hlo & Hhi).
  fold num den in HL, Hlo, Hhi.
  set (L := Z.log2 (Zpos mx) + ex) in *.
  assert (HLr : -1074 <= L <= 1023).
  { pose proof (Z.log2_nonneg (Zpos mx)).
    assert (Z.log2 (Zpos mx) < 53) by (apply Z.log2_lt_pow2; lia).
    unfold L. lia. }
  assert (Hnum : 0 < num).
  { unfold num. apply Z.mul_pos_pos; [lia|]. apply pow_num_pos. lia. }
  assert (Hden : 0 < den) by (apply pow_den_pos; lia).
  set (n0 := L * 30103 / 100000).
  assert (Hup : below_pow10 num den (n0 + 6) = true).
  { apply below_pow10_iff.
    set (q := (L + 10) / 10).
    assert (Hq : -108 <= q <= 108 /\ L + 1 <= 10 * q) by (unfold q; Z.div_mod_to_equations; lia).
    pose proof (pow2_below_pow10 q (proj1 Hq)) as H1. cbv zeta in H1.
    set (u := if 0 <=? q then 3 * q + 2 else 3 * q) in *.
    assert (Hu : u <= n0 + 6).
    { unfold u, n0, q. destruct (0 <=? (L + 10) / 10) eqn:E;
        [apply Z.leb_le in E | apply Z.leb_gt in E];
        Z.div_mod_to_equations; lia. }
    pose proof (pow_num_den_mono 2 (L + 1) (10 * q) ltac:(lia) (proj2 Hq)) as H2.
    pose proof (pow_num_den_mono 10 u (n0 + 6) ltac:(lia) Hu) as H3.
    pose proof (pow_num_pos 2 (L + 1) ltac:(lia)).
    pose proof (pow_den_pos 2 (L + 1) ltac:(lia)).
    pose proof (pow_num_pos 2 (10 * q) ltac:(lia)).
    pose proof (pow_den_pos 2 (10 * q) ltac:(lia)).
    pose proof (pow_num_pos 10 u ltac:(lia)). pose proof (pow_den_pos 10 u ltac:(lia)).
    pose proof (pow_num_pos 10 (n0 + 6) ltac:(lia)).
    pose proof (pow_den_pos 10 (n0 + 6) ltac:(lia)).
    rewrite (Z.mul_comm den).
    apply (cross_lt_le_trans num den (pow_num 2 (L + 1)) (pow_den 2 (L + 1)));
      try lia.
    apply (cross_le_le_trans _ _ (pow_num 2 (10 * q)) (pow_den 2 (10 * q)));
      try lia.
    apply (cross_le_le_trans _ _ (pow_num 10 u) (pow_den 10 u)); lia. }
  assert (Hdown : below_pow10 num den (n0 - 7) = false).
  { destruct (below_pow10 num den (n0 - 7)) eqn:Eb; [|reflexivity].
    apply below_pow10_iff in Eb. exfalso.
    set (q := L / 10).
    assert (Hq : -108 <= q <= 108 /\ 10 * q <= L) by (unfold q; Z.div_mod_to_equations; lia).
    pose proof (pow10_below_pow2 q (proj1 Hq)) as H1. cbv zeta in H1.
    set (l := if 0 <=? q then 3 * q else 3 * q - 2) in *.
    assert (Hl : n0 - 7 <= l).
    { unfold l, n0, q. destruct (0 <=? L / 10) eqn:E;
        [apply Z.leb_le in E | apply Z.leb_gt in E];
        Z.div_mod_to_equations; lia. }
    pose proof (pow_num_den_mono 2 (10 * q) L ltac:(lia) (proj2 Hq)) as H2.
    pose proof (pow_num_den_mono 10 (n0 - 7) l ltac:(lia) Hl) as H3.
    pose proof (pow_num_pos 2 L ltac:(lia)). pose proof (pow_den_pos 2 L ltac:(lia)).
    pose proof (pow_num_pos 2 (10 * q) ltac:(lia)).
    pose proof (pow_den_pos 2 (10 * q) ltac:(lia)).
    pose proof (pow_num_pos 10 l ltac:(lia)). pose proof (pow_den_pos 10 l ltac:(lia)).
    pose proof (pow_num_pos 10 (n0 - 7) ltac:(lia)).
    pose proof (pow_den_pos 10 (n0 - 7) ltac:(lia)).
    assert (G : pow_num 10 (n0 - 7) * den <= num * pow_den 10 (n0 - 7)).
    { apply (cross_le_le_trans _ _ (pow_num 2 L) (pow_den 2 L)); try lia.
      apply (cross_le_le_trans _ _ (pow_num 2 (10 * q)) (pow_den 2 (10 * q)));
        try lia.
      apply (cross_le_le_trans _ _ (pow_num 10 l) (pow_den 10 l)); lia. }
    lia. }
  unfold n, decimal_exponent. rewrite HL. fold n0.
  destruct (adjust_up_spec num den 6 n0 Hup) as (U1 & U2 & U3).
  set (n1 := adjust_up 6 num den n0) in *.
  assert (Hd1 : below_pow10 num den (n1 - Z.of_nat 6 - 1) = false).
  { destruct U3 as [->|U3];
      [now replace (n0 - Z.of_nat 6 - 1) with (n0 - 7) by lia|].
    destruct (below_pow10 num den (n1 - Z.of_nat 6 - 1)) eqn:Eb; [|reflexivity].
    rewrite (below_pow10_mono num den (n1 - Z.of_nat 6 - 1) (n1 - 1)) in U3;
      [discriminate | lia | lia | lia | exact Eb]. }
  destruct (adjust_down_spec num den 6 n1 U1 Hd1) as (D1 & D2 & D3).
  split; [exact D1|]. split; [exact D2|].
  unfold n0 in *. Z.div_mod_to_equations. lia.
Qed.
(** ** Seventeen digits are enough *)

(** [G] stands for the unit in the last place of the Number [mx * G], [U]
    for the unit in the last place of its seventeen-digit decimals: one of
    the two decimals next to the Number is nearer to it than half a unit of
    the Number, and not below its binade. *)
Lemma seventeen_digits G U mx lo dm (low : Prop) :
  0 < G -> 0 < U -> 0 < mx ->
  2 ^ (dm - 1) <= mx < 2 ^ dm -> 1 <= dm <= 53 -> (dm = 53 \/ low) ->
  10 ^ 16 * U <= mx * G ->
  lo * U <= mx * G < (lo + 1) * U ->
  let near c :=
    (2 * mx - 1) * G < 2 * c * U /\ 2 * c * U < (2 * mx + 1) * G
    /\ (2 ^ (dm - 1) * G <= c * U \/ low) in
  near lo \/ near (lo + 1).
Proof.
  intros HG HU Hmx [Hm1 Hm2] Hdm Hcase H16 [Hlo Hhi] near. unfold near.
  assert (H53 : 2 ^ dm <= 2 ^ 53) by (apply Z.pow_le_mono_r; lia).
  assert (HmG : mx * G < 2 ^ 53 * G) by (apply Z.mul_lt_mono_pos_r; lia).
  assert (HUG : 10 ^ 16 * U < 2 ^ 53 * G) by lia.
  assert (HUG' : U < G).
  { change (10 ^ 16) with 10000000000000000 in HUG.
    change (2 ^ 53) with 9007199254740992 in HUG. lia. }
  set (a1 := mx * G) in *. set (a2 := lo * U) in *.
  replace ((lo + 1) * U) with (a2 + U) in * by (unfold a2; ring).
  replace ((2 * mx - 1) * G) with (2 * a1 - G) by (unfold a1; ring).
  replace ((2 * mx + 1) * G) with (2 * a1 + G) by (unfold a1; ring).
  replace (2 * lo * U) with (2 * a2) by (unfold a2; ring).
  replace (2 * (lo + 1) * U) with (2 * a2 + 2 * U) by (unfold a2; ring).
  replace ((lo + 1) * U) with (a2 + U) by (unfold a2; ring).
  set (b := 2 ^ (dm - 1) * G) in *.
  assert (Hb : b <= a1) by (unfold b, a1; apply Z.mul_le_mono_nonneg_r; lia).
  destruct (Z_lt_le_dec a2 b) as [Hbin|Hbin].
  - (* the lower decimal is below the binade *)
    destruct Hcase as [Hd|Hl].
    + right. assert (Hmx' : mx = 2 ^ (dm - 1)).
      { assert (mx * G - 2 ^ (dm - 1) * G < G) by (fold a1 b; lia).
        assert ((mx - 2 ^ (dm - 1)) * G < 1 * G) by lia.
        assert (mx - 2 ^ (dm - 1) < 1) by (apply (Z.mul_lt_mono_pos_r G); lia).
        lia. }
      assert (Hab : a1 = b) by (unfold a1, b; now rewrite Hmx').
      assert (H2U : 2 * U < G).
      { subst dm. change (2 ^ (53 - 1)) with 4503599627370496 in *.
        change (10 ^ 16) with 10000000000000000 in H16.
        unfold a1 in H16. rewrite Hmx' in H16. lia. }
      repeat split; try lia.
    + destruct (Z_lt_le_dec (2 * (a1 - a2)) G) as [Hn|Hn].
      * left. repeat split; try lia; now right.
      * right. repeat split; try lia; now right.
  - destruct (Z_lt_le_dec (2 * (a1 - a2)) G) as [Hn|Hn].
    + left. repeat split; try lia.
    + right. repeat split; try lia.
Qed.
Lemma scaled_floor_forms num den e :
  scaled_floor num den e = num * pow_den 10 e / (den * pow_num 10 e).
Proof.
  unfold scaled_floor, pow_num, pow_den.
  destruct (0 <=? e); now rewrite Z.mul_1_r.
Qed.

(** With [n] the decimal exponent and [k] digits, the Number is between
    [10 ^ (k - 1)] and [10 ^ k] units of the last digit. *)
Lemma digits_bracket num den n k :
  0 <= num -> 0 < den -> 1 <= k ->
  below_pow10 num den n = true -> below_pow10 num den (n - 1) = false ->
  let e := n - k in
  10 ^ (k - 1) * (den * pow_num 10 e) <= num * pow_den 10 e
  /\ num * pow_den 10 e < 10 ^ k * (den * pow_num 10 e).
Proof.
  intros Hnum Hden Hk Hb Hnb e.
  apply below_pow10_iff in Hb.
  assert (Hnb' : den * pow_num 10 (n - 1) <= num * pow_den 10 (n - 1)).
  { destruct (Z_lt_le_dec (num * pow_den 10 (n - 1)) (den * pow_num 10 (n - 1)))
      as [H|H]; [|exact H].
    apply below_pow10_iff in H. congruence. }
  pose proof (pow_num_pos 10 e ltac:(lia)) as P1.
  pose proof (pow_den_pos 10 e ltac:(lia)) as P2.
  pose proof (pow_num_pos 10 n ltac:(lia)) as P3.
  pose proof (pow_den_pos 10 n ltac:(lia)) as P4.
  pose proof (pow_num_pos 10 (n - 1) ltac:(lia)) as P5.
  pose proof (pow_den_pos 10 (n - 1) ltac:(lia)) as P6.
  split.
  - pose proof (pow_num_den_add 10 e (k - 1) ltac:(lia)) as H.
    replace (e + (k - 1)) with (n - 1) in H by (unfold e; lia).
    unfold pow_num at 3 in H. unfold pow_den at 2 in H.
    replace (0 <=? k - 1) with true in H by (symmetry; apply Z.leb_le; lia).
    rewrite Z.mul_1_r in H.
    apply (Z.mul_le_mono_pos_r _ _ (pow_den 10 (n - 1))); [lia|].
    replace (10 ^ (k - 1) * (den * pow_num 10 e) * pow_den 10 (n - 1))
      with (den * (pow_num 10 e * 10 ^ (k - 1) * pow_den 10 (n - 1))) by ring.
    rewrite <- H.
    replace (den * (pow_num 10 (n - 1) * pow_den 10 e))
      with (den * pow_num 10 (n - 1) * pow_den 10 e) by ring.
    replace (num * pow_den 10 e * pow_den 10 (n - 1))
      with (num * pow_den 10 (n - 1) * pow_den 10 e) by ring.
    apply Z.mul_le_mono_nonneg_r; lia.
  - pose proof (pow_num_den_add 10 e k ltac:(lia)) as H.
    replace (e + k) with n in H by (unfold e; lia).
    unfold pow_num at 3 in H. unfold pow_den at 2 in H.
    replace (0 <=? k) with true in H by (symmetry; apply Z.leb_le; lia).
    rewrite Z.mul_1_r in H.
    apply (Z.mul_lt_mono_pos_r (pow_den 10 n)); [lia|].
    replace (10 ^ k * (den * pow_num 10 e) * pow_den 10 n)
      with (den * (pow_num 10 e * 10 ^ k * pow_den 10 n)) by ring.
    rewrite <- H.
    replace (den * (pow_num 10 n * pow_den 10 e))
      with (den * pow_num 10 n * pow_den 10 e) by ring.
    replace (num * pow_den 10 e * pow_den 10 n)
      with (num * pow_den 10 n * pow_den 10 e) by ring.
    apply Z.mul_lt_mono_pos_r; lia.
Qed.

Lemma bridge_lt alpha beta pn pd Bp Bm W G2 :
  0 < Bm -> 0 < G2 -> W * Bm = Bp * G2 ->
  alpha * (Bp * pd) < beta * (Bm * pn) ->
  alpha * (pd * W) < beta * (pn * G2).
Proof.
  intros HB HG HW H. apply (Z.mul_lt_mono_pos_r Bm); [lia|].
  replace (alpha * (pd * W) * Bm) with (alpha * pd * (W * Bm)) by ring.
  rewrite HW.
  replace (alpha * pd * (Bp * G2)) with (alpha * (Bp * pd) * G2) by ring.
  replace (beta * (pn * G2) * Bm) with (beta * (Bm * pn) * G2) by ring.
  apply Z.mul_lt_mono_pos_r; lia.
Qed.

Lemma bridge_le alpha beta pn pd Bp Bm W G2 :
  0 < Bm -> 0 < G2 -> W * Bm = Bp * G2 ->
  alpha * (Bp * pd) <= beta * (Bm * pn) ->
  alpha * (pd * W) <= beta * (pn * G2).
Proof.
  intros HB HG HW H. apply (Z.mul_le_mono_pos_r _ _ Bm); [lia|].
  replace (alpha * (pd * W) * Bm) with (alpha * pd * (W * Bm)) by ring.
  rewrite HW.
  replace (alpha * pd * (Bp * G2)) with (alpha * (Bp * pd) * G2) by ring.
  replace (beta * (pn * G2) * Bm) with (beta * (Bm * pn) * G2) by ring.
  apply Z.mul_le_mono_nonneg_r; lia.
Qed.

Lemma bridge_gt alpha beta pn pd Bp Bm W G2 :
  0 < Bm -> 0 < G2 -> W * Bm = Bp * G2 ->
  alpha * (Bm * pn) < beta * (Bp * pd) ->
  alpha * (pn * G2) < beta * (pd * W).
Proof.
  intros HB HG HW H. apply (Z.mul_lt_mono_pos_r Bm); [lia|].
  replace (beta * (pd * W) * Bm) with (beta * pd * (W * Bm)) by ring.
  rewrite HW.
  replace (beta * pd * (Bp * G2)) with (beta * (Bp * pd) * G2) by ring.
  replace (alpha * (pn * G2) * Bm) with (alpha * (Bm * pn) * G2) by ring.
  apply Z.mul_lt_mono_pos_r; lia.
Qed.

Lemma guard_shift ex :
  -1074 <= ex ->
  2 ^ (ex + guard) * pow_den 2 ex = pow_num 2 ex * 2 ^ guard.
Proof.
  intro H. pose proof (pow_num_den_add 2 ex guard ltac:(lia)) as E.
  unfold pow_num at 1 3 in E. unfold pow_den at 2 3 in E.
  replace (0 <=? ex + guard) with true in E by (symmetry; apply Z.leb_le; unfold guard; lia).
  replace (0 <=? guard) with true in E by reflexivity.
  lia.
Qed.

(** A decimal near enough to a Number reads as that Number. *)
Lemma near_decimal_reads neg mx ex c e :
  bounded prec emax mx ex = true ->
  0 < c -> -1000 <= e <= 400 ->
  let G := pow_num 2 ex * pow_den 10 e in
  let U := pow_den 2 ex * pow_num 10 e in
  (2 * Zpos mx - 1) * G < 2 * c * U ->
  2 * c * U < (2 * Zpos mx + 1) * G ->
  2 ^ (Zpos (digits2_pos mx) - 1) * G <= c * U \/ ex = -1074 ->
  decimal_to_float neg c e = SF2Prim (S754_finite neg mx ex).
Proof.
  intros Hbd Hc He G U Hlo Hhi Hbin.
  rewrite decimal_to_float_value by assumption. f_equal.
  pose proof Hbd as Hbd'. apply bounded_canonical in Hbd' as (_ & _ & Hex & _).
  pose proof (pow_num_pos 10 e ltac:(lia)) as P1.
  pose proof (pow_den_pos 10 e ltac:(lia)) as P2.
  pose proof (pow_num_pos 2 ex ltac:(lia)) as P3.
  pose proof (pow_den_pos 2 ex ltac:(lia)) as P4.
  assert (HG2 : 0 < 2 ^ guard) by (apply Z.pow_pos_nonneg; unfold guard; lia).
  pose proof (guard_shift ex Hex) as HW.
  apply round_ratio_near; try assumption.
  - apply Z.mul_pos_pos; lia.
  - replace (2 * (c * pow_num 10 e * 2 ^ guard))
      with (2 * c * (pow_num 10 e * 2 ^ guard)) by ring.
    apply (bridge_lt _ _ _ _ (pow_num 2 ex) (pow_den 2 ex)); try assumption.
  - replace (2 * (c * pow_num 10 e * 2 ^ guard))
      with (2 * c * (pow_num 10 e * 2 ^ guard)) by ring.
    apply (bridge_gt _ _ _ _ (pow_num 2 ex) (pow_den 2 ex)); assumption.
  - destruct Hbin as [Hbin|Hbin]; [left|now right].
    replace (c * pow_num 10 e * 2 ^ guard) with (c * (pow_num 10 e * 2 ^ guard)) by ring.
    apply (bridge_le _ _ _ _ (pow_num 2 ex) (pow_den 2 ex)); assumption.
Qed.
(** ** The digits that [Number::toString] finds *)

Lemma eqb_finite_refl y s m e :
  Prim2SF y = S754_finite s m e -> PrimFloat.eqb y y = true.
Proof.
  intro H. rewrite eqb_spec, H. unfold SFeqb, SFcompare.
  rewrite Z.compare_refl.
  assert (Pos.compare_cont Eq m m = Eq) by apply Pos.compare_cont_refl.
  destruct s; rewrite H0; reflexivity.
Qed.

Lemma eqb_finite_eq d y m e :
  Prim2SF y = S754_finite false m e -> PrimFloat.eqb d y = true -> d = y.
Proof.
  intros H E. apply Prim2SF_inj. rewrite H.
  rewrite eqb_spec, H in E. unfold SFeqb, SFcompare in E.
  destruct (Prim2SF d) as [s|s| |s m' e']; try discriminate.
  - destruct s; discriminate.
  - destruct s; [discriminate|].
    destruct (Z.compare_spec e' e) as [He|He|He]; try discriminate.
    rewrite Pos.compare_cont_spec in E. unfold Pos.switch_Eq in E.
    destruct (m' ?= m)%positive eqn:C; try discriminate.
    apply Pos.compare_eq in C. now subst.
Qed.

Lemma pick_digits_spec x num den n k :
  let e := n - k in
  let lo := scaled_floor num den e in
  match pick_digits x num den n k with
  | Some (s, n') =>
      exists c, (c = lo \/ c = lo + 1)
        /\ PrimFloat.eqb (decimal_to_float false c e) x = true
        /\ (s, n') = (if c =? 10 ^ k then (c / 10, n + 1) else (c, n))
  | None =>
      PrimFloat.eqb (decimal_to_float false lo e) x = false
      /\ PrimFloat.eqb (decimal_to_float false (lo + 1) e) x = false
  end.
Proof.
  intros e lo. unfold pick_digits. fold e. fold lo. cbv zeta.
  destruct (PrimFloat.eqb (decimal_to_float false lo e) x) eqn:E1;
    destruct (PrimFloat.eqb (decimal_to_float false (lo + 1) e) x) eqn:E2;
    cbn [andb].
  - match goal with
    | |- context [if ?b then ?u else ?v] =>
        assert (Hc : (if b then u else v) = Lt \/ (if b then u else v) = Eq
                     \/ (if b then u else v) = Gt)
          by (destruct (if b then u else v); auto)
    end.
    destruct Hc as [Hc|[Hc|Hc]]; rewrite Hc.
    + destruct (lo =? 10 ^ k) eqn:En; exists lo; rewrite ?En; auto.
    + destruct (Z.even lo).
      * destruct (lo =? 10 ^ k) eqn:En; exists lo; rewrite ?En; auto.
      * destruct (lo + 1 =? 10 ^ k) eqn:En; exists (lo + 1); rewrite ?En; auto.
    + destruct (lo + 1 =? 10 ^ k) eqn:En; exists (lo + 1); rewrite ?En; auto.
  - destruct (lo =? 10 ^ k) eqn:En; exists lo; rewrite ?En; auto.
  - destruct (lo + 1 =? 10 ^ k) eqn:En; exists (lo + 1); rewrite ?En; auto.
  - auto.
Qed.

Lemma shortest_digits_spec x num den n :
  forall fuel k0,
    (exists k, k0 <= k < k0 + Z.of_nat fuel /\ pick_digits x num den n k <> None) ->
    exists k s n',
      k0 <= k < k0 + Z.of_nat fuel
      /\ pick_digits x num den n k = Some (s, n')
      /\ shortest_digits fuel x num den n k0 = (s, k, n').
Proof.
  induction fuel as [|f IH]; intros k0 (k & Hk & Hp); [lia|].
  cbn [shortest_digits].
  destruct (pick_digits x num den n k0) as [[s n']|] eqn:E.
  - exists k0, s, n'. repeat split; auto; lia.
  - assert (Hk' : k0 + 1 <= k < k0 + 1 + Z.of_nat f).
    { destruct (Z.eq_dec k k0) as [->|Hne]; [congruence|]. lia. }
    destruct (IH (k0 + 1) (ex_intro _ k (conj Hk' Hp))) as (k1 & s & n' & H1 & H2 & H3).
    exists k1, s, n'. repeat split; auto; lia.
Qed.
Lemma finite_mantissa_bound mx ex :
  bounded prec emax mx ex = true -> Zpos mx < 2 ^ 53.
Proof.
  intro H. apply bounded_canonical in H as (_ & _ & _ & Hd & _).
  destruct (Zdigits2_bounds (Zpos mx) ltac:(lia)) as [_ Hm]. cbn [Zdigits2] in Hm.
  assert (2 ^ Zpos (digits2_pos mx) <= 2 ^ 53) by (apply Z.pow_le_mono_r; lia).
  lia.
Qed.

(** The floor of a Number in units of the last of [k] digits has [k]
    digits. *)
Lemma scaled_floor_digits num den n k :
  0 <= num -> 0 < den -> 1 <= k ->
  below_pow10 num den n = true -> below_pow10 num den (n - 1) = false ->
  let e := n - k in
  let U := den * pow_num 10 e in
  let lo := scaled_floor num den e in
  10 ^ (k - 1) <= lo < 10 ^ k
  /\ lo * U <= num * pow_den 10 e < (lo + 1) * U.
Proof.
  intros Hnum Hden Hk Hb Hnb e U lo.
  destruct (digits_bracket num den n k Hnum Hden Hk Hb Hnb) as [H1 H2].
  fold e in H1, H2. fold U in H1, H2.
  assert (HU : 0 < U).
  { unfold U. apply Z.mul_pos_pos; [lia|]. apply pow_num_pos. lia. }
  unfold lo. rewrite scaled_floor_forms. fold U.
  set (N := num * pow_den 10 e) in *.
  pose proof (Z.div_mod N U ltac:(lia)) as E.
  pose proof (Z.mod_pos_bound N U HU) as Hr.
  repeat split.
  - apply Z.div_le_lower_bound; lia.
  - apply Z.div_lt_upper_bound; lia.
  - nia.
  - nia.
Qed.

(** With seventeen digits, one of the two decimals next to a Number reads
    as that Number. *)
Lemma seventeen_digits_read y mx ex :
  Prim2SF y = S754_finite false mx ex ->
  let num := Zpos mx * pow_num 2 ex in
  let den := pow_den 2 ex in
  pick_digits y num den (decimal_exponent num den) 17 <> None.
Proof.
  intros Hy num den.
  pose proof (Prim2SF_valid y) as Hbd. rewrite Hy in Hbd. cbn [valid_binary] in Hbd.
  pose proof (bounded_canonical mx ex Hbd) as (Hc & He1 & He2 & Hd & Hcase).
  pose proof (finite_mantissa_bound mx ex Hbd) as Hmx.
  destruct (decimal_exponent_spec mx ex ltac:(lia) Hmx) as (B1 & B2 & Hn).
  fold num den in B1, B2, Hn.
  set (n := decimal_exponent num den) in *.
  assert (Hnum : 0 < num).
  { unfold num. apply Z.mul_pos_pos; [lia|]. apply pow_num_pos. lia. }
  assert (Hden : 0 < den) by (apply pow_den_pos; lia).
  destruct (scaled_floor_digits num den n 17 ltac:(lia) Hden ltac:(lia) B1 B2)
    as ([L1 L2] & [F1 F2]).
  destruct (digits_bracket num den n 17 ltac:(lia) Hden ltac:(lia) B1 B2) as [D1 _].
  set (e := n - 17) in *. set (lo := scaled_floor num den e) in *.
  set (U := den * pow_num 10 e) in *.
  set (G := pow_num 2 ex * pow_den 10 e).
  assert (HN : num * pow_den 10 e = Zpos mx * G) by (unfold num, G; ring).
  rewrite HN in F1, F2, D1. change (17 - 1) with 16 in *.
  assert (HG : 0 < G).
  { unfold G. apply Z.mul_pos_pos; [apply pow_num_pos | apply pow_den_pos]; lia. }
  assert (HU : 0 < U).
  { unfold U. apply Z.mul_pos_pos; [lia|]. apply pow_num_pos. lia. }
  assert (Hlo : 0 < lo) by (pose proof (Z.pow_pos_nonneg 10 16); lia).
  destruct (Zdigits2_bounds (Zpos mx) ltac:(lia)) as [M1 M2]. cbn [Zdigits2] in M1, M2.
  pose proof (seventeen_digits G U (Zpos mx) lo (Zpos (digits2_pos mx)) (ex = -1074)
                HG HU ltac:(lia) (conj M1 M2) ltac:(lia) Hcase D1 (conj F1 F2)) as Hnear.
  cbv zeta in Hnear.
  pose proof (pick_digits_spec y num den n 17) as Hp. cbv zeta in Hp.
  fold e in Hp. fold lo in Hp.
  intro Hnone. rewrite Hnone in Hp. destruct Hp as [P1 P2].
  assert (Hrefl : PrimFloat.eqb y y = true) by (eapply eqb_finite_refl; eassumption).
  assert (Hread : forall c, 0 < c ->
            (2 * Zpos mx - 1) * G < 2 * c * U /\ 2 * c * U < (2 * Zpos mx + 1) * G
            /\ (2 ^ (Zpos (digits2_pos mx) - 1) * G <= c * U \/ ex = -1074) ->
            decimal_to_float false c e = y).
  { intros c Hc' (N1 & N2 & N3).
    rewrite (near_decimal_reads false mx ex c e Hbd Hc' ltac:(unfold e; lia) N1 N2 N3).
    rewrite <- Hy. apply SF2Prim_Prim2SF. }
  destruct Hnear as [Hnear|Hnear].
  - rewrite (Hread lo Hlo Hnear) in P1. congruence.
  - rewrite (Hread (lo + 1) ltac:(lia) Hnear) in P2. congruence.
Qed.

(** The digits of [Number::toString]: at most seventeen, no leading zero,
    and they read as the Number. *)
Lemma shortest_digits_read y mx ex :
  Prim2SF y = S754_finite false mx ex ->
  let num := Zpos mx * pow_num 2 ex in
  let den := pow_den 2 ex in
  exists s k n,
    shortest_digits 17 y num den (decimal_exponent num den) 1 = (s, k, n)
    /\ 1 <= k <= 17 /\ 10 ^ (k - 1) <= s < 10 ^ k
    /\ decimal_to_float false s (n - k) = y
    /\ -340 <= n <= 321.
Proof.
  intros Hy num den.
  pose proof (Prim2SF_valid y) as Hbd. rewrite Hy in Hbd. cbn [valid_binary] in Hbd.
  pose proof (bounded_canonical mx ex Hbd) as (Hc & He1 & He2 & Hd & Hcase).
  pose proof (finite_mantissa_bound mx ex Hbd) as Hmx.
  destruct (decimal_exponent_spec mx ex ltac:(lia) Hmx) as (B1 & B2 & Hn).
  fold num den in B1, B2, Hn.
  pose proof (seventeen_digits_read y mx ex Hy) as H17. fold num den in H17.
  set (n := decimal_exponent num den) in *.
  assert (Hnum : 0 < num).
  { unfold num. apply Z.mul_pos_pos; [lia|]. apply pow_num_pos. lia. }
  assert (Hden : 0 < den) by (apply pow_den_pos; lia).
  assert (Hex17 : exists k, 1 <= k < 1 + Z.of_nat 17
                            /\ pick_digits y num den n k <> None).
  { exists 17. split; [cbn; lia | exact H17]. }
  destruct (shortest_digits_spec y num den n 17 1 Hex17)
    as (k & s & n' & Hk & Hp & Hs).
  change (Z.of_nat 17) with 17 in Hk.
  exists s, k, n'. split; [exact Hs|]. split; [lia|].
  pose proof (pick_digits_spec y num den n k) as Hspec. cbv zeta in Hspec.
  rewrite Hp in Hspec. destruct Hspec as (c & Hc' & Hok & Hnorm).
  destruct (scaled_floor_digits num den n k ltac:(lia) Hden ltac:(lia) B1 B2)
    as ([L1 L2] & _).
  set (lo := scaled_floor num den (n - k)) in *.
  assert (Hp10 : 0 < 10 ^ (k - 1)) by (apply Z.pow_pos_nonneg; lia).
  assert (Hpk : 10 ^ k = 10 ^ (k - 1) * 10).
  { replace k with (k - 1 + 1) at 1 by lia. now rewrite Z.pow_add_r by lia. }
  assert (Hcr : 10 ^ (k - 1) <= c <= 10 ^ k) by (destruct Hc'; lia).
  apply (eqb_finite_eq _ y mx ex Hy) in Hok.
  destruct (c =? 10 ^ k) eqn:Ec.
  - apply Z.eqb_eq in Ec. injection Hnorm as -> ->.
    rewrite Ec, Hpk, Z.div_mul by lia.
    split; [lia|]. split; [|lia].
    replace (n + 1 - k) with (n - k + 1) by lia.
    rewrite <- decimal_to_float_shift by lia.
    rewrite <- Hpk, <- Ec. exact Hok.
  - apply Z.eqb_neq in Ec. injection Hnorm as -> ->.
    split; [lia|]. split; [exact Hok | lia].
Qed.
(** ** Decimal digit strings *)

Lemma dec_digits_length k v : List.length (dec_digits k v) = k.
Proof.
  revert v. induction k as [|k IH]; intro v; cbn [dec_digits]; [reflexivity|].
  rewrite length_app, IH. cbn. lia.
Qed.

Lemma digit_char d : 0 <= d < 10 -> digit_value 10 (48 + d) = Some d.
Proof.
  intro H. pose proof (digit_value_char 10 d H ltac:(lia)) as E.
  now replace (d <? 10) with true in E by (symmetry; apply Z.ltb_lt; lia).
Qed.

Lemma read_digits_dec k : forall v rest acc cnt,
  0 <= v < 10 ^ Z.of_nat k ->
  read_digits 10 (dec_digits k v ++ rest) acc cnt
  = read_digits 10 rest (acc * 10 ^ Z.of_nat k + v) (cnt + Z.of_nat k).
Proof.
  induction k as [|k IH]; intros v rest acc cnt Hv.
  - cbn [dec_digits app]. change (Z.of_nat 0) with 0 in *.
    rewrite Z.pow_0_r in *. f_equal; lia.
  - cbn [dec_digits]. rewrite <- app_assoc. cbn [app].
    rewrite Nat2Z.inj_succ, Z.pow_succ_r in * by lia.
    pose proof (Z.div_mod v 10 ltac:(lia)) as E.
    pose proof (Z.mod_pos_bound v 10 ltac:(lia)) as Hm.
    rewrite IH by (split; [apply Z.div_pos; lia | apply Z.div_lt_upper_bound; lia]).
    cbn [read_digits]. rewrite digit_char by lia. f_equal; lia.
Qed.

Lemma read_digits_stop rest acc cnt :
  stops rest -> read_digits 10 rest acc cnt = (acc, cnt, rest).
Proof.
  destruct rest as [|c rest]; [reflexivity|]. cbn [stops read_digits].
  now intros ->.
Qed.

Lemma read_digits_dec_stop k v rest acc cnt :
  0 <= v < 10 ^ Z.of_nat k -> stops rest ->
  read_digits 10 (dec_digits k v ++ rest) acc cnt
  = (acc * 10 ^ Z.of_nat k + v, cnt + Z.of_nat k, rest).
Proof.
  intros Hv Hs. rewrite read_digits_dec by exact Hv. now apply read_digits_stop.
Qed.

Lemma dec_digits_split j i : forall v,
  0 <= v ->
  dec_digits (j + i) v
  = dec_digits j (v / 10 ^ Z.of_nat i) ++ dec_digits i (v mod 10 ^ Z.of_nat i).
Proof.
  induction i as [|i IH]; intros v Hv.
  - rewrite Nat.add_0_r. change (Z.of_nat 0) with 0. rewrite Z.pow_0_r, Z.div_1_r.
    cbn [dec_digits]. now rewrite app_nil_r.
  - rewrite Nat.add_succ_r. cbn [dec_digits].
    rewrite IH by (apply Z.div_pos; lia).
    rewrite Nat2Z.inj_succ, Z.pow_succ_r by lia.
    assert (Hp : 0 < 10 ^ Z.of_nat i) by (apply Z.pow_pos_nonneg; lia).
    rewrite <- app_assoc. f_equal; [f_equal; now rewrite Z.div_div by lia|].
    f_equal.
    + f_equal. rewrite Z.rem_mul_r by lia.
      rewrite (Z.mul_comm 10 ((v / 10) mod 10 ^ Z.of_nat i)).
      rewrite Z.div_add by lia.
      rewrite (Z.div_small (v mod 10) 10) by (apply Z.mod_pos_bound; lia). lia.
    + do 2 f_equal. rewrite Z.rem_mul_r by lia.
      rewrite (Z.mul_comm 10 ((v / 10) mod 10 ^ Z.of_nat i)).
      rewrite Z.mod_add by lia. now rewrite Z.mod_mod by lia.
Qed.

Lemma zeros_dec_digits j : zeros (Z.of_nat j) = dec_digits j 0.
Proof.
  unfold zeros. rewrite Nat2Z.id.
  induction j as [|j IH]; [reflexivity|].
  cbn [dec_digits]. change (0 / 10) with 0. change (48 + 0 mod 10) with 48.
  rewrite <- IH. clear IH. induction j as [|j IH]; [reflexivity|].
  cbn [repeat app] in *. now rewrite <- IH.
Qed.

Lemma digits_fuel_dec : forall k fuel n acc,
  (1 <= k <= fuel)%nat ->
  10 ^ (Z.of_nat k - 1) <= n < 10 ^ Z.of_nat k ->
  digits_fuel fuel 10 n acc = dec_digits k n ++ acc.
Proof.
  induction k as [|k IH]; intros fuel n acc Hk Hn; [lia|].
  destruct fuel as [|f]; [lia|]. cbn [digits_fuel]. cbv zeta.
  pose proof (Z.mod_pos_bound n 10 ltac:(lia)) as Hm.
  replace (n mod 10 <? 10) with true by (symmetry; apply Z.ltb_lt; lia).
  destruct k as [|k].
  - change (Z.of_nat 1) with 1 in Hn. cbn in Hn.
    replace (n <? 10) with true by (symmetry; apply Z.ltb_lt; lia).
    reflexivity.
  - assert (Hp : 0 < 10 ^ Z.of_nat k) by (apply Z.pow_pos_nonneg; lia).
    rewrite !Nat2Z.inj_succ in Hn.
    replace (Z.succ (Z.succ (Z.of_nat k)) - 1) with (Z.succ (Z.of_nat k)) in Hn by lia.
    rewrite !Z.pow_succ_r in Hn by lia.
    replace (n <? 10) with false by (symmetry; apply Z.ltb_ge; lia).
    rewrite (IH f (n / 10)).
    + cbn [dec_digits]. now rewrite <- !app_assoc.
    + lia.
    + rewrite Nat2Z.inj_succ.
      replace (Z.succ (Z.of_nat k) - 1) with (Z.of_nat k) by lia.
      rewrite Z.pow_succ_r by lia. split.
      * apply Z.div_le_lower_bound; lia.
      * apply Z.div_lt_upper_bound; lia.
Qed.

(** The digits that [toString] writes for a number of [k] digits. *)
Lemma Z_digits_dec k s :
  (1 <= k)%nat -> 10 ^ (Z.of_nat k - 1) <= s < 10 ^ Z.of_nat k ->
  Z_digits 10 s = dec_digits k s.
Proof.
  intros Hk Hs. unfold Z_digits.
  rewrite (digits_fuel_dec k); [apply app_nil_r | | exact Hs].
  split; [exact Hk|].
  assert (Hl : Z.of_nat k - 1 <= Z.log2 s).
  { assert (H2 : 2 ^ (Z.of_nat k - 1) <= 10 ^ (Z.of_nat k - 1))
      by (apply Z.pow_le_mono_l; lia).
    apply Z.log2_le_pow2; lia. }
  pose proof (Z.log2_nonneg s). lia.
Qed.

(** A number of [k] digits starts with a digit that is not zero. *)
Lemma dec_digits_head k s :
  10 ^ Z.of_nat k <= s < 10 ^ Z.of_nat (S k) ->
  exists d, 1 <= d <= 9 /\ d = s / 10 ^ Z.of_nat k
    /\ dec_digits (S k) s = (48 + d) :: dec_digits k (s mod 10 ^ Z.of_nat k).
Proof.
  intro Hs. rewrite Nat2Z.inj_succ, Z.pow_succ_r in Hs by lia.
  assert (Hp : 0 < 10 ^ Z.of_nat k) by (apply Z.pow_pos_nonneg; lia).
  exists (s / 10 ^ Z.of_nat k).
  assert (Hd : 1 <= s / 10 ^ Z.of_nat k <= 9).
  { split; [apply Z.div_le_lower_bound; lia|].
    assert (s / 10 ^ Z.of_nat k < 10) by (apply Z.div_lt_upper_bound; lia). lia. }
  split; [exact Hd|]. split; [reflexivity|].
  change (S k) with (1 + k)%nat. rewrite dec_digits_split by lia.
  cbn [dec_digits app]. now rewrite Z.mod_small by lia.
Qed.
(** ** Reading what [Number::toString] wrote *)

Lemma read_int_dec K v rest :
  (1 <= K)%nat -> 10 ^ (Z.of_nat K - 1) <= v < 10 ^ Z.of_nat K -> stops rest ->
  read_int (dec_digits K v ++ rest) = Some (v, rest).
Proof.
  intros HK Hv Hs. destruct K as [|K]; [lia|].
  replace (Z.of_nat (S K) - 1) with (Z.of_nat K) in Hv by lia.
  destruct (dec_digits_head K v Hv) as (d & Hd & _ & E).
  pose proof (read_digits_dec_stop (S K) v rest 0 0
                ltac:(pose proof (Z.pow_pos_nonneg 10 (Z.of_nat K)); lia) Hs) as R.
  rewrite E in *. cbn [app] in *. unfold read_int.
  replace (is_digit (48 + d)) with true
    by (unfold is_digit, in_range; symmetry; apply andb_true_iff;
        split; apply Z.leb_le; lia).
  replace (48 + d =? 48) with false by (symmetry; apply Z.eqb_neq; lia).
  now rewrite R.
Qed.

Lemma read_fraction_dec ip I w rest :
  (1 <= I)%nat -> 0 <= w < 10 ^ Z.of_nat I -> stops rest ->
  read_fraction ip (46 :: dec_digits I w ++ rest)
  = Some (ip * 10 ^ Z.of_nat I + w, Z.of_nat I, rest).
Proof.
  intros HI Hw Hs. unfold read_fraction. cbn [Z.eqb Pos.eqb].
  rewrite (read_digits_dec_stop I w rest 0 0 Hw Hs).
  cbn [Z.add Z.mul]. replace (Z.of_nat I =? 0) with false
    by (symmetry; apply Z.eqb_neq; lia).
  reflexivity.
Qed.

Lemma read_exponent_written ex :
  ex <> 0 ->
  read_exponent true (101 :: (if ex <? 0 then 45 else 43) :: Z_digits 10 (Z.abs ex))
  = Some (ex, []).
Proof.
  intro H. unfold read_exponent. cbn [Z.eqb Pos.eqb orb].
  destruct (read_digits_Z_digits 10 (Z.abs ex) [] ltac:(lia) ltac:(lia))
    as (d & Hd & R).
  specialize (R 0 0). rewrite app_nil_r in R. cbn [read_digits] in R.
  destruct (ex <? 0) eqn:E; [apply Z.ltb_lt in E | apply Z.ltb_ge in E];
    cbn [read_sign Z.eqb Pos.eqb andb]; rewrite R;
    replace (0 + d =? 0) with false by (symmetry; apply Z.eqb_neq; lia);
    f_equal; f_equal; lia.
Qed.

Lemma stops_point rest : stops (46 :: rest).
Proof. reflexivity. Qed.

Lemma stops_e rest : stops (101 :: rest).
Proof. reflexivity. Qed.

(** An integer written with its zeros is the decimal without them. *)
Lemma decimal_to_float_int neg s j :
  0 < s -> 0 <= j <= 400 ->
  decimal_to_float neg (s * 10 ^ j) 0 = decimal_to_float neg s j.
Proof.
  intros Hs Hj.
  assert (0 < 10 ^ j) by (apply Z.pow_pos_nonneg; lia).
  rewrite !decimal_to_float_value by (try apply Z.mul_pos_pos; lia).
  unfold pow_num, pow_den.
  replace (0 <=? j) with true by (symmetry; apply Z.leb_le; lia).
  cbn [Z.leb Z.compare]. now rewrite Z.pow_0_r, Z.mul_1_r.
Qed.
Lemma parse_number_signed (neg : bool) body ip s2 m cnt s3 ev s4 :
  read_int body = Some (ip, s2) ->
  read_fraction ip s2 = Some (m, cnt, s3) ->
  read_exponent true s3 = Some (ev, s4) ->
  parse_number (if neg then 45 :: body else body)
  = Some (decimal_to_float neg m (ev - cnt), s4).
Proof.
  intros Hi Hf He.
  assert (Hs : read_sign false (if neg then 45 :: body else body) = (neg, body)).
  { destruct neg; [reflexivity|].
    destruct body as [|c r]; [discriminate|].
    unfold read_int in Hi. destruct (is_digit c) eqn:Ed; [|discriminate].
    apply is_digit_range in Ed. unfold read_sign.
    replace (c =? 45) with false by (symmetry; apply Z.eqb_neq; lia).
    reflexivity. }
  unfold parse_number. rewrite Hs, Hi, Hf, He. reflexivity.
Qed.

(** The decimal form that [Number::toString] lays out for the digits [s],
    their number [k] and the exponent [n] reads as the decimal
    [s * 10 ^ (n - k)]. *)
Lemma number_body_parses (neg : bool) s k n :
  1 <= k <= 17 -> 10 ^ (k - 1) <= s < 10 ^ k -> -340 <= n <= 321 ->
  let ds := Z_digits 10 s in
  let body :=
    if (k <=? n) && (n <=? 21) then ds ++ zeros (n - k)
    else if (0 <? n) && (n <=? 21) then
      firstn (Z.to_nat n) ds ++ 46 :: skipn (Z.to_nat n) ds
    else if (-6 <? n) && (n <=? 0) then 48 :: 46 :: zeros (- n) ++ ds
    else
      let ex := n - 1 in
      let mant := if k =? 1 then ds else firstn 1 ds ++ 46 :: skipn 1 ds in
      mant ++ 101 :: (if ex <? 0 then 45 else 43) :: Z_digits 10 (Z.abs ex) in
  parse_number (if neg then 45 :: body else body)
  = Some (decimal_to_float neg s (n - k), []).
Proof.
  intros Hk Hs Hn ds body.
  set (K := Z.to_nat k).
  assert (HK : Z.of_nat K = k) by (unfold K; lia).
  assert (HK1 : (1 <= K)%nat) by lia.
  assert (Hds : ds = dec_digits K s).
  { unfold ds. apply Z_digits_dec; [exact HK1 | now rewrite HK]. }
  assert (Hs0 : 0 < s) by (pose proof (Z.pow_pos_nonneg 10 (k - 1)); lia).
  unfold body. clear body. rewrite Hds. clear Hds ds.
  destruct ((k <=? n) && (n <=? 21)) eqn:F1.
  { (* the digits and zeros *)
    apply andb_true_iff in F1 as [A B]. apply Z.leb_le in A, B.
    set (J := Z.to_nat (n - k)).
    assert (HJ : Z.of_nat J = n - k) by (unfold J; lia).
    assert (HpJ : 0 < 10 ^ Z.of_nat J) by (apply Z.pow_pos_nonneg; lia).
    rewrite <- HJ, zeros_dec_digits.
    assert (E : dec_digits K s ++ dec_digits J 0
                = dec_digits (K + J) (s * 10 ^ Z.of_nat J)).
    { rewrite dec_digits_split by lia.
      now rewrite Z.div_mul, Z.mod_mul by lia. }
    rewrite E. rewrite <- (app_nil_r (dec_digits (K + J) _)).
    erewrite parse_number_signed; cycle 1.
    - apply read_int_dec; [lia | | exact I].
      rewrite Nat2Z.inj_add, HK.
      replace (k + Z.of_nat J - 1) with (k - 1 + Z.of_nat J) by lia.
      rewrite !Z.pow_add_r by lia. nia.
    - reflexivity.
    - reflexivity.
    - f_equal. f_equal. rewrite Z.sub_0_r. apply decimal_to_float_int; lia. }
  destruct ((0 <? n) && (n <=? 21)) eqn:F2.
  { (* a point inside the digits *)
    apply andb_true_iff in F2 as [A B]. apply Z.ltb_lt in A. apply Z.leb_le in B.
    apply andb_false_iff in F1.
    assert (Hkn : n < k).
    { destruct F1 as [F1|F1]; [apply Z.leb_gt in F1 | apply Z.leb_gt in F1]; lia. }
    set (N := Z.to_nat n). set (I := Z.to_nat (k - n)).
    assert (HN : Z.of_nat N = n) by (unfold N; lia).
    assert (HI : Z.of_nat I = k - n) by (unfold I; lia).
    assert (HKs : K = (N + I)%nat) by lia.
    assert (HpI : 0 < 10 ^ Z.of_nat I) by (apply Z.pow_pos_nonneg; lia).
    rewrite HKs, dec_digits_split by lia.
    rewrite firstn_app, skipn_app, dec_digits_length, Nat.sub_diag.
    rewrite firstn_all2 by (rewrite dec_digits_length; lia).
    rewrite skipn_all2 by (rewrite dec_digits_length; lia).
    cbn [firstn skipn app]. rewrite app_nil_r.
    rewrite <- (app_nil_r (dec_digits I _)).
    assert (Hsk : k = n + (k - n)) by lia.
    erewrite parse_number_signed; cycle 1.
    - apply read_int_dec; [lia | | apply stops_point].
      rewrite HN. rewrite Hsk in Hs. rewrite <- HI in Hs.
      replace (n + Z.of_nat I - 1) with (n - 1 + Z.of_nat I) in Hs by lia.
      rewrite !Z.pow_add_r in Hs by lia. split.
      + apply Z.div_le_lower_bound; lia.
      + apply Z.div_lt_upper_bound; lia.
    - apply read_fraction_dec; [lia | apply Z.mod_pos_bound; lia | exact Logic.I].
    - reflexivity.
    - f_equal. f_equal. f_equal; [|rewrite HI; lia].
      pose proof (Z.div_mod s (10 ^ Z.of_nat I) ltac:(lia)). lia. }
  destruct ((-6 <? n) && (n <=? 0)) eqn:F3.
  { (* zeros after the point *)
    apply andb_true_iff in F3 as [A B]. apply Z.ltb_lt in A. apply Z.leb_le in B.
    set (J := Z.to_nat (- n)).
    assert (HJ : Z.of_nat J = - n) by (unfold J; lia).
    assert (HpK : 0 < 10 ^ Z.of_nat K) by (apply Z.pow_pos_nonneg; lia).
    rewrite <- HJ, zeros_dec_digits.
    assert (E : dec_digits J 0 ++ dec_digits K s = dec_digits (J + K) s).
    { rewrite dec_digits_split by lia.
      rewrite Z.div_small, Z.mod_small by (rewrite HK; lia). reflexivity. }
    rewrite E. rewrite <- (app_nil_r (dec_digits (J + K) s)).
    erewrite parse_number_signed; cycle 1.
    - reflexivity.
    - apply read_fraction_dec; [lia | | exact I].
      rewrite Nat2Z.inj_add, Z.pow_add_r, HK by lia.
      assert (1 <= 10 ^ Z.of_nat J) by (pose proof (Z.pow_pos_nonneg 10 (Z.of_nat J)); lia).
      nia.
    - reflexivity.
    - f_equal; f_equal; f_equal; try reflexivity; rewrite Nat2Z.inj_add; lia. }
  (* the exponent form *)
  cbv zeta.
  assert (Hex : n - 1 <> 0).
  { apply andb_false_iff in F1, F2, F3.
    rewrite !Z.leb_gt, !Z.ltb_ge in *. lia. }
  destruct (k =? 1) eqn:Ek.
  - apply Z.eqb_eq in Ek.
    assert (K = 1%nat) by lia. subst K. rewrite H in *.
    erewrite parse_number_signed; cycle 1.
    + apply read_int_dec; [lia | rewrite HK; lia | apply stops_e].
    + reflexivity.
    + apply read_exponent_written. exact Hex.
    + f_equal. f_equal. f_equal. lia.
  - apply Z.eqb_neq in Ek.
    set (I := Z.to_nat (k - 1)).
    assert (HI : Z.of_nat I = k - 1) by (unfold I; lia).
    assert (HKs : K = (1 + I)%nat) by lia.
    assert (HpI : 0 < 10 ^ Z.of_nat I) by (apply Z.pow_pos_nonneg; lia).
    rewrite HKs, dec_digits_split by lia.
    rewrite firstn_app, skipn_app, dec_digits_length, Nat.sub_diag.
    rewrite firstn_all2 by (rewrite dec_digits_length; lia).
    rewrite skipn_all2 by (rewrite dec_digits_length; lia).
    cbn [firstn skipn]. rewrite app_nil_r. cbn [app].
    rewrite <- app_assoc. cbn [app].
    erewrite parse_number_signed; cycle 1.
    + apply read_int_dec; [lia | | apply stops_point].
      change (Z.of_nat 1) with 1. rewrite <- HI in Hs.
      replace k with (1 + Z.of_nat I) in Hs by lia.
      rewrite Z.pow_add_r in Hs by lia. cbn. split.
      * apply Z.div_le_lower_bound; lia.
      * apply Z.div_lt_upper_bound; lia.
    + apply read_fraction_dec; [lia | apply Z.mod_pos_bound; lia | apply stops_e].
    + apply read_exponent_written. exact Hex.
    + f_equal. f_equal. f_equal; [|rewrite HI; lia].
      pose proof (Z.div_mod s (10 ^ Z.of_nat I) ltac:(lia)). lia.
Qed.
(** ** Every finite Number reads back from its decimal form *)

Lemma SF2Prim_finish_neg M E :
  SF2Prim (finish true M E) = (- SF2Prim (finish false M E))%float.
Proof.
  unfold finish. destruct (shr_fexp prec emax M E loc_Exact) as [mrs e2].
  destruct (shr_m mrs); [reflexivity | | reflexivity].
  destruct (e2 <=? emax - prec); reflexivity.
Qed.

Lemma decimal_to_float_neg s e :
  0 < s -> -1000 <= e <= 400 ->
  decimal_to_float true s e = (- decimal_to_float false s e)%float.
Proof.
  intros Hs He. rewrite !decimal_to_float_value by assumption.
  unfold round_ratio. apply SF2Prim_finish_neg.
Qed.

Lemma mantissa_forms m e :
  (if 0 <=? e then Zpos m * 2 ^ e else Zpos m) = Zpos m * pow_num 2 e.
Proof. unfold pow_num. destruct (0 <=? e); [reflexivity | now rewrite Z.mul_1_r]. Qed.

Lemma finite_cases x :
  PrimFloat.is_finite x = true ->
  (exists s, Prim2SF x = S754_zero s) \/ (exists s m e, Prim2SF x = S754_finite s m e).
Proof.
  unfold PrimFloat.is_finite. intro H. apply negb_true_iff, orb_false_iff in H as [Hn Hi].
  unfold Prim2SF. rewrite Hn, Hi.
  destruct (is_zero x); [left; eauto|].
  destruct (Z.frexp x) as [r ex].
  destruct (shr_fexp prec emax (Uint63Axioms.to_Z (normfr_mantissa r)) (ex - prec) loc_Exact)
    as [mrs e'].
  destruct (shr_m mrs); [left | right | left]; eauto.
Qed.

(** The decimal form of a finite Number, parsed as a JSON number, is the
    Number; the form of negative zero is that of zero. *)
Lemma finite_number_reads_back x :
  PrimFloat.is_finite x = true ->
  Prim2SF x <> S754_zero true ->
  parse_number (Number_toString x) = Some (x, []).
Proof.
  intros Hf Hz. destruct (finite_cases x Hf) as [[s Hx]|(neg & m & e & Hx)].
  - destruct s; [congruence|].
    unfold Number_toString. rewrite Hx.
    assert (x = zero) by (apply Prim2SF_inj; rewrite Hx; reflexivity).
    subst x. reflexivity.
  - set (y := abs x).
    assert (Hy : Prim2SF y = S754_finite false m e).
    { unfold y. now rewrite abs_spec, Hx. }
    destruct (shortest_digits_read y m e Hy) as (s & k & n & Hs & Hk & Hr & Hd & Hn).
    cbv zeta in Hs.
    unfold Number_toString. rewrite Hx. cbv zeta.
    rewrite mantissa_forms. fold (pow_den 2 e). fold y. rewrite Hs.
    pose proof (number_body_parses neg s k n Hk Hr Hn) as Hp. cbv zeta in Hp.
    rewrite Hp. f_equal. f_equal.
    assert (Hs0 : 0 < s) by (pose proof (Z.pow_pos_nonneg 10 (k - 1)); lia).
    destruct neg.
    + rewrite decimal_to_float_neg by lia. rewrite Hd.
      apply Prim2SF_inj. now rewrite opp_spec, Hy, Hx.
    + rewrite Hd. apply Prim2SF_inj. now rewrite Hy, Hx.
Qed.
(** ** C3: the JSON round trip *)

Lemma serializable_arr l : serializable (JArr l) <-> Forall serializable l.
Proof.
  induction l as [|e l IH].
  - split; [constructor | exact (fun _ => I)].
  - split.
    + intros [He Hl]. constructor; [exact He | now apply IH].
    + intro H. inversion H; subst. split; [assumption | now apply IH].
Qed.

Lemma serializable_obj o :
  serializable (JObj o)
  <-> own_properties o
      /\ Forall (fun kv => code_units (fst kv) = true /\ serializable (snd kv)) o.
Proof.
  cbn [serializable].
  assert (H : forall o',
    (fix all (o : list (jsstring * JValue)) : Prop :=
       match o with
       | [] => True
       | kv :: r => code_units (fst kv) = true /\ serializable (snd kv) /\ all r
       end) o'
    <-> Forall (fun kv => code_units (fst kv) = true /\ serializable (snd kv)) o').
  { induction o' as [|kv o' IH].
    - split; [constructor | exact (fun _ => I)].
    - split.
      + intros (Hk & Hv & Hr). constructor; [now split | now apply IH].
      + intro H. inversion H as [|? ? [Hk Hv] Hr]; subst.
        repeat split; [assumption | assumption | now apply IH]. }
  now rewrite H.
Qed.

(** What [is_zero] says of a Number. *)
Lemma is_zero_spec n :
  PrimFloat.is_zero n = true <-> exists s, Prim2SF n = S754_zero s.
Proof.
  unfold PrimFloat.is_zero. rewrite eqb_spec.
  change (Prim2SF zero) with (S754_zero false).
  unfold SFeqb, SFcompare. split.
  - destruct (Prim2SF n) as [s|s| |s m e]; try discriminate; eauto.
    + destruct s; discriminate.
    + destruct s; discriminate.
  - intros [s ->]. reflexivity.
Qed.

Lemma plain_zero_reads_back n :
  PrimFloat.is_finite n = true -> number_reads_back (plain_zero n).
Proof.
  intro Hf. unfold plain_zero. destruct (PrimFloat.is_zero n) eqn:Ez.
  - split; reflexivity.
  - split; [exact Hf|]. apply finite_number_reads_back; [exact Hf|].
    intro H. assert (PrimFloat.is_zero n = true) by (apply is_zero_spec; eauto).
    congruence.
Qed.

Lemma plain_zero_toString n : Number_toString (plain_zero n) = Number_toString n.
Proof.
  unfold plain_zero. destruct (PrimFloat.is_zero n) eqn:Ez; [|reflexivity].
  apply is_zero_spec in Ez as [s Hs].
  unfold Number_toString at 2. now rewrite Hs.
Qed.

Lemma plain_zero_finite n :
  PrimFloat.is_finite n = true -> PrimFloat.is_finite (plain_zero n) = true.
Proof. intro H. unfold plain_zero. now destruct (PrimFloat.is_zero n). Qed.

Lemma plain_zero_equal n :
  PrimFloat.is_finite n = true -> PrimFloat.eqb (plain_zero n) n = true.
Proof.
  intro Hf. unfold plain_zero. destruct (PrimFloat.is_zero n) eqn:Ez.
  - apply is_zero_spec in Ez as [s Hs]. rewrite eqb_spec, Hs. reflexivity.
  - destruct (finite_cases n Hf) as [[s Hs]|(s & m & e & Hs)].
    + rewrite eqb_spec, Hs. reflexivity.
    + now apply (eqb_finite_refl n s m e).
Qed.

(** Normalization does not change the text of a value. *)
Lemma serialize_normalize gap :
  forall v indent, serializable v ->
    serialize gap indent (normalize v) = serialize gap indent v.
Proof.
  induction v as [| b | n | s | l IH | o IH] using JValue_induction;
    intros indent Hs; try reflexivity.
  - cbn [normalize serialize]. cbn [serializable] in Hs.
    now rewrite plain_zero_finite, Hs, plain_zero_toString.
  - cbn [normalize serialize]. apply serializable_arr in Hs. f_equal.
    rewrite map_map. apply map_ext_in. intros e He.
    rewrite Forall_forall in IH, Hs. now apply IH; [|apply Hs].
  - cbn [normalize serialize]. apply serializable_obj in Hs as [_ Hs]. f_equal.
    rewrite map_map. apply map_ext_in. intros kv Hkv. cbn [fst snd].
    rewrite Forall_forall in IH, Hs. do 3 f_equal.
    apply IH; [exact Hkv | now apply Hs].
Qed.

Lemma obj_define_map (f : JValue -> JValue) k v o :
  obj_define k (f v) (map (fun kv => (fst kv, f (snd kv))) o)
  = map (fun kv => (fst kv, f (snd kv))) (obj_define k v o).
Proof.
  induction o as [|[k' v'] o IH]; [reflexivity|].
  cbn [map obj_define fst snd].
  destruct (jsstring_eqb k k'); [reflexivity|].
  destruct (array_index k) as [i|]; destruct (array_index k') as [i'|];
    cbn [map fst snd]; try reflexivity; try (now rewrite IH).
  destruct (i <? i'); cbn [map fst snd]; [reflexivity | now rewrite IH].
Qed.

Lemma own_properties_map (f : JValue -> JValue) o :
  own_properties o -> own_properties (map (fun kv => (fst kv, f (snd kv))) o).
Proof.
  unfold own_properties. intro H.
  assert (G : forall l acc,
             fold_left (fun acc kv => obj_define (fst kv) (snd kv) acc)
               (map (fun kv => (fst kv, f (snd kv))) l)
               (map (fun kv => (fst kv, f (snd kv))) acc)
             = map (fun kv => (fst kv, f (snd kv)))
                 (fold_left (fun acc kv => obj_define (fst kv) (snd kv) acc) l acc)).
  { induction l as [|kv l IH]; intro acc; [reflexivity|].
    cbn [map fold_left fst snd]. rewrite obj_define_map. apply IH. }
  specialize (G o []). change (map (fun kv => (fst kv, f (snd kv))) (@nil (jsstring * JValue)))
    with (@nil (jsstring * JValue)) in G. rewrite G. now rewrite H.
Qed.

(** A serializable value, normalized, is denoted exactly by its text. *)
Lemma normalize_exact :
  forall v, serializable v -> exact_value (normalize v).
Proof.
  induction v as [| b | n | s | l IH | o IH] using JValue_induction;
    intro Hs; try exact Hs.
  - cbn [normalize exact_value]. now apply plain_zero_reads_back.
  - cbn [normalize]. apply exact_value_arr. apply serializable_arr in Hs.
    rewrite Forall_forall in *. intros e' He'.
    apply in_map_iff in He' as (e & <- & He). now apply IH; [|apply Hs].
  - cbn [normalize]. apply exact_value_obj. apply serializable_obj in Hs as [Ho Hs].
    split; [now apply own_properties_map|].
    rewrite Forall_forall in *. intros kv' Hkv'.
    apply in_map_iff in Hkv' as (kv & <- & Hkv). cbn [fst snd].
    destruct (Hs kv Hkv) as [Hk Hv]. split; [exact Hk | now apply IH].
Qed.

Lemma jsstring_eqb_refl s : jsstring_eqb s s = true.
Proof. now apply jsstring_eqb_eq. Qed.

(** A serializable value, normalized, is deep-equal to the value. *)
Lemma normalize_deep_equal :
  forall v, serializable v -> deep_equal (normalize v) v = true.
Proof.
  induction v as [| b | n | s | l IH | o IH] using JValue_induction; intro Hs.
  - reflexivity.
  - cbn. now destruct b.
  - cbn [normalize deep_equal]. now apply plain_zero_equal.
  - cbn. apply jsstring_eqb_refl.
  - cbn [normalize deep_equal]. apply serializable_arr in Hs.
    induction l as [|e l IHl]; [reflexivity|].
    inversion IH; subst. inversion Hs; subst.
    cbn [map forall2b]. apply andb_true_iff. split; auto.
  - cbn [normalize deep_equal]. apply serializable_obj in Hs as [_ Hs].
    induction o as [|kv o IHo]; [reflexivity|].
    inversion IH; subst. inversion Hs as [|? ? [Hk Hv] Hr]; subst.
    cbn [map forall2b fst snd]. rewrite jsstring_eqb_refl. cbn [andb].
    apply andb_true_iff. split; auto.
Qed.

(** The text of a serializable value parses to the value, normalized. *)
Lemma JSON_parse_serializable gap v :
  forallb json_ws gap = true -> serializable v ->
  JSON_parse (serialize gap [] v) = Normal (normalize v).
Proof.
  intros Hg Hs. rewrite <- (serialize_normalize gap v [] Hs).
  apply JSON_parse_serialize; [exact Hg | now apply normalize_exact].
Qed.

Lemma minify_of_pretty_serializable v :
  serializable v -> minifyJson (Text (JSON_stringify_2 v)) = JSON_stringify v.
Proof.
  intro Hs. unfold minifyJson, JSON_stringify_2.
  rewrite JSON_parse_serializable by (reflexivity || assumption).
  unfold JSON_stringify. now apply serialize_normalize.
Qed.

(** C3, for the values that are not strings, for JSON text, and for other
    strings. A serializable value [x] that is not a string comes back from
    [minifyJson(prettyPrintJson(x))] as a value deep-equal to it, namely as
    [x] with every negative zero written as zero, and the text is that of
    [minifyJson(x)]. A string [s] is taken as JSON text: when it parses to
    a serializable value [x], the two functions give the same text as
    [minifyJson(s)], which parses to that same normalized [x]; when it does
    not parse, it is returned unchanged. *)
Theorem json_round_trip (x : JValue) :
  serializable x ->
  ((forall s, x <> JStr s) ->
     parses_back x
     /\ JSON_parse (minifyJson (Text (prettyPrintJson (Value x))))
        = Normal (normalize x)
     /\ minifyJson (Text (prettyPrintJson (Value x))) = minifyJson (Value x))
  /\ deep_equal (normalize x) x = true
  /\ (forall s, JSON_parse s = Normal x ->
        JSON_parse (minifyJson (Text (prettyPrintJson (Text s)))) = Normal (normalize x)
        /\ minifyJson (Text (prettyPrintJson (Text s))) = minifyJson (Text s))
  /\ (forall s e, JSON_parse s = Throw e ->
        prettyPrintJson (Text s) = s
        /\ minifyJson (Text (prettyPrintJson (Text s))) = s).
Proof.
  intro Hs.
  assert (Hp : JSON_parse (JSON_stringify x) = Normal (normalize x))
    by (apply JSON_parse_serializable; [reflexivity | exact Hs]).
  pose proof (normalize_deep_equal x Hs) as Hd.
  split; [|split; [exact Hd | split]].
  - intro Hx. unfold parses_back. rewrite (as_argument_value x Hx).
    cbn [prettyPrintJson]. rewrite (minify_of_pretty_serializable x Hs).
    split; [exists (normalize x); now split|]. split; [exact Hp | reflexivity].
  - intros s He. cbn [prettyPrintJson]. rewrite He.
    rewrite (minify_of_pretty_serializable x Hs). split; [exact Hp|].
    cbn [minifyJson]. now rewrite He.
  - intros s e He. cbn [prettyPrintJson]. rewrite He. split; [reflexivity|].
    cbn [minifyJson]. now rewrite He.
Qed.

Lemma sample_numbers_serializable : serializable sample_numbers.
Proof. cbn [serializable sample_numbers fst snd]. repeat split. Qed.

Lemma json_round_trip_witness :
  serializable sample_numbers /\ parses_back sample_numbers
  /\ normalize sample_numbers <> sample_numbers.
Proof.
  split; [exact sample_numbers_serializable|]. split.
  - apply (proj1 (json_round_trip sample_numbers sample_numbers_serializable)).
    discriminate.
  - intro H.
    apply (f_equal (fun v => match v with
                             | JObj ((_, JArr (_ :: JNum z :: _)) :: _) => Prim2SF z
                             | _ => S754_nan
                             end)) in H.
    vm_compute in H. discriminate.
Defined.

(** A string is a serializable value, but the two functions take a string
    for JSON text: the string [abc] comes back as it is, which is not JSON,
    and the string [5] comes back as the number 5. *)
Lemma string_value_does_not_parse_back :
  serializable (JStr (js "abc")) /\ ~ parses_back (JStr (js "abc"))
  /\ serializable (JStr (js "5")) /\ ~ parses_back (JStr (js "5")).
Proof.
  repeat split; try reflexivity; intros (y & Hy & Hd).
  - vm_compute in Hy. discriminate.
  - vm_compute in Hy. injection Hy as <-. discriminate.
Qed.

(** End of the development. *)
